(* ===== verification/_CoqProject ===== *)
-Q . S2P
Prelude.v
GoStrings.v
GoText.v
Json.v
Js.v
Py.v
PyServer.v
Base64.v
TsServer.v
NodeClient.v
TsQueue.v
Platform.v
GoPath.v
Sim.v
Report.v
EnvFile.v
Checks.v
Verdicts.v
Revert.v
Support.v
TeeCalls.v
Policy.v
Governance.v
Registration.v
RegisterNode.v
Resume.v
VerifyDeploy.v
ExtServer.v
Conformance.v
AuditDeploy.v
ExtensionSetup.v
Deploy.v
RunTest.v
ServerLive.v
Startup.v
Shutdown.v
Evm.v
Abi.v
AuctionContract.v
AuctionSafety.v
AuctionProps.v
EnclaveAbi.v
Enclave.v
Secrecy.v
Settlement.v
EnclaveServer.v
TestToken.v
AuctionRun.v
EndToEnd.v
WireRun.v
