(* ===== verification/Prelude.v ===== *)
(** * QuietFill: a verification development

    QuietFill runs sealed-bid block auctions.  A seller escrows a lot in the
    contract [QuietFillAuction] (src/contracts/InstructionSender.sol) and publishes
    a price collar; dealers escrow the worst-case amount and send bids encrypted to
    one TEE, which the contract pinned when the auction was created; the TEE decrypts
    the bids, clears the auction and signs the result; anyone relays the result to
    the contract, which settles.  Around this stand the extension server that runs
    inside the TEE, which the repository has three times (src/go/; src/typescript/,
    whose application is the auction's handlers; src/python/, with the example
    handlers of src/go/), and the Go tools that deploy the contract, register the
    extension and the TEE machine on chain, verify a deployment, and run one auction
    from end to end (src/tools/).

    ** How the parts interact

    - contract to enclave: [submitPrivateBid] and [requestClear] send instructions,
      whose payloads are the messages [handlePrivateBid] and [handleClear] receive.
      They may be lost, repeated or reordered, and the enclave may restart.
    - node to enclave: the node that received an instruction posts it, as JSON with its
      fields in hex, to the extension server at /action, and reads the result from the
      answer's bytes; the server hands one action after another to the handlers.
    - enclave to contract: [handleClear] answers with an encoded [ClearResult]; the
      node signs it; [settleAuction] checks the signature.
    - tools to contracts and node: each tool reads its environment and files, calls
      the FlareTeeManager facets, the proxy and the node, and sends transactions.
    - tools to each other: what deploy-contract and register-extension print is put
      by src/scripts/pre-build.sh into config/extension.env, which the deployment
      checks, and every later tool, read back.

    ** Files

    What the program runs on.  These are the languages and their libraries, and
    interfaces of third-party code; they have no map entries.
    - [Prelude] (this file): Go errors with their chains, results, the state and error
      monad [M], the program's tactics and hint databases, lemmas on lists and options.
    - [GoStrings], [GoText], [GoPath]: strings, strconv, hex, bufio, UTF-8, [%q],
      path/filepath, EqualFold.  [Json]: JSON in both directions, on bytes, over a
      [dialect]: Go's encoding/json is one, JavaScript's and Python's are others.
    - [Js]: strings, values, Buffer and JSON of JavaScript.  [Py]: the same for Python,
      with the exceptions by their classes.  [Base64]: as Go writes it and Node reads
      it.
    - [Platform]: one class per third-party interface (operating system, go-ethereum,
      each facet of the diamond, tee-node types, the generated bindings).  [Sim]: a
      concrete world that instantiates them, used by examples and witnesses only.
    - [Evm]: reverting transactions, checked arithmetic, ABI words, and calls to other
      contracts as [reply] trees that may call back before they return.  [Abi]: the
      ABI's encoding of parameters, which go-ethereum, viem and the contract share.

    The files [Js], [Py] and [Json] describe what the code relies on of those
    libraries.  A library function too large to describe, or whose result does not
    matter to the claims, is a method of a class ([Js.JsEngine], [Py.PyEngine]).

    The deployment tools, src/tools/.
    - [Report]: pkg/validate/report.go.  [EnvFile]: the two readers of extension.env
      of pkg/validate/checks.go, and the lines of pre-build.sh that write it.
      [Checks]: all check registrars of pkg/validate.  [Verdicts]: what each adds, as
      tables.  [VerifyDeploy]: cmd/verify-deploy.
    - [Support]: pkg/support (addresses, deployer key, facet bindings, [CheckTx]) and
      pkg/configs.  [Revert]: pkg/fccutils/revert.go and diag.go.  [TeeCalls]:
      pkg/fccutils/tee_calls.go, common.go and encoding.go.  [Policy]: policy_consistency.go.
      [Governance]: governance.go and cmd/set-governance.
    - [Registration]: the transactions of pkg/fccutils/registration.go.
      [RegisterNode]: its resumable state machine, over the interface
      [RegistrationOps] that [Registration] implements, and cmd/register-tee.
      [Resume]: the state machine on a world that records every completed step.
    - [ExtensionSetup]: pkg/fccutils/extension.go, cmd/register-extension,
      cmd/allow-tee-version.  [AuditDeploy]: cmd/audit-deploy, cmd/query-tee.
      [Deploy]: pkg/utils/instructions.go and cmd/deploy-contract.
      [RunTest]: cmd/run-test.  [Startup]: cmd/start-proxy, and of src/go
      internal/config, pkg/server, cmd/docker and cmd/start-tee.

    The extension server in Go, src/go/.
    - [ExtServer]: internal/extension and pkg/types: the handlers as functions, and
      the server as a step relation [step] in which requests interleave one memory
      access at a time around the RWMutex.  [ServerLive]: progress and termination of
      that relation.  [Shutdown]: cmd/main.go and how the other mains stop: the
      server, its connections, the signal and the goroutine that shuts it down, as a
      step relation.

    The extension server in TypeScript and in Python.
    - [TsServer]: src/typescript/src/base/ as a function of a request, handlers as a
      parameter.  [TsQueue]: its promise queue as a step relation, with the exceptions
      and the waits of the code.  [NodeClient]: its client of the node's decryption.
    - [PyServer]: src/python/base/ and src/python/app/.  [Conformance]: [PyServer] and
      [ExtServer] given the same requests.

    The auction.
    - [AuctionContract]: src/contracts/InstructionSender.sol, whole: [Storage], one
      definition per function with its guards in the code's order, and the dispatch
      of a call, [execute].  [AuctionSafety]: one inversion lemma per function,
      and the transition system [effect] that the calls refine.  [AuctionProps]: what
      the contract guarantees from every state it can reach ([auction_reachable]).
    - [EnclaveAbi]: src/typescript/src/app/abi.ts, over viem's generic codec.  [Enclave]:
      src/typescript/src/app/handlers.ts: [handlePrivateBid], [handleClear].
      [Secrecy]: two runs of the enclave that differ in sealed bids only.
      [EnclaveServer]: the handlers under the server of [TsServer], requests in and
      answers out as bytes.
    - [Settlement]: contract and enclave together: [market_step] moves the contract,
      the outside, or delivers any message the contract ever sent, or restarts the
      enclave.
    - [TestToken]: src/contracts/test/TestToken.sol, and the world [world2] of two such
      tokens.  [AuctionRun]: concrete codecs and one auction executed from deployment
      to withdrawal, from which the auction's witnesses are taken.  [WireRun]: the same
      auction with the enclave behind its HTTP server.
    - [EndToEnd]: [RunTest] and [Enclave]: what one packs the other reads, and back.

    ** Conventions

    Go and JavaScript strings and bytes are [string]; a w-bit integer is a [Z] whose
    wrap-around or whose revert on overflow is written where the code has it.  A Go
    function with effects is an [M W _]: a function of a world [W] of which nothing is
    known but what a class says.  [Err] is an error result, and also the end of a
    command by log.Fatal, whose text is the error.  A Solidity function is a [T _]: it
    returns and changes the state, or reverts and changes nothing.

    ** What the theorems show

    Auction.  [auction_solvent]: no call leaves the contract locked or ill-formed, and
    it covers every lot and escrow it owes, whatever the called contracts do before
    they return, calls back included.  [auction_lifecycle]: states only move forward,
    inside their windows and with fixed terms; an escrow changes by deposit, by
    winning, or by refund to its owner.  [settlement_authorised]: a settlement has a
    signature of the pinned TEE over the whole result and pays out exactly the lot and
    the winner's escrow.  [funds_recoverable]: after the settlement deadline the lot and
    each escrow can be taken out.  [private_bid_outcome], [clear_outcome]: both handlers
    on every branch; the winner is the best eligible bid.  [cleared_result_settles]:
    whatever was delivered to the enclave, in any order and with any restarts, what it
    answers to a clear request is a result the contract accepts, if the node signs it
    in time and the winning nonce is a uint64.  [one_bid_voids_auction]: what a greater
    nonce, which the enclave does not refuse, does to the process and the auction.
    [run_test_accepts]: the bid of run-test is taken, and its checks of the receipt and
    of the result pass.

    Auction over HTTP.  [enclave_over_http]: what the node reads from the answer to an
    instruction is what the handler answered, and an instruction of another type
    changes nothing.  [wire_settles]: [cleared_result_settles] for what the server sends.
    [decrypt_outcome]: the request to the node for a plaintext, and its failures.
    [bids_sealed]: before a result is released no answer depends on the price of a
    sealed bid, and afterwards only through the released results.

    Server.  [action_contract]: status, result and effect of every action.  [server_linearizable]: every
    interleaving has the effect of a sequence of handler calls.  [numbers_sequential]:
    no counter value is lost or given twice.  [server_live]: no deadlock, and every
    schedule without new arrivals ends.  [main_shutdown], [late_failures]: what ends
    the processes of src/go/, with which code, what happens to open connections, and
    the failures nobody reads.

    The other two servers.  [ts_serialized]: the actions of src/typescript/ run one at
    a time, in the order in which they were queued.  [ts_live]: each gets its turn.
    [ts_crash]: the requests that throw, each of which ends the process.  [servers_conform]: the servers of
    src/go/ and src/python/ give the same answers to the same requests, when the texts
    are printable and have none of < > &; [data_bytes_differ]: for a name with one of
    those, the data, which the node signs, differs.  [py_unanswered]: the requests to
    which src/python/ gives no answer.

    Registration.  [resumed_registration_once]: a step recorded in the state file is
    not submitted again, whatever fails and however often the tool is resumed.
    [registration_steps_sound], [SetTeeGovernance_guarded], [policy_gate],
    [SetupExtension_grants]: what a success has done, in which transactions, and what
    is refused.  [ap_ignores_saved_attestation]: a command string for which the saved
    attestation id is not used.

    Validation.  [checks_made]: every check of every step, with its verdict.
    [registration_step_gate]: what the register step establishes of the chain, and
    that it does not look at a sender that is missing or malformed.
    [extension_env_roundtrip], [env_readers_agree], [deploy_to_extension_env]: the file
    from its writers to its readers.

    Tools.  [CheckTx_outcome]: how failures are explained.  [sendTxRetry_outcome]:
    what the retries of a transaction come to, and that the first success is the end.
    [deadline_bounds]: the machine arithmetic of run-test.  [run_test_passed]: the one
    auction that a passed run-test has taken through all its steps.

    Properties of less weight are plain theorems next to them.  Inputs:
    [Support.ParseAddresses_fields], [Support.DefaultSupport_wiring],
    [Startup.owner_is_deployer], [AuditDeploy.version_bytes32],
    [Governance.governance_env], [Deploy.resolveTokens_outcome].  Diagnoses:
    [Revert.revert_diagnosis], [Revert.MatchCustomError_selects],
    [Revert.diag_names_error], [AuditDeploy.diagnoses_agree].  Calls to the node:
    [TeeCalls.GetCodeHashAndPlatform_sound], [TeeCalls.ActionResult_polls],
    [RunTest.pollResult_bounded].  Messages: [EnclaveAbi.messages_roundtrip].  Reports:
    [Report.Fprint_complete], [Report.Summary_counts], [Checks.r7_duplicates],
    [Checks.chainless_steps_failures], [VerifyDeploy.chainless_exit_codes],
    [VerifyDeploy.finish_filtered].

    ** Hypotheses

    Third-party code is a parameter; what is assumed of it is a class, or a named
    hypothesis of the theorem, and each has an instance or a witness.
    - [AuctionSafety.TokenLaws]: tokens without transfer fees, of whose balances only
      the holder disposes; whatever the token calls back, it keeps them.
      [TokenPays]: they pay what the holder has.  Instances: [TestToken.world2_laws],
      [TestToken.world2_pays].
    - [EnclaveAbi.ViemLaws]: viem's decoder inverts the ABI's encoding, but does not
      check that a number fits a type smaller than a word; its encoder writes what the
      ABI says, and does write values of their types; its hash has 32 bytes.
      [EnclaveAbi.ViemRangeChecks]: the encoder throws for a number that does not fit.
      Instances in [AuctionRun], for a concrete [demo_viem].
    - [EndToEnd.GoAbiLaws]: go-ethereum's Pack and Unpack follow the ABI.  Instance
      there.
    - [EnclaveServer.ViemInputLaws]: viem reads back the hex text the node writes.
      Instance in [WireRun].
    - [Conformance.TeeServerLaws], [PyNumbers]: tee-node pads names to bytes32, prints
      hashes in hex and results with the members the servers' documents give, and
      Python prints an integer in decimal.  Instances in [Conformance].
    - [Js.JsEngine], [NodeClient.NodeEngine], [Py.PyEngine] and [PyServer.EthAbi] have no
      laws: nothing is assumed of them.
    - [Resume.FileLaws], [HashTextLaws], [OpsLaws]: the state file keeps what is written
      and the chain does not touch it.  Instances over [Sim.world].
    - [ExtensionSetup.SetupLaws]: a submitted transaction is recorded and a mined one has
      its documented effect.  Instance [view_laws].
    - [Checks.chain_reads], [Checks.registry_view], [Verdicts.answers_from]: a chain, and
      a network, that answer from a fixed state while the checks run.

    ** Bounds and fuel

    Where Rocq needs a measure, it is one the code's own input gives, and it is never
    a reason to stop: digits of a number take the number's bit length as fuel
    ([digits_fuel_undigits]); rune loops and trimming the byte length, since each round
    consumes a byte ([trim_left_fuel_done]); the JSON scanner the byte length, and the
    nesting limit 10000 is Go's own.  Loops the code bounds keep the code's bound:
    fifteen polls in [ActionResult], twenty rounds in [pollResult], the attempts
    argument of [sendTxRetry]; the search for an extension id runs from the first id to
    the chain's counter.  In [AuctionContract.execute] the depth is the gas that the
    nesting of calls back into the contract needs: at depth 0 the call ends with
    [OutOfGas] and is reverted like any other; the theorems hold at every depth, and
    those that say a call succeeds hold at depth 1.

    ** Not modelled

    The HTTP transport below requests and answers (net/http, node's http, http.server:
    connections, except as [Shutdown] needs them, timeouts, malformed requests), the
    text of log lines (except what a tool prints as its output; that writing one can
    throw is modelled), and the generated contract bindings, which the build makes.
    The client node.py of the node's decrypt endpoint, which no handler of src/python/
    calls.  The stack that the recursive JSON parsers of JavaScript and Python
    exhaust on deeply nested bodies.  The ports, the signals and the exit of the main
    programs of src/typescript/ and src/python/.
    The web interface, containers, tests, and shell scripts other than the lines of
    pre-build.sh named above: a browser client and process orchestration.  Of the EVM:
    gas beyond the call depth, and ether, which the contract only forwards with its
    instructions.  The display data of the test token (name, symbol, decimals).
    Encryption is a parameter: [bids_sealed] is about what the enclave answers, not
    about what its ciphertexts hide. *)

From Stdlib Require Export Ascii.
From stdpp Require Export base tactics option list numbers strings gmap.
From stdpp Require Import options.

(** ** Errors and results *)

(** The payload an RPC error carries behind [ErrorData()] (an [interface{}]). *)
Inductive error_data :=
  | DataNil
  | DataString (s : string)
  | DataBytes (b : string)
  | DataOther.

(** Go's [error] values, as far as the program looks inside them: the text of
    [Error()], the sentinel identity tested by [errors.Is], the [ErrorData()]
    payload tested by [errors.As], and the [%w] chain both of them follow.
    [github.com/pkg/errors.Errorf] formats its arguments to text, so it builds
    an [ErrMsg]. *)
Inductive error :=
  | ErrMsg (msg : string)
  | ErrSentinel (id : string) (msg : string)
  | ErrNotExist (msg : string)
  | ErrRPC (msg : string) (data : error_data)
  | ErrWrap (msg : string) (inner : error).

(** [err.Error()] *)
Definition err_text (e : error) : string :=
  match e with
  | ErrMsg m | ErrSentinel _ m | ErrNotExist m | ErrRPC m _ | ErrWrap m _ => m
  end.

(** [errors.Is(err, sentinel)] for a sentinel named [id]. *)
Fixpoint errors_is (id : string) (e : error) : bool :=
  match e with
  | ErrSentinel id' _ => bool_decide (id = id')
  | ErrWrap _ e' => errors_is id e'
  | _ => false
  end.

(** [errors.As(err, &de)] for the [ErrorData() interface{}] interface: the
    payload of the first error of the chain that implements it. *)
Fixpoint errors_as_data (e : error) : option error_data :=
  match e with
  | ErrRPC _ d => Some d
  | ErrWrap _ e' => errors_as_data e'
  | _ => None
  end.

(** [os.IsNotExist(err)] does not unwrap. *)
Definition is_not_exist (e : error) : bool :=
  match e with ErrNotExist _ => true | _ => false end.

(** The [(value, error)] pairs the code returns: callers look at the value only
    when the error is nil. *)
Inductive result (A : Type) :=
  | Ok (a : A)
  | Err (e : error).
Arguments Ok {A} a.
Arguments Err {A} e.

Definition is_ok {A} (r : result A) : bool :=
  match r with Ok _ => true | Err _ => false end.

#[export] Instance result_inhabited {A} : Inhabited (result A) :=
  populate (Err (ErrMsg "")).

Definition result_option {A} (r : result A) : option A :=
  match r with Ok a => Some a | Err _ => None end.

(** ** Effects *)

(** A computation that reads and changes the world [W] (environment, files,
    network and chain).  [W] is a parameter everywhere: what a file needs of it
    is stated as a class of operations. *)
Definition M (W A : Type) : Type := W → A * W.

Definition ret {W A} (a : A) : M W A := λ w, (a, w).

Definition bind {W A B} (m : M W A) (k : A → M W B) : M W B :=
  λ w, let '(a, w') := m w in k a w'.

(** Read something of the world without changing it. *)
Definition reads {W A} (f : W → A) : M W A := λ w, (f w, w).

#[export] Instance M_ret W : MRet (M W) := λ A a, ret a.
#[export] Instance M_bind W : MBind (M W) := λ A B k m, bind m k.

Declare Scope go_scope.
Delimit Scope go_scope with go.

(** [x, err := m; if err != nil { return err }; k] *)
Notation "x '←?' m ; k" :=
  (bind m (λ r, match r with Err e => ret (Err e) | Ok x => k end))
  (at level 20, m at level 100, k at level 200, only parsing) : go_scope.
Notation "' x '←?' m ; k" :=
  (bind m (λ r, match r with Err e => ret (Err e) | Ok x => k end))
  (at level 20, x pattern, m at level 100, k at level 200, only parsing) : go_scope.
(** [x, err := m; if err != nil { return h }; k] *)
Notation "x '←?' m '|' e '=>' h ; k" :=
  (bind m (λ r, match r with Err e => h | Ok x => k end))
  (at level 20, m at level 100, e name, h at level 100, k at level 200,
   only parsing) : go_scope.
Notation "' x '←?' m '|' e '=>' h ; k" :=
  (bind m (λ r, match r with Err e => h | Ok x => k end))
  (at level 20, x pattern, m at level 100, e name, h at level 100, k at level 200,
   only parsing) : go_scope.

Open Scope go_scope.

Lemma mbind_bind {W A B} (m : M W A) (k : A → M W B) : m ≫= k = bind m k.
Proof. done. Qed.

Lemma bind_ret_l {W A B} (a : A) (k : A → M W B) w : bind (ret a) k w = k a w.
Proof. done. Qed.

Lemma bind_reads {W A B} (f : W → A) (k : A → M W B) w : bind (reads f) k w = k (f w) w.
Proof. done. Qed.

Lemma bind_run {W A B} (m : M W A) (k : A → M W B) w a w' :
  m w = (a, w') → bind m k w = k a w'.
Proof. unfold bind. by intros ->. Qed.

Lemma bind_assoc {W A B C} (m : M W A) (f : A → M W B) (g : B → M W C) w :
  bind (bind m f) g w = bind m (λ a, bind (f a) g) w.
Proof. unfold bind. by destruct (m w). Qed.

(** A computation that checks every error returns a value only when each step
    did. *)
Lemma bind_ok_inv {W A B} (m : M W (result A)) (k : A → M W (result B)) w b w' :
  bind m (λ r, match r with Err e => ret (Err e) | Ok x => k x end) w = (Ok b, w') →
  ∃ a w1, m w = (Ok a, w1) ∧ k a w1 = (Ok b, w').
Proof.
  unfold bind. destruct (m w) as [[a|e] w1]; [|discriminate]. intros H. by exists a, w1.
Qed.
Lemma bind_ok {W A B} (m : M W (result A)) (k : A → M W (result B)) w a w1 :
  m w = (Ok a, w1) →
  bind m (λ r, match r with Err e => ret (Err e) | Ok x => k x end) w = k a w1.
Proof. unfold bind. by intros ->. Qed.
Lemma bind_err {W A B} (m : M W (result A)) (k : A → M W (result B)) w e w1 :
  m w = (Err e, w1) →
  bind m (λ r, match r with Err e => ret (Err e) | Ok x => k x end) w = (Err e, w1).
Proof. unfold bind. by intros ->. Qed.
Lemma ret_inv {W A} (a b : A) (w w' : W) : ret a w = (b, w') → a = b ∧ w' = w.
Proof. cbv [ret]. by intros [= -> ->]. Qed.

Create HintDb go.
Create Rewrite HintDb go.
(** Well-formedness of check results. *)
Create HintDb checks.
#[export] Hint Rewrite @bind_ret_l @bind_reads : go.

(** ** Machine integers *)

Definition two64 : Z := 2 ^ 64.
Definition wrap64 (z : Z) : Z := z mod 2 ^ 64.
(** The signed reading of the low 64 bits: [int] on a 64-bit platform. *)
Definition swrap64 (z : Z) : Z := (z + 2 ^ 63) mod 2 ^ 64 - 2 ^ 63.

Lemma wrap64_small z : (0 ≤ z < 2 ^ 64)%Z → wrap64 z = z.
Proof. apply Z.mod_small. Qed.

Lemma wrap64_range z : (0 ≤ wrap64 z < 2 ^ 64)%Z.
Proof. by apply Z.mod_pos_bound. Qed.

Lemma swrap64_small z : (- 2 ^ 63 ≤ z < 2 ^ 63)%Z → swrap64 z = z.
Proof. intros ?. unfold swrap64. rewrite Z.mod_small; lia. Qed.

Lemma swrap64_range z : (- 2 ^ 63 ≤ swrap64 z < 2 ^ 63)%Z.
Proof. unfold swrap64. pose proof (Z.mod_pos_bound (z + 2 ^ 63) (2 ^ 64)). lia. Qed.

Lemma swrap64_add a b : swrap64 (swrap64 a + b) = swrap64 (a + b).
Proof.
  unfold swrap64. replace ((a + 2 ^ 63) mod 2 ^ 64 - 2 ^ 63 + b + 2 ^ 63)%Z
    with ((a + 2 ^ 63) mod 2 ^ 64 + b)%Z by lia.
  rewrite Z.add_mod_idemp_l by lia. do 2 f_equal. lia.
Qed.

(** ** Sums over a mapping *)

Section total.
Context `{Countable K} {A : Type} (f : A → Z).
Definition total (m : gmap K A) : Z := map_fold (λ _ x acc, f x + acc)%Z 0%Z m.
Lemma total_empty : total ∅ = 0%Z.
Proof. apply map_fold_empty. Qed.
Lemma total_insert_new m k x : m !! k = None → total (<[k := x]> m) = (f x + total m)%Z.
Proof. intros Hk. unfold total. rewrite map_fold_insert_L; [done|intros; lia|done]. Qed.
Lemma total_delete m k x : m !! k = Some x → total m = (f x + total (delete k m))%Z.
Proof. intros Hk. unfold total. rewrite (map_fold_delete_L _ _ k x); [done|intros; lia|done]. Qed.
(** Writing an entry moves the sum by the difference. *)
Lemma total_insert m k x :
  total (<[k := x]> m) = (total m - from_option f 0 (m !! k) + f x)%Z.
Proof.
  destruct (m !! k) as [y|] eqn:Hk; cbn.
  - rewrite (total_delete m k y Hk), <- insert_delete_eq, total_insert_new by apply lookup_delete_eq. lia.
  - rewrite total_insert_new by done. lia.
Qed.
Lemma total_nonneg m : (∀ k x, m !! k = Some x → 0 ≤ f x)%Z → (0 ≤ total m)%Z.
Proof.
  induction m as [|k x m Hk IH] using map_ind; intros Hf; [by rewrite total_empty|].
  rewrite total_insert_new by done. assert (0 ≤ f x)%Z by (apply (Hf k); by rewrite lookup_insert_eq).
  assert (0 ≤ total m)%Z; [|lia]. apply IH. intros k' x' Hx. apply (Hf k'). rewrite lookup_insert_ne; [done|].
  intros ->. congruence.
Qed.
Lemma total_at_least m k x : (∀ k x, m !! k = Some x → 0 ≤ f x)%Z → m !! k = Some x → (f x ≤ total m)%Z.
Proof.
  intros Hf Hk. rewrite (total_delete m k x Hk). assert (0 ≤ total (delete k m))%Z; [|lia].
  apply total_nonneg. intros k' x' [_ Hx]%lookup_delete_Some. by apply (Hf k').
Qed.
End total.

(** ** Tactics *)

(** Case analysis on the scrutinee of a [match] or [if] of a hypothesis or the
    goal, closing what computes. *)
Ltac go_case :=
  match goal with
  | |- context [match ?x with _ => _ end] => destruct x eqn:?
  | H : context [match ?x with _ => _ end] |- _ => destruct x eqn:?
  end.

Ltac go_step := first [progress simplify_eq/= | go_case].
Ltac go_crush := repeat go_step; try done; try lia; eauto.

(** Splits a successful run, checked step by step, into its steps. *)
Ltac ok_steps H :=
  repeat (apply bind_ok_inv in H as (? & ? & ? & H));
  repeat match goal with
         | E : ret _ _ = (_, _) |- _ => apply ret_inv in E as [? ->]
         end.

(** A closed decidable goal. *)
Ltac by_decide := apply (bool_decide_eq_true_1 _); vm_compute; reflexivity.
