(* ===== verification/GoStrings.v ===== *)
(** * Go strings: the parts of [strings], [strconv], [encoding/hex] and [bufio]
    the program uses

    A Go string or byte slice is a sequence of bytes, here a [string] (whose
    characters are bytes).  The functions below are executable models of the
    standard-library functions the program calls, with the lemmas the
    components share.  They carry no map entry of their own: they are the
    language's library, not the repository's code. *)

From S2P Require Import Prelude.
From stdpp Require Import options.

(** ** Bytes *)

Definition bytes (s : string) : list ascii := String.list_ascii_of_string s.
Definition str (l : list ascii) : string := String.string_of_list_ascii l.

Lemma bytes_str l : bytes (str l) = l.
Proof. apply String.list_ascii_of_string_of_list_ascii. Qed.
Lemma str_bytes s : str (bytes s) = s.
Proof. apply String.string_of_list_ascii_of_string. Qed.
Lemma bytes_app s t : bytes (s +:+ t) = bytes s ++ bytes t.
Proof. induction s as [|c s IH]; simpl; [done|]. unfold bytes in *. by rewrite <- IH. Qed.
Lemma str_app l k : str (l ++ k) = str l +:+ str k.
Proof. induction l as [|c l IH]; simpl; [done|]. unfold str in *. by rewrite IH. Qed.

#[export] Instance bytes_inj : Inj (=) (=) bytes.
Proof. intros s t H. by rewrite <- (str_bytes s), H, str_bytes. Qed.
#[export] Instance str_inj : Inj (=) (=) str.
Proof. intros l k H. by rewrite <- (bytes_str l), H, bytes_str. Qed.

#[export] Hint Rewrite bytes_str str_bytes bytes_app str_app : go.

(** [len(s)] *)
Definition len (s : string) : nat := String.length s.

Lemma len_bytes s : len s = length (bytes s).
Proof. induction s; simpl; unfold len in *; [done|]. by f_equal/=. Qed.
Lemma str_app_nil_r s : s +:+ "" = s.
Proof. by rewrite <- (str_bytes (s +:+ "")), bytes_app, app_nil_r, str_bytes. Qed.
Lemma str_app_assoc a b c : a +:+ (b +:+ c) = (a +:+ b) +:+ c.
Proof. rewrite <- (str_bytes ((a +:+ b) +:+ c)), !bytes_app, <- app_assoc, <- !bytes_app. by rewrite str_bytes. Qed.
Lemma len_app s t : len (s +:+ t) = len s + len t.
Proof. by rewrite !len_bytes, bytes_app, length_app. Qed.

(** [s[:n]] and [s[n:]], for [n] within range. *)
Definition str_take (n : nat) (s : string) : string := str (take n (bytes s)).
Definition str_drop (n : nat) (s : string) : string := str (drop n (bytes s)).

(** A byte by its value. *)
Definition byte (n : nat) : ascii := ascii_of_nat n.
Definition quote : string := str [byte 34].

(** ** [strings.HasPrefix], [TrimPrefix], [Contains], [Split], [Join] *)

Fixpoint strip_prefix (p l : list ascii) : option (list ascii) :=
  match p, l with
  | [], _ => Some l
  | a :: p, b :: l => if decide (a = b) then strip_prefix p l else None
  | _ :: _, [] => None
  end.

Lemma strip_prefix_app p l : strip_prefix p (p ++ l) = Some l.
Proof. induction p as [|a p IH]; simpl; [done|]. by rewrite decide_True. Qed.
Lemma strip_prefix_Some p l k : strip_prefix p l = Some k → l = p ++ k.
Proof.
  revert l. induction p as [|a p IH]; intros [|b l]; simpl; try by intros [= ->].
  case_decide; [subst|done]. intros ?%IH. by subst.
Qed.

Definition has_prefix (s p : string) : bool :=
  bool_decide (is_Some (strip_prefix (bytes p) (bytes s))).
Definition trim_prefix (s p : string) : string :=
  match strip_prefix (bytes p) (bytes s) with Some r => str r | None => s end.

Fixpoint contains_b (l sub : list ascii) : bool :=
  bool_decide (is_Some (strip_prefix sub l)) ||
  match l with [] => false | _ :: l => contains_b l sub end.
(** [strings.Contains(s, sub)] *)
Definition contains (s sub : string) : bool := contains_b (bytes s) (bytes sub).

Lemma has_prefix_true s p : has_prefix s p = true ↔ ∃ r, s = p +:+ r.
Proof.
  unfold has_prefix. rewrite bool_decide_eq_true. split.
  - intros [r Hr%strip_prefix_Some]. exists (str r).
    apply (inj bytes). by rewrite Hr, bytes_app, bytes_str.
  - intros [r ->]. rewrite bytes_app, strip_prefix_app. eauto.
Qed.

Lemma trim_prefix_app p r : trim_prefix (p +:+ r) p = r.
Proof. unfold trim_prefix. by rewrite bytes_app, strip_prefix_app, str_bytes. Qed.
Lemma trim_prefix_no s p : has_prefix s p = false → trim_prefix s p = s.
Proof.
  unfold has_prefix, trim_prefix. rewrite bool_decide_eq_false.
  destruct (strip_prefix _ _); [|done]. intros []. eauto.
Qed.

Lemma contains_b_spec l sub :
  contains_b l sub = true ↔ ∃ a b, l = a ++ sub ++ b.
Proof.
  induction l as [|c l IH]; simpl.
  - rewrite orb_false_r, bool_decide_eq_true. split.
    + intros [k Hk%strip_prefix_Some]. by exists [], k.
    + intros (a & b & H). symmetry in H. apply app_eq_nil in H as [-> H].
      rewrite <- H, strip_prefix_app. eauto.
  - rewrite orb_true_iff, bool_decide_eq_true, IH. split.
    + intros [[k Hk%strip_prefix_Some]|(a & b & ->)].
      * by exists [], k.
      * by exists (c :: a), b.
    + intros ([|x a] & b & H); simplify_eq/=.
      * left. rewrite H, strip_prefix_app. eauto.
      * right. eauto.
Qed.

Lemma contains_true s sub : contains s sub = true ↔ ∃ a b, s = a +:+ sub +:+ b.
Proof.
  unfold contains. rewrite contains_b_spec. split.
  - intros (a & b & H). exists (str a), (str b). apply (inj bytes).
    by rewrite H, !bytes_app, !bytes_str.
  - intros (a & b & ->). exists (bytes a), (bytes b). by rewrite !bytes_app.
Qed.

Lemma contains_app_l s t u : contains t u = true → contains (s +:+ t) u = true.
Proof.
  rewrite !contains_true. intros (a & b & ->). exists (s +:+ a), b.
  apply (inj bytes). rewrite !bytes_app. by rewrite <- !app_assoc.
Qed.
Lemma contains_app_r s t u : contains s u = true → contains (s +:+ t) u = true.
Proof.
  rewrite !contains_true. intros (a & b & ->). exists a, (b +:+ t).
  apply (inj bytes). rewrite !bytes_app. by rewrite <- !app_assoc.
Qed.
Lemma contains_refl s : contains s s = true.
Proof. apply contains_true. exists "", "". apply (inj bytes). by rewrite !bytes_app, app_nil_r. Qed.
Lemma contains_trans s t u : contains s t = true → contains t u = true → contains s u = true.
Proof.
  rewrite !contains_true. intros (a & b & ->) (c & d & ->). exists (a +:+ c), (d +:+ b).
  apply (inj bytes). rewrite !bytes_app. by rewrite <- !app_assoc.
Qed.
#[export] Hint Resolve contains_app_l contains_app_r contains_refl : go.

(** Splits at the first byte equal to [c]. *)
Fixpoint cut (c : ascii) (l : list ascii) : option (list ascii * list ascii) :=
  match l with
  | [] => None
  | x :: l => if decide (x = c) then Some ([], l)
              else '(a, b) ← cut c l; Some (x :: a, b)
  end.

Lemma cut_app c a b : c ∉ a → cut c (a ++ c :: b) = Some (a, b).
Proof.
  induction a as [|x a IH]; simpl; intros Hc.
  - by rewrite decide_True.
  - rewrite decide_False by set_solver. rewrite IH by set_solver. done.
Qed.
Lemma cut_None c a : c ∉ a → cut c a = None.
Proof.
  induction a as [|x a IH]; simpl; intros Hc; [done|].
  rewrite decide_False by set_solver. rewrite IH by set_solver. done.
Qed.

(** [strings.SplitN(s, c, 2)] for a one-byte separator. *)
Definition split_n2 (s : string) (c : ascii) : list string :=
  match cut c (bytes s) with
  | Some (a, b) => [str a; str b]
  | None => [s]
  end.

Fixpoint split_b (c : ascii) (l : list ascii) : list (list ascii) :=
  match l with
  | [] => [[]]
  | x :: l =>
    if decide (x = c) then [] :: split_b c l
    else match split_b c l with
         | p :: ps => (x :: p) :: ps
         | [] => [[x]]
         end
  end.
(** [strings.Split(s, c)] for a one-byte separator: never empty. *)
Definition split (s : string) (c : ascii) : list string := str <$> split_b c (bytes s).

(** [strings.Join(l, sep)] *)
Fixpoint join (l : list string) (sep : string) : string :=
  match l with
  | [] => ""
  | [x] => x
  | x :: l => x +:+ sep +:+ join l sep
  end.

Lemma split_b_nonempty c l : split_b c l ≠ [].
Proof. induction l; simpl; [done|]. case_decide; [done|]. by destruct (split_b c l). Qed.

Lemma split_b_none c l : c ∉ l → split_b c l = [l].
Proof.
  induction l as [|x l IH]; cbn [split_b]; intros Hl; [done|].
  rewrite decide_False by set_solver. by rewrite IH by set_solver.
Qed.
Lemma split_b_app c a b : c ∉ a → split_b c (a ++ c :: b) = a :: split_b c b.
Proof.
  induction a as [|x a IH]; cbn [split_b app]; intros Ha; [by rewrite decide_True|].
  rewrite decide_False by set_solver. by rewrite IH by set_solver.
Qed.
(** [key=value] splits at its only equals sign. *)
Lemma split_kv k v c : c ∉ bytes k → c ∉ bytes v → split (k +:+ str [c] +:+ v) c = [k; v].
Proof.
  intros Hk Hv. unfold split. rewrite !bytes_app, bytes_str. cbn [app].
  rewrite split_b_app, split_b_none by done. cbn. by rewrite !str_bytes.
Qed.

(** ** [strings.TrimSpace]

    The UTF-8 encodings of the runes [unicode.IsSpace] accepts.  An encoding of
    a space rune is trimmed exactly when its bytes are a prefix (suffix) of what
    is left: no other valid encoding starts (ends) with the same bytes. *)
Definition space_runes : list (list ascii) :=
  ((λ n, [byte n]) <$> [9; 10; 11; 12; 13; 32])
  ++ [[byte 0xC2; byte 0x85]; [byte 0xC2; byte 0xA0]; [byte 0xE1; byte 0x9A; byte 0x80]]
  ++ ((λ n, [byte 0xE2; byte 0x80; byte (0x80 + n)]) <$> seq 0 11)
  ++ [[byte 0xE2; byte 0x80; byte 0xA8]; [byte 0xE2; byte 0x80; byte 0xA9];
      [byte 0xE2; byte 0x80; byte 0xAF]; [byte 0xE2; byte 0x81; byte 0x9F];
      [byte 0xE3; byte 0x80; byte 0x80]].

Fixpoint strip_any (ps : list (list ascii)) (l : list ascii) : option (list ascii) :=
  match ps with
  | [] => None
  | p :: ps => match strip_prefix p l with Some r => Some r | None => strip_any ps l end
  end.

Fixpoint trim_left_fuel (ps : list (list ascii)) (fuel : nat) (l : list ascii) : list ascii :=
  match fuel with
  | O => l
  | S f => match strip_any ps l with Some r => trim_left_fuel ps f r | None => l end
  end.
Definition trim_left (ps : list (list ascii)) (l : list ascii) : list ascii :=
  trim_left_fuel ps (length l) l.

Definition trim_space_b (l : list ascii) : list ascii :=
  reverse (trim_left (reverse <$> space_runes) (reverse (trim_left space_runes l))).
Definition trim_space (s : string) : string := str (trim_space_b (bytes s)).

Lemma strip_any_length ps l r :
  Forall (λ p, p ≠ []) ps → strip_any ps l = Some r → length r < length l.
Proof.
  induction 1 as [|p ps Hp _ IH]; simpl; [done|].
  destruct (strip_prefix p l) as [k|] eqn:E; [|done].
  intros [= ->]. apply strip_prefix_Some in E as ->. rewrite length_app.
  destruct p; simpl in *; [done|lia].
Qed.

Lemma space_runes_nonempty : Forall (λ p, p ≠ []) space_runes.
Proof. repeat constructor; done. Qed.
Lemma space_runes_rev_nonempty : Forall (λ p, p ≠ []) (reverse <$> space_runes).
Proof. repeat constructor; done. Qed.

(** Trimming stops only when nothing more can be stripped: the fuel is enough. *)
Lemma trim_left_fuel_done ps fuel l :
  Forall (λ p, p ≠ []) ps → length l ≤ fuel → strip_any ps (trim_left_fuel ps fuel l) = None.
Proof.
  intros Hps. revert l. induction fuel as [|f IH]; intros l Hl; simpl.
  - destruct l; simpl in *; [|lia].
    destruct (strip_any ps []) as [r|] eqn:E; [|done].
    apply strip_any_length in E; [simpl in E; lia|done].
  - destruct (strip_any ps l) as [r|] eqn:E; [|done].
    apply IH. apply strip_any_length in E; [lia|done].
Qed.

Lemma trim_left_id ps l : strip_any ps l = None → trim_left ps l = l.
Proof. unfold trim_left. intros H. destruct l; simpl; [done|]. by rewrite H. Qed.

(** What [TrimSpace] leaves alone. *)
Definition trimmed_b (l : list ascii) : Prop :=
  strip_any space_runes l = None ∧ strip_any (reverse <$> space_runes) (reverse l) = None.
Definition trimmed (s : string) : Prop := trimmed_b (bytes s).

#[export] Instance trimmed_dec s : Decision (trimmed s).
Proof. unfold trimmed, trimmed_b. apply _. Defined.

Lemma trim_space_trimmed s : trimmed s → trim_space s = s.
Proof.
  intros [H1 H2]. unfold trim_space, trim_space_b.
  rewrite (trim_left_id _ _ H1), (trim_left_id _ _ H2), reverse_involutive.
  apply str_bytes.
Qed.

#[export] Hint Resolve space_runes_nonempty space_runes_rev_nonempty : go.

(** Printable ASCII, the characters of addresses, identifiers and numbers. *)
Definition plain (c : ascii) : bool := (33 <=? nat_of_ascii c) && (nat_of_ascii c <=? 126).

Lemma strip_any_plain c l : plain c = true → strip_any space_runes (c :: l) = None.
Proof. destruct c as [[] [] [] [] [] [] [] []]; simpl; done. Qed.
Lemma strip_any_rev_plain c l :
  plain c = true → strip_any (reverse <$> space_runes) (c :: l) = None.
Proof. destruct c as [[] [] [] [] [] [] [] []]; simpl; done. Qed.

Lemma trimmed_plain l : forallb plain l = true → trimmed_b l.
Proof.
  intros Hl. split.
  - destruct l as [|c l]; [reflexivity|]. simpl in Hl. apply strip_any_plain.
    by destruct (plain c).
  - assert (forallb plain (reverse l) = true) as Hr.
    { apply forallb_forall. intros x Hx. rewrite <- list_elem_of_In, elem_of_reverse, list_elem_of_In in Hx.
      exact (proj1 (forallb_forall plain l) Hl x Hx). }
    destruct (reverse l) as [|c k]; [reflexivity|]. simpl in Hr. apply strip_any_rev_plain.
    by destruct (plain c).
Qed.

(** ** Positional notation: [fmt]'s %d and %x, [strconv.ParseUint] and [Atoi],
    [big.Int.SetString] *)

Fixpoint digits_fuel (fuel : nat) (b n : N) (acc : list N) : list N :=
  match fuel with
  | O => acc
  | S f => let acc' := (n mod b)%N :: acc in
           if (n <? b)%N then acc' else digits_fuel f b (n / b)%N acc'
  end.
(** The digits of [n], most significant first; [0] has the digit [0].  A number
    has no more digits in any base than bits, so the fuel is enough. *)
Definition digits (b n : N) : list N := digits_fuel (S (N.size_nat n)) b n [].
Definition undigits (b : N) (ds : list N) : N := foldl (λ a d, a * b + d)%N 0%N ds.

Definition undigits_from (b a : N) (ds : list N) : N := foldl (λ a d, a * b + d)%N a ds.

Lemma size_nat_div b n : (2 ≤ b)%N → (b ≤ n)%N → (N.size_nat (n / b) < N.size_nat n)%nat.
Proof.
  intros Hb Hn.
  assert (n / b ≠ 0)%N as Hd.
  { intros H%N.div_small_iff; lia. }
  assert (∀ k, k ≠ 0%N → N.of_nat (N.size_nat k) = (N.log2 k + 1)%N) as Hs.
  { intros k Hk. rewrite N.add_1_r, <- N.size_log2 by done.
    destruct k as [|p]; [done|]. simpl. clear.
    induction p; simpl; lia. }
  enough (N.of_nat (N.size_nat (n / b)) < N.of_nat (N.size_nat n))%N by lia.
  rewrite !Hs by lia.
  assert (N.log2 (n / b) < N.log2 n)%N; [|lia].
  apply N.log2_lt_pow2; [by apply N.neq_0_lt_0|].
  pose proof (N.log2_spec n ltac:(lia)) as [_ H2].
  rewrite N.pow_succ_r' in H2.
  apply N.Div0.div_lt_upper_bound.
  pose proof (N.mul_le_mono_r 2 b (2 ^ N.log2 n)%N Hb). lia.
Qed.

Lemma digits_fuel_undigits fuel b n acc :
  (2 ≤ b)%N → (N.size_nat n < fuel)%nat →
  undigits b (digits_fuel fuel b n acc) = undigits_from b n acc.
Proof.
  intros Hb. revert n acc. induction fuel as [|f IH]; intros n acc Hf; [lia|].
  simpl. destruct (N.ltb_spec n b).
  - unfold undigits, undigits_from. simpl. by rewrite N.mod_small.
  - rewrite IH.
    + unfold undigits_from. simpl. f_equal.
      pose proof (N.div_mod n b ltac:(lia)). lia.
    + pose proof (size_nat_div b n Hb ltac:(lia)). lia.
Qed.

Lemma undigits_digits b n : (2 ≤ b)%N → undigits b (digits b n) = n.
Proof. intros. unfold digits. rewrite digits_fuel_undigits; [done|done|lia]. Qed.

Lemma digits_fuel_lt fuel b n acc :
  (2 ≤ b)%N → Forall (λ d, d < b)%N acc → Forall (λ d, d < b)%N (digits_fuel fuel b n acc).
Proof.
  intros Hb. revert n acc. induction fuel as [|f IH]; intros n acc Hacc; simpl; [done|].
  assert (n mod b < b)%N by (apply N.mod_upper_bound; lia).
  destruct (N.ltb_spec n b); [by constructor|]. apply IH. by constructor.
Qed.
Lemma digits_lt b n : (2 ≤ b)%N → Forall (λ d, d < b)%N (digits b n).
Proof. intros. apply digits_fuel_lt; [done|constructor]. Qed.

(** ["0123456789abcdef"[d]] *)
Definition digit_char (d : N) : ascii :=
  ascii_of_N (if (d <? 10)%N then 48 + d else 87 + d)%N.
(** The value of a hexadecimal digit, of either case. *)
Definition digit_val (c : ascii) : option N :=
  let n := N_of_ascii c in
  if ((48 <=? n) && (n <=? 57))%N then Some (n - 48)%N
  else if ((97 <=? n) && (n <=? 102))%N then Some (n - 87)%N
  else if ((65 <=? n) && (n <=? 70))%N then Some (n - 55)%N
  else None.
Definition is_hex (c : ascii) : bool := bool_decide (is_Some (digit_val c)).

Lemma digit_val_char d : (d < 16)%N → digit_val (digit_char d) = Some d.
Proof.
  intros Hd. assert (∃ n : nat, d = N.of_nat n ∧ n < 16) as (n & -> & Hn).
  { exists (N.to_nat d). rewrite N2Nat.id. split; [done|lia]. }
  do 16 (destruct n as [|n]; [reflexivity|]). lia.
Qed.

Lemma digit_char_plain d : (d < 16)%N → plain (digit_char d) = true.
Proof.
  intros Hd. assert (∃ n : nat, d = N.of_nat n ∧ n < 16) as (n & -> & Hn).
  { exists (N.to_nat d). rewrite N2Nat.id. split; [done|lia]. }
  do 16 (destruct n as [|n]; [reflexivity|]). lia.
Qed.

(** The value of a digit string in base [b] ([big.Int.SetString(s, b)] and the
    digit loop of [strconv.ParseUint]): all characters must be digits below the
    base, and there must be one. *)
Definition parse_digits (b : N) (l : list ascii) : option N :=
  match l with
  | [] => None
  | _ => ds ← mapM (λ c, d ← digit_val c; if (d <? b)%N then Some d else None) l;
         Some (undigits b ds)
  end.

Definition fmt_base (b n : N) : string := str (digit_char <$> digits b n).
(** [%d] of a non-negative number, [%x] of a number. *)
Definition fmt_d (n : N) : string := fmt_base 10 n.
Definition fmt_x (n : N) : string := fmt_base 16 n.

(** [%d] / [strconv.Itoa] of an integer. *)
Definition itoa (z : Z) : string :=
  if (z <? 0)%Z then "-" +:+ fmt_d (Z.to_N (- z)) else fmt_d (Z.to_N z).

(** [%0wx]: padded with zeros on the left to at least [w] characters. *)
Definition fmt_0x (w : nat) (n : N) : string :=
  let s := digit_char <$> digits 16 n in
  str (replicate (w - length s) "0"%char ++ s).

Lemma mapM_digit_char b ds :
  (b ≤ 16)%N → Forall (λ d, d < b)%N ds →
  mapM (λ c, d ← digit_val c; if (d <? b)%N then Some d else None) (digit_char <$> ds) = Some ds.
Proof.
  intros Hb. induction 1 as [|d ds Hd _ IH]; [done|]. cbn [fmap list_fmap mapM].
  rewrite digit_val_char by lia. cbn [mbind option_bind].
  destruct (N.ltb_spec d b); [|lia]. cbn [mbind option_bind].
  change (list_fmap _ _ digit_char ds) with (digit_char <$> ds). rewrite IH. done.
Qed.

Lemma digits_nonempty b n : digits b n ≠ [].
Proof.
  unfold digits. cbn [digits_fuel].
  assert (∀ f k acc, acc ≠ [] → digits_fuel f b k acc ≠ []) as H.
  { induction f as [|f IH]; intros k acc Hacc; simpl; [done|]. destruct (_ <? _)%N; [done|auto]. }
  destruct (_ <? _)%N; [done|]. by apply H.
Qed.

Lemma parse_digits_chars b ds :
  (b ≤ 16)%N → ds ≠ [] → Forall (λ d, d < b)%N ds →
  parse_digits b (digit_char <$> ds) = Some (undigits b ds).
Proof.
  intros Hb Hne Hds. unfold parse_digits.
  rewrite (mapM_digit_char b ds Hb Hds). by destruct ds.
Qed.

(** Printing a number and reading it back. *)
Lemma parse_fmt_base b n : (2 ≤ b ≤ 16)%N → parse_digits b (bytes (fmt_base b n)) = Some n.
Proof.
  intros Hb. unfold fmt_base. rewrite bytes_str, parse_digits_chars.
  - rewrite undigits_digits; [done|lia].
  - lia.
  - apply digits_nonempty.
  - apply digits_lt. lia.
Qed.

Lemma undigits_zeros b k ds : undigits b (replicate k 0%N ++ ds) = undigits b ds.
Proof. unfold undigits. rewrite foldl_app. f_equal. induction k; simpl; [done|]. exact IHk. Qed.

Lemma digits_fuel_length fuel b n k acc :
  (2 ≤ b)%N → (n < b ^ N.of_nat k)%N → (0 < k)%nat →
  length (digits_fuel fuel b n acc) ≤ k + length acc.
Proof.
  intros Hb. revert n k acc. induction fuel as [|f IH]; intros n k acc Hn Hk; simpl; [lia|].
  destruct (N.ltb_spec n b); simpl; [lia|].
  destruct k as [|k]; [lia|].
  destruct (decide (k = 0)) as [->|].
  { simpl in Hn. lia. }
  etrans; [apply (IH _ k)|simpl; lia]; [|lia].
  rewrite Nat2N.inj_succ, N.pow_succ_r' in Hn. by apply N.Div0.div_lt_upper_bound.
Qed.

Lemma digits_length b n k :
  (2 ≤ b)%N → (n < b ^ N.of_nat k)%N → (0 < k)%nat → length (digits b n) ≤ k.
Proof. intros. unfold digits. etrans; [by apply digits_fuel_length|simpl; lia]. Qed.

(** [%0wx] of a number that fits in [w] digits has exactly [w] of them. *)
Lemma fmt_0x_length w n :
  (n < 16 ^ N.of_nat w)%N → (0 < w)%nat → len (fmt_0x w n) = w.
Proof.
  intros Hn Hw. rewrite len_bytes. unfold fmt_0x.
  rewrite bytes_str, length_app, length_replicate.
  assert (length (digit_char <$> digits 16 n) ≤ w).
  { rewrite length_fmap. by apply digits_length. }
  lia.
Qed.

Lemma fmt_0x_chars w n :
  bytes (fmt_0x w n) =
  digit_char <$> (replicate (w - length (digit_char <$> digits 16 n)) 0%N ++ digits 16 n).
Proof.
  unfold fmt_0x. by rewrite bytes_str, fmap_app, fmap_replicate.
Qed.

Lemma parse_fmt_0x w n : parse_digits 16 (bytes (fmt_0x w n)) = Some n.
Proof.
  rewrite fmt_0x_chars, parse_digits_chars.
  - rewrite undigits_zeros, undigits_digits; [done|lia].
  - lia.
  - intros [_ H]%app_eq_nil. by apply (digits_nonempty 16 n).
  - apply Forall_app; split; [|by apply digits_lt].
    apply Forall_replicate. lia.
Qed.

(** [strconv.ParseUint(s, 10, 64)]: [None] stands for a syntax or range error. *)
Definition parse_uint (s : string) : option N :=
  n ← parse_digits 10 (bytes s); if (n <? 2 ^ 64)%N then Some n else None.

(** [strconv.Atoi(s)] on a 64-bit platform. *)
Definition atoi (s : string) : option Z :=
  let '(neg, l) :=
    match bytes s with
    | "-"%char :: l => (true, l)
    | "+"%char :: l => (false, l)
    | l => (false, l)
    end in
  n ← parse_digits 10 l;
  let z := if neg : bool then (- Z.of_N n)%Z else Z.of_N n in
  if ((- 2 ^ 63 <=? z) && (z <? 2 ^ 63))%Z then Some z else None.

Lemma parse_uint_range s n : parse_uint s = Some n → (n < 2 ^ 64)%N.
Proof.
  unfold parse_uint. destruct (parse_digits _ _) as [k|]; simpl; [|done].
  destruct (N.ltb_spec k (2 ^ 64)); [|done]. by intros [= ->].
Qed.

Lemma parse_uint_fmt n : (n < 2 ^ 64)%N → parse_uint (fmt_d n) = Some n.
Proof.
  intros Hn. unfold parse_uint, fmt_d. rewrite parse_fmt_base by lia. simpl.
  by destruct (N.ltb_spec n (2 ^ 64)); [|lia].
Qed.

(** ** [encoding/hex] *)

Definition hex_byte (c : ascii) : list ascii :=
  [digit_char (N_of_ascii c / 16); digit_char (N_of_ascii c mod 16)].
(** [hex.EncodeToString] and the [%x] of a byte slice. *)
Definition hex_encode (s : string) : string := str (bytes s ≫= hex_byte).

Fixpoint hex_decode_b (l : list ascii) : option (list ascii) :=
  match l with
  | [] => Some []
  | [_] => None
  | a :: b :: l =>
    x ← digit_val a; y ← digit_val b; r ← hex_decode_b l;
    Some (ascii_of_N (x * 16 + y) :: r)
  end.
(** [hex.DecodeString]: [None] for an odd length or a byte that is no digit. *)
Definition hex_decode (s : string) : option string := str <$> hex_decode_b (bytes s).

Lemma digit_val_lt c d : digit_val c = Some d → (d < 16)%N.
Proof.
  unfold digit_val. intros H. repeat case_match; simplify_eq;
    repeat match goal with
           | H : (_ && _) = true |- _ => apply andb_prop in H as [?%N.leb_le ?%N.leb_le]
           end; lia.
Qed.

Lemma hex_decode_encode_b l : hex_decode_b (l ≫= hex_byte) = Some l.
Proof.
  induction l as [|c l IH]; [done|]. cbn [mbind list_bind hex_byte app hex_decode_b].
  assert (N_of_ascii c < 256)%N by apply N_ascii_bounded.
  rewrite !digit_val_char by first [apply N.mod_upper_bound; lia | apply N.Div0.div_lt_upper_bound; lia].
  cbn [mbind option_bind]. change (list_bind _ _ hex_byte l) with (l ≫= hex_byte).
  rewrite IH. cbn [mbind option_bind].
  rewrite (N.mul_comm _ 16), <- N.div_mod', ascii_N_embedding. done.
Qed.

Lemma hex_decode_encode s : hex_decode (hex_encode s) = Some s.
Proof.
  unfold hex_decode, hex_encode. rewrite bytes_str, hex_decode_encode_b. simpl.
  by rewrite str_bytes.
Qed.

Lemma hex_decode_b_length l r : hex_decode_b l = Some r → length l = 2 * length r.
Proof.
  remember (length l) as n eqn:Hn. revert l r Hn.
  induction (lt_wf n) as [n _ IHn]. intros [|a [|b l]] r ->; simpl; [by intros [= <-]|done|].
  destruct (digit_val a); [|done]. destruct (digit_val b); [|done]. simpl.
  destruct (hex_decode_b l) as [r'|] eqn:E; [|done]. simpl. intros [= <-].
  rewrite (IHn (length l) ltac:(simpl; lia) l r' eq_refl E). simpl. lia.
Qed.

(** ** [bufio.Scanner] with [ScanLines] *)

Definition newline : ascii := byte 10.
Definition carriage_return : ascii := byte 13.

(** The lines of the text, without their newline.  A final line without a
    newline counts, an empty rest after the last newline does not. *)
Fixpoint raw_lines (l : list ascii) : list (list ascii) :=
  match l with
  | [] => []
  | c :: l =>
    if decide (c = newline) then [] :: raw_lines l
    else match raw_lines l with
         | [] => [[c]]
         | x :: xs => (c :: x) :: xs
         end
  end.

(** [bufio.MaxScanTokenSize]: when the 64 KiB buffer is full and holds no
    newline, [Scan] returns false and the rest of the file is not read. *)
Definition max_token : N := 65536.
Fixpoint scannable (ls : list (list ascii)) : list (list ascii) :=
  match ls with
  | [] => []
  | l :: ls => if (N.of_nat (length l) <? max_token)%N then l :: scannable ls else []
  end.

Definition drop_cr (l : list ascii) : list ascii :=
  match reverse l with
  | c :: r => if decide (c = carriage_return) then reverse r else l
  | [] => l
  end.

(** The successive [scanner.Text()] of a file with this content. *)
Definition scan_lines (content : string) : list string :=
  (str ∘ drop_cr) <$> scannable (raw_lines (bytes content)).

Lemma raw_lines_app l k :
  newline ∉ l → raw_lines (l ++ newline :: k) = l :: raw_lines k.
Proof.
  induction l as [|c l IH]; cbn [raw_lines app]; intros Hl.
  - by rewrite decide_True.
  - rewrite decide_False by set_solver. rewrite IH by set_solver. done.
Qed.
