(* ===== verification/GoText.v ===== *)
(** * Go text: UTF-8, [%q], and the output side of [encoding/json]

    Executable models of the standard-library text encodings the program
    prints with.  [unicode.IsPrint] above Latin-1 is a table of the Unicode
    database; it is a parameter ([Unicode]). *)

From S2P Require Import Prelude GoStrings.
From stdpp Require Import options.

(** ** UTF-8 *)

Definition rune_error : N := 0xFFFD.

Definition cont (c : ascii) : bool := (0x80 <=? N_of_ascii c)%N && (N_of_ascii c <=? 0xBF)%N.
Definition in_range (lo hi : N) (c : ascii) : bool :=
  (lo <=? N_of_ascii c)%N && (N_of_ascii c <=? hi)%N.
Definition low6 (c : ascii) : N := (N_of_ascii c mod 64)%N.

(** [utf8.DecodeRune]: the rune and its width; [(rune_error, 1)] for an invalid
    encoding, [(rune_error, 0)] for the empty string. *)
Definition decode_rune (l : list ascii) : N * nat :=
  match l with
  | [] => (rune_error, 0)
  | a :: l =>
    let n := N_of_ascii a in
    if (n <? 0x80)%N then (n, 1)
    else match l with
    | b :: l2 =>
      if in_range 0xC2 0xDF a && cont b then (((n mod 32) * 64 + low6 b)%N, 2)
      else match l2 with
      | c :: l3 =>
        let lo := if (n =? 0xE0)%N then 0xA0%N else 0x80%N in
        let hi := if (n =? 0xED)%N then 0x9F%N else 0xBF%N in
        if in_range 0xE0 0xEF a && in_range lo hi b && cont c
        then (((n mod 16) * 4096 + low6 b * 64 + low6 c)%N, 3)
        else match l3 with
        | d :: _ =>
          let lo := if (n =? 0xF0)%N then 0x90%N else 0x80%N in
          let hi := if (n =? 0xF4)%N then 0x8F%N else 0xBF%N in
          if in_range 0xF0 0xF4 a && in_range lo hi b && cont c && cont d
          then (((n mod 8) * 262144 + low6 b * 4096 + low6 c * 64 + low6 d)%N, 4)
          else (rune_error, 1)
        | [] => (rune_error, 1)
        end
      | [] => (rune_error, 1)
      end
    | [] => (rune_error, 1)
    end
  end.

Lemma decode_rune_width l : l ≠ [] → 1 ≤ snd (decode_rune l) ≤ 4.
Proof. destruct l as [|a l]; [done|]. intros _. unfold decode_rune. repeat case_match; simpl; lia. Qed.

(** Folds over the runes of a byte string: [f] gets the bytes of each rune, the
    rune, and whether the encoding was valid. *)
Fixpoint concat_runes_fuel (fuel : nat) (f : list ascii → N → bool → list ascii)
    (l : list ascii) : list ascii :=
  match fuel with
  | O => []
  | S k =>
    match l with
    | [] => []
    | _ => let '(r, w) := decode_rune l in
           f (take w l) r (negb ((r =? rune_error)%N && (w =? 1))) ++
           concat_runes_fuel k f (drop w l)
    end
  end.
(** Every rune has at least one byte, so the length is enough fuel. *)
Definition concat_runes (f : list ascii → N → bool → list ascii) (l : list ascii) : list ascii :=
  concat_runes_fuel (length l) f l.

(** Lower-case hexadecimal, at least [w] digits. *)
Definition hex_digits (w : nat) (n : N) : list ascii := bytes (fmt_0x w n).
Definition lit (s : string) : list ascii := bytes s.

(** ** [%q] ([strconv.Quote]) *)

Class Unicode := { is_print_table : N → bool }.

Section quote.
Context `{!Unicode}.

(** [strconv.IsPrint] *)
Definition is_print (r : N) : bool :=
  if (r <=? 0xFF)%N then
    ((0x20 <=? r) && (r <? 0x7F))%N || ((0xA1 <=? r)%N && negb (r =? 0xAD)%N)
  else is_print_table r.

Definition quote_rune (raw : list ascii) (r : N) (valid : bool) : list ascii :=
  if negb valid then
    match raw with c :: _ => lit "\x" ++ hex_digits 2 (N_of_ascii c) | [] => [] end
  else if (r =? 34)%N || (r =? 92)%N then byte 92 :: raw
  else if is_print r then raw
  else match r with
       | 7 => lit "\a" | 8 => lit "\b" | 12 => lit "\f" | 10 => lit "\n"
       | 13 => lit "\r" | 9 => lit "\t" | 11 => lit "\v"
       | _ => if (r <? 32)%N || (r =? 127)%N then lit "\x" ++ hex_digits 2 r
              else if (r <? 0x10000)%N then lit "\u" ++ hex_digits 4 r
              else lit "\U" ++ hex_digits 8 r
       end%N.

Definition fmt_q (s : string) : string :=
  quote +:+ str (concat_runes quote_rune (bytes s)) +:+ quote.
End quote.

(** ** [encoding/json]: what [Marshal] and [Encoder.Encode] write *)

Definition json_rune (raw : list ascii) (r : N) (valid : bool) : list ascii :=
  if negb valid then lit "\ufffd"
  else if (r =? 34)%N || (r =? 92)%N then byte 92 :: raw
  else match r with
       | 8 => lit "\b" | 12 => lit "\f" | 10 => lit "\n" | 13 => lit "\r" | 9 => lit "\t"
       | 0x3C | 0x3E | 0x26 | 0x2028 | 0x2029 => lit "\u" ++ hex_digits 4 r
       | _ => if (r <? 32)%N then lit "\u" ++ hex_digits 4 r else raw
       end%N.
Definition json_string (s : string) : string :=
  quote +:+ str (concat_runes json_rune (bytes s)) +:+ quote.

(** A JSON value; a number is its literal. *)
Inductive json :=
  | JNull
  | JBool (b : bool)
  | JNum (raw : string)
  | JStr (s : string)
  | JArr (l : list json)
  | JObj (l : list (string * json)).

(** An integer. *)
Definition JInt (z : Z) : json := JNum (itoa z).

(** [json.Marshal] *)
Fixpoint json_compact (j : json) : string :=
  match j with
  | JNull => "null"
  | JBool b => if b then "true" else "false"
  | JNum raw => raw
  | JStr s => json_string s
  | JArr l => "[" +:+ join (json_compact <$> l) "," +:+ "]"
  | JObj l => "{" +:+ join ((λ '(k, v), json_string k +:+ ":" +:+ json_compact v) <$> l) "," +:+ "}"
  end.

Definition nl (depth : nat) : string := str (newline :: replicate (2 * depth) " "%char).

(** [Encoder] with [SetIndent("", "  ")], without the final newline. *)
Fixpoint json_indent (d : nat) (j : json) : string :=
  match j with
  | JNull => "null"
  | JBool b => if b then "true" else "false"
  | JNum raw => raw
  | JStr s => json_string s
  | JArr [] => "[]"
  | JArr l =>
    "[" +:+ nl (S d) +:+ join (json_indent (S d) <$> l) ("," +:+ nl (S d)) +:+ nl d +:+ "]"
  | JObj [] => "{}"
  | JObj l =>
    "{" +:+ nl (S d) +:+
    join ((λ '(k, v), json_string k +:+ ": " +:+ json_indent (S d) v) <$> l) ("," +:+ nl (S d)) +:+
    nl d +:+ "}"
  end.

Example json_string_escapes :
  json_string (str [byte 60; byte 34; byte 10; byte 255]) =
  quote +:+ "\u003c\" +:+ quote +:+ "\n\ufffd" +:+ quote.
Proof. vm_compute. reflexivity. Qed.
