(* ===== verification/Json.v ===== *)
(** * The input side of [encoding/json]

    The scanner and the struct decoder, on the bytes of the input: white space,
    literals, numbers by their grammar, strings with escapes, surrogate pairs
    and invalid UTF-8, the nesting limit, and the field matching of
    [Unmarshal] (exact name first, then case-insensitive).  The wording of the
    decoder's errors is a parameter.  Like [GoStrings], this models the standard
    library and has no map entries. *)

From S2P Require Import Prelude GoStrings GoText.
From stdpp Require Import options.

(** ** Runes *)

Definition ascii_N (n : N) : ascii := ascii_of_N n.

(** [utf8.AppendRune] of a valid rune. *)
Definition encode_rune (r : N) : list ascii :=
  if (r <? 0x80)%N then [ascii_N r]
  else if (r <? 0x800)%N then [ascii_N (0xC0 + r / 64); ascii_N (0x80 + r mod 64)]%N
  else if (r <? 0x10000)%N then
    [ascii_N (0xE0 + r / 4096); ascii_N (0x80 + (r / 64) mod 64); ascii_N (0x80 + r mod 64)]%N
  else [ascii_N (0xF0 + r / 262144); ascii_N (0x80 + (r / 4096) mod 64);
        ascii_N (0x80 + (r / 64) mod 64); ascii_N (0x80 + r mod 64)]%N.

Definition is_surrogate (r : N) : bool := (0xD800 <=? r)%N && (r <? 0xE000)%N.
(** [utf16.DecodeRune] *)
Definition decode_surrogates (r1 r2 : N) : option N :=
  if (0xD800 <=? r1)%N && (r1 <? 0xDC00)%N && (0xDC00 <=? r2)%N && (r2 <? 0xE000)%N
  then Some ((r1 - 0xD800) * 1024 + (r2 - 0xDC00) + 0x10000)%N else None.

(** Four hexadecimal digits. *)
Definition hex4 (l : list ascii) : option (N * list ascii) :=
  match l with
  | a :: b :: c :: d :: l => n ← parse_digits 16 [a; b; c; d]; Some (n, l)
  | _ => None
  end.

(** ** Strings *)

Definition simple_escape (c : ascii) : option ascii :=
  match c with
  | "b"%char => Some (byte 8) | "f"%char => Some (byte 12) | "n"%char => Some (byte 10)
  | "r"%char => Some (byte 13) | "t"%char => Some (byte 9)
  | "\"%char | "/"%char => Some c
  | _ => if decide (c = byte 34) then Some c else None
  end.

(** What the JSON readers of the program's three languages do differently: what a
    lone surrogate escape stands for, the next character of a literal and what
    follows it, how deep values may nest, further words that are numbers, which
    number literals are too long, and what becomes of an object's members. *)
Record dialect := mkDialect {
  lone_surrogate : N → N;
  next_char : list ascii → list ascii * list ascii;
  may_nest : N → bool;
  number_words : list string;
  number_fits : list ascii → bool;
  object_of : list (string * json) → list (string * json);
}.

Definition maxNestingDepth : N := 10000.
(** encoding/json: invalid UTF-8 and lone surrogates become U+FFFD; the members of
    an object are all kept. *)
Definition go_dialect : dialect := {|
  lone_surrogate r := rune_error;
  next_char l :=
    let '(r, w) := decode_rune l in
    (if (r =? rune_error)%N && (w =? 1) then encode_rune rune_error else take w l, drop w l);
  may_nest depth := (depth <? maxNestingDepth)%N;
  number_words := [];
  number_fits raw := true;
  object_of kvs := kvs;
|}.

Section parser.
Variable D : dialect.

(** The rest of a string literal after its opening quote: its value and what
    follows the closing quote. *)
Fixpoint parse_string (fuel : nat) (l : list ascii) : option (list ascii * list ascii) :=
  match fuel with
  | O => None
  | S k =>
    match l with
    | [] => None
    | c :: l' =>
      if decide (c = byte 34) then Some ([], l')
      else if decide (c = byte 92) then
        match l' with
        | "u"%char :: l2 =>
          '(r, l3) ← hex4 l2;
          let lone := '(s, rest) ← parse_string k l3;
            Some (encode_rune (if is_surrogate r then lone_surrogate D r else r) ++ s, rest) in
          if is_surrogate r then
            match l3 with
            | "\"%char :: "u"%char :: l4 =>
              match hex4 l4 with
              | Some (r2, l5) =>
                match decode_surrogates r r2 with
                | Some d => '(s, rest) ← parse_string k l5; Some (encode_rune d ++ s, rest)
                | None => lone
                end
              | None => lone
              end
            | _ => lone
            end
          else lone
        | e :: l2 =>
          c' ← simple_escape e; '(s, rest) ← parse_string k l2; Some (c' :: s, rest)
        | [] => None
        end
      else if (N_of_ascii c <? 32)%N then None
      else
        let '(raw, l') := next_char D l in
        '(s, rest) ← parse_string k l'; Some (raw ++ s, rest)
    end
  end.

(** ** Numbers *)

Definition is_digit (c : ascii) : bool := (48 <=? N_of_ascii c)%N && (N_of_ascii c <=? 57)%N.

Fixpoint span (p : ascii → bool) (l : list ascii) : list ascii * list ascii :=
  match l with
  | [] => ([], [])
  | c :: l' => if p c then let '(a, b) := span p l' in (c :: a, b) else ([], l)
  end.

Definition digits1 (l : list ascii) : option (list ascii * list ascii) :=
  match span is_digit l with ([], _) => None | r => Some r end.

(** [-? (0 | [1-9][0-9]* ) (\.[0-9]+)? ([eE][+-]?[0-9]+)?] *)
Definition parse_number (l : list ascii) : option (list ascii * list ascii) :=
  let '(sign, l) := match l with "-"%char :: l => (["-"%char], l) | _ => ([], l) end in
  '(int, l) ← match l with "0"%char :: l => Some (["0"%char], l) | _ => digits1 l end;
  '(frac, l) ← match l with
               | "."%char :: l => '(d, l) ← digits1 l; Some ("."%char :: d, l)
               | _ => Some ([], l)
               end;
  '(exp, l) ← match l with
              | c :: l' =>
                if bool_decide (c = "e"%char) || bool_decide (c = "E"%char) then
                  let '(sgn, l'') := match l' with
                                     | "+"%char :: l'' => (["+"%char], l'')
                                     | "-"%char :: l'' => (["-"%char], l'')
                                     | _ => ([], l')
                                     end in
                  '(d, r) ← digits1 l''; Some (c :: sgn ++ d, r)
                else Some ([], l)
              | [] => Some ([], l)
              end;
  Some (sign ++ int ++ frac ++ exp, l).

(** ** Values *)

Definition is_ws (c : ascii) : bool :=
  bool_decide (c = " "%char) || bool_decide (c = byte 9) || bool_decide (c = byte 10) ||
  bool_decide (c = byte 13).
Fixpoint skip_ws (l : list ascii) : list ascii :=
  match l with c :: l' => if is_ws c then skip_ws l' else l | [] => [] end.

Section values.
Variable parse_value : list ascii → option (json * list ascii).

(** The elements of an array, after its opening bracket. *)
Fixpoint parse_elems (fuel : nat) (l : list ascii) : option (list json * list ascii) :=
  match fuel with
  | O => None
  | S k =>
    '(v, r) ← parse_value l;
    match skip_ws r with
    | ","%char :: r => '(vs, r) ← parse_elems k r; Some (v :: vs, r)
    | "]"%char :: r => Some ([v], r)
    | _ => None
    end
  end.

(** The members of an object, after its opening brace. *)
Fixpoint parse_members (fuel : nat) (l : list ascii) :
    option (list (string * json) * list ascii) :=
  match fuel with
  | O => None
  | S k =>
    match skip_ws l with
    | c :: l =>
      if decide (c = byte 34) then
        '(key, r) ← parse_string (S (length l)) l;
        match skip_ws r with
        | ":"%char :: r =>
          '(v, r) ← parse_value r;
          match skip_ws r with
          | ","%char :: r => '(kvs, r) ← parse_members k r; Some ((str key, v) :: kvs, r)
          | "}"%char :: r => Some ([(str key, v)], r)
          | _ => None
          end
        | _ => None
        end
      else None
    | [] => None
    end
  end.
End values.

Definition parse_literal (w : string) (v : json) (l : list ascii) : option (json * list ascii) :=
  r ← strip_prefix (bytes w) l; Some (v, r).

(** The first of the words the text starts with. *)
Fixpoint parse_words (words : list string) (l : list ascii) : option (json * list ascii) :=
  match words with
  | [] => None
  | w :: words =>
    match strip_prefix (bytes w) l with Some r => Some (JNum w, r) | None => parse_words words l end
  end.

Fixpoint parse_value (fuel : nat) (depth : N) (l : list ascii) : option (json * list ascii) :=
  match fuel with
  | O => None
  | S k =>
    match skip_ws l with
    | [] => None
    | c :: r =>
      if decide (c = byte 34) then '(s, r) ← parse_string (S (length r)) r; Some (JStr (str s), r)
      else match c with
      | "{"%char =>
        if may_nest D depth then
          match skip_ws r with
          | "}"%char :: r => Some (JObj [], r)
          | _ =>
            '(kvs, r) ← parse_members (parse_value k (depth + 1)) (S (length r)) r; Some (JObj (object_of D kvs), r)
          end
        else None
      | "["%char =>
        if may_nest D depth then
          match skip_ws r with
          | "]"%char :: r => Some (JArr [], r)
          | _ => '(vs, r) ← parse_elems (parse_value k (depth + 1)) (S (length r)) r; Some (JArr vs, r)
          end
        else None
      | "t"%char => parse_literal "rue" (JBool true) r
      | "f"%char => parse_literal "alse" (JBool false) r
      | "n"%char => parse_literal "ull" JNull r
      | _ =>
        match parse_words (number_words D) (c :: r) with
        | Some v => Some v
        | None =>
          '(raw, r) ← parse_number (c :: r); if number_fits D raw then Some (JNum (str raw), r) else None
        end
      end
    end
  end.

(** [Decoder.Decode]: the first value, whatever follows it. *)
Definition json_first (s : string) : option (json * list ascii) :=
  parse_value (S (len s)) 0 (bytes s).
(** [Unmarshal], [JSON.parse] and [json.loads]: one value and nothing else. *)
Definition json_text (s : string) : option json :=
  '(v, r) ← json_first s; match skip_ws r with [] => Some v | _ => None end.
End parser.
Definition json_whole : string → option json := json_text go_dialect.

Example json_whole_1 :
  json_whole (" {" +:+ quote +:+ "a\u00e9" +:+ quote +:+ ": [1, -0.5e3, null, {}], " +:+
              quote +:+ "b" +:+ quote +:+ ":true} ") =
  Some (JObj [("aé", JArr [JNum "1"; JNum "-0.5e3"; JNull; JObj []]); ("b", JBool true)]).
Proof. vm_compute. reflexivity. Qed.

(** ** Decoding into a struct *)

(** [encoding/json]'s case folding, as far as it decides equality with an ASCII
    name: upper case, U+017F as S and U+212A as K. *)
Fixpoint fold_name (l : list ascii) : list ascii :=
  match l with
  | [] => []
  | c :: l' =>
    let n := N_of_ascii c in
    if ((97 <=? n) && (n <=? 122))%N then ascii_N (n - 32) :: fold_name l'
    else match l' with
         | d :: l2 =>
           if decide (c = byte 0xC5 ∧ d = byte 0xBF) then "S"%char :: fold_name l2
           else match l2 with
                | e :: l3 =>
                  if decide (c = byte 0xE2 ∧ d = byte 0x84 ∧ e = byte 0xAA)
                  then "K"%char :: fold_name l3 else c :: fold_name l'
                | [] => c :: fold_name l'
                end
         | [] => [c]
         end
  end.

Section decode.
Context {S : Type}.

(** A field's JSON name, and the effect of a value: [None] is a type error. *)
Definition field : Type := string * (json → S → option S).

Definition lookup_field (fields : list field) (key : string) : option (json → S → option S) :=
  match list_find (λ f, fst f = key) fields with
  | Some (_, f) => Some (snd f)
  | None =>
    snd ∘ snd <$> list_find (λ f, fold_name (bytes (fst f)) = fold_name (bytes key)) fields
  end.

(** One member; a type error (or an unknown field, when disallowed) is noted and
    decoding goes on. *)
Definition decode_member (fields : list field) (strict : bool) (acc : S * bool)
    (kv : string * json) : S * bool :=
  match lookup_field fields (fst kv) with
  | Some set => match set (snd kv) (fst acc) with Some s => (s, snd acc) | None => (fst acc, true) end
  | None => (fst acc, snd acc || strict)
  end.

Definition decode_struct (fields : list field) (strict : bool) (j : json) (s : S) : option S :=
  match j with
  | JObj kvs =>
    let '(s, failed) := foldl (decode_member fields strict) (s, false) kvs in
    if failed : bool then None else Some s
  | JNull => Some s
  | _ => None
  end.

(** A field of type [string]. *)
Definition string_field (name : string) (set : string → S → S) : field :=
  (name, λ v s, match v with JStr x => Some (set x s) | JNull => Some s | _ => None end).
End decode.
Arguments field S : clear implicits.

(** The error of decoding an input into a target type. *)
Class JsonErrors := { json_error : string → string → error }.

(** [json.Unmarshal(input, &s)], and [Decode] of a [Decoder] with
    [DisallowUnknownFields]. *)
Definition Unmarshal `{JsonErrors} {S} (target : string) (fields : list (field S)) (s : S)
    (input : string) : result S :=
  match j ← json_whole input; decode_struct fields false j s with
  | Some s => Ok s
  | None => Err (json_error target input)
  end.
Definition Decode_strict `{JsonErrors} {S} (target : string) (fields : list (field S)) (s : S)
    (input : string) : result S :=
  match '(j, _) ← json_first go_dialect input; decode_struct fields true j s with
  | Some s => Ok s
  | None => Err (json_error target input)
  end.

(** ** Reading back what [Marshal] and [MarshalIndent] write *)

Definition printable (c : ascii) : bool := (32 <=? nat_of_ascii c) && (nat_of_ascii c <=? 126).
Definition json_escape (c : ascii) : list ascii := json_rune [c] (N_of_ascii c) true.

Lemma concat_runes_printable l :
  forallb printable l = true → concat_runes json_rune l = l ≫= json_escape.
Proof.
  unfold concat_runes.
  assert (∀ n, length l ≤ n → forallb printable l = true →
               concat_runes_fuel n json_rune l = l ≫= json_escape) as H; [|by apply H].
  induction l as [|c l IH]; intros [|n] Hn Hl; cbn in *; try done; [lia|].
  apply andb_prop in Hl as [Hc Hl].
  assert ((N_of_ascii c <? 128)%N = true) as ->.
  { clear -Hc. destruct c as [[] [] [] [] [] [] [] []]; vm_compute in *; done. }
  assert ((N_of_ascii c =? rune_error)%N = false) as ->.
  { clear. destruct c as [[] [] [] [] [] [] [] []]; reflexivity. }
  cbn. rewrite drop_0, IH by (done || lia). done.
Qed.

(** A dialect that reads ASCII as it stands. *)
Class AsciiDialect (D : dialect) := {
  next_char_ascii c l : (N_of_ascii c < 128)%N → next_char D (c :: l) = ([c], l);
  may_nest_once : may_nest D 0 = true;
}.
#[export] Instance go_dialect_ascii : AsciiDialect go_dialect.
Proof.
  split; [|done]. intros c l Hc. cbn. assert ((N_of_ascii c <? 128)%N = true) as -> by by apply N.ltb_lt.
  rewrite (proj2 (N.eqb_neq _ _)) by (unfold rune_error; lia). done.
Qed.

Section reading.
Context (D : dialect) `{!AsciiDialect D}.
#[local] Set Default Proof Using "Type*".

Lemma parse_string_escape k c l :
  printable c = true →
  parse_string D (S k) (json_escape c ++ l) =
  ('(s, rest) ← parse_string D k l; Some (c :: s, rest)).
Proof.
  intros Hc. destruct (decide (json_escape c = [c])) as [He|He].
  - assert (c ≠ byte 34 ∧ c ≠ byte 92) as [Hq Hb] by (split; intros ->; by vm_compute in He).
    assert ((N_of_ascii c <? 32)%N = false ∧ (N_of_ascii c < 128)%N) as [Hlo Hhi].
    { clear -Hc. destruct c as [[] [] [] [] [] [] [] []]; vm_compute in Hc |- *; done. }
    rewrite He. cbn [app parse_string]. rewrite (decide_False _ _ Hq), (decide_False _ _ Hb), Hlo.
    by rewrite next_char_ascii.
  - destruct c as [[] [] [] [] [] [] [] []]; vm_compute in Hc; try discriminate Hc;
      first [by destruct He; vm_compute|cbn -[parse_string]; cbn [parse_string]; reflexivity].
Qed.

Lemma json_escape_nonempty c : json_escape c ≠ [] ∧ 1 ≤ length (json_escape c).
Proof. destruct c as [[] [] [] [] [] [] [] []]; vm_compute; split; (done || lia). Qed.

(** A printable string literal reads back. *)
Lemma parse_json_string fuel s rest :
  forallb printable (bytes s) = true → len s < fuel →
  parse_string D fuel ((bytes s ≫= json_escape) ++ byte 34 :: rest) = Some (bytes s, rest).
Proof.
  rewrite len_bytes. generalize (bytes s) as l. intros l. revert fuel.
  induction l as [|c l IH]; intros [|k] Hl Hk; cbn [length] in *; try lia.
  - reflexivity.
  - cbn [forallb] in Hl. apply andb_prop in Hl as [Hc Hl]. cbn [mbind list_bind].
    rewrite <- app_assoc, parse_string_escape by done. rewrite IH by (done || lia). done.
Qed.

Lemma bytes_json_string s :
  forallb printable (bytes s) = true →
  bytes (json_string s) = byte 34 :: ((bytes s ≫= json_escape) ++ [byte 34]).
Proof.
  intros Hs. unfold json_string, quote. rewrite !bytes_app, !bytes_str.
  by rewrite concat_runes_printable.
Qed.

Lemma length_escapes l : length l ≤ length (l ≫= json_escape).
Proof.
  induction l as [|c l IH]; [done|]. cbn [mbind list_bind length]. rewrite length_app.
  pose proof (proj2 (json_escape_nonempty c)). lia.
Qed.

Lemma parse_value_string k d s rest :
  forallb printable (bytes s) = true →
  parse_value D (S k) d (bytes (json_string s) ++ rest) = Some (JStr s, rest).
Proof.
  intros Hs. rewrite bytes_json_string by done. cbn [app]. rewrite <- app_assoc. cbn [app].
  cbn [parse_value skip_ws]. change (is_ws (byte 34)) with false. cbv iota.
  rewrite decide_True by done.
  rewrite parse_json_string; [cbn; by rewrite str_bytes|done|].
  pose proof (length_escapes (bytes s)). rewrite !length_app, len_bytes. lia.
Qed.

Lemma skip_ws_nl d l : skip_ws (bytes (nl d) ++ l) = skip_ws l.
Proof.
  unfold nl. rewrite bytes_str. generalize (2 * d) as n. intros n. cbn.
  induction n as [|n IH]; [done|]. cbn. exact IH.
Qed.

Lemma skip_ws_quote l : skip_ws (byte 34 :: l) = byte 34 :: l.
Proof. done. Qed.

Lemma parse_value_space k d l : parse_value D (S k) d (" "%char :: l) = parse_value D (S k) d l.
Proof. done. Qed.
Lemma parse_members_nl pv n d l :
  parse_members D pv n (bytes (nl d) ++ l) = parse_members D pv n l.
Proof. destruct n as [|n]; [done|]. cbn [parse_members]. by rewrite skip_ws_nl. Qed.

(** The members of an object of strings, as [MarshalIndent] writes them, followed
    by the closing brace. *)
Definition string_members (kvs : list (string * string)) : list (string * json) :=
  (λ kv, (fst kv, JStr (snd kv))) <$> kvs.
Definition printable_kv (kv : string * string) : Prop :=
  forallb printable (bytes (fst kv)) = true ∧ forallb printable (bytes (snd kv)) = true.

Definition member_text (d : nat) (kv : string * json) : string :=
  json_string (fst kv) +:+ ": " +:+ json_indent d (snd kv).

Lemma join_cons x l sep : l ≠ [] → join (x :: l) sep = x +:+ sep +:+ join l sep.
Proof. by destruct l. Qed.

Lemma parse_members_strings kvs k n d rest :
  kvs ≠ [] → Forall printable_kv kvs → length kvs ≤ n →
  parse_members D (parse_value D (S k) 1) n
    (bytes (join (member_text 1 <$> string_members kvs) ("," +:+ nl d)) ++
     bytes (nl 0) ++ "}"%char :: rest) =
  Some (string_members kvs, rest).
Proof.
  intros Hne Hkvs. revert n Hne. induction Hkvs as [|[key v] kvs [Hkey Hv] _ IH]; [done|].
  intros [|n] _ Hn; cbn [length] in Hn; [lia|]. cbn [fst snd] in *.
  assert (∀ tail,
    parse_members D (parse_value D (S k) 1) (S n) (bytes (member_text 1 (key, JStr v)) ++ tail) =
    match skip_ws tail with
    | ","%char :: r => '(kvs, r) ← parse_members D (parse_value D (S k) 1) n r; Some ((key, JStr v) :: kvs, r)
    | "}"%char :: r => Some ([(key, JStr v)], r)
    | _ => None
    end) as Hmember.
  { intros tail. unfold member_text. cbn [fst snd json_indent]. rewrite !bytes_app.
    rewrite (bytes_json_string key) by done. rewrite <- !app_assoc. cbn [app].
    cbn [parse_members]. rewrite skip_ws_quote. cbv iota beta. rewrite decide_True by done.
    rewrite <- app_assoc. cbn [app]. rewrite parse_json_string; [|done|].
    2:{ rewrite length_app, len_bytes. pose proof (length_escapes (bytes key)). lia. }
    cbn -[parse_value bytes json_string skip_ws].
    change (skip_ws (bytes ": " ++ ?l)) with (":"%char :: " "%char :: l). cbv iota beta.
    rewrite parse_value_space, parse_value_string by done.
    cbn -[parse_value bytes json_string skip_ws]. by rewrite str_bytes. }
  unfold string_members. rewrite !fmap_cons. fold (string_members kvs). cbn [fst snd].
  destruct (decide (kvs = [])) as [->|Hnil].
  - cbn [string_members fmap list_fmap join]. by rewrite Hmember, skip_ws_nl.
  - rewrite join_cons by (by destruct kvs). rewrite !bytes_app, <- !app_assoc.
    rewrite Hmember. change (skip_ws (bytes "," ++ ?l)) with (","%char :: l). cbv iota beta.
    rewrite parse_members_nl, IH by (done || lia). done.
Qed.

Lemma member_text_fmap d (l : list (string * json)) :
  (λ '(k, v), json_string k +:+ ": " +:+ json_indent d v) <$> l = member_text d <$> l.
Proof. apply list_fmap_ext. by intros _ [k v] _. Qed.

Lemma json_indent_obj l :
  l ≠ [] →
  json_indent 0 (JObj l) =
  "{" +:+ nl 1 +:+ join (member_text 1 <$> l) ("," +:+ nl 1) +:+ nl 0 +:+ "}".
Proof. intros Hl. rewrite <- member_text_fmap. by destruct l. Qed.

Lemma members_text_quote kvs sep rest :
  kvs ≠ [] → Forall printable_kv kvs →
  ∃ l, bytes (join (member_text 1 <$> string_members kvs) sep) ++ rest = byte 34 :: l.
Proof.
  intros Hne Hkvs. destruct Hkvs as [|[k v] kvs [Hk _] _]; [done|].
  unfold string_members. rewrite !fmap_cons. unfold member_text at 1. cbn [fst snd].
  destruct (_ <$> (_ <$> kvs)) as [|x xs]; [cbn [join]|rewrite join_cons by done];
    rewrite ?bytes_app, bytes_json_string by done; by eexists.
Qed.

Lemma parse_value_obj k X l kvs r :
  skip_ws X = byte 34 :: l →
  parse_members D (parse_value D k 1) (S (length X)) X = Some (kvs, r) →
  parse_value D (S k) 0 ("{"%char :: X) = Some (JObj (object_of D kvs), r).
Proof.
  intros HX Hm. cbn -[parse_members parse_value skip_ws] in *. cbn [parse_value].
  change (skip_ws ("{"%char :: X)) with ("{"%char :: X). cbv iota beta.
  rewrite decide_False by done. rewrite may_nest_once.
  rewrite HX. cbn -[parse_members parse_value]. change (0 + 1)%N with 1%N. by rewrite Hm.
Qed.

Lemma members_text_length kvs sep :
  Forall printable_kv kvs → length kvs ≤ length (bytes (join (member_text 1 <$> string_members kvs) sep)).
Proof.
  induction 1 as [|[k v] kvs [Hk _] _ IH]; [cbn; lia|]. unfold string_members in *.
  rewrite !fmap_cons. cbn [fst snd length]. unfold member_text at 1.
  destruct (decide (kvs = [])) as [->|Hne].
  - cbn [fmap list_fmap join fst snd]. rewrite bytes_app, bytes_json_string by done. cbn. lia.
  - rewrite join_cons by (by destruct kvs). cbn [fst snd]. rewrite !bytes_app, bytes_json_string by done.
    rewrite !length_app. cbn [length]. lia.
Qed.

(** An object of one text, as [Marshal] writes it. *)
Lemma json_first_compact k v :
  forallb printable (bytes k) = true → forallb printable (bytes v) = true →
  json_first D (json_compact (JObj [(k, JStr v)])) = Some (JObj (object_of D [(k, JStr v)]), []).
Proof.
  intros Hk Hv. unfold json_first. cbn [json_compact fmap list_fmap join].
  set (fuel := len _). assert (∃ f, fuel = S f) as [f ->] by (subst fuel; by eexists).
  rewrite !bytes_app. change (bytes "{") with ["{"%char]. cbn [app].
  rewrite (bytes_json_string k) by done. rewrite <- !app_assoc. cbn [app].
  eapply parse_value_obj; [apply skip_ws_quote|]. cbn [parse_members]. rewrite skip_ws_quote, decide_True by done.
  rewrite <- !app_assoc. cbn [app]. rewrite parse_json_string; [|done|].
  2:{ rewrite length_app, len_bytes. pose proof (length_escapes (bytes k)). lia. }
  cbn -[parse_value bytes json_string skip_ws].
  change (skip_ws (bytes ":" ++ ?l)) with (":"%char :: l). cbv iota beta.
  rewrite parse_value_string by done. cbn -[parse_value bytes json_string].
  by rewrite str_bytes.
Qed.

(** What [MarshalIndent] writes of a struct of strings, [Unmarshal] reads back. *)
Lemma json_text_indent kvs :
  kvs ≠ [] → Forall printable_kv kvs →
  json_text D (json_indent 0 (JObj (string_members kvs))) = Some (JObj (object_of D (string_members kvs))).
Proof.
  intros Hne Hkvs. unfold json_text, json_first. rewrite json_indent_obj by (by destruct kvs).
  destruct (members_text_quote kvs ("," +:+ nl 1) (bytes (nl 0) ++ ["}"%char])) as [l Hl]; [done|done|].
  set (body := join _ _) in *. rewrite !bytes_app. change (bytes "{") with ["{"%char].
  change (bytes "}") with ["}"%char]. cbn [app]. rewrite !len_app, !len_bytes. cbn [bytes length Nat.add].
  change (length (bytes "{")) with 1. change (length (bytes "}")) with 1.
  rewrite !Nat.add_assoc, Nat.add_1_r, <- !Nat.add_assoc.
  assert (parse_value D (S (S (1 + length (bytes (nl 1)) + (length (bytes body) + length (bytes (nl 0)))))) 0
            ("{"%char :: bytes (nl 1) ++ bytes body ++ bytes (nl 0) ++ ["}"%char]) =
          Some (JObj (object_of D (string_members kvs)), [])) as Hp; [|].
  { eapply parse_value_obj; [by rewrite skip_ws_nl, Hl|]. rewrite parse_members_nl.
    apply parse_members_strings; [done|done|].
    pose proof (members_text_length kvs ("," +:+ nl 1) Hkvs). fold body in H.
    rewrite !length_app. lia. }
  cbn [Nat.add] in *. rewrite <- Nat.add_assoc in Hp || idtac. rewrite Hp. done.
Qed.
End reading.

Lemma json_whole_indent kvs :
  kvs ≠ [] → Forall printable_kv kvs →
  json_whole (json_indent 0 (JObj (string_members kvs))) = Some (JObj (string_members kvs)).
Proof. apply (json_text_indent go_dialect). Qed.
