(* ===== verification/Js.v ===== *)
(** * JavaScript: text, values and JSON

    The parts of the language and of Node the TypeScript sources use.  A JavaScript
    string is held as generalised UTF-8: the bytes of its code points, a lone
    surrogate as the three bytes its number would have.  Like [GoStrings], this is
    the language's library and has no map entries. *)

From stdpp Require Import sorting.
From S2P Require Import Prelude GoStrings GoText Json.
From stdpp Require Import options.

(** ** Bytes to text *)

(** The first character of a UTF-8 text, for the decoder that replaces each maximal
    part of an invalid sequence: whether it is valid, and its bytes. *)
Definition utf8_chunk (l : list ascii) : bool * nat :=
  match l with
  | [] => (true, 0)
  | a :: r =>
    let n := N_of_ascii a in
    if (n <? 0x80)%N then (true, 1)
    else if in_range 0xC2 0xDF a then
      match r with b :: _ => if cont b then (true, 2) else (false, 1) | [] => (false, 1) end
    else if in_range 0xE0 0xEF a then
      let lo := if (n =? 0xE0)%N then 0xA0%N else 0x80%N in
      let hi := if (n =? 0xED)%N then 0x9F%N else 0xBF%N in
      match r with
      | b :: r2 =>
        if in_range lo hi b then
          match r2 with c :: _ => if cont c then (true, 3) else (false, 2) | [] => (false, 2) end
        else (false, 1)
      | [] => (false, 1)
      end
    else if in_range 0xF0 0xF4 a then
      let lo := if (n =? 0xF0)%N then 0x90%N else 0x80%N in
      let hi := if (n =? 0xF4)%N then 0x8F%N else 0xBF%N in
      match r with
      | b :: r2 =>
        if in_range lo hi b then
          match r2 with
          | c :: r3 =>
            if cont c then
              match r3 with d :: _ => if cont d then (true, 4) else (false, 3) | [] => (false, 3) end
            else (false, 2)
          | [] => (false, 2)
          end
        else (false, 1)
      | [] => (false, 1)
      end
    else (false, 1)
  end.
Definition replacement : list ascii := encode_rune rune_error.
(** Every chunk has a byte, so the length is enough fuel. *)
Fixpoint utf8_replace (fuel : nat) (l : list ascii) : list ascii :=
  match fuel with
  | O => []
  | S k =>
    match l with
    | [] => []
    | _ => let '(valid, w) := utf8_chunk l in
           (if valid : bool then take w l else replacement) ++ utf8_replace k (drop w l)
    end
  end.
(** [Buffer.toString("utf-8")] *)
Definition utf8_decode (s : string) : string := str (utf8_replace (len s) (bytes s)).

Definition ascii_text (s : string) : bool := forallb (λ c, (N_of_ascii c <? 0x80)%N) (bytes s).
Lemma utf8_decode_ascii s : ascii_text s = true → utf8_decode s = s.
Proof.
  unfold utf8_decode, ascii_text. rewrite len_bytes. intros Hs. rewrite <- (str_bytes s) at 3. f_equal.
  induction (bytes s) as [|c l IH]; [done|]. cbn [forallb] in Hs. apply andb_prop in Hs as [Hc Hs].
  cbn [length utf8_replace utf8_chunk]. rewrite Hc. cbn. rewrite drop_0. by rewrite IH.
Qed.

(** ** Strings *)

(** [s.length]: UTF-16 code units, two for a character of four bytes. *)
Definition js_length (s : string) : nat :=
  list_sum ((λ c, if cont c then 0 else if (0xF0 <=? N_of_ascii c)%N then 2 else 1) <$> bytes s).
(** [toLowerCase], up to characters beyond ASCII: two of them have a lower case with
    an ASCII letter in it, k and i, and neither occurs where the program compares. *)
Definition lower_char (c : ascii) : ascii :=
  if in_range 65 90 c then ascii_N (N_of_ascii c + 32) else c.
Definition toLowerCase (s : string) : string := str (lower_char <$> bytes s).

(** Lower-case hex stays as it is, and tells its bytes. *)
Lemma toLowerCase_hex b : toLowerCase ("0x" +:+ hex_encode b) = "0x" +:+ hex_encode b.
Proof.
  unfold toLowerCase, hex_encode. rewrite bytes_app, bytes_str, fmap_app, str_app.
  change (str (lower_char <$> bytes "0x")) with "0x". do 2 f_equal.
  induction (bytes b) as [|c l IH]; [done|]. cbn [mbind list_bind]. rewrite fmap_app, IH. f_equal.
  destruct c as [[] [] [] [] [] [] [] []]; reflexivity.
Qed.
Lemma hex_0x_inj a b : "0x" +:+ hex_encode a = "0x" +:+ hex_encode b → a = b.
Proof.
  intros Hab%(inj (String.append "0x")). apply (f_equal hex_decode) in Hab. rewrite !hex_decode_encode in Hab.
  by injection Hab.
Qed.

(** ** Values

    A property that is not there, and a variable that is not set, is [None]. *)
Definition js : Type := option json.

(** What the engine's numbers look like; a number is the literal it was read
    from. *)
Class JsEngine := {
  (** the double nearest to a literal is zero, and its text *)
  number_is_zero : string → bool;
  number_text : string → string;
  (** [String(e)] of the error of [JSON.parse], and of a call of a missing method *)
  syntax_error : string → string;
  not_a_function : string → string;
  (** the message when an object has no text *)
  not_primitive : string;
}.

Definition truthy `{JsEngine} (v : js) : bool :=
  match v with
  | None | Some JNull => false
  | Some (JBool b) => b
  | Some (JNum raw) => negb (number_is_zero raw)
  | Some (JStr s) => bool_decide (s ≠ "")
  | Some (JArr _) | Some (JObj _) => true
  end.
(** [a ?? b] *)
Definition nullish (v : js) (d : json) : json :=
  match v with None | Some JNull => d | Some v => v end.
Definition is_object (v : json) : bool := match v with JNull | JArr _ | JObj _ => true | _ => false end.

(** The member of an object; arrays and primitive values have none of the names the
    program asks for. *)
Definition assoc (name : string) (kvs : list (string * json)) : js :=
  snd ∘ snd <$> list_find (λ kv, fst kv = name) kvs.
Definition prop (name : string) (v : json) : js :=
  match v with JObj kvs => assoc name kvs | _ => None end.

(** A value in a template literal: an object of its own [toString], which is never a
    function in a value read from JSON, has no text, as its [valueOf] is the object
    itself or no function either; an array's text is made of its elements'.  The
    engine's stack is unlimited. *)
Fixpoint textless (v : json) : bool :=
  match v with
  | JArr l => existsb textless l
  | JObj kvs => bool_decide (is_Some (assoc "toString" kvs))
  | _ => false
  end.

(** ** JSON *)

(** An object's members: a repeated name keeps its first place and takes the last
    value; array indices come first, in order. *)
Fixpoint set_member (kv : string * json) (kvs : list (string * json)) : list (string * json) :=
  match kvs with
  | [] => [kv]
  | kv' :: kvs => if decide (fst kv' = fst kv) then kv :: kvs else kv' :: set_member kv kvs
  end.
Definition last_members (kvs : list (string * json)) : list (string * json) :=
  foldl (λ acc kv, set_member kv acc) [] kvs.
Definition array_index (name : string) : option N :=
  n ← parse_digits 10 (bytes name);
  if decide (fmt_d n = name ∧ (n < 0xFFFFFFFF)%N) then Some n else None.
Definition index_before (a b : string * json) : Prop :=
  (default 0 (array_index (fst a)) ≤ default 0 (array_index (fst b)))%N.
#[global] Instance index_before_dec : RelDecision index_before.
Proof. intros a b. unfold index_before. apply _. Defined.
Definition js_object (kvs : list (string * json)) : list (string * json) :=
  let kvs := last_members kvs in
  merge_sort index_before (filter (λ kv, is_Some (array_index (fst kv))) kvs) ++
  filter (λ kv, array_index (fst kv) = None) kvs.

(** [JSON.parse] keeps lone surrogates and nests without limit. *)
Definition js_dialect : dialect := {|
  lone_surrogate r := r;
  next_char l := match l with c :: r => ([c], r) | [] => ([], []) end;
  may_nest depth := true;
  number_words := [];
  number_fits raw := true;
  object_of := js_object;
|}.
#[export] Instance js_dialect_ascii : AsciiDialect js_dialect.
Proof. done. Qed.
Definition JSON_parse : string → option json := json_text js_dialect.

(** [JSON.stringify]: a lone surrogate is escaped. *)
Definition js_rune (raw : list ascii) (r : N) : list ascii :=
  if (r =? 34)%N || (r =? 92)%N then byte 92 :: raw
  else match r with
       | 8 => lit "\b" | 12 => lit "\f" | 10 => lit "\n" | 13 => lit "\r" | 9 => lit "\t"
       | _ => if (r <? 32)%N then lit "\u" ++ hex_digits 4 r else raw
       end%N.
(** The character at the head of generalised UTF-8. *)
Definition surrogate_head (l : list ascii) : option N :=
  match l with
  | a :: b :: c :: _ =>
    if bool_decide (a = byte 0xED) && in_range 0xA0 0xBF b && cont c
    then Some (0xD000 + low6 b * 64 + low6 c)%N else None
  | _ => None
  end.
Fixpoint stringify_chars (fuel : nat) (l : list ascii) : list ascii :=
  match fuel with
  | O => []
  | S k =>
    match l with
    | [] => []
    | _ =>
      match surrogate_head l with
      | Some r => lit "\u" ++ hex_digits 4 r ++ stringify_chars k (drop 3 l)
      | None => let '(r, w) := decode_rune l in js_rune (take w l) r ++ stringify_chars k (drop w l)
      end
    end
  end.
Definition js_quote (s : string) : string := quote +:+ str (stringify_chars (len s) (bytes s)) +:+ quote.

Section stringify.
Context `{JsEngine}.
Fixpoint JSON_stringify (v : json) : string :=
  match v with
  | JNull => "null"
  | JBool b => if b then "true" else "false"
  | JNum raw => number_text raw
  | JStr s => js_quote s
  | JArr l => "[" +:+ join (JSON_stringify <$> l) "," +:+ "]"
  | JObj l => "{" +:+ join ((λ '(k, v), js_quote k +:+ ":" +:+ JSON_stringify v) <$> l) "," +:+ "}"
  end.
End stringify.

(** An object literal; members that are undefined are not written. *)
Definition object (members : list (string * js)) : json :=
  JObj (omap (λ kv, (fst kv,.) <$> snd kv) members).

Example js_object_order :
  js_object [("b", JNull); ("10", JNull); ("a", JNull); ("9", JNull); ("b", JBool true); ("09", JNull)] =
  [("9", JNull); ("10", JNull); ("b", JBool true); ("a", JNull); ("09", JNull)].
Proof. vm_compute. reflexivity. Qed.
Example utf8_decode_maximal :
  utf8_decode (str [byte 0xE2; byte 0x82; "a"%char; byte 0xFF; byte 0xC3; byte 0xA9]) =
  str (replacement ++ "a"%char :: replacement ++ [byte 0xC3; byte 0xA9]).
Proof. vm_compute. reflexivity. Qed.
Example JSON_parse_lone :
  JSON_parse (quote +:+ "\ud83d\ude00\ud800" +:+ quote) =
  Some (JStr (str (byte <$> [0xF0; 0x9F; 0x98; 0x80; 0xED; 0xA0; 0x80]))).
Proof. vm_compute. reflexivity. Qed.
Example js_quote_lone :
  js_quote (str (byte <$> [0xED; 0xA0; 0x80; 60; 10; 233])) = quote +:+ "\ud800<\n" +:+ str [byte 233] +:+ quote.
Proof. vm_compute. reflexivity. Qed.
