(* ===== verification/Py.v ===== *)
(** * Python: text, values and JSON

    The parts of the language and its library that the Python sources use.  A [str]
    is held as generalised UTF-8, as in [Js].  Like [GoStrings], this is the
    language's library and has no map entries. *)

From S2P Require Import Prelude GoStrings GoText Json Js.
From stdpp Require Import options.

(** ** Exceptions *)

Inductive exn :=
  | ValueError (msg : string)
  | KeyError (key : string)
  | TypeError (msg : string)
  | AttributeError (msg : string).
Inductive outcome (A : Type) := Return (a : A) | Raise (e : exn).
Arguments Return {A} _.
Arguments Raise {A} _.
#[global] Instance outcome_ret : MRet outcome := @Return.
#[global] Instance outcome_bind : MBind outcome := λ A B f m,
  match m with Return a => f a | Raise e => Raise e end.
Definition of_option {A} (e : exn) (o : option A) : outcome A :=
  match o with Some a => Return a | None => Raise e end.

(** ** Text *)

(** UTF-8 with the error handler [surrogatepass]: surrogates are let through. *)
Fixpoint utf8_strict (fuel : nat) (l : list ascii) : bool :=
  match fuel with
  | O => bool_decide (l = [])
  | S k =>
    match l with
    | [] => true
    | _ =>
      match surrogate_head l with
      | Some _ => utf8_strict k (drop 3 l)
      | None => let '(valid, w) := utf8_chunk l in (valid : bool) && utf8_strict k (drop w l)
      end
    end
  end.
(** The 16-bit and 32-bit units of a text, most or least significant byte first. *)
Fixpoint units16 (big : bool) (l : list ascii) : option (list N) :=
  match l with
  | [] => Some []
  | a :: b :: l =>
    let '(hi, lo) := if big then (a, b) else (b, a) in
    us ← units16 big l; Some ((N_of_ascii hi * 256 + N_of_ascii lo)%N :: us)
  | _ => None
  end.
Fixpoint units32 (big : bool) (l : list ascii) : option (list N) :=
  match l with
  | [] => Some []
  | a :: b :: c :: d :: l =>
    let n x := N_of_ascii x in
    let u := if big then (((n a * 256 + n b) * 256 + n c) * 256 + n d)%N
             else (((n d * 256 + n c) * 256 + n b) * 256 + n a)%N in
    us ← units32 big l; if (u <? 0x110000)%N then Some (u :: us) else None
  | _ => None
  end.
Fixpoint of_units16 (us : list N) : list ascii :=
  match us with
  | [] => []
  | r1 :: us' =>
    match us' with
    | r2 :: us2 =>
      match decode_surrogates r1 r2 with
      | Some r => encode_rune r ++ of_units16 us2
      | None => encode_rune r1 ++ of_units16 us'
      end
    | [] => encode_rune r1
    end
  end.
Definition of_units32 (us : list N) : list ascii := us ≫= encode_rune.

(** [json.detect_encoding], and the decoding [json.loads] does of bytes. *)
Inductive encoding := Utf8 | Utf8Sig | Utf16 | Utf32 | Utf16Unit (big : bool) | Utf32Unit (big : bool).
Definition BOM_UTF8 : list ascii := byte <$> [0xEF; 0xBB; 0xBF].
Definition BOM_UTF16 (big : bool) : list ascii := byte <$> if big then [0xFE; 0xFF] else [0xFF; 0xFE].
Definition BOM_UTF32 (big : bool) : list ascii :=
  byte <$> if big then [0; 0; 0xFE; 0xFF] else [0xFF; 0xFE; 0; 0].
Definition starts (p l : list ascii) : bool := bool_decide (is_Some (strip_prefix p l)).
Definition detect_encoding (b : list ascii) : encoding :=
  let zero i := bool_decide (b !! i = Some (byte 0)) in
  if starts (BOM_UTF32 true) b || starts (BOM_UTF32 false) b then Utf32
  else if starts (BOM_UTF16 true) b || starts (BOM_UTF16 false) b then Utf16
  else if starts BOM_UTF8 b then Utf8Sig
  else if 4 <=? length b then
    if zero 0 then if zero 1 then Utf32Unit true else Utf16Unit true
    else if zero 1 then if zero 2 && zero 3 then Utf32Unit false else Utf16Unit false
    else Utf8
  else if length b =? 2 then
    if zero 0 then Utf16Unit true else if zero 1 then Utf16Unit false else Utf8
  else Utf8.
Definition decode_utf8 (b : list ascii) : option (list ascii) := if utf8_strict (length b) b then Some b else None.
Definition decode_bytes (b : list ascii) : option (list ascii) :=
  match detect_encoding b with
  | Utf8 => decode_utf8 b
  | Utf8Sig => decode_utf8 (drop 3 b)
  | Utf16 => of_units16 <$> units16 (starts (BOM_UTF16 true) b) (drop 2 b)
  | Utf32 => of_units32 <$> units32 (starts (BOM_UTF32 true) b) (drop 4 b)
  | Utf16Unit big => of_units16 <$> units16 big b
  | Utf32Unit big => of_units32 <$> units32 big b
  end.

(** [str.lower], up to characters beyond ASCII, as [toLowerCase]. *)
Definition lower : string → string := toLowerCase.

(** [bytes.fromhex]: white space may stand between the pairs. *)
Definition py_space (c : ascii) : bool := bool_decide (c = " "%char) || in_range 9 13 c.
Fixpoint fromhex_b (l : list ascii) : option (list ascii) :=
  match l with
  | [] => Some []
  | a :: l =>
    if py_space a then fromhex_b l
    else match l with
         | b :: l => x ← digit_val a; y ← digit_val b; r ← fromhex_b l; Some (ascii_of_N (x * 16 + y) :: r)
         | [] => None
         end
  end.

(** [repr] of a [str] *)
Section repr.
Context `{!Unicode}.
Definition repr_char (q : ascii) (raw : list ascii) (r : N) : list ascii :=
  if (r =? N_of_ascii q)%N || (r =? 92)%N then byte 92 :: raw
  else match r with
       | 9 => lit "\t" | 10 => lit "\n" | 13 => lit "\r"
       | _ => if is_print r then raw
              else if (r <? 0x100)%N then lit "\x" ++ hex_digits 2 r
              else if (r <? 0x10000)%N then lit "\u" ++ hex_digits 4 r
              else lit "\U" ++ hex_digits 8 r
       end%N.
(** A code point at a time, with its bytes; a surrogate is a code point too. *)
Fixpoint code_points (fuel : nat) (l : list ascii) : list (list ascii * N) :=
  match fuel with
  | O => []
  | S k =>
    match l with
    | [] => []
    | _ =>
      match surrogate_head l with
      | Some r => (take 3 l, r) :: code_points k (drop 3 l)
      | None => let '(r, w) := decode_rune l in (take w l, r) :: code_points k (drop w l)
      end
    end
  end.
Definition chars (s : string) : list (list ascii * N) := code_points (len s) (bytes s).
Definition py_repr (s : string) : string :=
  let q := if bool_decide (byte 39 ∈ bytes s) && negb (bool_decide (byte 34 ∈ bytes s)) then byte 34 else byte 39 in
  str (q :: (chars s ≫= λ '(raw, r), repr_char q raw r) ++ [q]).
End repr.
(** Texts in the order of their code points; UTF-8 keeps it. *)
Definition least (l : list string) : option string :=
  match l with [] => None | s :: l => Some (foldl (λ a b, if String.leb a b then a else b) s l) end.

(** ** JSON *)

(** A literal of more than 4300 digits is no [int]. *)
Definition int_literal (raw : list ascii) : bool :=
  forallb (λ c, is_digit c || bool_decide (c = "-"%char)) raw.
Definition py_dialect : dialect := {|
  lone_surrogate r := r;
  next_char l := match l with c :: r => ([c], r) | [] => ([], []) end;
  may_nest depth := true;
  number_words := ["NaN"; "Infinity"; "-Infinity"];
  number_fits raw := negb (int_literal raw) || (length (filter is_digit raw) <=? 4300);
  object_of := last_members;
|}.
#[export] Instance py_dialect_ascii : AsciiDialect py_dialect.
Proof. done. Qed.

(** What numbers look like, and the wording of the library's errors. *)
Class PyEngine := {
  (** the number a literal is read as is zero; [json.dumps] of it; [str] of a value
      that is no text *)
  py_number_is_zero : string → bool;
  py_number_text : string → string;
  py_str : json → string;
  decode_error : string → string;
  json_decode_error : string → string;
  fromhex_error : string → string;
  subscript_error : json → string;
  no_attribute : string → json → string;
}.

Definition py_truthy `{PyEngine} (v : json) : bool :=
  match v with
  | JNull => false
  | JBool b => b
  | JNum raw => negb (py_number_is_zero raw)
  | JStr s => bool_decide (s ≠ "")
  | JArr l => bool_decide (length l ≠ 0)
  | JObj l => bool_decide (length l ≠ 0)
  end.
(** [v or d] *)
Definition py_or `{PyEngine} (v d : json) : json := if py_truthy v then v else d.

(** [json.loads] of bytes *)
Definition json_loads `{PyEngine} (b : string) : outcome json :=
  match decode_bytes (bytes b) with
  | None => Raise (ValueError (decode_error b))
  | Some s => of_option (ValueError (json_decode_error (str s))) (json_text py_dialect (str s))
  end.

(** [v[key]], and [v.get(key, default)] *)
Definition subscript `{PyEngine} (v : json) (key : string) : outcome json :=
  match v with
  | JObj kvs => of_option (KeyError key) (assoc key kvs)
  | v => Raise (TypeError (subscript_error v))
  end.
Definition get `{PyEngine} (v : json) (key : string) (d : json) : outcome json :=
  match v with
  | JObj kvs => Return (default d (assoc key kvs))
  | v => Raise (AttributeError (no_attribute "get" v))
  end.

(** [json.dumps]: whatever is not printable ASCII is escaped, in UTF-16. *)
Definition dumps_char (raw : list ascii) (r : N) : list ascii :=
  if (r =? 34)%N || (r =? 92)%N then byte 92 :: raw
  else match r with
       | 8 => lit "\b" | 12 => lit "\f" | 10 => lit "\n" | 13 => lit "\r" | 9 => lit "\t"
       | _ => if (32 <=? r)%N && (r <=? 126)%N then raw
              else if (r <? 0x10000)%N then lit "\u" ++ hex_digits 4 r
              else lit "\u" ++ hex_digits 4 (0xD800 + (r - 0x10000) / 1024) ++
                   lit "\u" ++ hex_digits 4 (0xDC00 + (r - 0x10000) mod 1024)
       end%N.
Definition dumps_string (s : string) : string :=
  quote +:+ str (chars s ≫= λ '(raw, r), dumps_char raw r) +:+ quote.
Section dumps.
Context `{!PyEngine} (item key : string).
Fixpoint json_dumps (v : json) : string :=
  match v with
  | JNull => "null"
  | JBool b => if b then "true" else "false"
  | JNum raw => py_number_text raw
  | JStr s => dumps_string s
  | JArr l => "[" +:+ join (json_dumps <$> l) item +:+ "]"
  | JObj l => "{" +:+ join ((λ '(k, v), dumps_string k +:+ key +:+ json_dumps v) <$> l) item +:+ "}"
  end.
End dumps.

Example decode_bytes_utf16 :
  decode_bytes (byte <$> [0xFF; 0xFE; 0x3D; 0xD8; 0; 0xDE; 0x41; 0]) = Some (byte <$> [0xF0; 0x9F; 0x98; 0x80; 0x41]).
Proof. vm_compute. reflexivity. Qed.
Example decode_bytes_unmarked : decode_bytes (byte <$> [0; 0x7B; 0; 0x7D]) = Some (bytes "{}").
Proof. vm_compute. reflexivity. Qed.
Example dumps_string_escapes :
  dumps_string (str (byte <$> [60; 34; 10; 127; 0xC3; 0xA9; 0xF0; 0x9F; 0x98; 0x80; 0xED; 0xA0; 0x80])) =
  quote +:+ "<\" +:+ quote +:+ "\n\u007f\u00e9\ud83d\ude00\ud800" +:+ quote.
Proof. vm_compute. reflexivity. Qed.
Example py_nan : json_text py_dialect "[NaN, -Infinity, -1]" = Some (JArr [JNum "NaN"; JNum "-Infinity"; JNum "-1"]).
Proof. vm_compute. reflexivity. Qed.
