(* ===== verification/PyServer.v ===== *)
(** * The Python extension: src/python/base and src/python/app

    encoding.py, types.py, server.py, and the greeting handlers.  A request is
    answered, or an exception that nothing catches ends its thread and the
    connection is closed unanswered.  Handlers and state reads hold [_lock] from
    their first access to the state to their last, so overlapping requests are the
    calls below in the order they took the lock. *)

From S2P Require Import Prelude GoStrings GoText Json Js Py.
From stdpp Require Import options.
Set Default Proof Using "Type*".

Section base.
Context `{Uni : !Unicode, Eng : !PyEngine}.

(** [str(e)], and the two sets of exceptions the server catches. *)
Definition str_exn (e : exn) : string :=
  match e with ValueError m | TypeError m | AttributeError m => m | KeyError k => py_repr k end.
Definition is_value_error (e : exn) : bool := match e with ValueError _ => true | _ => false end.
Definition is_lookup_error (e : exn) : bool := match e with KeyError _ | TypeError _ => true | _ => false end.

(** ** encoding.py *)

Definition hex_to_bytes (h : json) : outcome string :=
  match h with
  | JNull => Return ""
  | JStr h =>
    let h := trim_prefix (trim_prefix h "0x") "0X" in
    if decide (h = "") then Return ""
    else of_option (ValueError (fromhex_error h)) (str <$> fromhex_b (bytes h))
  | v => Raise (AttributeError (no_attribute "removeprefix" v))
  end.
Definition bytes_to_hex (b : string) : string := "0x" +:+ hex_encode b.

(** A lone surrogate has no UTF-8. *)
Definition encodable (s : string) : bool := forallb (λ '(raw, r), negb (is_surrogate r)) (chars s).
Definition string_to_bytes32_hex (s : string) : outcome string :=
  if encodable s then
    if decide (32 < len s) then
      Raise (ValueError ("string too long for bytes32 (" +:+ itoa (Z.of_nat (len s)) +:+ " bytes): " +:+ py_repr s))
    else Return (bytes_to_hex (str (bytes s ++ replicate (32 - len s) (byte 0))))
  else Raise (ValueError "surrogates not allowed").
(** Its text is only logged; that it may raise matters. *)
Definition bytes32_hex_raises (h : json) : option exn :=
  match hex_to_bytes h with
  | Return _ => None
  | Raise e => if is_value_error e then None else Some e
  end.

(** ** types.py *)

Definition EMPTY_BYTES32 : string := bytes_to_hex (str (replicate 32 (byte 0))).

Record ActionData := mkActionData { id : json; submission_tag : json; message : json }.
(** The fields nothing reads are left out: fetching them with [get] cannot fail. *)
Definition parse_action (raw : json) : outcome ActionData :=
  data_raw ← subscript raw "data";
  id ← subscript data_raw "id";
  submission_tag ← get data_raw "submissionTag" (JStr "");
  message ← subscript data_raw "message";
  Return (mkActionData id submission_tag message).

Record DataFixed := mkDataFixed { op_type : json; op_command : json; original_message : json }.
Definition parse_data_fixed (raw : json) : outcome DataFixed :=
  _ ← get raw "instructionId" (JStr "");
  op_type ← subscript raw "opType";
  op_command ← get raw "opCommand" (JStr "");
  original_message ← get raw "originalMessage" JNull;
  Return (mkDataFixed op_type op_command (py_or original_message (JStr "0x"))).

Definition _normalize (h : json) : outcome string :=
  if py_truthy h then
    match h with
    | JStr h => let h := lower h in Return (if has_prefix h "0x" then h else "0x" +:+ h)
    | v => Raise (AttributeError (no_attribute "lower" v))
    end
  else Return EMPTY_BYTES32.

(** What a handler returns: data, status, error. *)
Definition HandlerResult : Type := option string * Z * option string.
Context {S : Type}.
Definition HandlerFunc : Type := json → S → outcome HandlerResult * S.
Definition Framework : Type := list (string * string * HandlerFunc).
(** [Framework.handle] *)
Definition add_handler (f : Framework) (op_type op_command : string) (h : HandlerFunc) : outcome Framework :=
  t ← string_to_bytes32_hex op_type;
  c ← string_to_bytes32_hex op_command;
  Return (f ++ [(t, c, h)]).
Definition find_handler (t c : string) (f : Framework) : option HandlerFunc :=
  snd ∘ snd <$> list_find (λ r, r.1.1 = t ∧ r.1.2 = c) f.
Definition lookup_handler (f : Framework) (op_type op_command : json) : outcome (option HandlerFunc) :=
  t ← _normalize op_type;
  c ← _normalize op_command;
  Return match find_handler t c f with Some h => Some h | None => find_handler t EMPTY_BYTES32 f end.

(** [ActionResult.to_dict]; [a or b] of optional texts. *)
Definition or_text (a : option string) (b : string) : string :=
  match a with Some s => if decide (s = "") then b else s | None => b end.
Definition to_dict (a : ActionData) (df : DataFixed) (version log : string) (status : Z) (data : option string) : json :=
  JObj [("id", id a); ("submissionTag", submission_tag a); ("status", JInt status); ("log", JStr log);
        ("opType", op_type df); ("opCommand", op_command df); ("additionalResultStatus", JStr "0x");
        ("version", JStr version); ("data", JStr (or_text data "0x"))].

(** ** server.py *)

Inductive payload := Text (s : string) | Json (j : json).
Definition answer : Type := Z * payload.
Definition bad_request (what : string) (e : exn) : answer :=
  (400%Z, Json (JObj [("error", JStr (what +:+ ": " +:+ str_exn e))])).
(** [try ... except]: an exception that is caught becomes the answer. *)
Definition catching {A} (caught : exn → bool) (what : string) (m : outcome A) : outcome (A + answer) :=
  match m with
  | Return a => Return (inl a)
  | Raise e => if caught e then Return (inr (bad_request what e)) else Raise e
  end.

Record Server := mkServer {
  version : string;
  state_version_hex : string;
  framework : Framework;
  reported_state : S → json;
}.
Definition new_Server (version : string) (register : Framework → outcome Framework) (report_state : S → json) :
    outcome Server :=
  hex ← string_to_bytes32_hex version;
  f ← register [];
  Return (mkServer version hex f report_state).

Context (srv : Server).

(** What is done before the lock is taken: an answer, or a call with its action. *)
Definition before_call (body : string) : outcome (ActionData * DataFixed * HandlerFunc + answer) :=
  raw ← catching is_value_error "invalid action JSON" (json_loads body);
  match raw with inr a => Return (inr a) | inl raw =>
  action ← catching is_lookup_error "invalid action structure" (parse_action raw);
  match action with inr a => Return (inr a) | inl action =>
  msg_bytes ← catching is_value_error "invalid hex in message" (hex_to_bytes (message action));
  match msg_bytes with inr a => Return (inr a) | inl msg_bytes =>
  df ← catching (λ e, is_value_error e || is_lookup_error e) "invalid DataFixed JSON in message"
         (raw ← json_loads msg_bytes; parse_data_fixed raw);
  match df with inr a => Return (inr a) | inl df =>
  handler ← lookup_handler (framework srv) (op_type df) (op_command df);
  Return match handler with
         | None => inr (501%Z, Text "unsupported op type")
         | Some handler => inl (action, df, handler)
         end
  end end end end.

Definition result_log (status : Z) (err : option string) : string :=
  if (status =? 0)%Z then
    match err with
    | Some err => if decide (err = "") then "error: unknown" else "error: " +:+ err
    | None => "error: unknown"
    end
  else if (status =? 1)%Z then "ok"
  else "pending".

(** After the call the two identifiers are turned into text for the log line. *)
Definition _process_action (body : string) (s : S) : outcome answer * S :=
  match before_call body with
  | Raise e => (Raise e, s)
  | Return (inr a) => (Return a, s)
  | Return (inl (action, df, handler)) =>
    match handler (original_message df) s with
    | (Raise e, s) => (Raise e, s)
    | (Return (data, status, err), s) =>
      let result := to_dict action df (version srv) (result_log status err) status data in
      match bytes32_hex_raises (op_type df), bytes32_hex_raises (op_command df) with
      | None, None => (Return (200%Z, Json result), s)
      | Some e, _ | None, Some e => (Raise e, s)
      end
    end
  end.

Definition _process_state (s : S) : answer :=
  (200%Z, Json (JObj [("stateVersion", JStr (state_version_hex srv)); ("state", reported_state srv s)])).

Definition clean_path (path : string) : string := default "" (head (split path "?")).
Definition handle_request (method path body : string) (s : S) : outcome answer * S :=
  if decide (clean_path path = "/action") then
    if decide (method = "POST") then _process_action body s else (Return (405%Z, Text "method not allowed"), s)
  else if decide (clean_path path = "/state") then
    if decide (method = "GET") then (Return (_process_state s), s) else (Return (405%Z, Text "method not allowed"), s)
  else (Return (404%Z, Text "not found"), s).

(** Status, content type and bytes of the body. *)
Definition _send (a : answer) : Z * string * string :=
  match a with
  | (status, Text s) => (status, "text/plain", s)
  | (status, Json j) => (status, "application/json", json_dumps ", " ": " j)
  end.
Definition do_request (method path body : string) (s : S) : outcome (Z * string * string) * S :=
  let '(r, s) := handle_request method path body s in (a ← r; Return (_send a), s).
End base.
Arguments HandlerFunc : clear implicits.
Arguments Framework : clear implicits.
Arguments Server : clear implicits.

(** ** app/config.py *)

Definition VERSION : string := "0.1.0".
Definition OP_TYPE_GREETING : string := "GREETING".
Definition OP_COMMAND_SAY_HELLO : string := "SAY_HELLO".
Definition OP_COMMAND_SAY_GOODBYE : string := "SAY_GOODBYE".

(** ** app/handlers.py and app/abi.py *)

(** eth_abi's decoding of a message as [(string,string)], or the text of what it
    raises. *)
Class EthAbi := { abi_decode_strings : string → string * string + string }.

Section handlers.
Context `{Uni : !Unicode, Eng : !PyEngine, Abi : !EthAbi}.

Definition decode_say_goodbye (data : string) : outcome (string * string) :=
  match abi_decode_strings data with
  | inl d => Return d
  | inr e => Raise (ValueError ("ABI decode failed: " +:+ e))
  end.

(** The module's variables; a Python [int] has no width. *)
Record py_state := mkState {
  _greeting_count : Z;
  _last_greeting : string;
  _farewell_count : Z;
  _last_farewell : string;
}.
Definition py_start : py_state := mkState 0 "" 0 "".

Definition failure (msg : string) : outcome HandlerResult := Return (None, 0%Z, Some msg).
Definition compact_hex (resp : json) : outcome HandlerResult :=
  Return (Some (bytes_to_hex (json_dumps "," ":" resp)), 1%Z, None).
(** A value in an f-string *)
Definition formatted (v : json) : string := match v with JStr s => s | v => py_str v end.

Definition handle_say_hello (msg : json) (s : py_state) : outcome HandlerResult * py_state :=
  match hex_to_bytes msg with
  | Raise e =>
    (if is_value_error e then failure ("decoding request: invalid hex: " +:+ str_exn e) else Raise e, s)
  | Return raw =>
    match json_loads raw with
    | Raise e => (if is_value_error e then failure ("decoding request: " +:+ str_exn e) else Raise e, s)
    | Return (JObj req) =>
      match least (filter (λ k, k ≠ "name") (fst <$> req)) with
      | Some k => (failure ("decoding request: unknown field " +:+ py_repr k), s)
      | None =>
        let name := default (JStr "") (assoc "name" req) in
        if py_truthy name then
          let n := (_greeting_count s + 1)%Z in
          let greeting := "Hello, " +:+ formatted name +:+ "! Welcome to Flare Confidential Compute." in
          (compact_hex (JObj [("greeting", JStr greeting); ("greetingNumber", JInt n)]),
           mkState n greeting (_farewell_count s) (_last_farewell s))
        else (failure "name must not be empty", s)
      end
    | Return _ => (failure "decoding request: expected a JSON object", s)
    end
  end.

Definition handle_say_goodbye (msg : json) (s : py_state) : outcome HandlerResult * py_state :=
  match hex_to_bytes msg with
  | Raise e =>
    (if is_value_error e then failure ("decoding request: invalid hex: " +:+ str_exn e) else Raise e, s)
  | Return raw =>
    match decode_say_goodbye raw with
    | Raise e => (if is_value_error e then failure ("decoding request: " +:+ str_exn e) else Raise e, s)
    | Return (name, reason) =>
      if decide (name = "") then (failure "name must not be empty", s)
      else
        let n := (_farewell_count s + 1)%Z in
        let farewell := "Goodbye, " +:+ name +:+ "! Reason: " +:+ reason in
        (compact_hex (JObj [("farewell", JStr farewell); ("farewellNumber", JInt n)]),
         mkState (_greeting_count s) (_last_greeting s) n farewell)
    end
  end.

Definition register (f : Framework py_state) : outcome (Framework py_state) :=
  f ← add_handler f OP_TYPE_GREETING OP_COMMAND_SAY_HELLO handle_say_hello;
  add_handler f OP_TYPE_GREETING OP_COMMAND_SAY_GOODBYE handle_say_goodbye.
Definition report_state (s : py_state) : json :=
  JObj [("greetingCount", JInt (_greeting_count s)); ("lastGreeting", JStr (_last_greeting s));
        ("farewellCount", JInt (_farewell_count s)); ("lastFarewell", JStr (_last_farewell s))].

(** main.py *)
Definition main_server : outcome (Server py_state) := new_Server VERSION register report_state.
Definition bytes32_hex (s : string) : string := bytes_to_hex (str (bytes s ++ replicate (32 - len s) (byte 0))).
Definition greeting_srv : Server py_state :=
  mkServer VERSION (bytes32_hex VERSION)
    [(bytes32_hex OP_TYPE_GREETING, bytes32_hex OP_COMMAND_SAY_HELLO, handle_say_hello);
     (bytes32_hex OP_TYPE_GREETING, bytes32_hex OP_COMMAND_SAY_GOODBYE, handle_say_goodbye)] report_state.
Lemma bytes32_hex_ok s : encodable s = true → len s ≤ 32 → string_to_bytes32_hex s = Return (bytes32_hex s).
Proof using. intros He Hl. unfold string_to_bytes32_hex. by rewrite He, decide_False by lia. Qed.
Lemma greeting_server_ok : main_server = Return greeting_srv.
Proof using.
  unfold main_server, new_Server, register, add_handler.
  rewrite !bytes32_hex_ok by first [reflexivity|vm_compute; lia]. reflexivity.
Qed.
End handlers.

(** ** Requests that get no answer *)

Section unanswered.
Context `{Uni : !Unicode, Eng : !PyEngine, Abi : !EthAbi}.

(** A value of which a text was expected. *)
Definition not_text (v : json) : Prop := ∀ s, v ≠ JStr s.
(** Python reads an action, and then finds: a message that is neither missing nor
    text; a message that is JSON, but no object; or an object whose type or command is
    neither empty nor text, or whose operation is known and whose original message
    is no text. *)
Definition bad_operation (df : DataFixed) : Prop :=
  py_truthy (op_type df) = true ∧ not_text (op_type df) ∨
  py_truthy (op_command df) = true ∧ not_text (op_command df) ∨
  (∃ h, lookup_handler (framework greeting_srv) (op_type df) (op_command df) = Return (Some h)) ∧
    not_text (original_message df).
Definition bad_fixed (fixed : json) : Prop :=
  (∀ kvs, fixed ≠ JObj kvs) ∨ ∃ df, parse_data_fixed fixed = Return df ∧ bad_operation df.
Definition bad_message (v : json) : Prop :=
  (v ≠ JNull ∧ not_text v) ∨
  ∃ m fixed, hex_to_bytes v = Return m ∧ json_loads m = Return fixed ∧ bad_fixed fixed.
Definition unanswerable (body : string) : Prop :=
  ∃ raw action, json_loads body = Return raw ∧ parse_action raw = Return action ∧ bad_message (message action).

Lemma hex_to_bytes_raise v e : hex_to_bytes v = Raise e → is_value_error e = false ↔ v ≠ JNull ∧ not_text v.
Proof using.
  unfold hex_to_bytes, not_text. destruct v as [|b|r|h|l|l]; [done|by intros [= <-]|by intros [= <-]| |by intros [= <-]..].
  case_decide; [done|]. destruct (_ <$> _); cbn; [done|]. intros [= <-]. split; [done|]. intros [_ H']. by destruct (H' h).
Qed.
Lemma hex_to_bytes_no_text v : v ≠ JNull → not_text v → ∃ e, hex_to_bytes v = Raise e ∧ is_value_error e = false.
Proof using. intros Hn Ht. destruct v; try done; [by eexists..| |by eexists|by eexists]. by destruct (Ht s). Qed.
Lemma json_loads_raise b e : json_loads b = Raise e → is_value_error e = true.
Proof using. unfold json_loads. destruct (decode_bytes _); [|by intros [= <-]]. destruct (json_text _ _); by intros [= <-]. Qed.
Lemma subscript_raise v k e : subscript v k = Raise e → is_lookup_error e = true.
Proof using. destruct v; cbn; try by intros [= <-]. destruct (assoc _ _); by intros [= <-]. Qed.
Lemma subscript_object v k x : subscript v k = Return x → ∃ kvs, v = JObj kvs.
Proof using. destruct v; try done. by eexists. Qed.
Lemma parse_action_raise raw e : parse_action raw = Raise e → is_lookup_error e = true.
Proof using.
  unfold parse_action. destruct (subscript raw "data") as [d|] eqn:Hd; cbn; [|intros [= <-]; by eapply subscript_raise].
  destruct (subscript d "id") as [i|] eqn:Hi; cbn; [|intros [= <-]; by eapply subscript_raise].
  destruct (subscript_object _ _ _ Hi) as [kvs ->]. cbn [get mbind outcome_bind].
  destruct (subscript _ "message") eqn:Hm; cbn; [done|]. intros [= <-]. by eapply subscript_raise.
Qed.
Lemma parse_data_fixed_raise raw e :
  parse_data_fixed raw = Raise e → is_value_error e || is_lookup_error e = false ↔ ∀ kvs, raw ≠ JObj kvs.
Proof using.
  unfold parse_data_fixed. destruct raw as [| | | | |kvs]; try (cbn; intros [= <-]; by split).
  cbn [get mbind outcome_bind]. destruct (subscript (JObj kvs) "opType") eqn:Ht; cbn; [done|].
  intros [= <-]. apply subscript_raise in Ht. split; [by rewrite Ht, orb_true_r|]. intros H. by destruct (H kvs).
Qed.
Lemma parse_data_fixed_object raw df : parse_data_fixed raw = Return df → ∃ kvs, raw = JObj kvs.
Proof using. destruct raw; try done. by eexists. Qed.
Lemma original_message_known raw df : parse_data_fixed raw = Return df → original_message df ≠ JNull.
Proof using.
  intros H. destruct (parse_data_fixed_object _ _ H) as [kvs ->]. unfold parse_data_fixed in H.
  cbn [get mbind outcome_bind] in H. destruct (subscript _ _); [|done]. cbn [mbind outcome_bind] in H. injection H as <-. cbn.
  unfold py_or. by destruct (default JNull _) as [|[]| | | |]; cbn; try case_match.
Qed.
Lemma normalize_raise v e : _normalize v = Raise e → py_truthy v = true ∧ not_text v.
Proof using. unfold _normalize, not_text. destruct (py_truthy v); [|done]. by destruct v. Qed.
Lemma normalize_no_text v : py_truthy v = true → not_text v → ∃ e, _normalize v = Raise e.
Proof using. unfold _normalize, not_text. intros -> Ht. destruct v; try by eexists. by destruct (Ht s). Qed.

(** A handler is only found for two texts. *)
Lemma found_text t c h :
  lookup_handler (framework greeting_srv) t c = Return (Some h) →
  (h = handle_say_hello ∨ h = handle_say_goodbye) ∧ bytes32_hex_raises t = None ∧ bytes32_hex_raises c = None.
Proof using.
  unfold lookup_handler. destruct (_normalize t) as [t'|] eqn:Ht; cbn [mbind outcome_bind]; [|done].
  destruct (_normalize c) as [c'|] eqn:Hc; cbn [mbind outcome_bind]; [|done]. intros [= Hh].
  assert (∀ v x, _normalize v = Return x → x = EMPTY_BYTES32 ∨ bytes32_hex_raises v = None) as Hn.
  { intros v x. unfold _normalize. destruct (py_truthy v) eqn:Hv; [|intros [= <-]; by left]. destruct v as [| | |y| |]; try done.
    intros _. right. unfold bytes32_hex_raises. destruct (hex_to_bytes (JStr y)) eqn:He; [done|].
    pose proof (proj1 (hex_to_bytes_raise _ _ He)) as H. destruct (is_value_error e); [done|]. by destruct H as [_ H]; [|destruct (H y)]. }
  assert (∀ x y h', find_handler x y (framework greeting_srv) = Some h' →
    (h' = handle_say_hello ∨ h' = handle_say_goodbye) ∧ x ≠ EMPTY_BYTES32 ∧ y ≠ EMPTY_BYTES32) as Hf.
  { intros x y h' H. unfold find_handler in H. apply fmap_Some in H as ([i [[rt rc] rh]] & (Hi & [Hrt Hrc] & _)%list_find_Some & ->).
    cbn in Hrt, Hrc |- *. destruct i as [|[|i]]; cbn in Hi; [| |done]; injection Hi as <- <- <-.
    - split; [by left|]. subst. by split; intros H; vm_compute in H.
    - split; [by right|]. subst. by split; intros H; vm_compute in H. }
  destruct (find_handler t' c' _) as [h'|] eqn:H1.
  - injection Hh as ->. destruct (Hf _ _ _ H1) as (? & ? & ?). destruct (Hn _ _ Ht), (Hn _ _ Hc); done.
  - by destruct (Hf _ _ _ Hh) as (_ & _ & []).
Qed.

(** The handlers raise before they touch the state, and only on what is no text. *)
Lemma handler_raises h msg s :
  h = handle_say_hello ∨ h = handle_say_goodbye → msg ≠ JNull →
  (∃ e, (h msg s).1 = Raise e) ↔ not_text msg.
Proof using.
  intros Hh Hn. assert (not_text msg → ∃ e, (h msg s).1 = Raise e) as Hto.
  { intros Ht. destruct (hex_to_bytes_no_text _ Hn Ht) as (e & He & Hv). exists e.
    destruct Hh as [-> | ->]; unfold handle_say_hello, handle_say_goodbye; by rewrite He, Hv. }
  split; [|done]. intros [e He].
  destruct (hex_to_bytes msg) as [raw|e'] eqn:Hm.
  - exfalso. destruct Hh as [-> | ->]; unfold handle_say_hello, handle_say_goodbye in He; rewrite Hm in He.
    + destruct (json_loads raw) as [[| | | | |req]|e'] eqn:Hj; try done.
      * destruct (least _); [done|]. by destruct (py_truthy _).
      * rewrite (json_loads_raise _ _ Hj) in He. done.
    + unfold decode_say_goodbye in He. destruct (abi_decode_strings raw) as [[n r]|]; [|done]. by case_decide.
  - destruct (is_value_error e') eqn:Hv; [|by apply (hex_to_bytes_raise _ _ Hm)].
    exfalso. destruct Hh as [-> | ->]; unfold handle_say_hello, handle_say_goodbye in He; rewrite Hm, Hv in He; done.
Qed.
Lemma handler_raises_same h msg s e :
  h = handle_say_hello ∨ h = handle_say_goodbye → (h msg s).1 = Raise e → (h msg s).2 = s.
Proof using.
  intros [-> | ->]; unfold handle_say_hello, handle_say_goodbye; destruct (hex_to_bytes msg) as [raw|e'] eqn:Hm; try done.
  - destruct (json_loads raw) as [[| | | | |req]|e']; try done. destruct (least _); [done|]. by destruct (py_truthy _).
  - destruct (decode_say_goodbye raw) as [[n r]|]; [|done]. by case_decide.
Qed.

(** The lookup raises for an identifier that is no text. *)
Lemma lookup_raises t c :
  (∃ e, lookup_handler (framework greeting_srv) t c = Raise e) ↔
  py_truthy t = true ∧ not_text t ∨ py_truthy c = true ∧ not_text c.
Proof using.
  unfold lookup_handler. destruct (_normalize t) as [t'|e] eqn:Ht; cbn [mbind outcome_bind].
  - destruct (_normalize c) as [c'|e] eqn:Hc; cbn [mbind outcome_bind].
    + split; [by intros [? ?]|]. intros [[H1 H2]|[H1 H2]]; destruct (normalize_no_text _ H1 H2); congruence.
    + split; [|by eexists]. right. by eapply normalize_raise.
  - split; [|by eexists]. left. by eapply normalize_raise.
Qed.

(** What is left once the parts before have been read. *)
Lemma unanswerable_fixed body raw action m fixed :
  json_loads body = Return raw → parse_action raw = Return action → hex_to_bytes (message action) = Return m →
  json_loads m = Return fixed → unanswerable body ↔ bad_fixed fixed.
Proof using.
  intros Hraw Hact Hm Hfix. unfold unanswerable, bad_message. split; [|naive_solver].
  intros (raw' & action' & Hraw' & Hact' & H). assert (raw' = raw) as -> by congruence.
  assert (action' = action) as -> by congruence. destruct H as [[Hn Ht]|(m' & fixed' & Hm' & Hfix' & H)].
  2:{ assert (m' = m) as -> by congruence. by assert (fixed' = fixed) as -> by congruence. }
  destruct (hex_to_bytes_no_text _ Hn Ht) as (? & ? & _). congruence.
Qed.
Lemma unanswerable_operation body raw action m fixed df :
  json_loads body = Return raw → parse_action raw = Return action → hex_to_bytes (message action) = Return m →
  json_loads m = Return fixed → parse_data_fixed fixed = Return df → unanswerable body ↔ bad_operation df.
Proof using.
  intros Hraw Hact Hm Hfix Hdf. rewrite (unanswerable_fixed _ _ _ _ _ Hraw Hact Hm Hfix). unfold bad_fixed.
  destruct (parse_data_fixed_object _ _ Hdf) as [kvs ->]. split; [|eauto].
  intros [H|(df' & Hdf' & H)]; [by destruct (H kvs)|]. by assert (df' = df) as -> by congruence.
Qed.

(** C19: which requests the Python server leaves unanswered.  It raises on exactly the
    bodies of [unanswerable], where the contract asks for a 400 or a failure of the
    handler; an exception leaves the state as it was; and every other body is
    answered. *)
Theorem py_unanswered (body : string) (s : py_state) :
  let '(r, s') := _process_action greeting_srv body s in
  ((∃ e, r = Raise e) ↔ unanswerable body) ∧ ((∃ e, r = Raise e) → s' = s).
Proof.
  unfold _process_action, before_call.
  destruct (json_loads body) as [raw|e] eqn:Hraw; cbn [catching mbind outcome_bind].
  2:{ rewrite (json_loads_raise _ _ Hraw). split; [|done]. split; [by intros [? ?]|intros (? & ? & ? & ? & _); congruence]. }
  destruct (parse_action raw) as [action|e] eqn:Hact; cbn [catching mbind outcome_bind].
  2:{ rewrite (parse_action_raise _ _ Hact). split; [|done]. split; [by intros [? ?]|intros (? & ? & ? & ? & _); congruence]. }
  destruct (hex_to_bytes (message action)) as [m|e] eqn:Hm; cbn [catching mbind outcome_bind].
  2:{ pose proof (hex_to_bytes_raise _ _ Hm) as Hv. destruct (is_value_error e); (split; [|done]); split.
      - by intros [? ?].
      - intros (raw' & action' & Hr & Ha & H). assert (action' = action) as -> by congruence.
        destruct H as [H|(? & ? & ? & _)]; [|congruence]. by apply Hv in H.
      - intros _. exists raw, action. split_and!; [done..|]. left. by apply Hv.
      - intros _. by eexists. }
  destruct (json_loads m) as [fixed|e] eqn:Hfix; cbn [catching mbind outcome_bind].
  2:{ rewrite (json_loads_raise _ _ Hfix). split; [|done]. split; [by intros [? ?]|].
      intros (raw' & action' & Hr & Ha & H). assert (action' = action) as -> by congruence.
      destruct H as [[Hn Ht]|(m' & f' & Hm' & Hf' & _)]; [|congruence].
      destruct (hex_to_bytes_no_text _ Hn Ht) as (? & ? & _). congruence. }
  destruct (parse_data_fixed fixed) as [df|e] eqn:Hdf; cbn [catching mbind outcome_bind].
  2:{ pose proof (parse_data_fixed_raise _ _ Hdf) as Hv. pose proof (unanswerable_fixed _ _ _ _ _ Hraw Hact Hm Hfix) as Hb.
      destruct (is_value_error e || is_lookup_error e); (split; [|done]); rewrite Hb; split.
      - by intros [? ?].
      - intros [H|(? & ? & _)]; [by apply Hv in H|congruence].
      - intros _. left. by apply Hv.
      - intros _. by eexists. }
  pose proof (unanswerable_operation _ _ _ _ _ _ Hraw Hact Hm Hfix Hdf) as Hb.
  pose proof (lookup_raises (op_type df) (op_command df)) as Hl. unfold bad_operation in Hb.
  destruct (lookup_handler _ _ _) as [[h|]|e] eqn:Hh; cbn [mbind outcome_bind].
  2:{ split; [|done]. rewrite Hb, (base.assoc or), <- Hl. split; [by intros [? ?]|]. by intros [[? ?]|[[? ?] _]]. }
  2:{ split; [|done]. rewrite Hb, (base.assoc or), <- Hl. split; intros _; [left|]; by eexists. }
  destruct (found_text _ _ _ Hh) as (Hgs & -> & ->).
  pose proof (handler_raises_same h (original_message df) s) as Hsame.
  assert (unanswerable body ↔ ∃ e, (h (original_message df) s).1 = Raise e) as Hbad.
  { rewrite (handler_raises h _ s Hgs (original_message_known _ _ Hdf)), Hb, (base.assoc or), <- Hl.
    split; [by intros [[? ?]|[_ ?]]|]. intros ?. right. split; [by eexists|done]. }
  clear Hb. destruct (h (original_message df) s) as [[[[data status] err]|e] s']; cbn [fst snd] in *; rewrite Hbad.
  - split; [by split; intros [? ?]|by intros [? ?]].
  - split; [split; intros _; by eexists|]. intros _. by eapply Hsame.
Qed.
End unanswered.
