(* ===== verification/Base64.v ===== *)
(** * Base64, as Go marshals bytes and Node's Buffer reads them

    Encoding with the standard alphabet and padding; decoding as [Buffer.from(s,
    "base64")] does it: both alphabets, characters of neither skipped, up to the first
    padding character.  A part of the libraries, without map entries. *)

From S2P Require Import Prelude GoStrings GoText Json.
From stdpp Require Import options.

Definition alphabet : list ascii := bytes "ABCDEFGHIJKLMNOPQRSTUVWXYZabcdefghijklmnopqrstuvwxyz0123456789+/".
Definition sextet_char (d : N) : ascii := nth (N.to_nat d) alphabet "="%char.
Definition char_sextet (c : ascii) : option N :=
  if (c =? "-")%char then Some 62%N
  else if (c =? "_")%char then Some 63%N
  else N.of_nat ∘ fst <$> list_find (c =.) alphabet.

(** The [k] most significant sextets of a number of 24 bits. *)
Definition sextets_of (k : nat) (n : N) : list N :=
  take k [n / 262144; (n / 4096) `mod` 64; (n / 64) `mod` 64; n `mod` 64]%N.
Fixpoint encode_bytes (l : list ascii) : list ascii :=
  match l with
  | a :: b :: c :: l =>
    (sextet_char <$> sextets_of 4 ((N_of_ascii a * 256 + N_of_ascii b) * 256 + N_of_ascii c)) ++ encode_bytes l
  | [a; b] => (sextet_char <$> sextets_of 3 ((N_of_ascii a * 256 + N_of_ascii b) * 256)) ++ ["="%char]
  | [a] => (sextet_char <$> sextets_of 2 (N_of_ascii a * 256 * 256)) ++ ["="; "="]%char
  | [] => []
  end.
Definition base64_encode (s : string) : string := str (encode_bytes (bytes s)).

Fixpoint sextets (l : list ascii) : list N :=
  match l with
  | [] => []
  | c :: l => if (c =? "=")%char then [] else match char_sextet c with Some d => d :: sextets l | None => sextets l end
  end.
(** The [k] most significant bytes of a number of 24 bits. *)
Definition bytes_of (k : nat) (n : N) : list ascii :=
  take k (ascii_of_N <$> [n / 65536; (n / 256) `mod` 256; n `mod` 256]%N).
Fixpoint decode_sextets (l : list N) : list ascii :=
  match l with
  | a :: b :: c :: d :: l => bytes_of 3 (((a * 64 + b) * 64 + c) * 64 + d) ++ decode_sextets l
  | [a; b; c] => bytes_of 2 (((a * 64 + b) * 64 + c) * 64)
  | [a; b] => bytes_of 1 ((a * 64 + b) * 64 * 64)
  | _ => []
  end.
Definition base64_decode (s : string) : string := str (decode_sextets (sextets (bytes s))).

(** ** Lemmas *)

Lemma sextet_char_value d : (d < 64)%N → char_sextet (sextet_char d) = Some d ∧ (sextet_char d =? "=")%char = false.
Proof.
  intros Hd.
  assert (Forall (λ d, char_sextet (sextet_char (N.of_nat d)) = Some (N.of_nat d) ∧
    (sextet_char (N.of_nat d) =? "=")%char = false) (seq 0 64)) as H by by_decide.
  rewrite Forall_forall in H. specialize (H (N.to_nat d)). rewrite N2Nat.id in H. apply H, elem_of_seq. lia.
Qed.
Lemma sextets_app ds l :
  Forall (λ d, d < 64)%N ds → sextets ((sextet_char <$> ds) ++ l) = ds ++ sextets l.
Proof.
  induction 1 as [|d ds Hd _ IH]; [done|]. cbn [fmap list_fmap app sextets].
  destruct (sextet_char_value d Hd) as [-> ->]. by rewrite IH.
Qed.
Lemma sextets_small k n : (n < 16777216)%N → Forall (λ d, d < 64)%N (sextets_of k n).
Proof.
  intros Hn. apply Forall_take. repeat (apply Forall_cons; split); [|apply N.mod_lt; done..|apply Forall_nil_2].
  apply N.Div0.div_lt_upper_bound; lia.
Qed.
Lemma sextets_value n :
  (((n / 262144 * 64 + (n / 4096) `mod` 64) * 64 + (n / 64) `mod` 64) * 64 + n `mod` 64 = n)%N.
Proof.
  assert (n / 4096 = n / 64 / 64)%N as -> by by rewrite N.Div0.div_div.
  assert (n / 262144 = n / 64 / 64 / 64)%N as -> by by rewrite !N.Div0.div_div.
  pose proof (N.div_mod' n 64). pose proof (N.div_mod' (n / 64) 64). pose proof (N.div_mod' (n / 64 / 64) 64). lia.
Qed.
Lemma bytes_value a b c :
  bytes_of 3 ((N_of_ascii a * 256 + N_of_ascii b) * 256 + N_of_ascii c) = [a; b; c].
Proof.
  pose proof (N_ascii_bounded a) as Ha. pose proof (N_ascii_bounded b) as Hb. pose proof (N_ascii_bounded c) as Hc.
  unfold bytes_of. cbn [fmap list_fmap take]. set (x := N_of_ascii a) in *. set (y := N_of_ascii b) in *. set (z := N_of_ascii c) in *.
  assert (((x * 256 + y) * 256 + z) / 65536 = x)%N as -> by (symmetry; apply N.div_unique with (y * 256 + z)%N; lia).
  assert (((x * 256 + y) * 256 + z) / 256 = x * 256 + y)%N as -> by (symmetry; apply N.div_unique with z; lia).
  assert ((x * 256 + y) `mod` 256 = y)%N as -> by (symmetry; apply N.mod_unique with x; lia).
  assert (((x * 256 + y) * 256 + z) `mod` 256 = z)%N as -> by (symmetry; apply N.mod_unique with (x * 256 + y)%N; lia).
  subst x y z. by rewrite !ascii_N_embedding.
Qed.

Lemma bytes_take k j n l : j ≤ k → bytes_of k n = l → bytes_of j n = take j l.
Proof. intros Hj <-. unfold bytes_of. by rewrite take_take, Nat.min_l. Qed.

(** Sextets that are left out are zero. *)
Lemma three_sextets m (n := (m * 64)%N) : (((n / 262144 * 64 + (n / 4096) `mod` 64) * 64 + (n / 64) `mod` 64) * 64 = n)%N.
Proof. pose proof (sextets_value n) as Hv. assert (n `mod` 64 = 0)%N as H0 by apply N.Div0.mod_mul. lia. Qed.
Lemma two_sextets m (n := (m * 4096)%N) : ((n / 262144 * 64 + (n / 4096) `mod` 64) * 64 * 64 = n)%N.
Proof.
  pose proof (three_sextets (m * 64)) as Hv. cbv zeta in Hv. replace (m * 64 * 64)%N with n in Hv by (subst n; lia).
  assert ((n / 64) `mod` 64 = 0)%N as H0; [|lia].
  subst n. replace (m * 4096)%N with (m * 64 * 64)%N by lia. rewrite N.div_mul by done. apply N.Div0.mod_mul.
Qed.

(** What Go writes, Node reads. *)
Lemma decode_encode_bytes : ∀ l, decode_sextets (sextets (encode_bytes l)) = l.
Proof.
  fix IH 1. intros [|a [|b [|c l]]]; [done|..]; cbn [encode_bytes];
    rewrite sextets_app by (apply sextets_small; pose proof (N_ascii_bounded a); try pose proof (N_ascii_bounded b);
      try pose proof (N_ascii_bounded c); lia).
  - pose proof (two_sextets (N_of_ascii a * 16)) as Hv. cbv zeta in Hv.
    replace (N_of_ascii a * 16 * 4096)%N with (N_of_ascii a * 256 * 256)%N in Hv by lia.
    cbn [sextets_of take sextets Ascii.eqb Bool.eqb app decode_sextets]. rewrite Hv.
    apply (bytes_take 3 1 _ [a; zero; zero]); [lia|]. rewrite <- bytes_value. f_equal.
    change (N_of_ascii zero) with 0%N. lia.
  - pose proof (three_sextets ((N_of_ascii a * 256 + N_of_ascii b) * 4)) as Hv. cbv zeta in Hv.
    replace ((N_of_ascii a * 256 + N_of_ascii b) * 4 * 64)%N with ((N_of_ascii a * 256 + N_of_ascii b) * 256)%N in Hv by lia.
    cbn [sextets_of take sextets Ascii.eqb Bool.eqb app decode_sextets]. rewrite Hv.
    apply (bytes_take 3 2 _ [a; b; zero]); [lia|]. rewrite <- bytes_value. f_equal.
    change (N_of_ascii zero) with 0%N. lia.
  - cbn [sextets_of take app decode_sextets]. rewrite sextets_value, bytes_value, IH. done.
Qed.
Lemma base64_decode_encode s : base64_decode (base64_encode s) = s.
Proof. unfold base64_decode, base64_encode. by rewrite bytes_str, decode_encode_bytes, str_bytes. Qed.

(** It is written in printable characters. *)
Lemma sextets_printable ds : Forall (λ d, d < 64)%N ds → forallb printable (sextet_char <$> ds) = true.
Proof.
  induction 1 as [|d ds Hd _ IH]; [done|]. cbn [fmap list_fmap forallb]. rewrite IH, andb_true_r.
  assert (Forall (λ d, printable (sextet_char (N.of_nat d)) = true) (seq 0 64)) as H by by_decide.
  rewrite Forall_forall in H. specialize (H (N.to_nat d)). rewrite N2Nat.id in H. apply H, elem_of_seq. lia.
Qed.
Lemma base64_printable s : forallb printable (bytes (base64_encode s)) = true.
Proof.
  unfold base64_encode. rewrite bytes_str. revert s. enough (∀ l, forallb printable (encode_bytes l) = true) as H by eauto.
  fix IH 1. intros [|a [|b [|c l]]]; [done|..]; cbn [encode_bytes]; rewrite forallb_app, sextets_printable, ?IH;
    try done; apply sextets_small; pose proof (N_ascii_bounded a); try pose proof (N_ascii_bounded b);
    try pose proof (N_ascii_bounded c); lia.
Qed.
Example base64_rfc4648 :
  base64_encode "foobar" = "Zm9vYmFy" ∧ base64_encode "fooba" = "Zm9vYmE=" ∧ base64_encode "foob" = "Zm9vYg==" ∧
  base64_decode "Zm9v-YmE=ignored" = base64_decode "Zm9v+YmE".
Proof. vm_compute. done. Qed.
