(* ===== verification/TsServer.v ===== *)
(** * typescript/src/base: the TypeScript extension server

    encoding.ts, the handler registry of types.ts, and server.ts: every answer the
    server gives, down to the bytes of the body.  What [serialize] does to requests
    that overlap is in [TsQueue]. *)

From S2P Require Import Prelude GoStrings GoText Json Js.
From stdpp Require Import options.
Set Default Proof Using "Type*".

(** ** Exceptions

    An [Error] thrown by the program is an [ErrMsg]; one thrown by the engine has
    the name of its class. *)
Definition String_error (e : error) : string :=
  match e with
  | ErrSentinel name msg => name +:+ ": " +:+ msg
  | e => "Error: " +:+ err_text e
  end.
Definition errorMessage (e : error) : string := err_text e.

Section base.
Context `{Eng : !JsEngine}.

Definition TypeError (callee : string) : error := ErrSentinel "TypeError" (not_a_function callee).
(** [`${v}`] *)
Definition logged (v : js) : result unit :=
  match v with
  | Some v => if textless v then Err (ErrSentinel "TypeError" not_primitive) else Ok tt
  | None => Ok tt
  end.
Definition SyntaxError (text : string) : error := ErrSentinel "SyntaxError" (syntax_error text).

(** ** encoding.ts *)

Definition hexToBytes (h : js) : result string :=
  match h with
  | None | Some JNull => Ok ""
  | Some (JStr h) =>
    let s := if has_prefix h "0x" || has_prefix h "0X" then str_drop 2 h else h in
    if decide (s = "") then Ok ""
    else if Nat.odd (js_length s) then
      Err (ErrMsg ("invalid hex: odd length (" +:+ itoa (Z.of_nat (js_length s)) +:+ ")"))
    else match hex_decode s with
         | Some out => Ok out
         | None => Err (ErrMsg "invalid hex: non-hex characters")
         end
  | Some _ => Err (TypeError "s.startsWith")
  end.

Definition bytesToHex (b : string) : string := "0x" +:+ hex_encode b.

(** [TextEncoder.encode]: a lone surrogate is replaced. *)
Fixpoint text_encode (fuel : nat) (l : list ascii) : list ascii :=
  match fuel with
  | O => []
  | S k =>
    match l with
    | [] => []
    | c :: r =>
      match surrogate_head l with
      | Some _ => replacement ++ text_encode k (drop 3 l)
      | None => c :: text_encode k r
      end
    end
  end.
Definition stringToBytes32Hex (s : string) : result string :=
  let encoded := text_encode (len s) (bytes s) in
  if decide (32 < length encoded) then
    Err (ErrMsg ("string too long for bytes32 (" +:+ itoa (Z.of_nat (length encoded)) +:+ " bytes): " +:+ s))
  else Ok (bytesToHex (str (encoded ++ replicate (32 - length encoded) (byte 0)))).

(** ** types.ts *)

Definition EMPTY_BYTES32 : string := bytesToHex (str (replicate 32 (byte 0))).

Record HandlerResult := mkHandlerResult { h_data : option string; h_status : Z; h_error : option string }.

(** The extension's memory [S], and what a handler call sees of the outside [E]; a
    rejected promise is an [Err]. *)
Context {E S : Type}.
Definition HandlerFunc : Type := E → json → S → result HandlerResult * S.

(** [handlers]: registered type, command and handler, in order. *)
Definition Framework : Type := list (string * string * HandlerFunc).
Definition register_handler (f : Framework) (opType opCommand : string) (h : HandlerFunc) : result Framework :=
  match stringToBytes32Hex opType with
  | Err e => Err e
  | Ok t => match stringToBytes32Hex opCommand with Err e => Err e | Ok c => Ok (f ++ [(t, c, h)]) end
  end.

Definition normalize (h : js) : result string :=
  if truthy h then
    match h with
    | Some (JStr h) =>
      let lower := toLowerCase h in
      Ok (if has_prefix lower "0x" then lower else "0x" +:+ lower)
    | _ => Err (TypeError "h.toLowerCase")
    end
  else Ok EMPTY_BYTES32.

Definition first_match (t c : string) (f : Framework) : option HandlerFunc :=
  snd ∘ snd <$> list_find (λ r, r.1.1 = t ∧ r.1.2 = c) f.
Definition lookup_handler (f : Framework) (opType opCommand : js) : result (option HandlerFunc) :=
  match normalize opType with
  | Err e => Err e
  | Ok t =>
    match normalize opCommand with
    | Err e => Err e
    | Ok c =>
      Ok match first_match t c f with
         | Some h => Some h
         | None => first_match t EMPTY_BYTES32 f
         end
    end
  end.

(** ** server.ts *)

Inductive payload := Text (s : string) | Json (j : json).
Definition answer : Type := Z * payload.
Definition bad_request (msg : string) : answer := (400%Z, Json (JObj [("error", JStr msg)])).

Record Server := mkServer {
  version : string;
  stateVersionHex : string;
  framework : Framework;
  reportState : S → json;
}.
(** The constructor: [register] may throw. *)
Definition new_Server (version : string) (register : Framework → result Framework) (reportState : S → json) :
    result Server :=
  match stringToBytes32Hex version with
  | Err e => Err e
  | Ok hex => match register [] with Err e => Err e | Ok f => Ok (mkServer version hex f reportState) end
  end.

Context (srv : Server).

(** What the server does with a request before it queues anything: answer it, throw,
    or queue a handler call or a read of the state, and then answer, or throw. *)
Inductive plan :=
  | Answer (a : answer)
  | Throw (e : error)
  | CallHandler (h : HandlerFunc) (msg : json) (finish : HandlerResult → result answer)
  | ReportState (finish : json → answer).

Definition action_log (r : HandlerResult) : string :=
  if (h_status r =? 0)%Z then
    match h_error r with
    | Some err => if decide (err = "") then "error: unknown" else "error: " +:+ err
    | None => "error: unknown"
    end
  else if (h_status r =? 1)%Z then "ok"
  else "pending".
Definition action_result (data df : json) (r : HandlerResult) : json :=
  object [("id", prop "id" data); ("submissionTag", prop "submissionTag" data); ("status", Some (JInt (h_status r)));
          ("log", Some (JStr (action_log r))); ("opType", prop "opType" df); ("opCommand", prop "opCommand" df);
          ("additionalResultStatus", Some (JStr "0x")); ("version", Some (JStr (version srv)));
          ("data", Some (JStr (default "0x" (h_data r))))].

(** The end of [processAction]: the result is logged under the action's id before it
    is returned; [bytes32HexToString], of the two operations, catches what it throws. *)
Definition log_and_answer (data df : json) (r : HandlerResult) : result answer :=
  match logged (prop "id" data) with
  | Err e => Err e
  | Ok _ => Ok (200%Z, Json (action_result data df r))
  end.

(** [!v || typeof v !== "object" || !v[name]] *)
Definition lacks (v : json) (name : string) : bool :=
  negb (truthy (Some v)) || negb (is_object v) || negb (truthy (prop name v)).

Definition processAction (body : string) : plan :=
  match JSON_parse body with
  | None => Answer (bad_request ("invalid action JSON: " +:+ String_error (SyntaxError body)))
  | Some action =>
    if lacks action "data" then Answer (bad_request "invalid action structure: missing data")
    else
      let data := default JNull (prop "data" action) in
      match hexToBytes (prop "message" data) with
      | Err e => Answer (bad_request ("invalid hex in message: " +:+ String_error e))
      | Ok msgBytes =>
        let text := utf8_decode msgBytes in
        match JSON_parse text with
        | None => Answer (bad_request ("invalid DataFixed JSON in message: " +:+ String_error (SyntaxError text)))
        | Some df =>
          if lacks df "opType" then Answer (bad_request "invalid DataFixed: missing opType")
          else match lookup_handler (framework srv) (prop "opType" df) (Some (nullish (prop "opCommand" df) (JStr ""))) with
          | Err e => Throw e
          | Ok None => Answer (501%Z, Text "unsupported op type")
          | Ok (Some h) =>
            CallHandler h (nullish (prop "originalMessage" df) (JStr "0x")) (log_and_answer data df)
          end
        end
      end
  end.

Definition processState : plan :=
  ReportState (λ state, (200%Z, Json (JObj [("stateVersion", JStr (stateVersionHex srv)); ("state", state)]))).

Definition clean_path (path : string) : string := default "" (head (split path "?")).
Definition handleRequest (method path body : string) : plan :=
  if decide (clean_path path = "/action") then
    if decide (method = "POST") then processAction body else Answer (405%Z, Text "method not allowed")
  else if decide (clean_path path = "/state") then
    if decide (method = "GET") then processState else Answer (405%Z, Text "method not allowed")
  else Answer (404%Z, Text "not found").

(** A plan run with nothing else queued. *)
Definition run_plan (p : plan) (env : E) (s : S) : result answer * S :=
  match p with
  | Answer a => (Ok a, s)
  | Throw e => (Err e, s)
  | CallHandler h msg finish =>
    match h env msg s with
    | (Ok r, s') => (finish r, s')
    | (Err e, s') => (Err e, s')
    end
  | ReportState finish => (Ok (finish (reportState srv s)), s)
  end.

(** [send] *)
Record http_response := mkHttpResponse { r_status : Z; r_type : string; r_body : string }.
Definition send (a : answer) : http_response :=
  match a with
  | (status, Text s) => mkHttpResponse status "text/plain" s
  | (status, Json j) => mkHttpResponse status "application/json" (JSON_stringify j)
  end.

(** [serve], with the bytes [readBody] read, or its failure; nothing catches what
    [handleRequest] throws. *)
Definition serve_plan (method path : string) (body : option string) : plan :=
  match body with
  | None => Answer (400%Z, Json (JObj [("error", JStr "failed to read body")]))
  | Some b => handleRequest method path (utf8_decode b)
  end.
Definition serve (method path : string) (body : option string) (env : E) (s : S) : result http_response * S :=
  match run_plan (serve_plan method path body) env s with
  | (Ok a, s') => (Ok (send a), s')
  | (Err e, s') => (Err e, s')
  end.
End base.
Arguments HandlerFunc : clear implicits.
Arguments Framework : clear implicits.
Arguments Server : clear implicits.
Arguments plan : clear implicits.
