(* ===== verification/NodeClient.v ===== *)
(** * typescript/src/base/node.ts: asking the TEE node to decrypt

    The client of the node's signing API.  [fetch] is a parameter: what came of one
    request.  With it the decryption of a handler call in [EnclaveServer] is a
    function of the node's answer. *)

From S2P Require Import Prelude GoStrings GoText Json Js Base64 TsServer.
From stdpp Require Import options.
Set Default Proof Using "Type*".

(** What came of a request: [fetch] was rejected, or there was a response with a status
    and a body, whose text could be read or not.  An [AbortError] is an error of that
    name. *)
Record fetch_response := mkFetchResponse { f_status : Z; f_text : result string }.
Definition fetch_result : Type := result fetch_response.
Definition AbortError (msg : string) : error := ErrSentinel "AbortError" msg.

(** [Number(s)] as text, and [Buffer.from(v, "base64")] of what is not a string. *)
Class NodeEngine := { Number_text : string → string; Buffer_from : json → result string; null_member : error }.

Section node_client.
Context `{Eng : !JsEngine, NEng : !NodeEngine}.

Definition DEFAULT_TIMEOUT_MS : Z := 30000.
Record NodeClient := mkNodeClient { signPort : string; timeoutMs : Z }.
Definition new_NodeClient (port : string) (timeout : option Z) : NodeClient :=
  mkNodeClient (Number_text port) (default DEFAULT_TIMEOUT_MS timeout).
Definition baseUrl (c : NodeClient) : string := "http://localhost:" +:+ signPort c.

Context (c : NodeClient).

(** A request to a URL with a JSON body. *)
Definition fetch : Type := string → string → fetch_result.

(** The catch clause of [post]. *)
Definition rethrow (path : string) (e : error) : error :=
  match e with
  | ErrSentinel "AbortError" _ =>
    ErrMsg ("node request to " +:+ path +:+ " timed out after " +:+ itoa (timeoutMs c) +:+ "ms")
  | e => e
  end.
(** [res.ok] *)
Definition ok_status (status : Z) : bool := (200 <=? status)%Z && (status <=? 299)%Z.
Definition post (fetch : fetch) (path : string) (payload : json) : result json :=
  match fetch (baseUrl c +:+ path) (JSON_stringify payload) with
  | Err e => Err (rethrow path e)
  | Ok res =>
    match f_text res with
    | Err e => Err (rethrow path e)
    | Ok text =>
      if ok_status (f_status res) then
        match JSON_parse text with
        | Some v => Ok v
        | None => Err (SyntaxError text)
        end
      else Err (ErrMsg ("node returned " +:+ itoa (f_status res) +:+ " for " +:+ path +:+ ": " +:+ text))
    end
  end.

Definition decrypt_payload (ciphertext : string) : json := JObj [("encryptedMessage", JStr (base64_encode ciphertext))].
(** [Buffer.from(encoded, "base64")] *)
Definition from_base64 (v : json) : result string :=
  match v with JStr s => Ok (base64_decode s) | v => Buffer_from v end.
Definition decrypt (fetch : fetch) (ciphertext : string) : result string :=
  match post fetch "/decrypt" (decrypt_payload ciphertext) with
  | Err e => Err e
  | Ok JNull => Err null_member
  | Ok resp =>
    match prop "decryptedMessage" resp with
    | None => Err (ErrMsg "node response missing decryptedMessage")
    | Some encoded => from_base64 encoded
    end
  end.

(** ** Properties *)

(** What the node answers, as Go marshals its response. *)
Definition node_reply (plaintext : string) : string := json_compact (JObj [("decryptedMessage", JStr (base64_encode plaintext))]).

Lemma node_reply_read plaintext :
  JSON_parse (node_reply plaintext) = Some (JObj [("decryptedMessage", JStr (base64_encode plaintext))]).
Proof using.
  unfold JSON_parse, json_text, node_reply. rewrite (json_first_compact js_dialect) by (first [reflexivity|apply base64_printable]).
  reflexivity.
Qed.

(** C36: decryption, with every failure.  The client makes one request, whose body
    has the ciphertext in base64.  It returns a plaintext exactly when the node
    answers in time with a status from 200 to 299 and a JSON value that has a
    member decryptedMessage that can be read as base64; the plaintext is what the
    node sent, as Go marshals it.  A rejected request, a slow node, another status
    and an answer without the member are exceptions that name the cause. *)
Theorem decrypt_outcome (f : fetch) (ciphertext : string) :
  base64_decode (base64_encode ciphertext) = ciphertext ∧
  let r := f (baseUrl c +:+ "/decrypt") (JSON_stringify (decrypt_payload ciphertext)) in
  (∀ m, decrypt f ciphertext = Ok m ↔
     ∃ status text v encoded, r = Ok (mkFetchResponse status (Ok text)) ∧ ok_status status = true ∧
       JSON_parse text = Some v ∧ prop "decryptedMessage" v = Some encoded ∧ from_base64 encoded = Ok m) ∧
  (∀ status plaintext, r = Ok (mkFetchResponse status (Ok (node_reply plaintext))) → ok_status status = true →
     decrypt f ciphertext = Ok plaintext) ∧
  (∀ msg, r = Err (AbortError msg) →
     decrypt f ciphertext = Err (ErrMsg ("node request to /decrypt timed out after " +:+ itoa (timeoutMs c) +:+ "ms"))) ∧
  (∀ status text, r = Ok (mkFetchResponse status (Ok text)) → ok_status status = false →
     decrypt f ciphertext = Err (ErrMsg ("node returned " +:+ itoa status +:+ " for /decrypt: " +:+ text))) ∧
  (∀ status text v, r = Ok (mkFetchResponse status (Ok text)) → ok_status status = true → JSON_parse text = Some v →
     v ≠ JNull → prop "decryptedMessage" v = None →
     decrypt f ciphertext = Err (ErrMsg "node response missing decryptedMessage")).
Proof using.
  split; [apply base64_decode_encode|]. cbv zeta. unfold decrypt, post. set (r := f _ _). split_and!.
  - intros m. split.
    + destruct r as [[status [text|e]]|e]; cbn [f_text f_status]; [|done|done].
      destruct (ok_status status) eqn:Hok; [|done]. destruct (JSON_parse text) as [v|] eqn:Hv; [|done].
      intros H. assert (∃ encoded, prop "decryptedMessage" v = Some encoded ∧ from_base64 encoded = Ok m) as (encoded & Hp & Hb).
      { destruct v; [done|..]; (destruct (prop _ _) as [encoded|]; [|done]); by exists encoded. }
      by exists status, text, v, encoded.
    + intros (status & text & v & encoded & -> & Hok & Hv & Hp & Hb). cbn [f_text f_status]. rewrite Hok, Hv.
      destruct v; [done|..]; by rewrite Hp.
  - intros status plaintext -> Hok. cbn [f_text f_status]. rewrite Hok, node_reply_read.
    change (prop _ _) with (Some (JStr (base64_encode plaintext))). cbn [from_base64]. by rewrite base64_decode_encode.
  - by intros msg ->.
  - intros status text -> Hok. cbn [f_text f_status]. by rewrite Hok.
  - intros status text v -> Hok Hv Hn Hp. cbn [f_text f_status]. rewrite Hok, Hv. destruct v; [done|..]; by rewrite Hp.
Qed.
End node_client.

(** ** Witness

    A node that decrypts every ciphertext to itself, and one that is too slow. *)

#[local] Instance demo_js_engine : JsEngine := {|
  number_is_zero raw := bool_decide (raw = "0");
  number_text raw := raw;
  syntax_error _ := "Unexpected token";
  not_a_function callee := callee +:+ " is not a function";
  not_primitive := "Cannot convert object to primitive value";
|}.
#[local] Instance demo_node_engine : NodeEngine := {|
  Number_text s := s;
  Buffer_from _ := Err (ErrSentinel "TypeError" "ERR_INVALID_ARG_TYPE");
  null_member := ErrSentinel "TypeError" "Cannot read properties of null";
|}.
Definition demo_client : NodeClient := new_NodeClient "9090" None.
Definition answers_with (plaintext : string) : fetch := λ url body,
  if decide (url = "http://localhost:9090/decrypt") then Ok (mkFetchResponse 200 (Ok (node_reply plaintext)))
  else Err (AbortError "This operation was aborted").
Lemma decrypt_outcome_witness :
  decrypt demo_client (answers_with "a bid") "sealed" = Ok "a bid" ∧
  decrypt demo_client (λ _ _, Err (AbortError "aborted")) "sealed" =
    Err (ErrMsg "node request to /decrypt timed out after 30000ms").
Proof.
  split.
  - destruct (decrypt_outcome demo_client (answers_with "a bid") "sealed") as (_ & _ & H & _).
    apply (H 200%Z "a bid"); vm_compute; reflexivity.
  - destruct (decrypt_outcome demo_client (λ _ _, Err (AbortError "aborted")) "sealed") as (_ & _ & _ & H & _).
    rewrite (H "aborted" eq_refl). vm_compute. reflexivity.
Defined.
