(* ===== verification/TsQueue.v ===== *)
(** * The TypeScript server's queue: [serialize] in typescript/src/base/server.ts

    Node runs one thing at a time, but a handler that waits for the node's decryption
    lets other requests in.  [serialize] chains promises: each call runs once the
    promise of the call before it has settled.  Here the chain is a step relation
    over those promises. *)

From S2P Require Import Prelude GoStrings GoText Json Js TsServer.
From stdpp Require Import options.
Set Default Proof Using "Type*".

Section queue.
Context `{Eng : !JsEngine} {E S : Type} (srv : Server E S).

(** [const run = this.queue.then(fn, fn); this.queue = run.then(...)]: the promise
    the call waits for, what it is to do, and how far it is.  A result is what the
    request is to be answered with, which takes in the rest of [processAction].  [Tailed] is when the
    second promise, which never rejects, has settled too. *)
Inductive run_status :=
  | Pending
  | Invoked (env : E) (before : S)
  | Settled (r : result answer)
  | Tailed (r : result answer).
Record run := mkRun { after : option nat; todo : plan E S; progress : run_status }.

(** [this.queue] is the initial, resolved promise, or the second promise of a run.
    [thrown] is set when a request's promise was rejected, which nothing handles. *)
Record loop := mkLoop {
  memory : S;
  queue : option nat;
  runs : gmap nat run;
  replies : gmap nat answer;
  thrown : bool;
  crashed : bool;
}.
Definition loop_start (s : S) : loop := mkLoop s None ∅ ∅ false false.

Definition set_run (t : nat) (st : run_status) (r : run) (l : loop) : gmap nat run :=
  <[t := mkRun (after r) (todo r) st]> (runs l).
Definition tail_settled (l : loop) (p : option nat) : Prop :=
  match p with
  | None => True
  | Some t => ∃ r res, runs l !! t = Some r ∧ progress r = Tailed res
  end.
Definition queued (p : plan E S) : bool :=
  match p with CallHandler _ _ _ | ReportState _ => true | _ => false end.
(** A request the server has not seen. *)
Definition fresh_request (t : nat) (l : loop) : Prop := runs l !! t = None ∧ replies l !! t = None.

Inductive loop_step (l : loop) : loop → Prop :=
  (** [serve], up to [serialize] *)
  | loop_answers t method path body a :
      crashed l = false → fresh_request t l → serve_plan srv method path body = Answer a →
      loop_step l (mkLoop (memory l) (queue l) (runs l) (<[t := a]> (replies l)) (thrown l) (crashed l))
  | loop_throws t method path body e :
      crashed l = false → fresh_request t l → serve_plan srv method path body = Throw e →
      loop_step l (mkLoop (memory l) (queue l) (runs l) (replies l) true (crashed l))
  | loop_queues t method path body p :
      crashed l = false → fresh_request t l → serve_plan srv method path body = p → queued p = true →
      loop_step l (mkLoop (memory l) (Some t) (<[t := mkRun (queue l) p Pending]> (runs l)) (replies l)
                     (thrown l) (crashed l))
  (** the call, what it does to the memory while it runs, and its end *)
  | loop_invokes t r env :
      crashed l = false → runs l !! t = Some r → progress r = Pending → tail_settled l (after r) →
      loop_step l (mkLoop (memory l) (queue l) (set_run t (Invoked env (memory l)) r l) (replies l) (thrown l) (crashed l))
  | loop_touches t r env s m :
      crashed l = false → runs l !! t = Some r → progress r = Invoked env s →
      loop_step l (mkLoop m (queue l) (runs l) (replies l) (thrown l) (crashed l))
  | loop_settles t r env s res s' :
      crashed l = false → runs l !! t = Some r → progress r = Invoked env s → run_plan srv (todo r) env s = (res, s') →
      loop_step l (mkLoop s' (queue l) (set_run t (Settled res) r l) (replies l) (thrown l) (crashed l))
  | loop_tails t r res :
      crashed l = false → runs l !! t = Some r → progress r = Settled res →
      loop_step l (mkLoop (memory l) (queue l) (set_run t (Tailed res) r l) (replies l) (thrown l) (crashed l))
  (** the rest of [processAction] and [serve] *)
  | loop_replies t r a :
      crashed l = false → runs l !! t = Some r → progress r = Settled (Ok a) ∨ progress r = Tailed (Ok a) →
      loop_step l (mkLoop (memory l) (queue l) (runs l) (<[t := a]> (replies l)) (thrown l) (crashed l))
  | loop_rejects t r e :
      crashed l = false → runs l !! t = Some r → progress r = Settled (Err e) ∨ progress r = Tailed (Err e) →
      loop_step l (mkLoop (memory l) (queue l) (runs l) (replies l) true (crashed l))
  (** Node ends a process with an unhandled rejection *)
  | loop_crashes :
      thrown l = true → loop_step l (mkLoop (memory l) (queue l) (runs l) (replies l) (thrown l) true).

Definition loop_reachable (l : loop) : Prop := ∃ s, rtc loop_step (loop_start s) l.

(** ** One after the other *)

(** Calls in order, each on the memory the one before it left. *)
Fixpoint replay (s : S) (calls : list (nat * plan E S * E)) : list (result answer) * S :=
  match calls with
  | [] => ([], s)
  | (_, p, env) :: calls =>
    let '(r, s) := run_plan srv p env s in
    let '(rs, s) := replay s calls in (r :: rs, s)
  end.
Lemma replay_snoc s calls t p env :
  replay s (calls ++ [(t, p, env)]) =
  let '(rs, s1) := replay s calls in let '(r, s2) := run_plan srv p env s1 in (rs ++ [r], s2).
Proof.
  revert s. induction calls as [|[[t' p'] env'] calls IH]; intros s; cbn.
  - by destruct (run_plan srv p env s).
  - destruct (run_plan srv p' env' s) as [r' s']. rewrite IH. destruct (replay s' calls) as [rs s1].
    by destruct (run_plan srv p env s1).
Qed.
Lemma replay_length s calls : length (replay s calls).1 = length calls.
Proof.
  revert s. induction calls as [|[[t p] env] calls IH]; intros s; cbn; [done|].
  destruct (run_plan srv p env s) as [r s']. specialize (IH s'). destruct (replay s' calls). cbn in *. by f_equal.
Qed.

Definition called (calls : list (nat * plan E S * E)) : list nat := (λ c, fst (fst c)) <$> calls.

(** The calls of [order], in which they arrived, are waiting on one another; those of
    [calls] are settled as if made one after the other from [s]; at most one runs,
    on what they left; nobody else has touched the memory. *)
Definition settled_as (l : loop) (t : nat) (p : plan E S) (res : result answer) : Prop :=
  ∃ r, runs l !! t = Some r ∧ todo r = p ∧ (progress r = Settled res ∨ progress r = Tailed res).
Record serialized (s : S) (l : loop) (order : list nat) (calls : list (nat * plan E S * E)) (current : list nat) : Prop := {
  ser_nodup : NoDup order;
  ser_runs t : is_Some (runs l !! t) ↔ t ∈ order;
  ser_queue : queue l = last order;
  ser_after i t r : order !! i = Some t → runs l !! t = Some r →
    after r = match i with O => None | Datatypes.S j => order !! j end;
  ser_fifo : ∃ waiting, order = (called calls ++ current) ++ waiting ∧
    ∀ t, t ∈ waiting → ∃ r, runs l !! t = Some r ∧ progress r = Pending;
  ser_settled i t p env res : calls !! i = Some (t, p, env) → (replay s calls).1 !! i = Some res →
    settled_as l t p res;
  ser_current :
    match current with
    | [] => memory l = (replay s calls).2
    | [t] => ∃ r env, runs l !! t = Some r ∧ progress r = Invoked env (replay s calls).2
    | _ => False
    end;
}.

(** Replacing the status of a run. *)
Lemma set_run_lookup l t r st t' :
  runs l !! t = Some r →
  set_run t st r l !! t' = if decide (t' = t) then Some (mkRun (after r) (todo r) st) else runs l !! t'.
Proof.
  intros Hr. unfold set_run. case_decide as Ht; [subst; by rewrite lookup_insert_eq|by rewrite lookup_insert_ne].
Qed.
Lemma set_run_dom l t r st t' : runs l !! t = Some r → is_Some (set_run t st r l !! t') ↔ is_Some (runs l !! t').
Proof. intros Hr. rewrite (set_run_lookup _ _ _ _ _ Hr). case_decide; [subst; rewrite Hr|done]. by split; eauto. Qed.

Section one.
Context (s : S) (l : loop) (order : list nat) (calls : list (nat * plan E S * E)) (current : list nat).
Context (Hs : serialized s l order calls current).

Lemma ser_elem t : t ∈ order → t ∈ called calls ∨ t ∈ current ∨ (∃ r, runs l !! t = Some r ∧ progress r = Pending).
Proof.
  destruct (ser_fifo _ _ _ _ _ Hs) as (waiting & -> & Hw). rewrite !elem_of_app. intros [[?|?]|?]; auto.
Qed.
Lemma ser_called t r : t ∈ called calls → runs l !! t = Some r → ∃ res, progress r = Settled res ∨ progress r = Tailed res.
Proof.
  unfold called. rewrite list_elem_of_fmap. intros ([[t' p] env] & -> & Ht) Hr. cbn in Hr.
  apply list_elem_of_lookup in Ht as [i Hi].
  destruct ((replay s calls).1 !! i) as [res|] eqn:Hres.
  - destruct (ser_settled _ _ _ _ _ Hs _ _ _ _ _ Hi Hres) as (r' & Hr' & _ & Hp). exists res. congruence.
  - apply lookup_ge_None in Hres. rewrite replay_length in Hres. apply lookup_lt_Some in Hi. lia.
Qed.
Lemma ser_status t r :
  runs l !! t = Some r →
  match progress r with
  | Pending => (t ∉ called calls) ∧ (t ∉ current)
  | Invoked env m => current = [t] ∧ m = (replay s calls).2
  | Settled _ | Tailed _ => t ∈ called calls
  end.
Proof.
  intros Hr. assert (t ∈ order) as Ht by by apply (ser_runs _ _ _ _ _ Hs), (mk_is_Some _ r).
  pose proof (ser_called t r) as Hcal. pose proof (ser_current _ _ _ _ _ Hs) as Hcur.
  assert (t ∈ current → ∃ env, current = [t] ∧ progress r = Invoked env (replay s calls).2) as Hcr.
  { intros Htc. destruct current as [|t' [|? ?]]; [by apply elem_of_nil in Htc| |done].
    apply list_elem_of_singleton in Htc as <-. destruct Hcur as (r' & env & Hr' & Hp). exists env. split; [done|congruence]. }
  destruct (ser_elem t Ht) as [Hc|[Hc|(r' & Hr' & Hp)]].
  - destruct (Hcal Hc Hr) as [res [-> | ->]]; done.
  - destruct (Hcr Hc) as (env & -> & ->). done.
  - assert (progress r = Pending) as -> by congruence. split; intros Hc.
    + destruct (Hcal Hc Hr) as [res [?|?]]; congruence.
    + destruct (Hcr Hc) as (env & _ & ?). congruence.
Qed.

(** Only the first waiting call can start. *)
Lemma ser_next t r :
  runs l !! t = Some r → progress r = Pending → tail_settled l (after r) →
  current = [] ∧ ∃ waiting, order = called calls ++ t :: waiting ∧
    ∀ t', t' ∈ t :: waiting → ∃ r, runs l !! t' = Some r ∧ progress r = Pending.
Proof.
  intros Hr Hp Hta. pose proof (ser_status _ _ Hr) as Hst. rewrite Hp in Hst. destruct Hst as [Hnc Hnu].
  destruct (ser_fifo _ _ _ _ _ Hs) as (waiting & Ho & Hw).
  assert (t ∈ waiting) as [i Hi]%list_elem_of_lookup.
  { assert (t ∈ order) as Ht by by apply (ser_runs _ _ _ _ _ Hs), (mk_is_Some _ r). rewrite Ho in Ht. set_solver. }
  set (n := length (called calls ++ current)).
  assert (order !! (n + i) = Some t) as Hni by (by rewrite Ho, lookup_app_r, Nat.add_comm, Nat.add_sub by lia).
  pose proof (ser_after _ _ _ _ _ Hs _ _ _ Hni Hr) as Haf. destruct i as [|i].
  - rewrite Nat.add_0_r in *. assert (current = []) as Hcur; [|split; [done|]].
    + destruct current as [|u rest] eqn:Hcu; [done|]. exfalso. pose proof (ser_current _ _ _ _ _ Hs) as Hc.
      destruct rest; [|done]. destruct Hc as (ru & env & Hru & Hpu).
      unfold n in Haf. rewrite length_app, Nat.add_comm in Haf. cbn in Haf.
      assert (order !! length (called calls) = Some u) as Hu.
      { rewrite Ho, lookup_app_l by (rewrite length_app; cbn; lia). by rewrite lookup_app_r, Nat.sub_diag by lia. }
      rewrite Haf, Hu in Hta. destruct Hta as (ru' & res & Hru' & Hpu'). congruence.
    + destruct waiting as [|t' waiting]; [done|]. injection Hi as ->. exists waiting. split; [|done].
      by rewrite Ho, Hcur, app_nil_r.
  - exfalso. replace (n + Datatypes.S i) with (Datatypes.S (n + i)) in Haf by lia. rewrite Haf in Hta.
    assert (is_Some (waiting !! i)) as [u Hu] by (apply lookup_lt_is_Some; apply lookup_lt_Some in Hi; lia).
    assert (order !! (n + i) = Some u) as Hou by (by rewrite Ho, lookup_app_r, Nat.add_comm, Nat.add_sub by lia).
    rewrite Hou in Hta. destruct Hta as (ru & res & Hru & Hpu).
    destruct (Hw u) as (ru' & Hru' & Hpu'); [by eapply list_elem_of_lookup_2|]. congruence.
Qed.

Lemma ser_same l' :
  memory l' = memory l → queue l' = queue l → runs l' = runs l → serialized s l' order calls current.
Proof.
  intros Hm Hq Hru. destruct Hs as [H1 H2 H3 H4 H5 H6 H7]. unfold settled_as in H6.
  split; unfold settled_as; rewrite ?Hm, ?Hq, ?Hru; done.
Qed.

Lemma ser_enqueued t p :
  runs l !! t = None →
  serialized s (mkLoop (memory l) (Some t) (<[t := mkRun (queue l) p Pending]> (runs l)) (replies l) (thrown l) (crashed l))
    (order ++ [t]) calls current.
Proof.
  intros Hn. assert (t ∉ order) as Ht by (rewrite <- (ser_runs _ _ _ _ _ Hs), Hn; by intros [? ?]).
  assert (∀ t', t' ∈ order → t' ≠ t) as Hne by (by intros t' ? ->).
  split; cbn [memory queue runs replies].
  - apply NoDup_app. split_and!; [apply Hs|set_solver|apply NoDup_singleton].
  - intros t'. rewrite elem_of_app, list_elem_of_singleton, <- (ser_runs _ _ _ _ _ Hs).
    destruct (decide (t' = t)) as [->|]; [rewrite lookup_insert_eq; naive_solver|].
    rewrite lookup_insert_ne by done. naive_solver.
  - by rewrite last_snoc.
  - intros i t' r Hi Hr. apply lookup_app_Some in Hi as [Hi|[Hi Hit]].
    + rewrite lookup_insert_ne in Hr by (by apply not_eq_sym, Hne, list_elem_of_lookup_2 with i).
      rewrite (ser_after _ _ _ _ _ Hs _ _ _ Hi Hr). destruct i as [|i]; [done|].
      apply lookup_lt_Some in Hi. by rewrite lookup_app_l by lia.
    + apply list_lookup_singleton_Some in Hit as [Hz <-]. rewrite lookup_insert_eq in Hr. injection Hr as <-. cbn.
      rewrite (ser_queue _ _ _ _ _ Hs), last_lookup. replace i with (length order) by lia.
      destruct (length order) as [|n] eqn:Hl; [by destruct order|]. cbn. by rewrite lookup_app_l by lia.
  - destruct (ser_fifo _ _ _ _ _ Hs) as (waiting & Ho & Hw). exists (waiting ++ [t]). split; [by rewrite Ho, (assoc_L (++))|].
    intros t' [Ht'|Ht']%elem_of_app.
    + destruct (Hw t' Ht') as (r & Hr & Hp). exists r. rewrite lookup_insert_ne by congruence. done.
    + apply list_elem_of_singleton in Ht' as ->. rewrite lookup_insert_eq. by eexists.
  - intros i t' p' env res Hi Hr. destruct (ser_settled _ _ _ _ _ Hs _ _ _ _ _ Hi Hr) as (r & Hr' & ?).
    exists r. cbn. rewrite lookup_insert_ne by congruence. done.
  - pose proof (ser_current _ _ _ _ _ Hs) as Hc. destruct current as [|t' [|]]; [done| |done].
    destruct Hc as (r & env & Hr & ?). exists r, env. rewrite lookup_insert_ne by congruence. done.
Qed.

Lemma ser_invoked t r env :
  runs l !! t = Some r → progress r = Pending → tail_settled l (after r) →
  serialized s (mkLoop (memory l) (queue l) (set_run t (Invoked env (memory l)) r l) (replies l) (thrown l) (crashed l))
    order calls [t].
Proof.
  intros Hr Hp Hta. destruct (ser_next _ _ Hr Hp Hta) as (Hcur & waiting & Ho & Hw).
  pose proof (ser_current _ _ _ _ _ Hs) as Hm. rewrite Hcur in Hm.
  pose proof (ser_nodup _ _ _ _ _ Hs) as Hnd. rewrite Ho in Hnd. apply NoDup_app in Hnd as (_ & Hd & [Htw _]%NoDup_cons).
  split; cbn [memory queue runs replies]; try apply Hs.
  - intros t'. rewrite (set_run_dom _ _ _ _ _ Hr). apply Hs.
  - intros i t' r' Hi. rewrite (set_run_lookup _ _ _ _ _ Hr). case_decide as Hd'; [|intros Hr'; by apply (ser_after _ _ _ _ _ Hs _ _ _ Hi)].
    intros [= <-]. rewrite Hd' in Hi. exact (ser_after _ _ _ _ _ Hs _ _ _ Hi Hr).
  - exists waiting. split; [by rewrite Ho, <- (assoc_L (++))|]. intros t' Ht'.
    rewrite (set_run_lookup _ _ _ _ _ Hr), decide_False by congruence. apply Hw. by right.
  - intros i t' p env' res Hi Hres. destruct (ser_settled _ _ _ _ _ Hs _ _ _ _ _ Hi Hres) as (r' & Hr' & ? & Hpr).
    exists r'. cbn. rewrite (set_run_lookup _ _ _ _ _ Hr), decide_False; [done|]. intros ->. destruct Hpr; congruence.
  - eexists _, env. rewrite (set_run_lookup _ _ _ _ _ Hr), decide_True by done. split; [done|]. cbn. by rewrite Hm.
Qed.

Lemma ser_settles t r env m res s' :
  runs l !! t = Some r → progress r = Invoked env m → run_plan srv (todo r) env m = (res, s') →
  serialized s (mkLoop s' (queue l) (set_run t (Settled res) r l) (replies l) (thrown l) (crashed l))
    order (calls ++ [(t, todo r, env)]) [].
Proof.
  intros Hr Hp Hrun. pose proof (ser_status _ _ Hr) as Hst. rewrite Hp in Hst. destruct Hst as [Hcur ->].
  destruct (ser_fifo _ _ _ _ _ Hs) as (waiting & Ho & Hw). rewrite Hcur in Ho.
  pose proof (replay_snoc s calls t (todo r) env) as Hre. destruct (replay s calls) as [rs s1] eqn:Hrs. cbn in Hrun.
  rewrite Hrun in Hre.
  split; cbn [memory queue runs replies]; try apply Hs.
  - intros t'. rewrite (set_run_dom _ _ _ _ _ Hr). apply Hs.
  - intros i t' r' Hi. rewrite (set_run_lookup _ _ _ _ _ Hr). case_decide as Hd'; [|intros Hr'; by apply (ser_after _ _ _ _ _ Hs _ _ _ Hi)].
    intros [= <-]. rewrite Hd' in Hi. exact (ser_after _ _ _ _ _ Hs _ _ _ Hi Hr).
  - exists waiting. split; [unfold called; by rewrite Ho, fmap_app, app_nil_r|]. intros t' Ht'.
    destruct (Hw t' Ht') as (r' & Hr' & Hp'). exists r'. rewrite (set_run_lookup _ _ _ _ _ Hr), decide_False by congruence.
    done.
  - intros i t' p env' res' Hi Hres. rewrite Hre in Hres. cbn in Hres.
    pose proof (replay_length s calls) as Hlen. rewrite Hrs in Hlen. cbn in Hlen.
    apply lookup_app_Some in Hi as [Hi|[Hi Hi']].
    + assert (i < length calls) by by eapply lookup_lt_Some. rewrite lookup_app_l in Hres by lia.
      destruct (ser_settled _ _ _ _ _ Hs i t' p env' res' Hi) as (r' & Hr' & ? & Hpr); [by rewrite Hrs|].
      exists r'. cbn. rewrite (set_run_lookup _ _ _ _ _ Hr), decide_False; [done|]. intros ->. destruct Hpr; congruence.
    + apply list_lookup_singleton_Some in Hi' as [Hz [= <- <- <-]].
      rewrite lookup_app_r in Hres by lia. replace (i - length rs) with 0 in Hres by lia. injection Hres as <-.
      eexists. cbn. rewrite (set_run_lookup _ _ _ _ _ Hr), decide_True by done. split_and!; auto.
  - by rewrite Hre.
Qed.

Lemma ser_tailed t r res :
  runs l !! t = Some r → progress r = Settled res →
  serialized s (mkLoop (memory l) (queue l) (set_run t (Tailed res) r l) (replies l) (thrown l) (crashed l))
    order calls current.
Proof.
  intros Hr Hp. split; cbn [memory queue runs replies]; try apply Hs.
  - intros t'. rewrite (set_run_dom _ _ _ _ _ Hr). apply Hs.
  - intros i t' r' Hi. rewrite (set_run_lookup _ _ _ _ _ Hr). case_decide as Hd'; [|intros Hr'; by apply (ser_after _ _ _ _ _ Hs _ _ _ Hi)].
    intros [= <-]. rewrite Hd' in Hi. exact (ser_after _ _ _ _ _ Hs _ _ _ Hi Hr).
  - destruct (ser_fifo _ _ _ _ _ Hs) as (waiting & Ho & Hw). exists waiting. split; [done|]. intros t' Ht'.
    destruct (Hw t' Ht') as (r' & Hr' & Hp'). exists r'. rewrite (set_run_lookup _ _ _ _ _ Hr), decide_False by congruence.
    done.
  - intros i t' p env' res' Hi Hres. destruct (ser_settled _ _ _ _ _ Hs i t' p env' res' Hi Hres) as (r' & Hr' & Ht & Hpr).
    unfold settled_as. cbn. rewrite (set_run_lookup _ _ _ _ _ Hr). case_decide as Hd; [subst t'|by exists r'].
    eexists. split; [done|]. cbn. rewrite Hr in Hr'. injection Hr' as <-. split; [done|]. right. f_equal.
    destruct Hpr; congruence.
  - pose proof (ser_current _ _ _ _ _ Hs) as Hc. destruct current as [|t' [|]]; [done| |done].
    destruct Hc as (r' & env & Hr' & Hp'). exists r', env. rewrite (set_run_lookup _ _ _ _ _ Hr), decide_False by congruence.
    done.
Qed.
End one.

(** Every step keeps the order and the settled calls, and adds to them. *)
Lemma serialized_step s l l' order calls current :
  serialized s l order calls current → loop_step l l' →
  ∃ more calls' current', serialized s l' (order ++ more) (calls ++ calls') current'.
Proof.
  intros Hs Hstep. destruct Hstep as [t method path body a _ _ _|t method path body e _ _ _|t method path body p _ [Hf _] _ _
    |t r env _ Hr Hp Ht|t r env m0 m _ Hr Hp|t r env m res s' _ Hr Hp Hrun|t r res _ Hr Hp|t r a _ Hr Hp|t r e _ Hr Hp|Hth].
  - exists [], [], current. rewrite !app_nil_r. by eapply ser_same.
  - exists [], [], current. rewrite !app_nil_r. by eapply ser_same.
  - exists [t], [], current. rewrite app_nil_r. by apply ser_enqueued.
  - exists [], [], [t]. rewrite !app_nil_r. by eapply ser_invoked.
  - exists [], [], current. rewrite !app_nil_r. pose proof (ser_status _ _ _ _ _ Hs _ _ Hr) as Hst. rewrite Hp in Hst.
    destruct Hst as [Hcur _]. destruct Hs as [H1 H2 H3 H4 H5 H6 H7]. subst current. by split.
  - exists [], [(t, todo r, env)], []. rewrite app_nil_r. by eapply ser_settles.
  - exists [], [], current. rewrite !app_nil_r. by eapply ser_tailed.
  - exists [], [], current. rewrite !app_nil_r. by eapply ser_same.
  - exists [], [], current. rewrite !app_nil_r. by eapply ser_same.
  - exists [], [], current. rewrite !app_nil_r. by eapply ser_same.
Qed.
Lemma serialized_start s : serialized s (loop_start s) [] [] [].
Proof.
  split; cbn; try done; [apply NoDup_nil_2| |exists []; split; [done|]].
  - intros t. rewrite lookup_empty. split; [by intros [? ?]|by intros ?%elem_of_nil].
  - by intros t ?%elem_of_nil.
Qed.
Lemma serialized_steps s l l' order calls current :
  serialized s l order calls current → rtc loop_step l l' →
  ∃ more calls' current', serialized s l' (order ++ more) (calls ++ calls') current'.
Proof.
  intros Hs Hl. revert order calls current Hs. induction Hl as [l|l l1 l' H1 _ IH]; intros order calls current Hs.
  - exists [], [], current. by rewrite !app_nil_r.
  - destruct (serialized_step _ _ _ _ _ _ Hs H1) as (m1 & c1 & u1 & Hs1).
    destruct (IH _ _ _ Hs1) as (m2 & c2 & u2 & Hs2). exists (m1 ++ m2), (c1 ++ c2), u2. by rewrite !(assoc_L (++)).
Qed.

Lemma reachable_serialized l : loop_reachable l → ∃ s order calls current, serialized s l order calls current.
Proof.
  intros [s Hl]. destruct (serialized_steps _ _ _ _ _ _ (serialized_start s) Hl) as (o & c & u & H).
  by exists s, o, c, u.
Qed.

(** ** The calls that are left *)

Definition remaining (r : run) : Z :=
  match progress r with Pending => 3 | Invoked _ _ => 2 | Settled _ => 1 | Tailed _ => 0 end.
(** A step of a call that is queued. *)
Definition work (l l' : loop) : Prop :=
  loop_step l l' ∧ dom (runs l') = dom (runs l) ∧ runs l' ≠ runs l.

Lemma work_set l l' :
  work l l' → ∃ t r st, runs l !! t = Some r ∧ runs l' = set_run t st r l ∧ crashed l' = crashed l ∧
    (remaining (mkRun (after r) (todo r) st) < remaining r)%Z.
Proof.
  intros (Hstep & Hdom & Hne). destruct Hstep as [| |t method path body p _ [Hf _] _ _
    |t r env _ Hr Hp Ht| |t r env m res s' _ Hr Hp Hrun|t r res _ Hr Hp| | |]; try done; cbn [runs crashed] in *.
  - exfalso. rewrite dom_insert_L in Hdom. apply not_elem_of_dom in Hf. set_solver.
  - exists t, r, (Invoked env (memory l)). split_and!; try done. unfold remaining. rewrite Hp. cbn. lia.
  - exists t, r, (Settled res). split_and!; try done. unfold remaining. rewrite Hp. cbn. lia.
  - exists t, r, (Tailed res). split_and!; try done. unfold remaining. rewrite Hp. cbn. lia.
Qed.
Lemma queue_work_decreases l l' : work l l' → (total remaining (runs l') < total remaining (runs l))%Z.
Proof.
  intros (t & r & st & Hr & -> & _ & Hlt)%work_set. unfold set_run. rewrite total_insert, Hr. cbn. lia.
Qed.
Lemma queue_work_steps n l l' :
  nsteps work n l l' → (Z.of_nat n + total remaining (runs l') ≤ total remaining (runs l))%Z ∧ crashed l' = crashed l.
Proof.
  induction 1 as [l|n l1 l2 l3 Hw _ [IH Hc]]; [split; [lia|done]|]. pose proof (queue_work_decreases _ _ Hw).
  apply work_set in Hw as (? & ? & ? & _ & _ & Hc' & _). split; [lia|congruence].
Qed.
Lemma work_loop_steps n l l' : nsteps work n l l' → rtc loop_step l l'.
Proof. induction 1 as [l|n l1 l2 l3 [Hw _] _ IH]; [done|by eapply rtc_l]. Qed.
Lemma remaining_bound (m : gmap nat run) : (0 ≤ total remaining m ≤ 3 * Z.of_nat (size m))%Z.
Proof.
  assert (∀ r, 0 ≤ remaining r ≤ 3)%Z as Hb by (intros r; unfold remaining; case_match; lia).
  induction m as [|t r m Hm IH] using map_ind; [by rewrite total_empty|].
  rewrite total_insert_new, map_size_insert_None by done. specialize (Hb r). lia.
Qed.

Lemma set_work t r st l l' :
  loop_step l l' → runs l !! t = Some r → runs l' = set_run t st r l → progress r ≠ st → work l l'.
Proof.
  intros Hstep Hr Hl Hne. split; [done|]. rewrite Hl. split.
  - unfold set_run. rewrite dom_insert_L. apply elem_of_dom_2 in Hr. set_solver.
  - intros Heq. assert (set_run t st r l !! t = runs l !! t) as H by by rewrite Heq.
    rewrite (set_run_lookup _ _ _ _ _ Hr), decide_True, Hr in H by done. injection H as H. apply Hne. by rewrite <- H.
Qed.

Definition tailed (l : loop) (t : nat) : bool :=
  match runs l !! t with Some r => match progress r with Tailed _ => true | _ => false end | None => false end.
Lemma tailed_true l t : tailed l t = true ↔ ∃ r res, runs l !! t = Some r ∧ progress r = Tailed res.
Proof.
  unfold tailed. split.
  - destruct (runs l !! t) as [r|]; [|done]. destruct (progress r) eqn:Hp; try done. intros _. eauto.
  - by intros (r & res & -> & ->).
Qed.

(** Some call can go on as long as one is not over. *)
Lemma queue_progress `{!Inhabited E} l t r :
  loop_reachable l → crashed l = false → runs l !! t = Some r → (∀ res, progress r ≠ Tailed res) → ∃ l', work l l'.
Proof.
  intros Hl Hcr Hr Hnt. destruct (reachable_serialized _ Hl) as (s & order & calls & current & Hs).
  destruct current as [|u rest] eqn:Hcu.
  - destruct (decide (Forall (λ t, tailed l t = true) (called calls))) as [Hall|Hex].
    + destruct (ser_fifo _ _ _ _ _ Hs) as (waiting & Ho & Hw). rewrite app_nil_r in Ho.
      destruct waiting as [|h waiting].
      * exfalso. rewrite app_nil_r in Ho. assert (t ∈ called calls) as Ht.
        { rewrite <- Ho. by apply (ser_runs _ _ _ _ _ Hs), (mk_is_Some _ r). }
        rewrite Forall_forall in Hall. apply Hall, tailed_true in Ht as (r' & res & Hr' & Hp'). apply (Hnt res). congruence.
      * destruct (Hw h) as (rh & Hrh & Hph); [by left|].
        assert (order !! length (called calls) = Some h) as Hh by (by rewrite Ho, lookup_app_r, Nat.sub_diag by lia).
        assert (tail_settled l (after rh)) as Hta.
        { rewrite (ser_after _ _ _ _ _ Hs _ _ _ Hh Hrh). destruct (length (called calls)) as [|n] eqn:Hn; [done|].
          assert (is_Some (called calls !! n)) as [u Hu] by (apply lookup_lt_is_Some; lia).
          rewrite Ho, lookup_app_l, Hu by lia. cbn. apply tailed_true.
          rewrite Forall_forall in Hall. apply Hall. by eapply list_elem_of_lookup_2. }
        eexists. eapply (set_work h rh (Invoked inhabitant (memory l)));
          [by apply (loop_invokes l h rh inhabitant)|done|done|congruence].
    + apply not_Forall_Exists, Exists_exists in Hex as (u & Hu & Htu); [|intros ?; apply _].
      assert (u ∈ order) as Huo by (destruct (ser_fifo _ _ _ _ _ Hs) as (? & -> & _); set_solver).
      apply (ser_runs _ _ _ _ _ Hs) in Huo as [ru Hru]. destruct (ser_called _ _ _ _ _ Hs _ _ Hu Hru) as [res [Hp|Hp]].
      * eexists. eapply (set_work u ru (Tailed res)); [by apply loop_tails|done|done|congruence].
      * destruct Htu. apply tailed_true. eauto.
  - pose proof (ser_current _ _ _ _ _ Hs) as Hc. destruct rest; [|done]. destruct Hc as (ru & env & Hru & Hp).
    destruct (run_plan srv (todo ru) env (replay s calls).2) as [res s'] eqn:Hrun.
    eexists. eapply (set_work u ru (Settled res)); [by eapply loop_settles|done|done|congruence].
Qed.

(** ** Answers and exceptions *)

(** What is sent for a queued request is what its call settled with. *)
Lemma replies_settled l t r a :
  loop_reachable l → runs l !! t = Some r → replies l !! t = Some a →
  progress r = Settled (Ok a) ∨ progress r = Tailed (Ok a).
Proof.
  intros [s Hl]. revert t r a. assert (∀ t r a, runs (loop_start s) !! t = Some r → replies (loop_start s) !! t = Some a →
    progress r = Settled (Ok a) ∨ progress r = Tailed (Ok a)) as Hi.
  { intros t r a. cbn. by rewrite lookup_empty. }
  revert Hi. generalize dependent (loop_start s). intros l0 Hl. induction Hl as [l|l l1 l' Hstep _ IH]; [done|].
  intros Hi. apply IH. intros t r a Hr Ha. destruct Hstep as [t0 method path body a0 _ [Hf _] _|
    |t0 method path body p _ [_ Hf] _ _|t0 r0 env _ Hr0 Hp Ht| |t0 r0 env m res s' _ Hr0 Hp Hrun|t0 r0 res _ Hr0 Hp
    |t0 r0 a0 _ Hr0 Hp| |]; cbn [runs replies] in *; try by apply (Hi t).
  - rewrite lookup_insert_ne in Ha by congruence. by apply (Hi t).
  - rewrite lookup_insert_ne in Hr by congruence. by apply (Hi t).
  - rewrite (set_run_lookup _ _ _ _ _ Hr0) in Hr. case_decide; [subst t0|by apply (Hi t)].
    destruct (Hi _ _ _ Hr0 Ha); congruence.
  - rewrite (set_run_lookup _ _ _ _ _ Hr0) in Hr. case_decide; [subst t0|by apply (Hi t)].
    destruct (Hi _ _ _ Hr0 Ha); congruence.
  - rewrite (set_run_lookup _ _ _ _ _ Hr0) in Hr. case_decide; [subst t0|by apply (Hi t)].
    injection Hr as <-. right. cbn. destruct (Hi _ _ _ Hr0 Ha); congruence.
  - destruct (decide (t = t0)) as [->|]; [|rewrite lookup_insert_ne in Ha by done; by apply (Hi t)].
    rewrite lookup_insert_eq in Ha. injection Ha as ->. congruence.
Qed.

(** The request got as far as the registry. *)
Definition decoded (body : string) (data df : json) : Prop :=
  ∃ action m, JSON_parse body = Some action ∧ lacks action "data" = false ∧
    data = default JNull (Js.prop "data" action) ∧ hexToBytes (Js.prop "message" data) = Ok m ∧
    JSON_parse (utf8_decode m) = Some df ∧ lacks df "opType" = false.
(** A value that is neither missing nor text. *)
Definition not_text (v : js) : Prop := truthy v = true ∧ ∀ s, v ≠ Some (JStr s).

Lemma normalize_throws v e : normalize v = Err e ↔ not_text v ∧ e = TypeError "h.toLowerCase".
Proof.
  unfold normalize, not_text. destruct (truthy v) eqn:Ht; [|naive_solver].
  destruct v as [[| | |s| |]|]; try naive_solver.
Qed.
Lemma normalize_ok v t : normalize v = Ok t → ¬ not_text v.
Proof.
  intros H Hn. assert (normalize v = Err (TypeError "h.toLowerCase")) as H' by by apply normalize_throws. congruence.
Qed.
Lemma nullish_text v : not_text (Some (nullish v (JStr ""))) ↔ not_text v.
Proof. unfold not_text. destruct v as [[| | |s| |]|]; cbn; naive_solver. Qed.

(** ** Properties *)

(** C13: the queue makes overlapping requests one after the other.  In every state the
    event loop can reach, the handler calls and state reads wait for one another in
    the order they arrived; at most one is running, and alone uses the memory; those
    that are over have the results, and have left the memory, of calls made one by
    one; a reply is the result of its call; and going on only adds to the order. *)
Theorem ts_serialized (l l' : loop) :
  loop_reachable l → rtc loop_step l l' →
  ∃ s order more calls calls' current current',
    serialized s l order calls current ∧ serialized s l' (order ++ more) (calls ++ calls') current' ∧
    ∀ t r a, runs l' !! t = Some r → replies l' !! t = Some a → settled_as l' t (todo r) (Ok a).
Proof.
  intros Hl Hsteps. destruct (reachable_serialized _ Hl) as (s & order & calls & current & Hs).
  destruct (serialized_steps _ _ _ _ _ _ Hs Hsteps) as (more & calls' & current' & Hs').
  exists s, order, more, calls, calls', current, current'. split_and!; [done|done|]. intros t r a Hr Ha.
  exists r. split_and!; [done|done|]. eapply replies_settled; [|done|done].
  destruct Hl as [s0 Hl]. exists s0. by etrans.
Qed.

(** C35: the queue never stalls.  While the process runs, every queued call is over
    after at most three steps per call, also when calls before it failed. *)
Theorem ts_live `{!Inhabited E} (l : loop) :
  loop_reachable l → crashed l = false →
  (∀ n l', nsteps work n l l' → n ≤ 3 * size (runs l)) ∧
  (∀ n l', nsteps work n l l' →
     (∀ t r, runs l' !! t = Some r → ∃ res, progress r = Tailed res) ∨ ∃ l'', work l' l'').
Proof.
  intros Hl Hc. split.
  - intros n l' [Hn _]%queue_work_steps. pose proof (remaining_bound (runs l)). pose proof (remaining_bound (runs l')). lia.
  - intros n l' Hn. assert (loop_reachable l') as Hl'.
    { destruct Hl as [s Hl]. exists s. etrans; [done|by eapply work_loop_steps]. }
    assert (crashed l' = false) as Hc' by (apply queue_work_steps in Hn as [_ ->]; done).
    destruct (decide (map_Forall (λ t _, tailed l' t = true) (runs l'))) as [Hall|Hex].
    + left. intros t r Hr. pose proof (Hall _ _ Hr) as Ht. apply tailed_true in Ht as (r' & res & Hr' & Hp).
      exists res. rewrite Hr in Hr'. by injection Hr' as ->.
    + right. apply map_not_Forall in Hex as (t & r & Hr & Ht); [|intros; apply _].
      apply (queue_progress l' t r); [done|done|done|]. intros res Hp. apply Ht, tailed_true. eauto.
Qed.

(** A request that throws, before its call or in it or after it, ends the process:
    nothing answers it. *)
Lemma throwing_crashes l t method path body env e :
  crashed l = false → tail_settled l (queue l) → fresh_request t l →
  (run_plan srv (serve_plan srv method path body) env (memory l)).1 = Err e →
  ∃ l', rtc loop_step l l' ∧ crashed l' = true ∧ replies l' = replies l.
Proof.
  intros Hc Hq Hf Hr. destruct (queued (serve_plan srv method path body)) eqn:Hqd.
  - destruct (run_plan srv (serve_plan srv method path body) env (memory l)) as [res s'] eqn:Hrun. cbn in Hr. subst res.
    eexists. split; [|split].
    + eapply rtc_l; [by eapply (loop_queues l t method path body)|].
      eapply rtc_l; [eapply (loop_invokes _ t _ env); [done|apply lookup_insert_eq|done|]|].
      { destruct (queue l) as [p|] eqn:Hqp; [|done]. destruct Hq as (r & res & Hr & Hres). exists r, res. split; [|done].
        cbn. rewrite lookup_insert_ne; [done|]. intros <-. destruct Hf. congruence. }
      eapply rtc_l; [eapply (loop_settles _ t); [done|apply lookup_insert_eq|done|exact Hrun]|].
      eapply rtc_l; [eapply (loop_rejects _ t); [done|apply lookup_insert_eq|by left]|].
      apply rtc_once, loop_crashes. done.
    + done.
    + done.
  - destruct (serve_plan srv method path body) as [a|e'| |] eqn:Hp; try discriminate.
    eexists. split; [|split].
    + eapply rtc_l; [by eapply (loop_throws l t method path body)|]. by apply rtc_once, loop_crashes.
    + done.
    + done.
Qed.
Lemma handler_failure_crashes l t method path body h msg finish env e s' :
  crashed l = false → tail_settled l (queue l) → fresh_request t l →
  serve_plan srv method path body = CallHandler h msg finish → h env msg (memory l) = (Err e, s') →
  ∃ l', rtc loop_step l l' ∧ crashed l' = true ∧ replies l' = replies l.
Proof.
  intros Hc Hq Hf Hp Hh. apply (throwing_crashes l t method path body env e); [done..|]. rewrite Hp. cbn. by rewrite Hh.
Qed.

(** The handler a decoded request reaches, and what it is called with. *)
Definition reaches (df : json) (h : HandlerFunc E S) : Prop :=
  lookup_handler (framework srv) (Js.prop "opType" df) (Some (nullish (Js.prop "opCommand" df) (JStr ""))) = Ok (Some h).
Definition handler_argument (df : json) : json := nullish (Js.prop "originalMessage" df) (JStr "0x").
(** An id that the log line cannot be written with. *)
Definition textless_id (data : json) : Prop := ∃ id, Js.prop "id" data = Some id ∧ textless id = true.

Lemma log_and_answer_throws data df r e :
  log_and_answer srv data df r = Err e ↔ textless_id data ∧ e = ErrSentinel "TypeError" not_primitive.
Proof.
  unfold log_and_answer, logged, textless_id. destruct (Js.prop "id" data) as [id|].
  - destruct (textless id) eqn:Ht.
    + split; [intros [= <-]; eauto|]. by intros [_ ->].
    + split; [done|]. intros [(id' & [= <-] & Hid) _]. congruence.
  - split; [done|]. by intros [(id' & ? & _) _].
Qed.

(** What can go wrong once a request is decoded. *)
Inductive throws (data df : json) (env : E) (s : S) : error → Prop :=
  | throws_operation :
      not_text (Js.prop "opType" df) ∨ not_text (Js.prop "opCommand" df) →
      throws data df env s (TypeError "h.toLowerCase")
  | throws_handler h e s' :
      reaches df h → h env (handler_argument df) s = (Err e, s') → throws data df env s e
  | throws_id h r s' :
      reaches df h → h env (handler_argument df) s = (Ok r, s') → textless_id data →
      throws data df env s (ErrSentinel "TypeError" not_primitive).

Lemma lookup_throws df e :
  lookup_handler (framework srv) (Js.prop "opType" df) (Some (nullish (Js.prop "opCommand" df) (JStr ""))) = Err e ↔
  e = TypeError "h.toLowerCase" ∧ (not_text (Js.prop "opType" df) ∨ not_text (Js.prop "opCommand" df)).
Proof.
  unfold lookup_handler. rewrite <- (nullish_text (Js.prop "opCommand" df)).
  destruct (normalize (Js.prop "opType" df)) as [t|err] eqn:Ht.
  - destruct (normalize (Some (nullish _ _))) as [c|err] eqn:Hc.
    + apply normalize_ok in Ht, Hc. naive_solver.
    + apply normalize_ok in Ht. apply normalize_throws in Hc as [Hc ->]. naive_solver.
  - apply normalize_throws in Ht as [Ht ->]. naive_solver.
Qed.

Lemma action_throws body env s e :
  (run_plan srv (processAction srv body) env s).1 = Err e ↔ ∃ data df, decoded body data df ∧ throws data df env s e.
Proof.
  unfold processAction, decoded. split.
  - destruct (JSON_parse body) as [action|] eqn:Ha; [|done]. destruct (lacks action "data") eqn:Hl; [done|].
    destruct (hexToBytes _) as [m|] eqn:Hm; [|done]. destruct (JSON_parse (utf8_decode m)) as [df|] eqn:Hdf; [|done].
    destruct (lacks df "opType") eqn:Hld; [done|].
    intros H. exists (default JNull (Js.prop "data" action)), df. split; [by exists action, m|].
    destruct (lookup_handler _ _ _) as [[h|]|e'] eqn:Hh; cbn in H; [|done|].
    + destruct (h _ _ _) as [[r|e'] s'] eqn:Hr; cbn in H.
      * apply log_and_answer_throws in H as [Hid ->]. by eapply throws_id.
      * injection H as ->. by eapply throws_handler.
    + injection H as ->. apply lookup_throws in Hh as [-> Ho]. by apply throws_operation.
  - intros (data & df & (action & m & -> & -> & -> & -> & -> & ->) & Ht).
    destruct Ht as [Ho|h e s' Hh Hr|h r s' Hh Hr Hid].
    + by rewrite (proj2 (lookup_throws df _) (conj eq_refl Ho)).
    + unfold reaches in Hh. rewrite Hh. cbn. unfold handler_argument in Hr. by rewrite Hr.
    + unfold reaches in Hh. rewrite Hh. cbn. unfold handler_argument in Hr. rewrite Hr. cbn.
      by apply log_and_answer_throws.
Qed.

(** C16: one request can end the process.  The server throws on exactly the actions
    that are posted to /action and decode, and then have an opType or an opCommand
    that is neither missing nor text; or reach a handler that throws; or reach a
    handler that returns, and have an id without a text, an object with a member
    toString for one, which the line that is logged before the answer cannot
    contain.  Nothing catches what it throws: whenever the queue is idle the request
    can end the process, without an answer to anyone, and with it the memory, the
    handler's effects included; in the first case also while the queue is busy. *)
Theorem ts_crash (method path body : string) :
  (∀ env s e, (run_plan srv (handleRequest srv method path body) env s).1 = Err e ↔
     clean_path path = "/action" ∧ method = "POST" ∧ ∃ data df, decoded body data df ∧ throws data df env s e) ∧
  ∀ raw l t, utf8_decode raw = body → crashed l = false → fresh_request t l →
    (∀ env e, tail_settled l (queue l) → (run_plan srv (handleRequest srv method path body) env (memory l)).1 = Err e →
       ∃ l', rtc loop_step l l' ∧ crashed l' = true ∧ replies l' = replies l) ∧
    (∀ e, handleRequest srv method path body = Throw e →
       ∃ l', rtc loop_step l l' ∧ crashed l' = true ∧ replies l' = replies l).
Proof.
  split.
  - intros env s e. unfold handleRequest. destruct (decide (clean_path path = "/action")) as [Hp|Hp].
    + destruct (decide (method = "POST")) as [Hm|Hm]; [rewrite action_throws; tauto|cbn; naive_solver].
    + repeat case_decide; cbn; naive_solver.
  - intros raw l t <- Hc Hf. split.
    + intros env e Hq Hr. by apply (throwing_crashes l t method path (Some raw) env e).
    + intros e He. eexists. split; [|split].
      * eapply rtc_l; [exact (loop_throws l t method path (Some raw) e Hc Hf He)|]. by apply rtc_once, loop_crashes.
      * done.
      * done.
Qed.
End queue.
