(* ===== verification/Platform.v ===== *)
(** * What the tools run on: the operating system, go-ethereum, the chain

    None of this is code of the repository, so none of it is defined here: each
    class below lists the operations the program calls, as parameters of the
    model.  [W] is the state of the world the effectful ones read and change. *)

From S2P Require Import Prelude GoStrings GoText.
From stdpp Require Import options.

(** [common.Address] is [[20]byte] and [common.Hash] is [[32]byte]. *)
Definition zero_address : string := str (replicate 20 (byte 0)).
Definition zero_hash : string := str (replicate 32 (byte 0)).

(** Pure functions of go-ethereum: key parsing, address and hash text, and the
    ABI decoder of [Error(string)] revert payloads. *)
Class GoEthereum := {
  PrivateKey : Type;
  PubkeyToAddress : PrivateKey → string;
  HexToECDSA : string → result PrivateKey;
  HexToAddress : string → string;
  HexToHash : string → string;
  Address_Hex : string → string;
  Hash_Hex : string → string;
  FromHex : string → string;
  UnpackRevert : string → option string;
}.

(** Environment variables, files, HTTP, sockets, the clock. *)
Class OS (W : Type) := {
  getenv : string → W → string;
  setenv : string → string → W → W;
  (** [os.Open] and reading to the end *)
  open_file : string → W → result string;
  (** [os.ReadFile] *)
  read_file : string → W → result string;
  (** [os.Stat(path)] fails with [IsNotExist] *)
  stat_missing : string → W → bool;
  write_file : string → string → M W (option error);
  remove_file : string → M W (option error);
  (** [http.Get]: status code and body *)
  http_get : string → M W (result (Z * string));
  http_post : string → string → M W (result Z);
  (** [net.DialTimeout] succeeds *)
  dial_tcp : string → M W bool;
  sleep : Z → M W unit;
  now : W → Z;
}.

(** [*types.Receipt], as far as the program reads it. *)
Record Receipt (Log : Type) := mkReceipt { r_status : Z; r_logs : list Log }.
Arguments mkReceipt {Log}.
Arguments r_status {Log}.
Arguments r_logs {Log}.

(** A call message of [eth_call]; [To] is a pointer. *)
Record CallMsg := mkCallMsg {
  m_from : string; m_to : option string; m_gas : Z; m_gas_price : option Z;
  m_value : option Z; m_data : string;
}.
(** One with the gas fields left at their zero values. *)
Definition call_msg (from to : string) (value : option Z) (data : string) : CallMsg :=
  mkCallMsg from (Some to) 0 None value data.

(** A transaction read back from the node. *)
Record ChainTx := mkChainTx {
  t_to : option string; t_gas : Z; t_gas_price : Z; t_value : Z; t_data : string;
}.

(** The node's JSON-RPC surface.  [Tx] is a sent transaction. *)
Class Ethclient (W : Type) := {
  Tx : Type;
  Log : Type;
  tx_hash : Tx → string;
  CodeAt : string → M W (result string);
  BalanceAt : string → M W (result Z);
  ChainID : M W (result Z);
  CallContract : CallMsg → M W (result string);
  (** [bind.WaitMined] *)
  WaitMined : Tx → M W (result (Receipt Log));
  TransactionByHash : string → M W (result ChainTx);
  (** [types.Sender] with the transaction's EIP-155 signer *)
  TxSender : ChainTx → result string;
  (** [ethclient.Dial] *)
  Dial : string → M W (option error);
}.

(** The facets of the FlareTeeManager diamond the validator and the registration
    tools read and write (bindings of go-flare-common). *)
Class ExtensionManager (W : Type) := {
  NextPublicExtensionId : M W (result Z);
  GetTeeExtensionInstructionsSender : Z → M W (result string);
  IsKeyTypeSupportedCall : Z → string → M W (result bool);
}.
Class OwnerAllowlist (W : Type) := {
  IsAllowedTeeMachineOwner : Z → string → M W (result bool);
  IsAllowedTeeWalletProjectOwner : Z → string → M W (result bool);
}.
(** FlareSystemsManager; the epoch is a [*big.Int]. *)
Class SystemsManager (W : Type) := {
  GetCurrentRewardEpochId : M W (result (option Z));
}.
(** [wallets.EVMType] of tee-node. *)
Class TeeNode := { EVMType : string }.

(** ** Contract interfaces

    [accounts/abi]: a parsed ABI is its custom errors, in the order the runtime
    iterates over the Go map.  [e_Unpack] and [e_Inputs_Unpack] are
    [Error.Unpack(data)] and [Inputs.Unpack(data[4:])], with the value as
    [%v] prints it. *)
Record AbiError := mkAbiError {
  e_ID : string;
  e_Unpack : string → result string;
  e_Inputs_Unpack : string → result string;
}.
Record Abi := mkAbi { Errors : list (string * AbiError) }.

(** Arguments of a contract call, as [abi.Pack] gets them. *)
Inductive abi_arg :=
  | AAddress (a : string)
  | ABytes32 (b : string)
  | AUint (n : Z)
  | AString (s : string)
  | ABytes32s (l : list string)
  | ATuple (l : list abi_arg).

(** The metadata of the generated bindings, and [abi.ABI.Pack]. *)
Class ContractAbis := {
  VerificationMetaData : result Abi;
  Fdc2HubMetaData : result Abi;
  MachineManagerMetaData : result Abi;
  ExtensionManagerMetaData : result Abi;
  QuietFillAuctionMetaData : result Abi;
  Pack : Abi → string → list abi_arg → result string;
}.

(** [*bind.TransactOpts], as far as the program sets it. *)
Record TransactOpts (K : Type) := mkTransactOpts { o_key : K; o_value : option Z }.
Arguments mkTransactOpts {K}.
Arguments o_key {K}.
Arguments o_value {K}.
Class Transactor `{GoEthereum} := {
  NewKeyedTransactorWithChainID : PrivateKey → Z → result (TransactOpts PrivateKey);
}.
Definition with_value {K} (v : option Z) (o : TransactOpts K) : TransactOpts K :=
  mkTransactOpts (o_key o) v.

(** The ExtensionGovernance facet. *)
Class ExtensionGovernance (W : Type) `{GoEthereum, !Ethclient W} := {
  GetLatestTeeGovernanceHash : Z → M W (result string);
  SetNewTeeGovernance : TransactOpts PrivateKey → Z → list string → Z → M W (result Tx);
}.

(** [github.com/joho/godotenv]'s [Load], which sets the variables of the files
    (the working directory's .env for none) that the environment lacks. *)
Class Dotenv (W : Type) := { godotenv_Load : list string → M W (option error) }.

(** The generated contract bindings: binding a facet's interface to an address. *)
Class Bindings := {
  Binding : Type;
  NewBinding : string → string → result Binding;
}.

(** go-ethereum's JSON and text forms of addresses and hashes. *)
Class GoEthereumText := {
  Address_UnmarshalJSON : json → option string;
  Hash_UnmarshalJSON : json → option string;
  Hash_MarshalText : string → string;
}.

(** ** tee-node and go-flare-common *)

(** [types.MachineData], and [types.SignedTeeInfoResponse] as far as the program
    reads them. *)
Record MachineData := mkMachineData {
  ExtensionID : string;
  InitialOwner : string;
  CodeHash : string;
  md_Platform : string;
  PublicKey_X : string;
  PublicKey_Y : string;
  GovernanceHash : string;
}.
Record TeeInfoData := mkTeeInfoData {
  ti_PublicKey : string * string;
  LastSigningPolicyID : Z;
  ti_ChainID : Z;
}.
Record SignedTeeInfoResponse := mkTeeInfo {
  si_TeeInfo : TeeInfoData;
  si_MachineData : MachineData;
  DataSignature : string;
  ProxySignature : string;
  Attestation : string;
}.

(** [types.ActionResult] and [types.ActionResponse]. *)
Record ActionResultData := mkActionResult {
  ar_ID : string;
  ar_SubmissionTag : string;
  ar_Version : string;
  ar_OPType : string;
  ar_OPCommand : string;
  ar_Data : string;
  ar_Status : Z;
  ar_Log : string;
}.
Record ActionResponse := mkActionResponse { Result : ActionResultData; Signature : string }.

(** What the program calls of tee-node, go-flare-common and go-ethereum's
    signature recovery. *)
Class TeeTypes := {
  (** [json.Decoder.Decode] into the two response types *)
  decode_tee_info : string → result SignedTeeInfoResponse;
  decode_action_response : string → result ActionResponse;
  (** [types.ParsePubKey] followed by [crypto.PubkeyToAddress] *)
  PublicKey : Type;
  ParsePubKey : string * string → result PublicKey;
  PublicKeyToAddress : PublicKey → string;
  TeeInfo_Hash : TeeInfoData → result string;
  (** [csigning.NewPayload(csigning.ProxyTeeInfo, chainID,
      common.BytesToHash(hash)).Hash()] *)
  ProxyTeeInfo_Hash : Z → string → result string;
  TextHash : string → string;
  SigToPub : string → string → result PublicKey;
  Claims : Type;
  ParsePKITokenUnverifiedClaims : string → result Claims;
  Claims_CodeHash : Claims → result string;
  Claims_Platform : Claims → result string;
  (** [types.GovernanceHash(signers, threshold)] *)
  GovernanceHashOf : list string → Z → result string;
  (** [json.Marshal] of a [ConfigureProxyURLRequest] *)
  marshal_proxy_url : string → result string;
}.

(** ** The MachineManager and Verification facets *)

(** [machinemanager.IMachineManagerTeeMachineData] and [machinemanager.Signature]. *)
Record TeeMachineData := mkTeeMachineData {
  tm_ExtensionId : Z;
  tm_InitialOwner : string;
  tm_CodeHash : string;
  tm_Platform : string;
  tm_PublicKey : string * string;
  tm_GovernanceHash : string;
}.
Record VRS := mkVRS { sig_V : ascii; sig_R : string; sig_S : string }.
Record TeeMachine := mkTeeMachine { mi_TeeId : string; mi_TeeProxyId : string; mi_Url : string }.

(** The availability-check proof.  The header and the request are passed on as
    they are (the request's TEE id is read); of the response seven fields are. *)
Class FdcTypes := {
  FdcHeader : Type;
  RequestBody : Type;
  req_TeeId : RequestBody → string;
  State : Type;
  (** [fdc.DecodeResponse] *)
  DecodeResponse : string → result FdcHeader;
}.
Record ResponseBody (St : Type) := mkResponseBody {
  rb_Status : Z;
  rb_TeeTimestamp : Z;
  rb_CodeHash : string;
  rb_Platform : string;
  rb_InitialSigningPolicyId : Z;
  rb_LastSigningPolicyId : Z;
  rb_State : St;
}.
Arguments mkResponseBody {St}.
Arguments rb_Status {St}. Arguments rb_TeeTimestamp {St}. Arguments rb_CodeHash {St}.
Arguments rb_Platform {St}. Arguments rb_InitialSigningPolicyId {St}.
Arguments rb_LastSigningPolicyId {St}. Arguments rb_State {St}.
(** [fdc.ProveResponse] *)
Record ProveResponse := mkProveResponse {
  ResponseHeader : string;
  pr_RequestBody : string;
  pr_ResponseBody : string;
  DataProviderSignatures : list string;
}.
(** [json.Unmarshal] into it, and [structs.DecodeTo] and [Encode] of the bodies. *)
Class FdcCodec `{FdcTypes} := {
  decode_prove_response : string → result ProveResponse;
  decode_request : string → result RequestBody;
  encode_request : RequestBody → result string;
  decode_response : string → result (ResponseBody State);
  encode_response : ResponseBody State → result string;
}.
(** [machinemanager.ITeeAvailabilityCheckProof] *)
Record AvailabilityProof `{FdcTypes} := mkProof {
  p_Signatures : list string;
  p_Header : FdcHeader;
  p_RequestBody : RequestBody;
  p_ResponseBody : ResponseBody State;
}.
Arguments mkProof {_}.
Arguments p_Signatures {_}. Arguments p_Header {_}.
Arguments p_RequestBody {_}. Arguments p_ResponseBody {_}.

Class MachineManager (W : Type) `{GoEthereum, !Ethclient W, FdcTypes} := {
  GetTeeMachine : string → M W (result TeeMachine);
  Register_tx : TransactOpts PrivateKey → TeeMachineData → VRS → string → string → string →
                M W (result Tx);
  ToProduction_tx : TransactOpts PrivateKey → AvailabilityProof → M W (result Tx);
}.
Class Verification (W : Type) `{GoEthereum, !Ethclient W} := {
  RequestTeeAttestation_tx : TransactOpts PrivateKey → string → string → M W (result Tx);
  RequestAvailabilityCheckAttestation_tx :
    TransactOpts PrivateKey → string → string → string → string → string → M W (result Tx);
  (** the [InstructionId] and [Challenge] of the parsed events *)
  ParseTeeInstructionsSent : Log → result string;
  ParseTeeAttestationRequested : Log → result string;
  (** [encoding.TransformSignatureRSVtoVRS] *)
  TransformSignatureRSVtoVRS : string → result string;
}.
(** The ExtensionManager and OwnerAllowlist transactions. *)
Class ExtensionManagerTx (W : Type) `{GoEthereum, !Ethclient W} := {
  AddTeeVersion_tx : TransactOpts PrivateKey → Z → string → string → list string → M W (result Tx);
  RegisterExtension_tx : TransactOpts PrivateKey → string → string → M W (result Tx);
  AddSupportedKeyTypes_tx : TransactOpts PrivateKey → Z → list string → M W (result Tx);
  (** the [ExtensionId] of the event, a [*big.Int] *)
  ParseTeeExtensionRegistered : Log → result (option Z);
  ParseTeeExtensionContractsSet : Log → result unit;
  AddAllowedTeeMachineOwners_tx : TransactOpts PrivateKey → Z → list string → M W (result Tx);
  AddAllowedTeeWalletProjectOwners_tx : TransactOpts PrivateKey → Z → list string → M W (result Tx);
  ParseAllowedTeeMachineOwnersAdded : Log → result unit;
  ParseAllowedTeeWalletProjectOwnersAdded : Log → result unit;
  IsCodeHashPlatformSupported : Z → string → string → M W (result bool);
}.

(** ** What the extension server uses of tee-node *)

(** [types.Action] and [instruction.DataFixed], as far as the server reads them. *)
Record ActionData := mkAction { act_ID : string; act_SubmissionTag : string; act_Message : string }.
Record DataFixed := mkDataFixed { OPType : string; OPCommand : string; OriginalMessage : string }.
Class TeeServer := {
  (** [json.Decoder.Decode] into an [Action] *)
  decode_action : string → result ActionData;
  (** [processorutils.Parse[instruction.DataFixed]] *)
  parse_data_fixed : string → result DataFixed;
  (** [utils.ToHash] *)
  ToHash : string → string;
  (** [structs.DecodeTo(SayGoodbyeMessageArg, ...)]: name and reason *)
  decode_goodbye : string → result (string * string);
  (** [json.Marshal] and [json.Unmarshal] of an [ActionResult] *)
  marshal_action_result : ActionResultData → string;
  unmarshal_action_result : string → result ActionResultData;
}.

(** ** What the inspection commands read *)

Class ChainInfo (W : Type) := { BlockNumber : M W (result Z) }.
Class ExtensionManagerInfo (W : Type) := {
  GetSystemSupportedPlatforms : M W (result (list string));
  GetExtensionOwner : Z → M W (result string);
  GetSupportedCodeHashes : Z → M W (result (list string));
  GetSupportedKeyTypes : Z → M W (result (list string));
}.
Class MachineManagerInfo (W : Type) := {
  (** the [TeeIds] and the [Urls] *)
  GetActiveTeeMachines : Z → M W (result (list string * list string));
  GetTeeMachineStatus : string → M W (result Z);
  GetTeeMachineOwner : string → M W (result string);
  GetExtensionId : string → M W (result Z);
  GetLastStatusChangeTs : string → M W (result Z);
  GetInitialSigningPolicyId : string → M W (result Z);
}.

(** ** Tokens and the auction contract

    The generated bindings of the test token and of QuietFillAuction; a token and
    an auction contract are their addresses. *)

Class Erc20 (W : Type) `{GoEthereum, !Ethclient W} := {
  Symbol : string → M W (result string);
  Decimals : string → M W (result Z);
  BalanceOf : string → string → M W (result Z);
  Mint_tx : string → TransactOpts PrivateKey → string → Z → M W (result Tx);
  Approve_tx : string → TransactOpts PrivateKey → string → Z → M W (result Tx);
  (** name, symbol and decimals; the address the contract will have *)
  DeployTestToken_tx :
    TransactOpts PrivateKey → string → string → Z → M W (result (string * Tx));
}.

(** The struct [GetAuction] returns, as far as the program reads it. *)
Record AuctionInfo := mkAuctionInfo { au_TeeId : string; au_State : Z }.
Record ClearResult := mkClearResult {
  cr_ContractAddr : string;
  cr_AuctionId : Z;
  cr_Winner : string;
  cr_UnitPriceWei : Z;
  cr_WinningNonce : Z;
  cr_WinningCommitment : string;
  cr_SubmittedBidCount : Z;
  cr_EligibleBidCount : Z;
}.
Class QuietFillAuction (W : Type) `{GoEthereum, !Ethclient W} := {
  (** registry, machine registry, base and quote token *)
  DeployQuietFillAuction_tx :
    TransactOpts PrivateKey → string → string → string → string → M W (result (string * Tx));
  SetExtensionId_tx : string → TransactOpts PrivateKey → M W (result Tx);
  ExtensionId : string → M W (result Z);
  QuoteAmount : string → Z → Z → M W (result Z);
  GetAuction : string → Z → M W (result AuctionInfo);
  (** lot, floor, ceiling, bid deadline, settle deadline *)
  CreateAuction_tx :
    string → TransactOpts PrivateKey → Z → Z → Z → Z → Z → M W (result Tx);
  SubmitPrivateBid_tx : string → TransactOpts PrivateKey → Z → string → M W (result Tx);
  RequestClear_tx : string → TransactOpts PrivateKey → Z → M W (result Tx);
  SettleAuction_tx :
    string → TransactOpts PrivateKey → Z → ClearResult → string → M W (result Tx);
  (** the events' auction id, instruction ids and (winner, price, quote paid) *)
  ParseAuctionCreated : string → Log → result (option Z);
  ParsePrivateBidSubmitted : string → Log → result string;
  ParseClearRequested : string → Log → result string;
  ParseAuctionSettled : string → Log → result (string * Z * Z);
}.
