(* ===== verification/GoPath.v ===== *)
(** * Go's path/filepath, strings.EqualFold, and directories

    The parts of the standard library the commands that touch the file system
    beyond single files use, on Unix. *)

From S2P Require Import Prelude GoStrings Platform.
From stdpp Require Import options.

(** One element of a path, onto the cleaned elements so far (last one first). *)
Definition clean_step (rooted : bool) (out : list string) (e : string) : list string :=
  if bool_decide (e = "") || bool_decide (e = ".") then out
  else if bool_decide (e = "..") then
    match out with
    | top :: rest => if bool_decide (top = "..") then e :: out else rest
    | [] => if rooted then [] else [e]
    end
  else e :: out.
(** [filepath.Clean] *)
Definition Clean (path : string) : string :=
  let rooted := has_prefix path "/" in
  let s := (if rooted then "/" else "") +:+
           join (reverse (foldl (clean_step rooted) [] (split path "/"%char))) "/" in
  if decide (s = "") then "." else s.

Fixpoint drop_name (l : list ascii) : list ascii :=
  match l with
  | [] => []
  | c :: l' => if decide (c = "/"%char) then l else drop_name l'
  end.
(** [filepath.Dir]: the path without what follows its last slash, cleaned. *)
Definition Dir (path : string) : string := Clean (str (reverse (drop_name (reverse (bytes path))))).

(** [filepath.Join] *)
Fixpoint Join (elem : list string) : string :=
  match elem with
  | [] => ""
  | e :: rest => if decide (e = "") then Join rest else Clean (join elem "/")
  end.

Example clean_examples :
  Clean "a//b/./c/../d/" = "a/b/d" ∧ Clean "/../a" = "/a" ∧ Clean "../../x" = "../../x" ∧ Clean "" = "." ∧
  Dir "/etc/x.toml" = "/etc" ∧ Dir "x" = "." ∧ Join ["/src/go/cmd/start-tee"; ".."; ".."; ".env"] = "/src/go/.env".
Proof. by vm_compute. Qed.

(** [strings.EqualFold(s, "false")]: simple folding of the letters of "false" is
    ASCII case, and the long s (U+017F) for the s. *)
Definition lower (c : ascii) : ascii :=
  let n := nat_of_ascii c in if (65 <=? n) && (n <=? 90) then byte (n + 32) else c.
Fixpoint fold_s (l : list ascii) : list ascii :=
  match l with
  | c1 :: ((c2 :: l'') as l') =>
    if decide (c1 = byte 197 ∧ c2 = byte 191) then "s"%char :: fold_s l'' else lower c1 :: fold_s l'
  | [c] => [lower c]
  | [] => []
  end.
Definition equal_fold_false (s : string) : bool := bool_decide (str (fold_s (bytes s)) = "false").

(** [os.MkdirAll], and whether [os.Stat] succeeds. *)
Class Directories (W : Type) := {
  mkdir_all : string → M W (option error);
  stat_ok : string → W → bool;
}.
