(* ===== verification/Sim.v ===== *)
(** * A simulated world

    One concrete instance of the interfaces of [Platform], used by the examples
    and the witnesses: environment and files are maps, the network and the chain
    are given by answer functions, and the ids of the transactions sent are
    recorded.  No theorem of the components depends on it. *)

From S2P Require Import Prelude GoStrings GoText Json Platform.
From stdpp Require Import options.

Record world := mkWorld {
  w_env : gmap string string;
  w_files : gmap string string;
  w_http : string → result (Z * string);
  w_listening : list string;
  w_time : Z;
  w_sent : list string;
}.

Definition empty_world : world :=
  mkWorld ∅ ∅ (λ _, Err (ErrMsg "connection refused")) [] 0 [].

Definition with_env (l : list (string * string)) (w : world) : world :=
  mkWorld (list_to_map l) (w_files w) (w_http w) (w_listening w) (w_time w) (w_sent w).
Definition with_files (l : list (string * string)) (w : world) : world :=
  mkWorld (w_env w) (list_to_map l) (w_http w) (w_listening w) (w_time w) (w_sent w).
Definition with_http (f : string → result (Z * string)) (w : world) : world :=
  mkWorld (w_env w) (w_files w) f (w_listening w) (w_time w) (w_sent w).
Definition send (t : string) (w : world) : world :=
  mkWorld (w_env w) (w_files w) (w_http w) (w_listening w) (w_time w) (w_sent w ++ [t]).

Definition sim_file (path : string) (w : world) : result string :=
  match w_files w !! path with
  | Some c => Ok c
  | None => Err (ErrNotExist ("open " +:+ path +:+ ": no such file or directory"))
  end.

#[export] Instance sim_os : OS world := {|
  getenv k w := default "" (w_env w !! k);
  setenv k v w := mkWorld (<[k := v]> (w_env w)) (w_files w) (w_http w) (w_listening w)
                    (w_time w) (w_sent w);
  open_file := sim_file;
  read_file := sim_file;
  stat_missing path w := bool_decide (w_files w !! path = None);
  write_file path data w :=
    (None, mkWorld (w_env w) (<[path := data]> (w_files w)) (w_http w) (w_listening w)
             (w_time w) (w_sent w));
  remove_file path w :=
    (match w_files w !! path with
     | Some _ => None
     | None => Some (ErrNotExist ("remove " +:+ path +:+ ": no such file or directory"))
     end,
     mkWorld (w_env w) (delete path (w_files w)) (w_http w) (w_listening w) (w_time w) (w_sent w));
  http_get url w := (w_http w url, w);
  http_post url body w := (match w_http w url with Ok (c, _) => Ok c | Err e => Err e end, w);
  dial_tcp addr w := (bool_decide (addr ∈ w_listening w), w);
  sleep d w := (tt, mkWorld (w_env w) (w_files w) (w_http w) (w_listening w) (w_time w + d) (w_sent w));
  now := w_time;
|}.

#[export] Instance sim_unicode : Unicode := {| is_print_table := λ _, true |}.

(** Keys are their own addresses; texts are read as 20 or 32 byte values by
    padding or cropping on the left. *)
Definition fit (n : nat) (s : string) : string :=
  let l := bytes s in str (replicate (n - length l) (byte 0) ++ drop (length l - n) l).
Definition sim_hex (s : string) : string :=
  default "" (hex_decode (trim_prefix s "0x")).

#[export] Instance sim_geth : GoEthereum := {|
  PrivateKey := string;
  PubkeyToAddress k := fit 20 k;
  HexToECDSA s := match hex_decode s with
                  | Some k => if decide (len k = 32) then Ok k else Err (ErrMsg "invalid length")
                  | None => Err (ErrMsg "invalid hex")
                  end;
  HexToAddress s := fit 20 (sim_hex s);
  HexToHash s := fit 32 (sim_hex s);
  Address_Hex a := "0x" +:+ hex_encode (fit 20 a);
  Hash_Hex h := "0x" +:+ hex_encode h;
  FromHex := sim_hex;
  UnpackRevert b := if has_prefix b (str [byte 8; byte 195; byte 121; byte 160])
                    then Some (str_drop 4 b) else None;
|}.

(** A node that answers [eth_call] with [call] and receipts with [mined]. *)
Definition sim_client (call : CallMsg → result string) (mined : string → result (Receipt string)) :
    Ethclient world := {|
  Tx := string;
  Log := string;
  tx_hash t := t;
  CodeAt a := ret (Ok (if decide (a = zero_address) then "" else "code"));
  BalanceAt _ := ret (Ok (2 * 10 ^ 16)%Z);
  ChainID := ret (Ok 114%Z);
  CallContract m := ret (call m);
  WaitMined t := ret (mined t);
  TransactionByHash h := ret (Ok (mkChainTx (Some zero_address) 21000 1 0 h));
  TxSender t := Ok zero_address;
  Dial url := ret None;
|}.
#[export] Instance sim_eth : Ethclient world :=
  sim_client (λ _, Err (ErrRPC "execution reverted" (DataString "0x")))
    (λ t, Ok (mkReceipt 1 [t; t])).

(** ABIs with two custom errors. *)
Definition sim_errors : list (string * AbiError) :=
  [("InvalidGovernanceHash", mkAbiError (str ((byte <$> [1; 2; 3; 4]) ++ replicate 28 (byte 0)))
                               (λ _, Ok "[7]") (λ _, Ok "[7]"));
   ("ChallengeExpired", mkAbiError (str ((byte <$> [9; 8; 7; 6]) ++ replicate 28 (byte 0)))
                          (λ _, Ok "[]") (λ _, Ok "[]"))].
#[export] Instance sim_abis : ContractAbis := {|
  VerificationMetaData := Err (ErrMsg "no abi");
  Fdc2HubMetaData := Ok (mkAbi []);
  MachineManagerMetaData := Ok (mkAbi sim_errors);
  ExtensionManagerMetaData := Ok (mkAbi sim_errors);
  QuietFillAuctionMetaData := Ok (mkAbi []);
  Pack _ name _ := Ok name;
|}.

(** A registry with a list of instruction senders, indexed by extension id. *)
Definition sim_manager (senders : list string) : ExtensionManager world := {|
  NextPublicExtensionId := ret (Ok (Z.of_nat (length senders)));
  GetTeeExtensionInstructionsSender i := ret
    (if decide (i < 0)%Z then Err (ErrMsg "negative id")
     else match senders !! Z.to_nat i with
          | Some a => Ok a
          | None => Err (ErrMsg "no such extension")
          end);
  IsKeyTypeSupportedCall _ _ := ret (Ok true);
|}.
Definition sim_allowlist (ok : bool) : OwnerAllowlist world := {|
  IsAllowedTeeMachineOwner _ _ := ret (Ok ok);
  IsAllowedTeeWalletProjectOwner _ _ := ret (Ok ok);
|}.
#[export] Instance sim_node : TeeNode := {| EVMType := "EVM" |}.

(** No .env file; bindings remember their interface and address; hashes and
    addresses are written in hexadecimal; a decoding error names its target. *)
#[export] Instance sim_dotenv : Dotenv world := {|
  godotenv_Load _ := ret (Some (ErrNotExist "open .env: no such file or directory"));
|}.
#[export] Instance sim_bindings : Bindings := {|
  Binding := string * string;
  NewBinding name addr := Ok (name, addr);
|}.
Definition sim_unmarshal (n : nat) (j : json) : option string :=
  match j with
  | JStr s => h ← hex_decode (trim_prefix s "0x"); if decide (len h = n) then Some h else None
  | _ => None
  end.
#[export] Instance sim_text : GoEthereumText := {|
  Address_UnmarshalJSON := sim_unmarshal 20;
  Hash_UnmarshalJSON := sim_unmarshal 32;
  Hash_MarshalText h := "0x" +:+ hex_encode h;
|}.
#[export] Instance sim_json : JsonErrors := {|
  json_error target input := ErrMsg ("json: cannot decode into " +:+ target);
|}.
#[export] Instance sim_transactor : Transactor := {|
  NewKeyedTransactorWithChainID k c := Ok (mkTransactOpts k None);
|}.

(** A node whose info and action responses are given; keys and hashes are their
    own text. *)
Definition sim_tee (info : SignedTeeInfoResponse) (action : string → result ActionResponse) :
    TeeTypes := {|
  decode_tee_info _ := Ok info;
  decode_action_response := action;
  PublicKey := string;
  ParsePubKey p := Ok (fst p);
  PublicKeyToAddress k := fit 20 k;
  TeeInfo_Hash _ := Ok zero_hash;
  ProxyTeeInfo_Hash _ h := Ok h;
  TextHash h := h;
  SigToPub _ sig := Ok sig;
  Claims := unit;
  ParsePKITokenUnverifiedClaims _ := Ok tt;
  Claims_CodeHash _ := Ok zero_hash;
  Claims_Platform _ := Ok zero_hash;
  GovernanceHashOf signers threshold := Ok (fit 32 (join signers "" +:+ itoa threshold));
  marshal_proxy_url url := Ok url;
|}.
Definition sim_info (policy : Z) : SignedTeeInfoResponse :=
  mkTeeInfo (mkTeeInfoData ("tee", "") policy 114)
    (mkMachineData zero_hash zero_address zero_hash zero_hash "" "" zero_hash)
    (str (replicate 65 (byte 1))) "proxy" "".
Definition no_action : string → result ActionResponse := λ _, Err (ErrMsg "no action").
Definition sim_systems (epoch : Z) : SystemsManager world := {|
  GetCurrentRewardEpochId := ret (Ok (Some epoch));
|}.
(** Every URL answers. *)
Definition up_world : world := with_http (λ _, Ok (200%Z, "{}")) empty_world.
