(* ===== verification/Report.v ===== *)
(** * tools/pkg/validate/report.go: the verification report

    Results are appended by the check registrars, counted, filtered, and printed
    for a terminal or as JSON.  [Status] is a Go [int]: values other than the
    four constants are possible and print as UNKNOWN. *)

From S2P Require Import Prelude GoStrings GoText.
From stdpp Require Import options.

Definition Status : Set := Z.
Definition PASS : Status := 0%Z.
Definition WARN : Status := 1%Z.
Definition FAIL : Status := 2%Z.
Definition SKIP : Status := 3%Z.

Definition Status_String (s : Status) : string :=
  if (s =? PASS)%Z then "PASS"
  else if (s =? WARN)%Z then "WARN"
  else if (s =? FAIL)%Z then "FAIL"
  else if (s =? SKIP)%Z then "SKIP"
  else "UNKNOWN".

Record CheckResult := mkCheck {
  Step : string;
  ID : string;
  Name : string;
  CStatus : Status;
  Message : string;
  Fix : string;
}.

#[export] Instance CheckResult_eq_dec : EqDecision CheckResult.
Proof. unfold Status. solve_decision. Defined.

Record Report := mkReport { Results : list CheckResult }.

Definition empty_report : Report := mkReport [].

Definition Add (r : Report) (result : CheckResult) : Report :=
  mkReport (Results r ++ [result]).

Definition HasFailures (r : Report) : bool :=
  existsb (λ res, (CStatus res =? FAIL)%Z) (Results r).

(** The four counters of [Summary], as its loop updates them. *)
Record counters := mkCounters { passed : Z; warning : Z; failed : Z; skipped : Z }.

Definition count_result (c : counters) (res : CheckResult) : counters :=
  let s := CStatus res in
  if (s =? PASS)%Z then mkCounters (passed c + 1) (warning c) (failed c) (skipped c)
  else if (s =? WARN)%Z then mkCounters (passed c) (warning c + 1) (failed c) (skipped c)
  else if (s =? FAIL)%Z then mkCounters (passed c) (warning c) (failed c + 1) (skipped c)
  else if (s =? SKIP)%Z then mkCounters (passed c) (warning c) (failed c) (skipped c + 1)
  else c.

Definition counts (r : Report) : counters :=
  foldl count_result (mkCounters 0 0 0 0) (Results r).

Definition Summary (r : Report) : string :=
  let c := counts r in
  itoa (passed c) +:+ " passed, " +:+ itoa (warning c) +:+ " warning, " +:+
  itoa (failed c) +:+ " failed, " +:+ itoa (skipped c) +:+ " skipped".

Definition esc : string := str [byte 27].
Definition lf : string := str [newline].

Definition colorReset : string := esc +:+ "[0m".
Definition colorRed : string := esc +:+ "[31m".
Definition colorGreen : string := esc +:+ "[32m".
Definition colorYellow : string := esc +:+ "[33m".
Definition colorCyan : string := esc +:+ "[36m".
Definition colorGray : string := esc +:+ "[90m".

(** A missing key of the Go map reads as the empty string. *)
Definition stepLabel : gmap string string :=
  list_to_map
    [("deploy", "Contract Deployment");
     ("register", "Extension Registration");
     ("services", "Service Startup");
     ("tee-version", "TEE Version Registration");
     ("tee-machine", "TEE Machine Registration");
     ("test", "Testing")].

Definition statusColor (s : Status) : string :=
  if (s =? PASS)%Z then colorGreen
  else if (s =? WARN)%Z then colorYellow
  else if (s =? FAIL)%Z then colorRed
  else if (s =? SKIP)%Z then colorGray
  else colorReset.

(** Unique steps in order of first appearance: the loop with its [seen] map. *)
Definition collect_step (acc : gset string * list string) (res : CheckResult) :
    gset string * list string :=
  let '(seen, steps) := acc in
  if decide (Step res ∈ seen) then acc
  else ({[Step res]} ∪ seen, steps ++ [Step res]).

Definition collect_steps (l : list CheckResult) : list string :=
  snd (foldl collect_step (∅, []) l).

Definition print_result (res : CheckResult) : string :=
  "  " +:+ statusColor (CStatus res) +:+ "[" +:+ Status_String (CStatus res) +:+ "]" +:+
  colorReset +:+ " " +:+ ID res +:+ "  " +:+ Name res +:+ lf +:+
  (if ((CStatus res =? FAIL) || (CStatus res =? WARN))%Z then
     (if decide (Message res = "") then "" else "         " +:+ Message res +:+ lf) +:+
     (if decide (Fix res = "") then "" else "         Fix: " +:+ Fix res +:+ lf)
   else "").

Fixpoint concat_str (l : list string) : string :=
  match l with [] => "" | s :: l => s +:+ concat_str l end.

Definition of_step (step : string) (l : list CheckResult) : list CheckResult :=
  filter (λ res, Step res = step) l.

Definition print_step (r : Report) (step : string) : string :=
  let label := default "" (stepLabel !! step) in
  (if decide (label = "") then step else label) +:+ ":" +:+ lf +:+
  concat_str (print_result <$> of_step step (Results r)) +:+ lf.

(** The text [Fprint] writes. *)
Definition Fprint (r : Report) : string :=
  lf +:+ colorCyan +:+ "=== Deployment Verification Report ===" +:+ colorReset +:+ lf +:+ lf +:+
  concat_str (print_step r <$> collect_steps (Results r)) +:+
  Summary r +:+ lf.

Record jsonResult := mkJsonResult {
  jStep : string; jID : string; jName : string;
  jStatus : string; jMessage : string; jFix : string;
}.

Record jsonReport := mkJsonReport { jResults : list jsonResult; jSummary : string }.

Definition to_jsonResult (res : CheckResult) : jsonResult :=
  mkJsonResult (Step res) (ID res) (Name res) (Status_String (CStatus res))
    (trim_space (Message res)) (trim_space (Fix res)).

Definition to_jsonReport (r : Report) : jsonReport :=
  mkJsonReport (to_jsonResult <$> Results r) (Summary r).

Definition omitempty (k v : string) : list (string * json) :=
  if decide (v = "") then [] else [(k, JStr v)].

Definition jsonResult_json (j : jsonResult) : json :=
  JObj ([("step", JStr (jStep j)); ("id", JStr (jID j)); ("name", JStr (jName j));
         ("status", JStr (jStatus j))] ++
        omitempty "message" (jMessage j) ++ omitempty "fix" (jFix j)).

Definition jsonReport_json (jr : jsonReport) : json :=
  JObj [("results", JArr (jsonResult_json <$> jResults jr)); ("summary", JStr (jSummary jr))].

Definition FprintJSON (r : Report) : string :=
  json_indent 0 (jsonReport_json (to_jsonReport r)) +:+ lf.

(** ** Lemmas *)

Definition known_status (s : Status) : Prop := (0 ≤ s ≤ 3)%Z.

Definition count_status (s : Status) (l : list CheckResult) : Z :=
  Z.of_nat (length (filter (λ res, CStatus res = s) l)).

Lemma count_status_app s l k : count_status s (l ++ k) = (count_status s l + count_status s k)%Z.
Proof. unfold count_status. rewrite filter_app, length_app. lia. Qed.

Lemma count_result_foldl c l :
  foldl count_result c l =
  mkCounters (passed c + count_status PASS l) (warning c + count_status WARN l)
             (failed c + count_status FAIL l) (skipped c + count_status SKIP l).
Proof.
  revert c. induction l as [|res l IH]; intros c; simpl.
  - destruct c. unfold count_status; simpl. f_equal; lia.
  - rewrite IH. change (res :: l) with ([res] ++ l). rewrite !count_status_app.
    unfold count_status, count_result, PASS, WARN, FAIL, SKIP.
    rewrite !filter_cons, !filter_nil.
    repeat case_match; simpl in *; f_equal; lia.
Qed.

Lemma counts_spec r :
  counts r = mkCounters (count_status PASS (Results r)) (count_status WARN (Results r))
                        (count_status FAIL (Results r)) (count_status SKIP (Results r)).
Proof. unfold counts. by rewrite count_result_foldl. Qed.

Lemma HasFailures_count r : HasFailures r = true ↔ (0 < count_status FAIL (Results r))%Z.
Proof.
  unfold HasFailures, count_status. rewrite existsb_exists.
  split.
  - intros (res & Hin%list_elem_of_In & Hf%Z.eqb_eq).
    assert (res ∈ filter (λ res, CStatus res = FAIL) (Results r)) as Hres.
    { by apply list_elem_of_filter. }
    destruct (filter _ _); [set_solver|simpl; lia].
  - intros H. destruct (filter _ _) as [|res k] eqn:E; [simpl in H; lia|].
    assert (res ∈ filter (λ res, CStatus res = FAIL) (Results r)) as Hres.
    { rewrite E. set_solver. }
    apply list_elem_of_filter in Hres as [Hf Hin].
    exists res. split; [by apply list_elem_of_In|by apply Z.eqb_eq].
Qed.

Lemma HasFailures_Add r c :
  HasFailures (Add r c) = HasFailures r || (CStatus c =? FAIL)%Z.
Proof. unfold HasFailures, Add; simpl. rewrite existsb_app. simpl. by rewrite orb_false_r. Qed.

Lemma count_status_total l :
  Forall (λ res, known_status (CStatus res)) l →
  (count_status PASS l + count_status WARN l + count_status FAIL l + count_status SKIP l =
   Z.of_nat (length l))%Z.
Proof.
  induction 1 as [|res l Hres _ IH]; [done|].
  change (res :: l) with ([res] ++ l). rewrite !count_status_app, length_app.
  unfold known_status in Hres. unfold count_status, PASS, WARN, FAIL, SKIP in *.
  rewrite !filter_cons, !filter_nil. repeat case_decide; simpl in *; lia.
Qed.

Lemma collect_steps_foldl seen steps l :
  (∀ s, s ∈ seen ↔ s ∈ steps) → NoDup steps →
  let '(seen', steps') := foldl collect_step (seen, steps) l in
  (∀ s, s ∈ seen' ↔ s ∈ steps') ∧ NoDup steps' ∧
  (∀ s, s ∈ steps' ↔ s ∈ steps ∨ s ∈ Step <$> l).
Proof.
  revert seen steps. induction l as [|res l IH]; intros seen steps Hs Hnd; simpl.
  - split_and!; [done..|set_solver].
  - case_decide as Hin.
    + specialize (IH seen steps Hs Hnd). destruct (foldl _ _ _) as [seen' steps'].
      destruct IH as (? & ? & H3). split_and!; [done..|]. intros s. rewrite H3.
      rewrite Hs in Hin. set_solver.
    + specialize (IH ({[Step res]} ∪ seen) (steps ++ [Step res])).
      destruct (foldl _ _ _) as [seen' steps'].
      destruct IH as (? & ? & H3); [set_solver| |].
      { apply NoDup_app. split_and!; [done|set_solver|]. apply NoDup_singleton. }
      split_and!; [done..|]. intros s. rewrite H3. set_solver.
Qed.

Lemma collect_steps_NoDup l : NoDup (collect_steps l).
Proof.
  unfold collect_steps. pose proof (collect_steps_foldl ∅ [] l) as H.
  destruct (foldl _ _ _). apply H; [set_solver|constructor].
Qed.

Lemma collect_steps_elem l s : s ∈ collect_steps l ↔ s ∈ Step <$> l.
Proof.
  unfold collect_steps. pose proof (collect_steps_foldl ∅ [] l) as H.
  destruct (foldl _ _ _). destruct H as (_ & _ & H); [set_solver|constructor|].
  simpl. rewrite H. set_solver.
Qed.

Lemma groups_permutation steps l :
  NoDup steps → (∀ res, res ∈ l → Step res ∈ steps) →
  steps ≫= (λ s, of_step s l) ≡ₚ l.
Proof.
  intros Hnd. revert l. induction Hnd as [|s steps Hs Hnd IH]; intros l Hl.
  - destruct l as [|res l]; [done|]. specialize (Hl res). set_solver.
  - cbn [mbind list_bind].
    assert (steps ≫= (λ s', of_step s' l) =
            steps ≫= (λ s', of_step s' (filter (λ res, Step res ≠ s) l))) as Heq.
    { apply Forall_bind_ext, Forall_forall. intros s' Hs'. unfold of_step.
      symmetry. apply list_filter_filter_l. intros res <- <-. done. }
    change (list_bind _ _ (λ s0, of_step s0 l) steps) with (steps ≫= λ s0, of_step s0 l).
    rewrite Heq, IH.
    + unfold of_step. apply filter_app_complement.
    + intros res [? Hin]%list_elem_of_filter. specialize (Hl res Hin). set_solver.
Qed.

Lemma concat_str_elem s l : s ∈ l → ∃ a b, concat_str l = a +:+ s +:+ b.
Proof.
  induction l as [|x l IH]; cbn [concat_str]; [set_solver|].
  intros [->|Hin]%elem_of_cons.
  - by exists "", (concat_str l).
  - destruct (IH Hin) as (a & b & Hab). clear IH. exists (x +:+ a), b. rewrite Hab. apply (inj bytes).
    rewrite !bytes_app. by rewrite <- !app_assoc.
Qed.

Lemma concat_str_app l k : concat_str (l ++ k) = concat_str l +:+ concat_str k.
Proof.
  induction l as [|s l IH]; simpl; [done|]. rewrite IH. apply (inj bytes).
  rewrite !bytes_app. by rewrite app_assoc.
Qed.

Lemma contains_concat s l : s ∈ l → contains (concat_str l) s = true.
Proof. intros (a & b & ->)%concat_str_elem. apply contains_true. by exists a, b. Qed.

#[export] Hint Resolve contains_concat : go.

Lemma Fprint_contains_result r res :
  res ∈ Results r → contains (Fprint r) (print_result res) = true.
Proof.
  intros Hin. unfold Fprint.
  do 6 apply contains_app_l. apply contains_app_r.
  eapply contains_trans; [apply contains_concat, list_elem_of_fmap; exists (Step res)|].
  - split; [done|]. apply collect_steps_elem. by apply list_elem_of_fmap_2.
  - unfold print_step. do 3 apply contains_app_l. apply contains_app_r.
    apply contains_concat, list_elem_of_fmap_2, list_elem_of_filter. done.
Qed.

Lemma of_step_groups l steps :
  NoDup steps → (∀ res, res ∈ l → Step res ∈ steps) →
  ∀ s, of_step s (steps ≫= λ s, of_step s l) = of_step s l.
Proof.
  intros Hnd Hl s.
  assert (∀ ks, NoDup ks →
    of_step s (ks ≫= λ s, of_step s l) = if decide (s ∈ ks) then of_step s l else []) as H.
  { induction 1 as [|k ks Hk _ IH]; [done|]. cbn [mbind list_bind].
    change (list_bind _ _ _ ks) with (ks ≫= λ s0, of_step s0 l).
    unfold of_step at 1. rewrite filter_app. fold (of_step s (ks ≫= λ s0, of_step s0 l)).
    rewrite IH. unfold of_step. destruct (decide (s = k)) as [->|Hne].
    - rewrite list_filter_filter_l by done.
      rewrite decide_False by done. rewrite decide_True by set_solver. by rewrite app_nil_r.
    - replace (filter _ (filter _ l)) with (@nil CheckResult).
      + simpl. repeat case_decide; set_solver.
      + symmetry. rewrite list_filter_filter. apply elem_of_nil_inv. intros res.
        rewrite list_elem_of_filter. naive_solver. }
  rewrite H by done. case_decide; [done|].
  unfold of_step. destruct (filter _ _) as [|res k] eqn:E; [done|].
  assert (res ∈ filter (λ res, Step res = s) l) as [<- ?]%list_elem_of_filter by (rewrite E; set_solver).
  set_solver.
Qed.

Lemma print_result_message res :
  CStatus res = FAIL ∨ CStatus res = WARN → contains (print_result res) (Message res) = true.
Proof.
  intros Hs. unfold print_result. do 11 apply contains_app_l.
  replace (_ || _) with true by (destruct Hs as [->| ->]; done).
  case_decide as Hm; [rewrite Hm; by destruct (_ +:+ _)|].
  apply contains_app_r, contains_app_l, contains_app_r, contains_refl.
Qed.
Lemma print_result_fix res :
  CStatus res = FAIL ∨ CStatus res = WARN → contains (print_result res) (Fix res) = true.
Proof.
  intros Hs. unfold print_result. do 11 apply contains_app_l.
  replace (_ || _) with true by (destruct Hs as [->| ->]; done).
  apply contains_app_l. case_decide as Hm; [by rewrite Hm|].
  apply contains_app_l, contains_app_r, contains_refl.
Qed.

(** ** Properties *)

(** The summary line states the exact number of results of each known
    status; when every result carries one of the four statuses the numbers add
    up to the size of the report; and the report has failures exactly when the
    "failed" number it prints is positive. *)
Theorem Summary_counts (r : Report) :
  ∃ p w f s : Z,
    Summary r = itoa p +:+ " passed, " +:+ itoa w +:+ " warning, " +:+
                itoa f +:+ " failed, " +:+ itoa s +:+ " skipped" ∧
    p = count_status PASS (Results r) ∧ w = count_status WARN (Results r) ∧
    f = count_status FAIL (Results r) ∧ s = count_status SKIP (Results r) ∧
    (HasFailures r = true ↔ (0 < f)%Z) ∧
    (Forall (λ res, known_status (CStatus res)) (Results r) →
     (p + w + f + s = Z.of_nat (length (Results r)))%Z).
Proof.
  unfold Summary. rewrite counts_spec. simpl. do 4 eexists.
  split; [done|]. do 4 (split; [done|]).
  split; [apply HasFailures_count|apply count_status_total].
Qed.

(** The terminal report loses nothing and hides no failure: its groups are
    the distinct steps of the results, together they print every result exactly
    once (in its original order within the step), and the text of every FAIL or
    WARN result contains its message and its fix. *)
Theorem Fprint_complete (r : Report) :
  let steps := collect_steps (Results r) in
  NoDup steps ∧
  (steps ≫= λ s, of_step s (Results r)) ≡ₚ Results r ∧
  (∀ s, of_step s (steps ≫= λ s, of_step s (Results r)) = of_step s (Results r)) ∧
  ∀ res, res ∈ Results r →
    contains (Fprint r) (print_result res) = true ∧
    (CStatus res = FAIL ∨ CStatus res = WARN →
     contains (Fprint r) (Message res) = true ∧ contains (Fprint r) (Fix res) = true).
Proof.
  assert (∀ res, res ∈ Results r → Step res ∈ collect_steps (Results r)) as Hall.
  { intros res Hin. apply collect_steps_elem. by apply list_elem_of_fmap_2. }
  pose proof (collect_steps_NoDup (Results r)) as Hnd.
  split_and!; [done|by apply groups_permutation|by apply of_step_groups|].
  intros res Hin. pose proof (Fprint_contains_result r res Hin) as Hc.
  split; [done|]. intros Hs.
  split; (eapply contains_trans; [exact Hc|]).
  - by apply print_result_message.
  - by apply print_result_fix.
Qed.
