(* ===== verification/EnvFile.v ===== *)
(** * extension.env: the file pre-build.sh writes and the validator reads

    tools/pkg/validate/checks.go reads the file twice, with two parsers
    ([CheckExtensionEnvFormat], [parseExtensionEnv]); scripts/pre-build.sh writes
    it from what tools/cmd/register-extension prints. *)

From S2P Require Import Prelude GoStrings GoText Report.
From stdpp Require Import options.

(** ** The two regular expressions *)

(** [^0x[0-9a-fA-F]{n}$]: without the multi-line flag, [$] is the end of text. *)
Definition match_0x_hex (n : nat) (s : string) : bool :=
  match strip_prefix (bytes "0x") (bytes s) with
  | Some l => (length l =? n) && forallb is_hex l
  | None => false
  end.
Definition addressRegex (s : string) : bool := match_0x_hex 40 s.
Definition extensionIDRegex (s : string) : bool := match_0x_hex 64 s.

(** [new(big.Int).SetString(s[2:], 16)] of a string the ID regexp accepts. *)
Definition extension_id_of (s : string) : Z :=
  Z.of_N (default 0%N (parse_digits 16 (bytes (str_drop 2 s)))).

(** ** Parsing *)

(** One line: blank lines and comments are skipped, so are lines without "=";
    both sides of the first "=" are trimmed. *)
Definition env_line (text : string) : option (string * string) :=
  let line := trim_space text in
  if bool_decide (line = "") || has_prefix line "#" then None
  else match split_n2 line "="%char with
       | [k; v] => Some (trim_space k, trim_space v)
       | _ => None
       end.

(** The [vars] map of [CheckExtensionEnvFormat]: later lines overwrite. *)
Definition env_vars (content : string) : gmap string string :=
  foldl (λ vars text, match env_line text with
                      | Some (k, v) => <[k := v]> vars
                      | None => vars
                      end) ∅ (scan_lines content).

(** [parseExtensionEnv] on the content of an existing file; a file that cannot be
    opened gives two empty strings, and the error result is always nil. *)
Definition parse_content (content : string) : string * string :=
  foldl (λ '(extensionID, instructionSender) text,
           match env_line text with
           | Some (key, val) =>
             if decide (key = "EXTENSION_ID") then (val, instructionSender)
             else if decide (key = "INSTRUCTION_SENDER") then (extensionID, val)
             else (extensionID, instructionSender)
           | None => (extensionID, instructionSender)
           end) ("", "") (scan_lines content).

Definition parseExtensionEnv (file : result string) : string * string * option error :=
  match file with
  | Err _ => ("", "", None)
  | Ok content => let '(extID, sender) := parse_content content in (extID, sender, None)
  end.

Section format.
Context `{!Unicode}.

Definition format_fix : string := "Delete config/extension.env and re-run scripts/pre-build.sh".

Definition check_sender (vars : gmap string string) : CheckResult :=
  let name := "INSTRUCTION_SENDER in extension.env" in
  match vars !! "INSTRUCTION_SENDER" with
  | None => mkCheck "deploy" "D7" name FAIL
              "INSTRUCTION_SENDER not found in extension.env" format_fix
  | Some val =>
    if negb (addressRegex val) then
      mkCheck "deploy" "D7" name FAIL
        ("INSTRUCTION_SENDER has invalid format: " +:+ fmt_q val) format_fix
    else mkCheck "deploy" "D7" name PASS val ""
  end.

Definition check_ext_id (vars : gmap string string) : CheckResult :=
  let name := "EXTENSION_ID in extension.env" in
  match vars !! "EXTENSION_ID" with
  | None => mkCheck "deploy" "D7" name FAIL
              "EXTENSION_ID not found in extension.env" format_fix
  | Some val =>
    if negb (extensionIDRegex val) then
      mkCheck "deploy" "D7" name FAIL
        ("EXTENSION_ID has invalid format: " +:+ fmt_q val) format_fix
    else mkCheck "deploy" "D7" name PASS val ""
  end.

Definition CheckExtensionEnvFormat (path : string) (file : result string) : list CheckResult :=
  match file with
  | Err _ => [mkCheck "deploy" "D7" "extension.env exists" SKIP
                ("file not found: " +:+ path) ""]
  | Ok content => let vars := env_vars content in [check_sender vars; check_ext_id vars]
  end.
End format.

(** ** Writing *)

(** What register-extension prints for the id the registry assigned:
    [fmt.Sprintf("0x%064x", extensionID)]. *)
Definition extensionIDHex (id : N) : string := "0x" +:+ fmt_0x 64 id.

(** The here-document of scripts/pre-build.sh. *)
Definition pre_build_env (ext_id sender base_token quote_token : string) : string :=
  "# Auto-generated by pre-build.sh — do not edit manually" +:+ lf +:+
  "EXTENSION_ID=" +:+ ext_id +:+ lf +:+
  "INSTRUCTION_SENDER=" +:+ sender +:+ lf +:+
  "BASE_TOKEN=" +:+ base_token +:+ lf +:+
  "QUOTE_TOKEN=" +:+ quote_token +:+ lf.

(** ** Lemmas *)

Definition lookup_or_empty (k : string) (vars : gmap string string) : string :=
  default "" (vars !! k).

Lemma parse_content_vars content :
  parse_content content =
  (lookup_or_empty "EXTENSION_ID" (env_vars content),
   lookup_or_empty "INSTRUCTION_SENDER" (env_vars content)).
Proof.
  unfold parse_content, env_vars, lookup_or_empty.
  induction (scan_lines content) as [|text l IH] using rev_ind; [done|].
  rewrite !foldl_app. simpl. rewrite IH. clear IH.
  destruct (env_line text) as [[k v]|]; [|done].
  repeat case_decide; subst; simplify_map_eq; try done.
Qed.

Lemma match_0x_hex_bytes n s :
  match_0x_hex n s = true ↔ ∃ l, bytes s = bytes "0x" ++ l ∧ length l = n ∧ forallb is_hex l = true.
Proof.
  unfold match_0x_hex. split.
  - destruct (strip_prefix _ _) as [l|] eqn:E; [|done].
    apply strip_prefix_Some in E. intros [?%Nat.eqb_eq ?]%andb_prop. eauto.
  - intros (l & -> & <- & Hh). rewrite strip_prefix_app, Nat.eqb_refl. done.
Qed.

Lemma is_hex_plain c : is_hex c = true → plain c = true.
Proof. by destruct c as [[] [] [] [] [] [] [] []]; vm_compute. Qed.

Lemma match_0x_hex_plain n s : match_0x_hex n s = true → forallb plain (bytes s) = true.
Proof.
  intros (l & -> & _ & Hh)%match_0x_hex_bytes. rewrite forallb_app.
  apply andb_true_intro; split; [reflexivity|].
  rewrite forallb_forall in *. intros x Hx. by apply is_hex_plain, Hh.
Qed.

Lemma parse_digits_hex l :
  l ≠ [] → forallb is_hex l = true → is_Some (parse_digits 16 l).
Proof.
  intros Hne Hh. unfold parse_digits.
  assert (is_Some (mapM (λ c, d ← digit_val c; if (d <? 16)%N then Some d else None) l)) as [ds ->].
  { clear Hne. induction l as [|c l IH]; [by eexists|]. simpl in Hh.
    apply andb_prop in Hh as [Hc Hl]. cbn [mapM].
    unfold is_hex in Hc. apply bool_decide_eq_true in Hc as [d Hd]. rewrite Hd. simpl.
    destruct (N.ltb_spec d 16); [|pose proof (digit_val_lt _ _ Hd); lia]. simpl.
    destruct (IH Hl) as [ds ->]. by eexists. }
  destruct l; [done|]. by eexists.
Qed.

Lemma fmt_0x_is_hex w n : forallb is_hex (bytes (fmt_0x w n)) = true.
Proof.
  rewrite fmt_0x_chars. apply forallb_forall. intros x Hx.
  apply list_elem_of_In, list_elem_of_fmap in Hx as (d & -> & Hd).
  assert (d < 16)%N as Hlt.
  { apply elem_of_app in Hd as [Hd|Hd].
    - apply elem_of_replicate in Hd as [-> _]. lia.
    - pose proof (digits_lt 16 n ltac:(lia)) as H. rewrite Forall_forall in H. by apply H. }
  unfold is_hex. rewrite digit_val_char by done. reflexivity.
Qed.

Lemma extensionIDHex_regex id : (id < 2 ^ 256)%N → extensionIDRegex (extensionIDHex id) = true.
Proof.
  intros Hid. apply match_0x_hex_bytes. exists (bytes (fmt_0x 64 id)).
  unfold extensionIDHex. rewrite bytes_app. split_and!; [done| |apply fmt_0x_is_hex].
  rewrite <- len_bytes. apply fmt_0x_length; [|lia]. exact Hid.
Qed.

Lemma extensionIDHex_value id : extension_id_of (extensionIDHex id) = Z.of_N id.
Proof.
  unfold extension_id_of, extensionIDHex, str_drop. rewrite bytes_app.
  change (drop 2 (bytes "0x" ++ ?l)) with l. rewrite bytes_str, parse_fmt_0x. done.
Qed.

(** A line [k=v] of plain characters is read back as the pair. *)
Lemma env_line_kv k v :
  forallb plain (bytes k) = true → forallb plain (bytes v) = true →
  "="%char ∉ bytes k → k ≠ "" → has_prefix k "#" = false →
  env_line (k +:+ "=" +:+ v) = Some (k, v).
Proof.
  intros Hk Hv Heq Hne Hh. unfold env_line.
  assert (trimmed (k +:+ "=" +:+ v)) as Ht.
  { apply trimmed_plain. rewrite !bytes_app, !forallb_app, Hk, Hv. done. }
  rewrite (trim_space_trimmed _ Ht).
  destruct k as [|c k]; [done|].
  rewrite bool_decide_eq_false_2 by done.
  assert (has_prefix (String c k +:+ "=" +:+ v) "#" = false) as ->.
  { unfold has_prefix in *. apply bool_decide_eq_false in Hh. apply bool_decide_eq_false.
    intros H. apply Hh. rewrite bytes_app in H. simpl in *. by case_decide. }
  simpl orb. unfold split_n2. rewrite !bytes_app.
  change (bytes "=" ++ bytes v) with ("="%char :: bytes v).
  rewrite cut_app by done. rewrite !str_bytes, !trim_space_trimmed; [done| |]; by apply trimmed_plain.
Qed.

Lemma scan_lines_cons l rest :
  newline ∉ bytes l → (N.of_nat (len l) < max_token)%N →
  scan_lines (l +:+ lf +:+ rest) = str (drop_cr (bytes l)) :: scan_lines rest.
Proof.
  intros Hnl Hlen. unfold scan_lines. rewrite !bytes_app.
  change (bytes lf ++ bytes rest) with (newline :: bytes rest).
  rewrite raw_lines_app by done. cbn [scannable].
  rewrite len_bytes in Hlen. destruct (N.ltb_spec (N.of_nat (length (bytes l))) max_token); [done|lia].
Qed.

Lemma drop_cr_id l : carriage_return ∉ l → drop_cr l = l.
Proof.
  intros H. unfold drop_cr. destruct (reverse l) as [|c r] eqn:E; [done|].
  rewrite decide_False; [done|]. intros ->. apply H.
  rewrite <- (reverse_involutive l), E, elem_of_reverse. set_solver.
Qed.

Lemma plain_no_control l c : forallb plain l = true → plain c = false → c ∉ l.
Proof.
  intros Hl Hc Hin. rewrite forallb_forall in Hl.
  apply list_elem_of_In, Hl in Hin. congruence.
Qed.

Lemma scan_lines_plain l rest :
  forallb plain (bytes l) = true → (N.of_nat (len l) < max_token)%N →
  scan_lines (l +:+ lf +:+ rest) = l :: scan_lines rest.
Proof.
  intros Hl Hlen. rewrite scan_lines_cons; [|by eapply plain_no_control|done].
  rewrite drop_cr_id by (by eapply plain_no_control). by rewrite str_bytes.
Qed.

(** The text of a token address, or nothing when grep found no line. *)
Definition token_text (s : string) : Prop := s = "" ∨ addressRegex s = true.

Lemma match_0x_hex_len n s : match_0x_hex n s = true → len s = 2 + n.
Proof.
  intros (l & Hb & Hl & _)%match_0x_hex_bytes. rewrite len_bytes, Hb, length_app, Hl. done.
Qed.

Lemma scan_kv k v rest :
  forallb plain (bytes k) = true → forallb plain (bytes v) = true → len k + len v < 1000 →
  scan_lines (k +:+ "=" +:+ v +:+ lf +:+ rest) = (k +:+ "=" +:+ v) :: scan_lines rest.
Proof.
  intros Hk Hv Hlen.
  replace (k +:+ "=" +:+ v +:+ lf +:+ rest) with ((k +:+ "=" +:+ v) +:+ lf +:+ rest).
  - apply scan_lines_plain.
    + by rewrite !bytes_app, !forallb_app, Hk, Hv.
    + rewrite !len_app. change (len "=") with 1. unfold max_token. lia.
  - apply (inj bytes). rewrite !bytes_app. by rewrite <- !app_assoc.
Qed.

Lemma scan_pre_build id sender base quote :
  (id < 2 ^ 256)%N → addressRegex sender = true → token_text base → token_text quote →
  scan_lines (pre_build_env (extensionIDHex id) sender base quote) =
  ["# Auto-generated by pre-build.sh — do not edit manually";
   "EXTENSION_ID=" +:+ extensionIDHex id; "INSTRUCTION_SENDER=" +:+ sender;
   "BASE_TOKEN=" +:+ base; "QUOTE_TOKEN=" +:+ quote].
Proof.
  intros Hid Hs Hb Hq. pose proof (extensionIDHex_regex id Hid) as He.
  assert (∀ t, token_text t → forallb plain (bytes t) = true ∧ len t ≤ 42) as Htok.
  { intros t [->|Ht]; [split; [done|unfold len; simpl; lia]|]. split; [by eapply match_0x_hex_plain|].
    apply match_0x_hex_len in Ht. lia. }
  destruct (Htok _ Hb), (Htok _ Hq), (Htok sender (or_intror Hs)).
  pose proof (match_0x_hex_plain _ _ He). pose proof (match_0x_hex_len _ _ He).
  unfold pre_build_env. rewrite scan_lines_cons; [|by_decide..].
  f_equal.
  replace (_ +:+ _) with
    ("EXTENSION_ID" +:+ "=" +:+ extensionIDHex id +:+ lf +:+
     "INSTRUCTION_SENDER" +:+ "=" +:+ sender +:+ lf +:+
     "BASE_TOKEN" +:+ "=" +:+ base +:+ lf +:+ "QUOTE_TOKEN" +:+ "=" +:+ quote +:+ lf +:+ "")
    by done.
  rewrite !scan_kv; first [done | by rewrite ?len_bytes; simpl; lia | idtac].
  all: unfold len in *; cbn [String.length]; lia.
Qed.

Lemma env_vars_pre_build id sender base quote :
  (id < 2 ^ 256)%N → addressRegex sender = true → token_text base → token_text quote →
  env_vars (pre_build_env (extensionIDHex id) sender base quote) =
  <["QUOTE_TOKEN" := quote]> (<["BASE_TOKEN" := base]>
    (<["INSTRUCTION_SENDER" := sender]> (<["EXTENSION_ID" := extensionIDHex id]> ∅))).
Proof.
  intros Hid Hs Hb Hq. unfold env_vars. rewrite scan_pre_build by done.
  assert (∀ t, token_text t → forallb plain (bytes t) = true) as Htok.
  { intros t [->|Ht]; [done|]. by eapply match_0x_hex_plain. }
  pose proof (match_0x_hex_plain _ _ (extensionIDHex_regex id Hid)) as He.
  cbn [foldl].
  assert (env_line "# Auto-generated by pre-build.sh — do not edit manually" = None) as ->
    by (vm_compute; done).
  change ("EXTENSION_ID=" +:+ ?v) with ("EXTENSION_ID" +:+ "=" +:+ v).
  change ("INSTRUCTION_SENDER=" +:+ ?v) with ("INSTRUCTION_SENDER" +:+ "=" +:+ v).
  change ("BASE_TOKEN=" +:+ ?v) with ("BASE_TOKEN" +:+ "=" +:+ v).
  change ("QUOTE_TOKEN=" +:+ ?v) with ("QUOTE_TOKEN" +:+ "=" +:+ v).
  rewrite !env_line_kv; try done; try (by apply Htok); try (by apply Htok; right);
    by_decide.
Qed.

(** What parseExtensionEnv reads back of a file pre-build.sh wrote. *)
Lemma parse_pre_build id sender base quote :
  (id < 2 ^ 256)%N → addressRegex sender = true → token_text base → token_text quote →
  parseExtensionEnv (Ok (pre_build_env (extensionIDHex id) sender base quote)) =
  (extensionIDHex id, sender, None).
Proof.
  intros Hid Hs Hb Hq. unfold parseExtensionEnv, lookup_or_empty.
  by rewrite parse_content_vars, env_vars_pre_build.
Qed.

(** ** Properties *)

(** C33: the two readers of extension.env agree: on any file content the values
    [parseExtensionEnv] returns are the ones [CheckExtensionEnvFormat] finds in
    its map (the last assignment of each key wins), an absent key reading as the
    empty string. *)
Theorem env_readers_agree (content : string) :
  parseExtensionEnv (Ok content) =
  (lookup_or_empty "EXTENSION_ID" (env_vars content),
   lookup_or_empty "INSTRUCTION_SENDER" (env_vars content), None).
Proof. unfold parseExtensionEnv. by rewrite parse_content_vars. Qed.

(** C27: extension.env round trip across the tools: the file pre-build.sh writes
    from the id register-extension prints and from a well-formed sender address
    is read back by the validator as exactly that id and that sender, and its
    format check passes both entries. *)
Theorem extension_env_roundtrip `{!Unicode} (id : N) (sender base quote path : string)
    (Hid : (id < 2 ^ 256)%N) (Hsender : addressRegex sender = true)
    (Hbase : token_text base) (Hquote : token_text quote) :
  let content := pre_build_env (extensionIDHex id) sender base quote in
  parseExtensionEnv (Ok content) = (extensionIDHex id, sender, None) ∧
  extension_id_of (extensionIDHex id) = Z.of_N id ∧
  (CStatus <$> CheckExtensionEnvFormat path (Ok content)) = [PASS; PASS].
Proof.
  intros content.
  assert (env_vars content =
    <["QUOTE_TOKEN" := quote]> (<["BASE_TOKEN" := base]>
      (<["INSTRUCTION_SENDER" := sender]> (<["EXTENSION_ID" := extensionIDHex id]> ∅)))) as Hv.
  { unfold content. by apply env_vars_pre_build. }
  pose proof (extensionIDHex_regex id Hid) as He.
  split_and!.
  - by apply parse_pre_build.
  - apply extensionIDHex_value.
  - unfold CheckExtensionEnvFormat, check_sender, check_ext_id. rewrite Hv.
    simplify_map_eq. by rewrite Hsender, He.
Qed.

Lemma extension_env_roundtrip_witness :
  let U := {| is_print_table := λ _, true |} in
  let content := pre_build_env (extensionIDHex 66046)
    "0x155f065A741b1CBe2A57A5CE28A75a3727ffEbDD" "" "" in
  parseExtensionEnv (Ok content) =
    (extensionIDHex 66046, "0x155f065A741b1CBe2A57A5CE28A75a3727ffEbDD", None) ∧
  extension_id_of (extensionIDHex 66046) = 66046%Z ∧
  (CStatus <$> @CheckExtensionEnvFormat U "extension.env" (Ok content)) = [PASS; PASS].
Proof.
  apply (@extension_env_roundtrip {| is_print_table := λ _, true |});
    [reflexivity | vm_compute; reflexivity | by left | by left].
Defined.
