(* ===== verification/Checks.v ===== *)
(** * tools/pkg/validate: the deployment checks

    Each [Register...Checks] function appends its results to the report.  A nil
    client, registry or allowlist is a [false] flag; a nil key is [None].  The
    [getenv] of [OS] is [os.Getenv]: an unset variable reads as the empty
    string. *)

From S2P Require Import Prelude GoStrings GoText Platform Sim Report EnvFile.
From stdpp Require Import options.

Section checks.
Context {W : Type} `{OSW : !OS W, Uni : !Unicode, Geth : !GoEthereum, Eth : !Ethclient W,
  EMgr : !ExtensionManager W, Allow : !OwnerAllowlist W, Node : !TeeNode}.

(** ** validate.go *)

Definition MinDeployBalance : Z := 10000000000000000.

Definition AddressNotZero (addr label : string) : option error :=
  if decide (addr = zero_address) then
    Some (ErrMsg (label +:+ " is the zero address (" +:+ Address_Hex addr +:+
                  ") in the addresses file"))
  else None.

Definition AddressHasCode (client : bool) (addr label : string) : M W (option error) :=
  if negb client then
    ret (Some (ErrMsg ("cannot check " +:+ label +:+ ": no chain client connected")))
  else
    code ←? CodeAt addr
      | e => ret (Some (ErrWrap ("cannot check " +:+ label +:+ ": " +:+ err_text e) e));
    if decide (len code = 0) then
      ret (Some (ErrMsg (label +:+ " at " +:+ Address_Hex addr +:+ " has no deployed code. " +:+
        "This address will be set as immutable in the contract constructor and cannot be changed. " +:+
        "Check your deployed-addresses.json file — are you on the right network?")))
    else ret None.

Definition KeyHasFunds (client : bool) (key : PrivateKey) (minWei : Z) : M W (option error) :=
  if negb client then
    ret (Some (ErrMsg "cannot check deployer balance: no chain client connected"))
  else
    let addr := PubkeyToAddress key in
    balance ←? BalanceAt addr
      | e => ret (Some (ErrWrap ("cannot check deployer balance: " +:+ err_text e) e));
    if (balance <? minWei)%Z then
      ret (Some (ErrMsg ("deployer " +:+ Address_Hex addr +:+
        " has insufficient funds (balance: " +:+ itoa balance +:+
        " wei, minimum required: " +:+ itoa minWei +:+ " wei). " +:+
        "Fund this account before deploying")))
    else ret None.

Definition IsUsingDevKey : M W bool :=
  reads (λ w, bool_decide (getenv "DEPLOYMENT_PRIVATE_KEY" w = "")).

(** ** checks.go *)

(** The D3 loop body, for one entry of the address map. *)
Definition deploy_check_d3 (acc : Report * gset string) (e : string * string) :
    Report * gset string :=
  let '(r, zeroAddrs) := acc in
  let '(label, addr) := e in
  match AddressNotZero addr label with
  | Some err =>
    (Add r (mkCheck "deploy" "D3" (label +:+ " address not zero") FAIL (err_text err)
              "Re-run the deploy script or check deployed-addresses.json"),
     {[label]} ∪ zeroAddrs)
  | None =>
    (Add r (mkCheck "deploy" "D3" (label +:+ " address not zero") PASS (Address_Hex addr) ""),
     zeroAddrs)
  end.

(** The D1 loop over the entries whose address is not zero. *)
Fixpoint deploy_check_d1 (client : bool) (zeroAddrs : gset string)
    (es : list (string * string)) (r : Report) : M W Report :=
  match es with
  | [] => ret r
  | (label, addr) :: es =>
    if decide (label ∈ zeroAddrs) then deploy_check_d1 client zeroAddrs es r
    else
      err ← AddressHasCode client addr label;
      let res :=
        match err with
        | Some e => mkCheck "deploy" "D1" (label +:+ " has deployed code") FAIL (err_text e)
                      "Deploy contracts or check CHAIN_URL / deployed-addresses.json"
        | None => mkCheck "deploy" "D1" (label +:+ " has deployed code") PASS
                    ("code found at " +:+ Address_Hex addr) ""
        end in
      deploy_check_d1 client zeroAddrs es (Add r res)
  end.

Definition CheckDeployerKeySource (w : W) : CheckResult :=
  let privKey := getenv "DEPLOYMENT_PRIVATE_KEY" w in
  let localMode := getenv "LOCAL_MODE" w in
  if bool_decide (privKey ≠ "") then
    mkCheck "deploy" "D5" "deployer key source" PASS "DEPLOYMENT_PRIVATE_KEY is set" ""
  else if bool_decide (localMode = "true") || bool_decide (localMode = "") then
    mkCheck "deploy" "D5" "deployer key source" PASS "using Hardhat dev key (LOCAL_MODE)" ""
  else
    mkCheck "deploy" "D5" "deployer key source" WARN
      "DEPLOYMENT_PRIVATE_KEY not set — using Hardhat dev key which has no funds on Coston2"
      "Set DEPLOYMENT_PRIVATE_KEY in .env to a funded account on the target network".

(** [chainName] of a value with a [String] method. *)
Definition chainName (id : string) : string :=
  if decide (id = "31337") then "Hardhat/Anvil (local devnet)"
  else if decide (id = "114") then "Coston2 (testnet)"
  else if decide (id = "14") then "Flare (mainnet)"
  else "unknown network".

Definition checkChainID : M W CheckResult :=
  chainID ←? ChainID
    | e => ret (mkCheck "deploy" "D6" "chain ID" FAIL
                  ("failed to get chain ID: " +:+ err_text e) "Check CHAIN_URL");
  let name := chainName (itoa chainID) in
  ret (mkCheck "deploy" "D6" "chain ID" PASS
         ("chain ID " +:+ itoa chainID +:+ " (" +:+ name +:+ ")") "").

(** The address map is iterated twice, each time in an order of the runtime's
    choosing: [order1] and [order2] are those orders. *)
Definition RegisterDeployChecks (r : Report) (client : bool) (key : option PrivateKey)
    (order1 order2 : list (string * string)) (extensionEnvPath : string) : M W Report :=
  let '(r, zeroAddrs) := foldl deploy_check_d3 (r, ∅) order1 in
  r ← deploy_check_d1 client zeroAddrs order2 r;
  src ← reads CheckDeployerKeySource;
  let r := Add r src in
  r ← match key with
      | Some key =>
        if client then
          err ← KeyHasFunds client key MinDeployBalance;
          ret (Add r match err with
               | Some e => mkCheck "deploy" "D5" "deployer has sufficient funds" FAIL
                             (err_text e) "Fund the deployer account before deploying"
               | None => mkCheck "deploy" "D5" "deployer has sufficient funds" PASS
                           "balance above minimum threshold" ""
               end)
        else ret r
      | None => ret r
      end;
  r ← (if client then res ← checkChainID; ret (Add r res) else ret r);
  if decide (extensionEnvPath = "") then ret r
  else
    file ← reads (open_file extensionEnvPath);
    ret (foldl Add r (CheckExtensionEnvFormat extensionEnvPath file)).

(** ** R1-R7 *)

(** R1: the next public extension id; [None] is the nil [counter]. *)
Definition check_r1 (r : Report) : M W (Report * option Z) :=
  let name := "next public extension id" in
  counter ←? NextPublicExtensionId
    | e => ret (Add r (mkCheck "register" "R1" name FAIL
                         ("failed to query nextPublicExtensionId: " +:+ err_text e) ""), None);
  if decide (counter = 0%Z) then
    ret (Add r (mkCheck "register" "R1" name WARN
                  "nextPublicExtensionId is 0 — no public extensions registered yet" ""),
         Some counter)
  else
    ret (Add r (mkCheck "register" "R1" name PASS
                  ("nextPublicExtensionId = " +:+ itoa counter) ""), Some counter).

Definition check_r2 (r : Report) (extensionID : Z) (instrSender : string) : M W Report :=
  let name := "instruction sender matches on-chain" in
  onChainSender ←? GetTeeExtensionInstructionsSender extensionID
    | e => ret (Add r (mkCheck "register" "R2" name FAIL
                         ("failed to query instruction sender: " +:+ err_text e) ""));
  let expectedAddr := HexToAddress instrSender in
  if decide (onChainSender = expectedAddr) then
    ret (Add r (mkCheck "register" "R2" name PASS
                  ("on-chain sender " +:+ Address_Hex onChainSender +:+
                   " matches extension.env") ""))
  else
    ret (Add r (mkCheck "register" "R2" name FAIL
                  ("on-chain sender " +:+ Address_Hex onChainSender +:+
                   " != extension.env " +:+ instrSender)
                  "Re-register the extension or update extension.env")).

Definition check_r3 (r : Report) (extensionID : Z) (key : PrivateKey) : M W Report :=
  let name := "deployer is allowed TEE machine owner" in
  let deployerAddr := PubkeyToAddress key in
  allowed ←? IsAllowedTeeMachineOwner extensionID deployerAddr
    | e => ret (Add r (mkCheck "register" "R3" name FAIL
                         ("failed to query allowlist: " +:+ err_text e) ""));
  if allowed : bool then
    ret (Add r (mkCheck "register" "R3" name PASS
                  "deployer is on the TEE machine owner allowlist" ""))
  else
    ret (Add r (mkCheck "register" "R3" name FAIL
                  "deployer is NOT on the TEE machine owner allowlist"
                  "Run the register step to add the deployer as a TEE machine owner")).

Definition check_r4 (r : Report) (extensionID : Z) : M W Report :=
  let name := "EVM key type supported" in
  supported ←? IsKeyTypeSupportedCall extensionID EVMType
    | e => ret (Add r (mkCheck "register" "R4" name FAIL
                         ("failed to query key type support: " +:+ err_text e) ""));
  if supported : bool then
    ret (Add r (mkCheck "register" "R4" name PASS
                  "EVM key type is supported for this extension" ""))
  else
    ret (Add r (mkCheck "register" "R4" name FAIL
                  "EVM key type is NOT supported for this extension"
                  "Run the register step to add EVM key type support")).

(** The R7 loop: [n] iterations from id [i]; ids whose query fails are skipped. *)
Fixpoint r7_loop (n : nat) (i : Z) (expectedAddr : string) (matchingIDs : list string) :
    M W (list string) :=
  match n with
  | O => ret matchingIDs
  | S n =>
    sender ←? GetTeeExtensionInstructionsSender i
      | e => r7_loop n (i + 1) expectedAddr matchingIDs;
    r7_loop n (i + 1) expectedAddr
      (if decide (sender = expectedAddr) then matchingIDs ++ [itoa i] else matchingIDs)
  end.

(** [counter.Int64()] keeps the low 64 bits. *)
Definition check_r7 (r : Report) (counter : Z) (instrSender : string) : M W Report :=
  let name := "unique instruction sender" in
  let expectedAddr := HexToAddress instrSender in
  matchingIDs ← r7_loop (Z.to_nat (swrap64 counter)) 0 expectedAddr [];
  if decide (1 < length matchingIDs) then
    ret (Add r (mkCheck "register" "R7" name WARN
                  ("INSTRUCTION_SENDER " +:+ instrSender +:+
                   " is used by multiple extensions: " +:+ join matchingIDs ", ") ""))
  else
    ret (Add r (mkCheck "register" "R7" name PASS
                  "instruction sender is unique across registered extensions" "")).

Definition RegisterRegistrationChecks (r : Report) (client : bool) (key : option PrivateKey)
    (registry allowlist : bool) (extensionEnvPath : string) : M W Report :=
  let name := "registration checks" in
  if decide (extensionEnvPath = "") then
    ret (Add r (mkCheck "register" "R1-R7" name SKIP "no --config path provided" ""))
  else
  env ← reads (λ w, parseExtensionEnv (open_file extensionEnvPath w));
  let '(extIDStr, instrSender, err) := env in
  match err with
  | Some e =>
    ret (Add r (mkCheck "register" "R1-R7" name FAIL
                  ("failed to parse extension.env: " +:+ err_text e) ""))
  | None =>
  if bool_decide (extIDStr = "") && bool_decide (instrSender = "") then
    ret (Add r (mkCheck "register" "R1-R7" name SKIP
                  "config/extension.env not found — run pre-build.sh first" ""))
  else
  rc ← (if registry && client then check_r1 r else ret (r, None));
  let '(r, counter) := rc in
  if negb (extensionIDRegex extIDStr) then
    ret (Add r (mkCheck "register" "R2" "EXTENSION_ID format" FAIL
                  ("malformed EXTENSION_ID: " +:+ fmt_q extIDStr)
                  "Delete config/extension.env and re-run scripts/pre-build.sh"))
  else
  let extensionID := extension_id_of extIDStr in
  r ← (if registry && client && addressRegex instrSender
       then check_r2 r extensionID instrSender else ret r);
  r ← match key with
      | Some key => if allowlist && client then check_r3 r extensionID key else ret r
      | None => ret r
      end;
  r ← (if registry && client then check_r4 r extensionID else ret r);
  match counter with
  | Some counter =>
    if (0 <? counter)%Z && addressRegex instrSender && registry && client
    then check_r7 r counter instrSender else ret r
  | None => ret r
  end
  end.

(** ** Services, TEE version, TEE machine, test *)

(** [http.Get(url + "/info")] answers 200 within the timeout. *)
Definition info_reachable (url : string) : M W bool :=
  resp ←? http_get (url +:+ "/info") | e => ret false;
  ret (Z.eqb (fst resp) 200).

Definition check_s2 (extensionEnvPath : string) (w : W) : CheckResult :=
  let name := "EXTENSION_ID is set and well-formed" in
  if decide (extensionEnvPath = "") then
    mkCheck "services" "S2" name SKIP "run pre-build.sh first" ""
  else
    let '(extID, _, _) := parseExtensionEnv (open_file extensionEnvPath w) in
    if decide (extID = "") then
      mkCheck "services" "S2" name FAIL
        "EXTENSION_ID is empty or not found in extension.env"
        "Delete config/extension.env and re-run scripts/pre-build.sh"
    else if negb (extensionIDRegex extID) then
      mkCheck "services" "S2" name FAIL
        ("EXTENSION_ID has invalid format: " +:+ fmt_q extID)
        "Delete config/extension.env and re-run scripts/pre-build.sh"
    else mkCheck "services" "S2" name PASS extID "".

Definition check_s5 : M W CheckResult :=
  port ← reads (getenv "EXTENSION_PORT");
  let port := if decide (port = "") then "7702" else port in
  connected ← dial_tcp ("localhost:" +:+ port);
  if connected : bool then
    ret (mkCheck "services" "S5" "extension port not in use" WARN
           ("port " +:+ port +:+ " is already in use — extension server will fail to bind")
           "Stop the process using that port or change EXTENSION_PORT")
  else ret (mkCheck "services" "S5" "extension port not in use" PASS "port available" "").

Definition check_s7 (w : W) : CheckResult :=
  let extPort := getenv "EXTENSION_PORT" w in
  let signPort := getenv "SIGN_PORT" w in
  if bool_decide (extPort ≠ "") || bool_decide (signPort ≠ "") then
    mkCheck "services" "S7" "port configuration" PASS
      ("EXTENSION_PORT=" +:+ extPort +:+ ", SIGN_PORT=" +:+ signPort) ""
  else
    mkCheck "services" "S7" "port configuration" PASS
      "using defaults (standalone: 8080/9090, Docker: 7702/7701)" "".

Definition check_s9 : M W CheckResult :=
  proxyURL ← reads (getenv "EXT_PROXY_URL");
  if decide (proxyURL = "") then
    ret (mkCheck "services" "S9" "EXT_PROXY_URL reachable" SKIP "EXT_PROXY_URL not set" "")
  else
    ok ← info_reachable proxyURL;
    if ok : bool then
      ret (mkCheck "services" "S9" "EXT_PROXY_URL reachable" PASS
             ("proxy reachable at " +:+ proxyURL) "")
    else
      ret (mkCheck "services" "S9" "EXT_PROXY_URL reachable" WARN
             ("proxy not reachable at " +:+ proxyURL +:+ " — is the proxy running?")
             "Start the proxy or check EXT_PROXY_URL").

Definition check_s10 (w : W) : CheckResult :=
  let name := "PROXY_PRIVATE_KEY set on non-local" in
  let localMode := getenv "LOCAL_MODE" w in
  let privateKey := getenv "PROXY_PRIVATE_KEY" w in
  if bool_decide (localMode = "true") || bool_decide (localMode = "") then
    mkCheck "services" "S10" name PASS "local mode, dev key OK" ""
  else if bool_decide (localMode = "false") && bool_decide (privateKey = "") then
    mkCheck "services" "S10" name WARN
      "PROXY_PRIVATE_KEY not set in non-local mode — proxy will use default key"
      "Set PROXY_PRIVATE_KEY in .env for non-local deployments"
  else mkCheck "services" "S10" name PASS "PROXY_PRIVATE_KEY is configured" "".

Definition RegisterServicesChecks (r : Report) (extensionEnvPath : string) : M W Report :=
  s2 ← reads (check_s2 extensionEnvPath);
  s5 ← check_s5;
  s7 ← reads check_s7;
  s9 ← check_s9;
  s10 ← reads check_s10;
  ret (Add (Add (Add (Add (Add r s2) s5) s7) s9) s10).

Definition check_v2 (w : W) : CheckResult :=
  let name := "extension owner key" in
  let extOwnerKey := getenv "EXTENSION_OWNER_KEY" w in
  let privKey := getenv "DEPLOYMENT_PRIVATE_KEY" w in
  let localMode := getenv "LOCAL_MODE" w in
  if bool_decide (extOwnerKey ≠ "") then
    mkCheck "tee-version" "V2" name PASS "EXTENSION_OWNER_KEY is configured" ""
  else if bool_decide (privKey ≠ "") then
    mkCheck "tee-version" "V2" name PASS
      "using DEPLOYMENT_PRIVATE_KEY (EXTENSION_OWNER_KEY not set)" ""
  else if bool_decide (localMode ≠ "true") && bool_decide (localMode ≠ "") then
    mkCheck "tee-version" "V2" name WARN
      "neither EXTENSION_OWNER_KEY nor DEPLOYMENT_PRIVATE_KEY set — AddTeeVersion will use dev key which isn't the extension owner on Coston2"
      "Set EXTENSION_OWNER_KEY or DEPLOYMENT_PRIVATE_KEY in .env"
  else mkCheck "tee-version" "V2" name PASS "using dev key (local mode)" "".

Definition check_v4 (extensionEnvPath : string) (w : W) : CheckResult :=
  let name := "EXTENSION_ID valid" in
  if decide (extensionEnvPath = "") then
    mkCheck "tee-version" "V4" name SKIP "no --config provided" ""
  else
    let '(extID, _, err) := parseExtensionEnv (open_file extensionEnvPath w) in
    match err with
    | Some e =>
      mkCheck "tee-version" "V4" name FAIL ("failed to parse extension.env: " +:+ err_text e) ""
    | None =>
      if decide (extID = "") then
        if stat_missing extensionEnvPath w then
          mkCheck "tee-version" "V4" name SKIP
            "extension.env not found — run pre-build.sh first" ""
        else
          mkCheck "tee-version" "V4" name FAIL "EXTENSION_ID not set"
            "Delete config/extension.env and re-run scripts/pre-build.sh"
      else if negb (extensionIDRegex extID) then
        mkCheck "tee-version" "V4" name FAIL "EXTENSION_ID malformed"
          "Delete config/extension.env and re-run scripts/pre-build.sh"
      else mkCheck "tee-version" "V4" name PASS extID ""
    end.

Definition check_v6 : M W CheckResult :=
  proxyURL ← reads (getenv "EXT_PROXY_URL");
  if decide (proxyURL = "") then
    ret (mkCheck "tee-version" "V6" "proxy reachable" SKIP
           "EXT_PROXY_URL not set — allow-tee-version uses -p flag" "")
  else
    ok ← info_reachable proxyURL;
    if ok : bool then
      ret (mkCheck "tee-version" "V6" "proxy reachable" PASS
             ("proxy reachable at " +:+ proxyURL) "")
    else
      ret (mkCheck "tee-version" "V6" "proxy reachable" WARN
             ("proxy not reachable at " +:+ proxyURL +:+ " — start services first")
             "Start the proxy or check EXT_PROXY_URL").

Definition RegisterTeeVersionChecks (r : Report) (extensionEnvPath : string) : M W Report :=
  v2 ← reads check_v2;
  v4 ← reads (check_v4 extensionEnvPath);
  v6 ← check_v6;
  ret (Add (Add (Add r v2) v4) v6).

Definition check_t1 (w : W) : CheckResult :=
  let name := "SIMULATED_TEE mode" in
  let simulatedTee := getenv "SIMULATED_TEE" w in
  let localMode := getenv "LOCAL_MODE" w in
  if bool_decide (simulatedTee = "true") && bool_decide (localMode = "false") then
    mkCheck "tee-machine" "T1" name WARN
      "SIMULATED_TEE=true on non-local deployment — machine will be registered with test attestation values. Set SIMULATED_TEE=false for real TEE hardware"
      "Set SIMULATED_TEE=false in .env when deploying to a real GCP TEE"
  else if bool_decide (simulatedTee = "true") then
    mkCheck "tee-machine" "T1" name PASS "simulated TEE mode (local)" ""
  else mkCheck "tee-machine" "T1" name PASS "real attestation mode" "".

Definition check_t5 : M W CheckResult :=
  normalProxyURL ← reads (getenv "NORMAL_PROXY_URL");
  if decide (normalProxyURL = "") then
    ret (mkCheck "tee-machine" "T5" "NORMAL_PROXY_URL reachable" SKIP
           "NORMAL_PROXY_URL not set" "")
  else
    ok ← info_reachable normalProxyURL;
    if ok : bool then
      ret (mkCheck "tee-machine" "T5" "NORMAL_PROXY_URL reachable" PASS
             ("normal proxy reachable at " +:+ normalProxyURL) "")
    else
      ret (mkCheck "tee-machine" "T5" "NORMAL_PROXY_URL reachable" WARN
             ("normal proxy not reachable at " +:+ normalProxyURL +:+
              " — required for FTDC availability check")
             "Ensure the normal/FTDC proxy is running and NORMAL_PROXY_URL is correct in .env").

Definition check_t10 : M W CheckResult :=
  extProxyURL ← reads (getenv "EXT_PROXY_URL");
  if decide (extProxyURL = "") then
    ret (mkCheck "tee-machine" "T10" "host URL reachable" SKIP "EXT_PROXY_URL not set" "")
  else
    ok ← info_reachable extProxyURL;
    if ok : bool then
      ret (mkCheck "tee-machine" "T10" "host URL reachable" PASS
             ("host URL reachable at " +:+ extProxyURL) "")
    else
      ret (mkCheck "tee-machine" "T10" "host URL reachable" WARN
             ("host URL not reachable at " +:+ extProxyURL +:+
              " — machine will be registered with unreachable host. Data providers can't relay instructions")
             "Ensure the host is accessible and EXT_PROXY_URL or -h flag points to the right URL").

Definition RegisterTeeMachineChecks (r : Report) (extensionEnvPath : string) : M W Report :=
  t1 ← reads check_t1;
  t5 ← check_t5;
  t10 ← check_t10;
  ret (Add (Add (Add r t1) t5) t10).

Definition check_e1 (extensionEnvPath : string) (w : W) : CheckResult :=
  let name := "INSTRUCTION_SENDER valid" in
  if decide (extensionEnvPath = "") then
    mkCheck "test" "E1" name SKIP "no --config provided" ""
  else
    let '(_, instrSender, _) := parseExtensionEnv (open_file extensionEnvPath w) in
    if stat_missing extensionEnvPath w then
      mkCheck "test" "E1" name SKIP "extension.env not found — run pre-build.sh first" ""
    else if decide (instrSender = "") then
      mkCheck "test" "E1" name FAIL "INSTRUCTION_SENDER not set — run pre-build.sh"
        "Run scripts/pre-build.sh to deploy and register the extension"
    else if negb (addressRegex instrSender) then
      mkCheck "test" "E1" name FAIL "INSTRUCTION_SENDER malformed"
        "Delete config/extension.env and re-run scripts/pre-build.sh"
    else mkCheck "test" "E1" name PASS instrSender "".

Definition check_e3 : M W CheckResult :=
  proxyURL ← reads (getenv "EXT_PROXY_URL");
  if decide (proxyURL = "") then
    ret (mkCheck "test" "E3" "proxy reachable for test results" SKIP "EXT_PROXY_URL not set" "")
  else
    ok ← info_reachable proxyURL;
    if ok : bool then
      ret (mkCheck "test" "E3" "proxy reachable for test results" PASS
             "proxy reachable for test result polling" "")
    else
      ret (mkCheck "test" "E3" "proxy reachable for test results" WARN
             "proxy not reachable — test results cannot be polled"
             "Start the proxy or check EXT_PROXY_URL").

Definition check_e6 : CheckResult :=
  mkCheck "test" "E6" "OPType/OPCommand alignment info" PASS
    "OPType/OPCommand hashes are validated at runtime — if a 501 error occurs, check the hash values in the error message"
    "".

Definition RegisterTestChecks (r : Report) (extensionEnvPath : string) : M W Report :=
  e1 ← reads (check_e1 extensionEnvPath);
  e3 ← check_e3;
  ret (Add (Add (Add r e1) e3) check_e6).

Definition RegisterStubChecks (r : Report) (step idRange name : string) : Report :=
  Add r (mkCheck step idRange name SKIP "not yet implemented" "").

(** ** Well-formed results

    What the [CheckResult] declaration says of its fields: the step is the
    registrar's, the status one of the four, and a fix comes only with FAIL or
    WARN. *)
Definition wf_result (step : string) (res : CheckResult) : Prop :=
  Step res = step ∧ known_status (CStatus res) ∧
  (Fix res ≠ "" → CStatus res = FAIL ∨ CStatus res = WARN).

(** [r'] is [r] followed by well-formed results of the step. *)
Definition extends (step : string) (r r' : Report) : Prop :=
  ∃ new, Results r' = Results r ++ new ∧ Forall (wf_result step) new.

Lemma extends_refl step r : extends step r r.
Proof. exists []. by rewrite app_nil_r. Qed.
Lemma extends_trans step r1 r2 r3 :
  extends step r1 r2 → extends step r2 r3 → extends step r1 r3.
Proof.
  intros (n1 & E1 & F1) (n2 & E2 & F2). exists (n1 ++ n2).
  rewrite E2, E1, app_assoc. split; [done|]. by apply Forall_app.
Qed.
Lemma extends_Add step r r' res :
  extends step r r' → wf_result step res → extends step r (Add r' res).
Proof.
  intros H Hres. eapply extends_trans; [exact H|].
  exists [res]. split; [done|]. by apply Forall_singleton.
Qed.
Lemma extends_foldl_Add step r r' l :
  extends step r r' → Forall (wf_result step) l → extends step r (foldl Add r' l).
Proof.
  intros Hr Hl. revert r' Hr. induction Hl as [|res l Hres _ IH]; intros r' Hr; simpl; [done|].
  by apply IH, extends_Add.
Qed.

Lemma wf_pass step id name msg : wf_result step (mkCheck step id name PASS msg "").
Proof. unfold wf_result, known_status, PASS; simpl; split_and!; [done|lia|lia|done]. Qed.
Lemma wf_skip step id name msg : wf_result step (mkCheck step id name SKIP msg "").
Proof. unfold wf_result, known_status, SKIP; simpl; split_and!; [done|lia|lia|done]. Qed.
Lemma wf_fail step id name msg fix_ : wf_result step (mkCheck step id name FAIL msg fix_).
Proof. unfold wf_result, known_status, FAIL; simpl; split_and!; [done|lia|lia|by left]. Qed.
Lemma wf_warn step id name msg fix_ : wf_result step (mkCheck step id name WARN msg fix_).
Proof. unfold wf_result, known_status, WARN; simpl; split_and!; [done|lia|lia|by right]. Qed.

Hint Resolve extends_refl extends_Add wf_pass wf_skip wf_fail wf_warn : checks.

(** A computation whose every outcome satisfies [P]. *)
Definition always {A} (P : A → Prop) (m : M W A) : Prop := ∀ w, P (fst (m w)).

Lemma always_ret {A} (P : A → Prop) a : P a → always P (ret a).
Proof. intros HP w. exact HP. Qed.
Lemma always_reads {A} (P : A → Prop) f : (∀ w, P (f w)) → always P (reads f).
Proof. intros HP w. exact (HP w). Qed.
Lemma always_bind {A B} (Q : A → Prop) (P : B → Prop) (m : M W A) k :
  always Q m → (∀ a, Q a → always P (k a)) → always P (bind m k).
Proof.
  intros Hm Hk w. unfold bind. specialize (Hm w). destruct (m w) as [a w'].
  by apply Hk.
Qed.
Lemma always_bind_any {A B} (P : B → Prop) (m : M W A) k :
  (∀ a, always P (k a)) → always P (bind m k).
Proof. intros Hk. apply (always_bind (λ _, True)); [done|auto]. Qed.

(** Walks through a computation, splitting on every test. *)
Ltac always_step :=
  lazymatch goal with
  | |- always _ (ret _) => apply always_ret
  | |- always _ (reads _) => apply always_reads; intros ?
  | |- always _ (_ ≫= _) => apply always_bind_any; intros ?
  | |- always _ (bind _ _) => apply always_bind_any; intros ?
  | |- always _ (match ?x with _ => _ end) => destruct x
  | |- wf_result _ (match ?x with _ => _ end) => destruct x
  | |- wf_result _ (let '(_, _) := ?x in _) => destruct x
  | |- extends _ _ (match ?x with _ => _ end) => destruct x
  end.
Ltac always_tac := repeat always_step; simpl; eauto with checks.

Lemma wf_sender vars : wf_result "deploy" (check_sender vars).
Proof. unfold check_sender. always_tac. Qed.
Lemma wf_ext_id vars : wf_result "deploy" (check_ext_id vars).
Proof. unfold check_ext_id. always_tac. Qed.
Lemma wf_env_format path file : Forall (wf_result "deploy") (CheckExtensionEnvFormat path file).
Proof.
  unfold CheckExtensionEnvFormat. destruct file; rewrite ?Forall_cons;
    auto using wf_sender, wf_ext_id, wf_skip.
Qed.

(** Binding a computation whose report extends [r]. *)
Lemma always_bind_extends {B} step r (P : B → Prop) (m : M W Report) k :
  always (extends step r) m → (∀ r', extends step r r' → always P (k r')) →
  always P (bind m k).
Proof. apply always_bind. Qed.
Lemma always_bind_wf {B} step (P : B → Prop) (m : M W CheckResult) k :
  always (wf_result step) m → (∀ res, wf_result step res → always P (k res)) →
  always P (bind m k).
Proof. apply always_bind. Qed.

Lemma d3_extends r zs es :
  extends "deploy" r (fst (foldl deploy_check_d3 (r, zs) es)).
Proof.
  assert (∀ r', extends "deploy" r r' → extends "deploy" r (fst (foldl deploy_check_d3 (r', zs) es)))
    as Hx; [|auto with checks].
  revert zs. induction es as [|[label addr] es IH]; intros zs r' Hr'; [done|].
  cbn [foldl deploy_check_d3]. destruct (AddressNotZero addr label); apply IH; auto with checks.
Qed.

Lemma d1_extends client zs es r r' :
  extends "deploy" r r' → always (extends "deploy" r) (deploy_check_d1 client zs es r').
Proof.
  revert r'. induction es as [|[label addr] es IH]; intros r' Hr'; cbn [deploy_check_d1].
  - by apply always_ret.
  - case_decide; [by apply IH|]. apply always_bind_any. intros err. apply IH.
    destruct err; auto with checks.
Qed.

Lemma deployer_key_wf w : wf_result "deploy" (CheckDeployerKeySource w).
Proof. unfold CheckDeployerKeySource. always_tac. Qed.
Lemma chain_id_wf : always (wf_result "deploy") checkChainID.
Proof. unfold checkChainID. always_tac. Qed.

Lemma deploy_extends r client key o1 o2 path :
  always (extends "deploy" r) (RegisterDeployChecks r client key o1 o2 path).
Proof.
  unfold RegisterDeployChecks. pose proof (d3_extends r ∅ o1) as Hd3.
  destruct (foldl deploy_check_d3 (r, ∅) o1) as [r1 zs]. cbn [fst] in Hd3.
  apply (always_bind_extends "deploy" r); [by apply d1_extends|]. intros r2 Hr2.
  apply (always_bind_wf "deploy"); [apply always_reads, deployer_key_wf|]. intros src Hsrc.
  apply (always_bind_extends "deploy" r).
  { always_tac. apply extends_Add; [auto with checks|]. always_tac. }
  intros r3 Hr3. apply (always_bind_extends "deploy" r).
  { destruct client; [|by apply always_ret].
    apply (always_bind_wf "deploy"); [apply chain_id_wf|]. intros res Hres.
    apply always_ret. auto with checks. }
  intros r4 Hr4. case_decide; [by apply always_ret|].
  apply always_bind_any. intros file. apply always_ret, extends_foldl_Add; [done|].
  apply wf_env_format.
Qed.

Lemma r7_extends r r' counter sender :
  extends "register" r r' → always (extends "register" r) (check_r7 r' counter sender).
Proof. intros. unfold check_r7. always_tac. Qed.

Lemma registration_extends r client key registry allowlist path :
  always (extends "register" r) (RegisterRegistrationChecks r client key registry allowlist path).
Proof.
  unfold RegisterRegistrationChecks. case_decide; [apply always_ret; auto with checks|].
  apply always_bind_any. intros [[extID sender] err].
  destruct err; [apply always_ret; auto with checks|].
  destruct (_ && _); [apply always_ret; auto with checks|].
  apply (always_bind (λ rc, extends "register" r (fst rc))).
  { destruct (_ && _); [|apply always_ret; auto with checks].
    unfold check_r1. always_tac. }
  intros [r1 counter] Hr1. cbn [fst] in Hr1.
  destruct (negb _); [apply always_ret; auto with checks|].
  apply (always_bind_extends "register" r).
  { unfold check_r2. always_tac. }
  intros r2 Hr2. apply (always_bind_extends "register" r).
  { unfold check_r3. always_tac. }
  intros r3 Hr3. apply (always_bind_extends "register" r).
  { unfold check_r4. always_tac. }
  intros r4 Hr4. destruct counter; [|by apply always_ret].
  destruct (_ && _); [|by apply always_ret]. by apply r7_extends.
Qed.

Lemma services_extends r path :
  always (extends "services" r) (RegisterServicesChecks r path).
Proof.
  unfold RegisterServicesChecks.
  apply (always_bind_wf "services"); [unfold check_s2; always_tac|intros ? ?].
  apply (always_bind_wf "services"); [unfold check_s5; always_tac|intros ? ?].
  apply (always_bind_wf "services"); [unfold check_s7; always_tac|intros ? ?].
  apply (always_bind_wf "services"); [unfold check_s9, info_reachable; always_tac|intros ? ?].
  apply (always_bind_wf "services"); [unfold check_s10; always_tac|intros ? ?].
  apply always_ret. auto 10 with checks.
Qed.

Lemma tee_version_extends r path :
  always (extends "tee-version" r) (RegisterTeeVersionChecks r path).
Proof.
  unfold RegisterTeeVersionChecks.
  apply (always_bind_wf "tee-version"); [unfold check_v2; always_tac|intros ? ?].
  apply (always_bind_wf "tee-version"); [unfold check_v4; always_tac|intros ? ?].
  apply (always_bind_wf "tee-version"); [unfold check_v6, info_reachable; always_tac|intros ? ?].
  apply always_ret. auto 10 with checks.
Qed.

Lemma tee_machine_extends r path :
  always (extends "tee-machine" r) (RegisterTeeMachineChecks r path).
Proof.
  unfold RegisterTeeMachineChecks.
  apply (always_bind_wf "tee-machine"); [unfold check_t1; always_tac|intros ? ?].
  apply (always_bind_wf "tee-machine"); [unfold check_t5, info_reachable; always_tac|intros ? ?].
  apply (always_bind_wf "tee-machine"); [unfold check_t10, info_reachable; always_tac|intros ? ?].
  apply always_ret. auto 10 with checks.
Qed.

Lemma test_extends r path : always (extends "test" r) (RegisterTestChecks r path).
Proof.
  unfold RegisterTestChecks.
  apply (always_bind_wf "test"); [unfold check_e1; always_tac|intros ? ?].
  apply (always_bind_wf "test"); [unfold check_e3, info_reachable; always_tac|intros ? ?].
  apply always_ret. unfold check_e6. auto 10 with checks.
Qed.

(** ** What can fail *)

Definition no_fail (res : CheckResult) : Prop := (CStatus res =? FAIL)%Z = false.

Ltac no_fail_tac :=
  repeat first [ always_step
               | match goal with |- no_fail (match ?x with _ => _ end) => destruct x end ];
  try reflexivity.

Lemma s5_no_fail : always no_fail check_s5.
Proof. unfold check_s5. no_fail_tac. Qed.
Lemma s7_no_fail w : no_fail (check_s7 w).
Proof. unfold check_s7. no_fail_tac. Qed.
Lemma s9_no_fail : always no_fail check_s9.
Proof. unfold check_s9. no_fail_tac. Qed.
Lemma s10_no_fail w : no_fail (check_s10 w).
Proof. unfold check_s10. no_fail_tac. Qed.
Lemma v2_no_fail w : no_fail (check_v2 w).
Proof. unfold check_v2. no_fail_tac. Qed.
Lemma v6_no_fail : always no_fail check_v6.
Proof. unfold check_v6. no_fail_tac. Qed.
Lemma t1_no_fail w : no_fail (check_t1 w).
Proof. unfold check_t1. no_fail_tac. Qed.
Lemma t5_no_fail : always no_fail check_t5.
Proof. unfold check_t5. no_fail_tac. Qed.
Lemma t10_no_fail : always no_fail check_t10.
Proof. unfold check_t10. no_fail_tac. Qed.
Lemma e3_no_fail : always no_fail check_e3.
Proof. unfold check_e3. no_fail_tac. Qed.

(** The EXTENSION_ID and INSTRUCTION_SENDER the file gives, empty when it
    cannot be opened. *)
Definition file_ext_id (path : string) (w : W) : string :=
  fst (fst (parseExtensionEnv (open_file path w))).
Definition file_sender (path : string) (w : W) : string :=
  snd (fst (parseExtensionEnv (open_file path w))).

Lemma regex_nonempty n s : match_0x_hex n s = true → s ≠ "".
Proof. by intros H ->. Qed.

Lemma s2_fails path w :
  (CStatus (check_s2 path w) =? FAIL)%Z =
  bool_decide (path ≠ "") && negb (extensionIDRegex (file_ext_id path w)).
Proof.
  unfold check_s2, file_ext_id. case_decide; [by subst|].
  rewrite bool_decide_eq_true_2 by done.
  destruct (parseExtensionEnv _) as [[extID sender] err]. simpl.
  case_decide; [subst; reflexivity|]. by destruct (extensionIDRegex extID).
Qed.

Lemma v4_fails path w :
  (CStatus (check_v4 path w) =? FAIL)%Z =
  bool_decide (path ≠ "") && negb (extensionIDRegex (file_ext_id path w)) &&
  negb (bool_decide (file_ext_id path w = "") && stat_missing path w).
Proof.
  unfold check_v4, file_ext_id. case_decide; [by subst|].
  rewrite (bool_decide_eq_true_2 (path ≠ "")) by done.
  assert (snd (parseExtensionEnv (open_file path w)) = None) as Herr.
  { destruct (open_file path w); simpl; [|done]. by destruct (parse_content a). }
  destruct (parseExtensionEnv _) as [[extID sender] err]. simpl in *. subst err.
  case_decide as Hd.
  - subst. simpl. by destruct (stat_missing path w).
  - rewrite bool_decide_eq_false_2 by done. by destruct (extensionIDRegex extID).
Qed.

Lemma e1_fails path w :
  (CStatus (check_e1 path w) =? FAIL)%Z =
  bool_decide (path ≠ "") && negb (addressRegex (file_sender path w)) &&
  negb (stat_missing path w).
Proof.
  unfold check_e1, file_sender. case_decide; [by subst|].
  rewrite bool_decide_eq_true_2 by done.
  destruct (parseExtensionEnv _) as [[extID sender] err]. simpl.
  destruct (stat_missing path w); [simpl; by rewrite andb_false_r|].
  case_decide; [subst; reflexivity|]. by destruct (addressRegex sender).
Qed.

(** The report after adding a result that cannot fail. *)
Lemma HasFailures_no_fail r res :
  no_fail res → HasFailures (Add r res) = HasFailures r.
Proof. intros H. by rewrite HasFailures_Add, H, orb_false_r. Qed.

Lemma services_HasFailures r path w :
  HasFailures (fst (RegisterServicesChecks r path w)) =
  HasFailures r || (CStatus (check_s2 path w) =? FAIL)%Z.
Proof.
  assert (always (λ r', HasFailures r' = HasFailures r || (CStatus (check_s2 path w) =? FAIL)%Z)
    (s5 ← check_s5; s7 ← reads check_s7; s9 ← check_s9; s10 ← reads check_s10;
     ret (Add (Add (Add (Add (Add r (check_s2 path w)) s5) s7) s9) s10))) as H; [|exact (H w)].
  apply (always_bind no_fail); [apply s5_no_fail|intros ? ?].
  apply (always_bind no_fail); [apply always_reads, s7_no_fail|intros ? ?].
  apply (always_bind no_fail); [apply s9_no_fail|intros ? ?].
  apply (always_bind no_fail); [apply always_reads, s10_no_fail|intros ? ?].
  apply always_ret. rewrite !HasFailures_no_fail by done. apply HasFailures_Add.
Qed.

Lemma tee_version_HasFailures r path w :
  HasFailures (fst (RegisterTeeVersionChecks r path w)) =
  HasFailures r || (CStatus (check_v4 path w) =? FAIL)%Z.
Proof.
  assert (always (λ r', HasFailures r' = HasFailures r || (CStatus (check_v4 path w) =? FAIL)%Z)
    (v6 ← check_v6; ret (Add (Add (Add r (check_v2 w)) (check_v4 path w)) v6))) as H;
    [|exact (H w)].
  apply (always_bind no_fail); [apply v6_no_fail|intros ? ?].
  apply always_ret. rewrite HasFailures_no_fail, HasFailures_Add, HasFailures_no_fail; auto.
  apply v2_no_fail.
Qed.

Lemma tee_machine_HasFailures r path w :
  HasFailures (fst (RegisterTeeMachineChecks r path w)) = HasFailures r.
Proof.
  assert (always (λ r', HasFailures r' = HasFailures r) (RegisterTeeMachineChecks r path)) as H;
    [|exact (H w)].
  unfold RegisterTeeMachineChecks.
  apply (always_bind no_fail); [apply always_reads, t1_no_fail|intros ? ?].
  apply (always_bind no_fail); [apply t5_no_fail|intros ? ?].
  apply (always_bind no_fail); [apply t10_no_fail|intros ? ?].
  apply always_ret. by rewrite !HasFailures_no_fail.
Qed.

Lemma test_HasFailures r path w :
  HasFailures (fst (RegisterTestChecks r path w)) =
  HasFailures r || (CStatus (check_e1 path w) =? FAIL)%Z.
Proof.
  assert (always (λ r', HasFailures r' = HasFailures r || (CStatus (check_e1 path w) =? FAIL)%Z)
    (e3 ← check_e3; ret (Add (Add (Add r (check_e1 path w)) e3) check_e6))) as H;
    [|exact (H w)].
  apply (always_bind no_fail); [apply e3_no_fail|intros ? ?].
  apply always_ret. rewrite (HasFailures_no_fail _ check_e6) by done.
  rewrite HasFailures_no_fail by done. apply HasFailures_Add.
Qed.

(** ** The R7 loop *)

(** What the registry answers when reading it has no effect and always gives
    the same answer, as [eth_call] against a fixed block does. *)
Definition registry_view (view : Z → result string) : Prop :=
  ∀ i w, GetTeeExtensionInstructionsSender i w = (view i, w).

Definition sender_is (view : Z → result string) (addr : string) (i : Z) : Prop :=
  view i = Ok addr.
#[export] Instance sender_is_dec view addr i : Decision (sender_is view addr i).
Proof.
  refine (match view i as r return view i = r → _ with
          | Ok s => λ E, match decide (s = addr) with left H => left _ | right H => right _ end
          | Err e => λ E, right _ end eq_refl); unfold sender_is; congruence.
Defined.

Lemma r7_loop_spec view n i addr acc w :
  registry_view view →
  r7_loop n i addr acc w = (acc ++ (itoa <$> filter (sender_is view addr) (seqZ i (Z.of_nat n))), w).
Proof.
  intros Hview. revert i acc. induction n as [|n IH]; intros i acc; cbn [r7_loop].
  - by rewrite app_nil_r.
  - unfold bind. rewrite Hview. rewrite Nat2Z.inj_succ, seqZ_cons by lia.
    rewrite Z.pred_succ, filter_cons.
    destruct (view i) as [s|e] eqn:E.
    + rewrite IH. case_decide as Hs; case_decide as Hd; unfold sender_is in Hd; try congruence.
      * cbn [fmap list_fmap]. by rewrite <- app_assoc.
      * done.
    + rewrite IH. case_decide as Hd; unfold sender_is in Hd; [congruence|done].
Qed.

(** The chain as a set of answers: the four calls of the registration checks are
    read-only ([eth_call]) and answer from a fixed state. *)
Record chain_view := mkView {
  v_next : result Z;
  v_sender : Z → result string;
  v_machine_owner : Z → string → result bool;
  v_key_type : Z → string → result bool;
}.
Definition chain_reads (v : chain_view) : Prop :=
  (∀ w, NextPublicExtensionId w = (v_next v, w)) ∧
  registry_view (v_sender v) ∧
  (∀ i a w, IsAllowedTeeMachineOwner i a w = (v_machine_owner v i a, w)) ∧
  (∀ i k w, IsKeyTypeSupportedCall i k w = (v_key_type v i k, w)).

(** What the R-checks establish about the chain for an id, a sender and a key. *)
Definition registration_ok (v : chain_view) (extID sender : string) (key : PrivateKey) : Prop :=
  let id := extension_id_of extID in
  extensionIDRegex extID = true ∧ is_ok (v_next v) = true ∧
  (addressRegex sender = true → v_sender v id = Ok (HexToAddress sender)) ∧
  v_machine_owner v id (PubkeyToAddress key) = Ok true ∧
  v_key_type v id EVMType = Ok true.

Lemma parse_err_none path w : snd (parseExtensionEnv (open_file path w)) = None.
Proof. destruct (open_file path w); simpl; [|done]. by destruct (parse_content a). Qed.

(** Each check under fixed answers: the world is left alone, and the report has
    a new failure exactly when the answer is not the good one. *)
Lemma r1_view v r w :
  chain_reads v →
  ∃ r', check_r1 r w = ((r', result_option (v_next v)), w) ∧
        HasFailures r' = HasFailures r || negb (is_ok (v_next v)).
Proof.
  intros (Hn & _). unfold check_r1, bind. rewrite Hn.
  destruct (v_next v) as [n|e]; simpl; [case_decide|]; eexists; (split; [done|]);
    by rewrite HasFailures_Add, ?orb_false_r.
Qed.

Lemma r2_view v r id sender w :
  chain_reads v →
  ∃ r', check_r2 r id sender w = (r', w) ∧
        HasFailures r' = HasFailures r ||
                         negb (bool_decide (sender_is (v_sender v) (HexToAddress sender) id)).
Proof.
  intros (_ & Hs & _). unfold check_r2, bind. rewrite Hs.
  case_bool_decide as Hd; unfold sender_is in Hd.
  - rewrite Hd. rewrite decide_True by done. eexists. split; [done|].
    by rewrite HasFailures_Add.
  - destruct (v_sender v id) as [s|e]; [rewrite decide_False by congruence|];
      eexists; (split; [done|]); by rewrite HasFailures_Add.
Qed.

Lemma r3_view v r id key w :
  chain_reads v →
  ∃ r', check_r3 r id key w = (r', w) ∧
        HasFailures r' = HasFailures r ||
          negb (match v_machine_owner v id (PubkeyToAddress key) with Ok b => b | Err _ => false end).
Proof.
  intros (_ & _ & Ha & _). unfold check_r3, bind. rewrite Ha.
  destruct (v_machine_owner _ _ _) as [[]|e]; eexists; (split; [done|]);
    by rewrite HasFailures_Add.
Qed.

Lemma r4_view v r id w :
  chain_reads v →
  ∃ r', check_r4 r id w = (r', w) ∧
        HasFailures r' = HasFailures r ||
          negb (match v_key_type v id EVMType with Ok b => b | Err _ => false end).
Proof.
  intros (_ & _ & _ & Hk). unfold check_r4, bind. rewrite Hk.
  destruct (v_key_type _ _ _) as [[]|e]; eexists; (split; [done|]);
    by rewrite HasFailures_Add.
Qed.

Lemma r7_view v r n sender w :
  chain_reads v →
  ∃ r', check_r7 r n sender w = (r', w) ∧ HasFailures r' = HasFailures r.
Proof.
  intros (_ & Hs & _). unfold check_r7. unfold mbind, M_bind. unfold bind at 1.
  rewrite (r7_loop_spec _ _ _ _ _ _ Hs). case_decide; eexists; (split; [done|]);
    by rewrite HasFailures_no_fail.
Qed.

Lemma file_values path w :
  parseExtensionEnv (open_file path w) = (file_ext_id path w, file_sender path w, None).
Proof.
  unfold file_ext_id, file_sender. pose proof (parse_err_none path w) as H.
  destruct (parseExtensionEnv _) as [[]]. simpl in *. by subst.
Qed.

(** A step that runs without touching the world and adds the failure [b]. *)
Lemma bind_step {B} (m : M W Report) (k : Report → M W B) w r' :
  m w = (r', w) → bind m k w = k r' w.
Proof. unfold bind. by intros ->. Qed.

Lemma registration_failures v r key path w :
  chain_reads v → path ≠ "" →
  ¬ (file_ext_id path w = "" ∧ file_sender path w = "") →
  HasFailures r = false →
  HasFailures (fst (RegisterRegistrationChecks r true (Some key) true true path w)) = false ↔
  registration_ok v (file_ext_id path w) (file_sender path w) key.
Proof.
  intros Hv Hpath Hne Hr. unfold RegisterRegistrationChecks.
  rewrite decide_False by done. unfold mbind, M_bind. rewrite bind_reads, file_values.
  set (ext := file_ext_id path w) in *. set (snd_ := file_sender path w) in *.
  replace (bool_decide (ext = "") && bool_decide (snd_ = "")) with false
    by (symmetry; apply not_true_iff_false; rewrite andb_true_iff, !bool_decide_eq_true; done).
  cbn [andb]. destruct (r1_view v r w Hv) as (r1 & E1 & F1).
  unfold bind at 1. rewrite E1. unfold registration_ok.
  destruct (extensionIDRegex ext); cbn [negb].
  2: { simpl. rewrite HasFailures_Add, orb_true_r. naive_solver. }
  set (id := extension_id_of ext).
  assert (∃ r2, (if addressRegex snd_ then check_r2 r1 id snd_ else ret r1) w = (r2, w) ∧
    HasFailures r2 = HasFailures r1 ||
      (addressRegex snd_ && negb (bool_decide (sender_is (v_sender v) (HexToAddress snd_) id))))
    as (r2 & E2 & F2).
  { destruct (addressRegex snd_); [by apply r2_view|].
    eexists. split; [done|]. by rewrite orb_false_r. }
  rewrite (bind_step _ _ _ _ E2).
  destruct (r3_view v r2 id key w Hv) as (r3 & E3 & F3). rewrite (bind_step _ _ _ _ E3).
  destruct (r4_view v r3 id w Hv) as (r4 & E4 & F4). rewrite (bind_step _ _ _ _ E4).
  assert (∃ r5, fst (match result_option (v_next v) with
    | Some counter =>
      if (0 <? counter)%Z && addressRegex snd_ && true && true
      then check_r7 r4 counter snd_ else ret r4
    | None => ret r4 end w) = r5 ∧ HasFailures r5 = HasFailures r4) as (r5 & -> & ->).
  { destruct (result_option _) as [n|]; [|by exists r4].
    destruct ((0 <? n)%Z && addressRegex snd_ && true && true); [|by exists r4].
    destruct (r7_view v r4 n snd_ w Hv) as (r5 & E5 & F5). rewrite E5. by exists r5. }
  rewrite F4, F3, F2, F1, Hr. clear.
  destruct (v_machine_owner v id _) as [[]|], (v_key_type v id _) as [[]|],
    (is_ok (v_next v)), (addressRegex snd_);
    case_bool_decide as Hs; unfold sender_is in Hs; naive_solver.
Qed.

Lemma length_gt_1 {A} (l : list A) :
  NoDup l → 1 < length l ↔ ∃ x y, x ≠ y ∧ x ∈ l ∧ y ∈ l.
Proof.
  intros Hnd. split.
  - destruct l as [|x [|y l]]; simpl; [lia..|]. intros _. exists x, y.
    apply NoDup_cons in Hnd as [Hx _]. set_solver.
  - intros (x & y & Hne & Hx & Hy). destruct l as [|a [|b l]]; simpl; [set_solver..|lia].
Qed.

(** ** Properties *)

(** What can make the four chainless steps fail.  Neither the environment
    nor any unreachable URL can: the services step fails exactly when a
    --config path is given whose EXTENSION_ID is not 0x and 64 hex digits, the
    tee-version step likewise except that a missing file is skipped, the
    tee-machine step never fails, and the test step fails exactly when the file
    exists and its INSTRUCTION_SENDER is not an address. *)
Theorem chainless_steps_failures (r : Report) (path : string) (w : W) :
  let bad_id := bool_decide (path ≠ "") && negb (extensionIDRegex (file_ext_id path w)) in
  HasFailures (fst (RegisterServicesChecks r path w)) = HasFailures r || bad_id ∧
  HasFailures (fst (RegisterTeeVersionChecks r path w)) =
    HasFailures r ||
    bad_id && negb (bool_decide (file_ext_id path w = "") && stat_missing path w) ∧
  HasFailures (fst (RegisterTeeMachineChecks r path w)) = HasFailures r ∧
  HasFailures (fst (RegisterTestChecks r path w)) =
    HasFailures r ||
    (bool_decide (path ≠ "") && negb (addressRegex (file_sender path w)) &&
     negb (stat_missing path w)).
Proof.
  rewrite services_HasFailures, tee_version_HasFailures, tee_machine_HasFailures,
    test_HasFailures, s2_fails, v4_fails, e1_fails. done.
Qed.


(** The duplicate-sender check terminates with one result, a WARN exactly
    when two different ids below the registry's counter have the file's
    instruction sender, and the warning lists all such ids in order. *)
Theorem r7_duplicates (view : Z → result string) (r : Report) (counter : Z)
    (instrSender : string) (w : W) (Hview : registry_view view)
    (Hcounter : (0 ≤ counter < 2 ^ 63)%Z) :
  let addr := HexToAddress instrSender in
  ∃ res, check_r7 r counter instrSender w = (Add r res, w) ∧
    (CStatus res = WARN ↔
     ∃ i j, (0 ≤ i < counter)%Z ∧ (0 ≤ j < counter)%Z ∧ i ≠ j ∧
            view i = Ok addr ∧ view j = Ok addr) ∧
    (CStatus res = WARN →
     Message res = "INSTRUCTION_SENDER " +:+ instrSender +:+
                   " is used by multiple extensions: " +:+
                   join (itoa <$> filter (sender_is view addr) (seqZ 0 counter)) ", ").
Proof.
  unfold check_r7. unfold mbind, M_bind, bind.
  rewrite (r7_loop_spec _ _ _ _ _ _ Hview), swrap64_small, Z2Nat.id by lia.
  set (ids := filter _ _). cbn [app].
  assert (1 < length (itoa <$> ids) ↔ ∃ i j, (0 ≤ i < counter)%Z ∧ (0 ≤ j < counter)%Z ∧ i ≠ j ∧
    view i = Ok (HexToAddress instrSender) ∧ view j = Ok (HexToAddress instrSender)) as Hids.
  { assert (∀ k, k ∈ ids ↔ view k = Ok (HexToAddress instrSender) ∧ (0 ≤ k < counter)%Z) as Hin.
    { intros k. unfold ids. rewrite list_elem_of_filter, elem_of_seqZ. unfold sender_is.
      naive_solver lia. }
    rewrite length_fmap, length_gt_1 by (apply NoDup_filter, NoDup_seqZ).
    split; intros (i & j & Hij); exists i, j; rewrite !Hin in *; naive_solver. }
  case_decide as Hd; rewrite Hids in Hd; (eexists; split; [done|]); simpl.
  - by split; [split|].
  - split; [split; [discriminate|done]|discriminate].
Qed.
End checks.

(** The witnesses run the checks in the simulated world. *)
Definition demo_sender : string := "0x155f065A741b1CBe2A57A5CE28A75a3727ffEbDD".
Definition demo_world : world :=
  with_files [("extension.env", pre_build_env (extensionIDHex 1) demo_sender "" "")] empty_world.
Definition demo_senders : list string := [zero_address; HexToAddress demo_sender].
Definition demo_view : chain_view :=
  mkView (Ok 2%Z)
    (λ i, if decide (i < 0)%Z then Err (ErrMsg "negative id")
          else match demo_senders !! Z.to_nat i with
               | Some a => Ok a
               | None => Err (ErrMsg "no such extension")
               end)
    (λ _ _, Ok true) (λ _ _, Ok true).

(** A file without the sender, and one whose sender the registry has. *)
Definition no_sender_world : world :=
  with_files [("extension.env", "EXTENSION_ID=" +:+ extensionIDHex 0 +:+ lf)] empty_world.
Definition demo_run (w : world) : Report :=
  fst (@RegisterRegistrationChecks world sim_os sim_unicode sim_geth (sim_manager demo_senders) (sim_allowlist true)
    sim_node empty_report true (Some "key") true true "extension.env" w).


Lemma r7_duplicates_witness :
  ∃ res, @check_r7 world sim_geth (sim_manager (demo_senders ++ demo_senders))
           empty_report 4 demo_sender demo_world = (Add empty_report res, demo_world) ∧
         CStatus res = WARN.
Proof.
  destruct (@r7_duplicates world sim_geth (sim_manager (demo_senders ++ demo_senders))
    (λ i, if decide (i < 0)%Z then Err (ErrMsg "negative id")
          else match (demo_senders ++ demo_senders) !! Z.to_nat i with
               | Some a => Ok a
               | None => Err (ErrMsg "no such extension")
               end) empty_report 4 demo_sender demo_world)
    as (res & E & [_ Hw] & _); [done|lia|].
  exists res. split; [exact E|]. apply Hw.
  exists 1%Z, 3%Z. split_and!; try lia; vm_compute; reflexivity.
Defined.
