(* ===== verification/Verdicts.v ===== *)
(** * tools/pkg/validate: the verdicts of the deployment checks

    For every registrar of [Checks], the checks it adds to the report, in order, and
    the status of each, as a table over the arguments, the environment, the
    configuration file and what the chain and the network answer. *)

From S2P Require Import Prelude GoStrings GoText Platform Sim Report EnvFile Checks.
From stdpp Require Import options.
Set Default Proof Using "Type*".

(** What a table has of a check. *)
Definition verdict (res : CheckResult) : string * Status := (ID res, CStatus res).
Definition verdicts (r : Report) : list (string * Status) := verdict <$> Results r.

Lemma verdicts_Add r res : verdicts (Add r res) = verdicts r ++ [verdict res].
Proof. unfold verdicts. cbn. by rewrite fmap_app. Qed.
Lemma verdicts_foldl_Add r l : verdicts (foldl Add r l) = verdicts r ++ (verdict <$> l).
Proof.
  revert r. induction l as [|res l IH]; intros r; cbn; [by rewrite app_nil_r|].
  by rewrite IH, verdicts_Add, <- (assoc_L (++)).
Qed.

(** A key has one entry. *)
Lemma NoDup_fst_inj {A B} (l : list (A * B)) x y y' : NoDup l.*1 → (x, y) ∈ l → (x, y') ∈ l → y = y'.
Proof.
  induction l as [|[x1 y1] l IH]; cbn; [set_solver|]. intros [Hx Hl]%NoDup_cons.
  assert (∀ z, (x1, z) ∉ l) as Hno by (intros z Hz; apply Hx, list_elem_of_fmap; by exists (x1, z)).
  rewrite !elem_of_cons. naive_solver.
Qed.

Section verdicts.
Context {W : Type} `{OSW : !OS W, Uni : !Unicode, Geth : !GoEthereum, Eth : !Ethclient W,
  EMgr : !ExtensionManager W, Allow : !OwnerAllowlist W, Node : !TeeNode}.

(** The outside, as it answers at [w]: reading it changes nothing, so it answers the
    same to all of a step's checks. *)
Record answers := mkAnswers {
  a_chain : chain_view;
  a_code : string → result string;
  a_balance : string → result Z;
  a_chain_id : result Z;
  a_get : string → result (Z * string);
  a_listening : string → bool;
}.
Definition answers_from (a : answers) (w : W) : Prop :=
  chain_reads (a_chain a) ∧ (∀ x, CodeAt x w = (a_code a x, w)) ∧
  (∀ x, BalanceAt x w = (a_balance a x, w)) ∧ ChainID w = (a_chain_id a, w) ∧
  (∀ url, http_get url w = (a_get a url, w)) ∧ (∀ addr, dial_tcp addr w = (a_listening a addr, w)).

Context (a : answers).

(** ** The tables *)

Definition when (b : bool) (l : list (string * Status)) : list (string * Status) := if b then l else [].
(** A required condition, and one whose failure is only a warning. *)
Definition require (b : bool) : Status := if b then PASS else FAIL.
Definition advise (b : bool) : Status := if b then PASS else WARN.

Definition local_mode (w : W) : bool := bool_decide (getenv "LOCAL_MODE" w ∈ ["true"; ""]).
Definition is_set (name : string) (w : W) : bool := bool_decide (getenv name w ≠ "").
(** The proxy named by a variable answers its /info with status 200. *)
Definition proxy_status (name : string) (w : W) : Status :=
  if is_set name w then
    advise match a_get a (getenv name w +:+ "/info") with Ok (code, _) => (code =? 200)%Z | Err _ => false end
  else SKIP.

Definition has_code (addr : string) : bool :=
  match a_code a addr with Ok code => bool_decide (code ≠ "") | Err _ => false end.
Definition env_format (path : string) (w : W) : list (string * Status) :=
  match open_file path w with
  | Err _ => [("D7", SKIP)]
  | Ok content =>
    let valid (regex : string → bool) name :=
      match env_vars content !! name with Some val => regex val | None => false end in
    [("D7", require (valid addressRegex "INSTRUCTION_SENDER")); ("D7", require (valid extensionIDRegex "EXTENSION_ID"))]
  end.
Definition deploy_table (client : bool) (key : option PrivateKey) (order1 order2 : list (string * string))
    (path : string) (w : W) : list (string * Status) :=
  ((λ e, ("D3", require (bool_decide (snd e ≠ zero_address)))) <$> order1) ++
  ((λ e, ("D1", require (client && has_code (snd e)))) <$> filter (λ e, snd e ≠ zero_address) order2) ++
  [("D5", advise (is_set "DEPLOYMENT_PRIVATE_KEY" w || local_mode w))] ++
  match key with
  | Some key => when client [("D5", require match a_balance a (PubkeyToAddress key) with
                                            | Ok balance => (MinDeployBalance <=? balance)%Z | Err _ => false end)]
  | None => []
  end ++
  when client [("D6", require (is_ok (a_chain_id a)))] ++
  when (bool_decide (path ≠ "")) (env_format path w).

Definition says_yes (answer : result bool) : bool := match answer with Ok b => b | Err _ => false end.
(** The ids below the counter, an int64, registered with a sender. *)
Definition ids_of_sender (counter : Z) (addr : string) : list Z :=
  filter (sender_is (v_sender (a_chain a)) addr) (seqZ 0 (Z.max 0 (swrap64 counter))).
Definition registration_table (client : bool) (key : option PrivateKey) (registry allowlist : bool)
    (path : string) (w : W) : list (string * Status) :=
  let v := a_chain a in
  let ext := file_ext_id path w in
  let sender := file_sender path w in
  let id := extension_id_of ext in
  let chain := registry && client in
  if bool_decide (path = "" ∨ ext = "" ∧ sender = "") then [("R1-R7", SKIP)]
  else
    when chain [("R1", match v_next v with Err _ => FAIL | Ok n => advise (negb (n =? 0)%Z) end)] ++
    if negb (extensionIDRegex ext) then [("R2", FAIL)]
    else
      when (chain && addressRegex sender)
        [("R2", require (bool_decide (sender_is (v_sender v) (HexToAddress sender) id)))] ++
      match key with
      | Some key =>
        when (allowlist && client)
          [("R3", require (says_yes (v_machine_owner v id (PubkeyToAddress key))))]
      | None => []
      end ++
      when chain [("R4", require (says_yes (v_key_type v id EVMType)))] ++
      match v_next v with
      | Ok n => when (chain && (0 <? n)%Z && addressRegex sender)
                  [("R7", advise (length (ids_of_sender n (HexToAddress sender)) <=? 1))]
      | Err _ => []
      end.

Definition extension_port (w : W) : string :=
  if is_set "EXTENSION_PORT" w then getenv "EXTENSION_PORT" w else "7702".
Definition services_table (path : string) (w : W) : list (string * Status) :=
  [("S2", if bool_decide (path = "") then SKIP else require (extensionIDRegex (file_ext_id path w)));
   ("S5", advise (negb (a_listening a ("localhost:" +:+ extension_port w))));
   ("S7", PASS);
   ("S9", proxy_status "EXT_PROXY_URL" w);
   ("S10", advise (bool_decide (getenv "LOCAL_MODE" w ≠ "false") || is_set "PROXY_PRIVATE_KEY" w))].
Definition tee_version_table (path : string) (w : W) : list (string * Status) :=
  [("V2", advise (is_set "EXTENSION_OWNER_KEY" w || is_set "DEPLOYMENT_PRIVATE_KEY" w || local_mode w));
   ("V4", if bool_decide (path = "" ∨ file_ext_id path w = "" ∧ stat_missing path w = true) then SKIP
          else require (extensionIDRegex (file_ext_id path w)));
   ("V6", proxy_status "EXT_PROXY_URL" w)].
Definition tee_machine_table (w : W) : list (string * Status) :=
  [("T1", advise (bool_decide (getenv "SIMULATED_TEE" w ≠ "true" ∨ getenv "LOCAL_MODE" w ≠ "false")));
   ("T5", proxy_status "NORMAL_PROXY_URL" w);
   ("T10", proxy_status "EXT_PROXY_URL" w)].
Definition test_table (path : string) (w : W) : list (string * Status) :=
  [("E1", if bool_decide (path = "") || stat_missing path w then SKIP else require (addressRegex (file_sender path w)));
   ("E3", proxy_status "EXT_PROXY_URL" w);
   ("E6", PASS)].

(** ** One check at a time *)

(** A check, or a registrar, run at [w]: it leaves the world alone. *)
Definition gives (m : M W CheckResult) (w : W) (v : string * Status) : Prop :=
  ∃ res, m w = (res, w) ∧ verdict res = v.
Definition adds (m : M W Report) (w : W) (r : Report) (vs : list (string * Status)) : Prop :=
  ∃ r', m w = (r', w) ∧ verdicts r' = verdicts r ++ vs.

Context (w : W) (Ha : answers_from a w).

Lemma gives_reads f v : verdict (f w) = v → gives (reads f) w v.
Proof. by exists (f w). Qed.
Lemma adds_nil r : adds (ret r) w r [].
Proof. exists r. by rewrite app_nil_r. Qed.
Lemma adds_one r res : adds (ret (Add r res)) w r [verdict res].
Proof. exists (Add r res). by rewrite verdicts_Add. Qed.
(** A check, and then the rest. *)
Lemma adds_check m r v k vs :
  gives m w v → (∀ res, verdict res = v → adds (k res) w r vs) → adds (bind m k) w r vs.
Proof. intros (res & Hm & Hv) Hk. unfold adds, bind. rewrite Hm. by apply Hk. Qed.
Lemma adds_bind m r vs1 k vs2 :
  adds m w r vs1 → (∀ r', adds (k r') w r' vs2) → adds (bind m k) w r (vs1 ++ vs2).
Proof.
  intros (r1 & Hm & H1) Hk. destruct (Hk r1) as (r2 & H2 & Hv). exists r2. unfold bind. rewrite Hm.
  split; [done|]. by rewrite Hv, H1, (assoc_L (++)).
Qed.
(** The statuses of some bound checks, added at the end. *)
Lemma adds_ret r r' vs : verdicts r' = verdicts r ++ vs → adds (ret r') w r vs.
Proof. by exists r'. Qed.

Lemma bind_get {B} url (k : result (Z * string) → M W B) : bind (http_get url) k w = k (a_get a url) w.
Proof. unfold bind. destruct Ha as (_ & _ & _ & _ & Hg & _). by rewrite Hg. Qed.
Lemma info_reachable_view url :
  info_reachable url w =
  (match a_get a (url +:+ "/info") with Ok (code, _) => (code =? 200)%Z | Err _ => false end, w).
Proof. unfold info_reachable. rewrite bind_get. by destruct (a_get a _) as [[]|]. Qed.

(** A check that some proxy answers. *)
Lemma gives_proxy name id (skip good bad : string → CheckResult) :
  (∀ url, verdict (skip url) = (id, SKIP)) → (∀ url, verdict (good url) = (id, PASS)) →
  (∀ url, verdict (bad url) = (id, WARN)) →
  gives (url ← reads (getenv name);
         if decide (url = "") then ret (skip url)
         else ok ← info_reachable url; if ok : bool then ret (good url) else ret (bad url)) w
    (id, proxy_status name w).
Proof.
  intros Hs Hg Hb. unfold proxy_status, is_set. rewrite mbind_bind. unfold gives. rewrite bind_reads.
  case_decide as Hn; [rewrite bool_decide_eq_false_2 by auto; eexists; split; [done|apply Hs]|].
  rewrite bool_decide_eq_true_2 by done. rewrite mbind_bind. unfold bind. rewrite info_reachable_view.
  unfold advise. destruct (match _ with Ok _ => _ | Err _ => _ end); (eexists; split; [done|]); auto.
Qed.

Lemma gives_s9 : gives check_s9 w ("S9", proxy_status "EXT_PROXY_URL" w).
Proof. by apply (gives_proxy _ _ (λ _, _)). Qed.
Lemma gives_v6 : gives check_v6 w ("V6", proxy_status "EXT_PROXY_URL" w).
Proof. by apply (gives_proxy _ _ (λ _, _)). Qed.
Lemma gives_t5 : gives check_t5 w ("T5", proxy_status "NORMAL_PROXY_URL" w).
Proof. by apply (gives_proxy _ _ (λ _, _)). Qed.
Lemma gives_t10 : gives check_t10 w ("T10", proxy_status "EXT_PROXY_URL" w).
Proof. by apply (gives_proxy _ _ (λ _, _)). Qed.
Lemma gives_e3 : gives check_e3 w ("E3", proxy_status "EXT_PROXY_URL" w).
Proof. by apply (gives_proxy _ _ (λ _, _) (λ _, _) (λ _, _)). Qed.

Lemma gives_s2 path :
  gives (reads (check_s2 path)) w
    ("S2", if bool_decide (path = "") then SKIP else require (extensionIDRegex (file_ext_id path w))).
Proof.
  apply gives_reads. unfold check_s2. rewrite file_values. case_decide as Hp; [by rewrite bool_decide_eq_true_2|].
  rewrite bool_decide_eq_false_2 by done. case_decide as He; [by rewrite He|].
  by destruct (extensionIDRegex _).
Qed.
Lemma gives_s5 : gives check_s5 w ("S5", advise (negb (a_listening a ("localhost:" +:+ extension_port w)))).
Proof.
  unfold check_s5, gives, extension_port, is_set. rewrite mbind_bind, bind_reads, mbind_bind. unfold bind.
  destruct Ha as (_ & _ & _ & _ & _ & Hd). rewrite Hd. case_decide as Hp.
  - rewrite bool_decide_eq_false_2 by auto. destruct (a_listening a _); (eexists; split; [done|done]).
  - rewrite bool_decide_eq_true_2 by done. destruct (a_listening a _); (eexists; split; [done|done]).
Qed.
Lemma gives_s7 : gives (reads check_s7) w ("S7", PASS).
Proof. apply gives_reads. unfold check_s7. by case_match. Qed.
Lemma gives_s10 :
  gives (reads check_s10) w
    ("S10", advise (bool_decide (getenv "LOCAL_MODE" w ≠ "false") || is_set "PROXY_PRIVATE_KEY" w)).
Proof.
  apply gives_reads. unfold check_s10, is_set. repeat case_bool_decide; cbn; congruence || naive_solver.
Qed.
Lemma gives_v2 :
  gives (reads check_v2) w
    ("V2", advise (is_set "EXTENSION_OWNER_KEY" w || is_set "DEPLOYMENT_PRIVATE_KEY" w || local_mode w)).
Proof.
  apply gives_reads. unfold check_v2, is_set, local_mode. repeat case_bool_decide; cbn; try done; set_solver.
Qed.
Lemma gives_v4 path :
  gives (reads (check_v4 path)) w
    ("V4", if bool_decide (path = "" ∨ file_ext_id path w = "" ∧ stat_missing path w = true) then SKIP
           else require (extensionIDRegex (file_ext_id path w))).
Proof.
  apply gives_reads. unfold check_v4. rewrite file_values.
  case_decide as Hp; [by rewrite bool_decide_eq_true_2 by auto|]. case_decide as He.
  - rewrite He. destruct (stat_missing path w); [by rewrite bool_decide_eq_true_2 by auto|].
    by rewrite bool_decide_eq_false_2 by naive_solver.
  - rewrite bool_decide_eq_false_2 by naive_solver. by destruct (extensionIDRegex _).
Qed.
Lemma gives_t1 :
  gives (reads check_t1) w
    ("T1", advise (bool_decide (getenv "SIMULATED_TEE" w ≠ "true" ∨ getenv "LOCAL_MODE" w ≠ "false"))).
Proof. apply gives_reads. unfold check_t1. repeat case_bool_decide; cbn; try done; naive_solver. Qed.
Lemma gives_e1 path :
  gives (reads (check_e1 path)) w
    ("E1", if bool_decide (path = "") || stat_missing path w then SKIP else require (addressRegex (file_sender path w))).
Proof.
  apply gives_reads. unfold check_e1. rewrite file_values. case_decide as Hp; [by rewrite bool_decide_eq_true_2|].
  rewrite bool_decide_eq_false_2 by done. cbn [orb]. destruct (stat_missing path w); [done|].
  case_decide as He; [by rewrite He|]. by destruct (addressRegex _).
Qed.
Lemma gives_d5 :
  gives (reads CheckDeployerKeySource) w ("D5", advise (is_set "DEPLOYMENT_PRIVATE_KEY" w || local_mode w)).
Proof.
  apply gives_reads. unfold CheckDeployerKeySource, is_set, local_mode.
  repeat case_bool_decide; cbn; try done; set_solver.
Qed.
Lemma gives_d6 : gives checkChainID w ("D6", require (is_ok (a_chain_id a))).
Proof.
  unfold gives, checkChainID, bind. destruct Ha as (_ & _ & _ & Hc & _). rewrite Hc.
  by destruct (a_chain_id a); eexists.
Qed.

(** ** The chainless steps *)

Ltac adds_checks := repeat (eapply adds_check; [eauto using gives_s2, gives_s5, gives_s7, gives_s9, gives_s10,
  gives_v2, gives_v4, gives_v6, gives_t1, gives_t5, gives_t10, gives_e1, gives_e3|intros ? ?]);
  apply adds_ret; rewrite !verdicts_Add, <- !(assoc_L (++));
  cbn [app]; repeat match goal with H : verdict _ = _ |- _ => rewrite H; clear H end; reflexivity.

Lemma services_adds r path : adds (RegisterServicesChecks r path) w r (services_table path w).
Proof. unfold RegisterServicesChecks. adds_checks. Qed.
Lemma tee_version_adds r path : adds (RegisterTeeVersionChecks r path) w r (tee_version_table path w).
Proof. unfold RegisterTeeVersionChecks. adds_checks. Qed.
Lemma tee_machine_adds r path : adds (RegisterTeeMachineChecks r path) w r (tee_machine_table w).
Proof. unfold RegisterTeeMachineChecks. adds_checks. Qed.
Lemma test_adds r path : adds (RegisterTestChecks r path) w r (test_table path w).
Proof. unfold RegisterTestChecks. adds_checks. Qed.

(** ** The deploy step *)

(** The first loop: a failure for each zero address, and the labels they have. *)
Lemma d3_adds es r zs :
  let '(r', zs') := foldl deploy_check_d3 (r, zs) es in
  verdicts r' = verdicts r ++ ((λ e, ("D3", require (bool_decide (snd e ≠ zero_address)))) <$> es) ∧
  ∀ label, label ∈ zs' ↔ label ∈ zs ∨ (label, zero_address) ∈ es.
Proof.
  clear Ha a w. revert r zs. induction es as [|[label addr] es IH]; intros r zs.
  - cbn. split; [by rewrite app_nil_r|]. set_solver.
  - cbn [foldl deploy_check_d3]. unfold AddressNotZero. case_decide as Hz.
    + specialize (IH (Add r (mkCheck "deploy" "D3" (label +:+ " address not zero") FAIL
        (err_text (ErrMsg (label +:+ " is the zero address (" +:+ Address_Hex addr +:+ ") in the addresses file")))
        "Re-run the deploy script or check deployed-addresses.json")) ({[label]} ∪ zs)).
      destruct (foldl _ _ es) as [r' zs']. destruct IH as [-> Hin]. split.
      * rewrite verdicts_Add, <- (assoc_L (++)). cbn. by rewrite bool_decide_eq_false_2 by auto.
      * intros l. rewrite Hin, elem_of_cons. set_solver.
    + specialize (IH (Add r (mkCheck "deploy" "D3" (label +:+ " address not zero") PASS (Address_Hex addr) "")) zs).
      destruct (foldl _ _ es) as [r' zs']. destruct IH as [-> Hin]. split.
      * rewrite verdicts_Add, <- (assoc_L (++)). cbn. by rewrite bool_decide_eq_true_2.
      * intros l. rewrite Hin, elem_of_cons. naive_solver.
Qed.

Lemma AddressHasCode_view client addr label :
  ∃ err, AddressHasCode client addr label w = (err, w) ∧ bool_decide (err = None) = client && has_code addr.
Proof.
  unfold AddressHasCode, has_code, bind. destruct client; [|by eexists]. cbn [negb andb].
  destruct Ha as (_ & Hc & _). rewrite Hc. destruct (a_code a addr) as [code|e]; [|by eexists].
  case_decide as Hl; eexists; (split; [done|]).
  - by destruct code.
  - symmetry. cbn. apply bool_decide_eq_true_2. by intros ->.
Qed.
(** The second loop: the code of each address that is not zero. *)
Lemma d1_adds client zs es r :
  (∀ label addr, (label, addr) ∈ es → label ∈ zs ↔ addr = zero_address) →
  adds (deploy_check_d1 client zs es r) w r
    ((λ e, ("D1", require (client && has_code (snd e)))) <$> filter (λ e, snd e ≠ zero_address) es).
Proof.
  revert r. induction es as [|[label addr] es IH]; intros r Hz; cbn [deploy_check_d1]; [apply adds_nil|].
  assert (∀ l x, (l, x) ∈ es → l ∈ zs ↔ x = zero_address) as Hz' by (intros; apply Hz; by right).
  assert (label ∈ zs ↔ addr = zero_address) as Hl by (apply Hz; by left).
  rewrite filter_cons. cbn [snd]. case_decide as Hin.
  - rewrite decide_False by tauto. by apply IH.
  - rewrite decide_True by tauto. cbn [fmap list_fmap snd].
    destruct (AddressHasCode_view client addr label) as (err & He & Hok).
    unfold adds. rewrite mbind_bind, (bind_run _ _ _ _ _ He). cbv zeta.
    match goal with |- context [Add r ?res] => destruct (IH (Add r res) Hz') as (r' & -> & Hr') end.
    exists r'. split; [done|]. rewrite Hr', verdicts_Add, <- (assoc_L (++)), <- Hok. by destruct err.
Qed.

Lemma KeyHasFunds_view key :
  ∃ err, KeyHasFunds true key MinDeployBalance w = (err, w) ∧
    bool_decide (err = None) =
    match a_balance a (PubkeyToAddress key) with Ok balance => (MinDeployBalance <=? balance)%Z | Err _ => false end.
Proof.
  unfold KeyHasFunds, bind. cbn [negb]. destruct Ha as (_ & _ & Hb & _). rewrite Hb.
  destruct (a_balance a _) as [b|e]; [|by eexists]. destruct (Z.ltb_spec b MinDeployBalance); eexists; (split; [done|]).
  - symmetry. by apply Z.leb_gt.
  - symmetry. by apply Z.leb_le.
Qed.
Lemma env_format_verdicts path :
  verdict <$> CheckExtensionEnvFormat path (open_file path w) = env_format path w.
Proof.
  unfold CheckExtensionEnvFormat, env_format, check_sender, check_ext_id. destruct (open_file path w); [|done]. cbn.
  repeat f_equal; destruct (env_vars a0 !! _) as [v|]; try done; [by destruct (addressRegex v)|by destruct (extensionIDRegex v)].
Qed.

Lemma deploy_adds r client key order1 order2 path :
  order1 ≡ₚ order2 → NoDup order1.*1 →
  adds (RegisterDeployChecks r client key order1 order2 path) w r (deploy_table client key order1 order2 path w).
Proof.
  intros Hperm Hnd. unfold RegisterDeployChecks, deploy_table. pose proof (d3_adds order1 r ∅) as H3.
  destruct (foldl deploy_check_d3 (r, ∅) order1) as [r1 zs]. destruct H3 as [H3 Hzs].
  assert (∀ label addr, (label, addr) ∈ order2 → label ∈ zs ↔ addr = zero_address) as Hz.
  { intros label addr Hin. rewrite <- Hperm in Hin. rewrite Hzs. split; [|intros ->; by right].
    intros [?|Hin']; [set_solver|]. by eapply (NoDup_fst_inj order1). }
  assert (∀ m vs, adds m w r1 vs → adds m w r (((λ e, ("D3", require (bool_decide (snd e ≠ zero_address)))) <$> order1) ++ vs))
    as Hr1.
  { intros m vs (r' & Hm & Hv). exists r'. split; [done|]. by rewrite Hv, H3, (assoc_L (++)). }
  apply Hr1. eapply adds_bind; [by apply d1_adds|]. intros r2. clear r r1 zs H3 Hzs Hz Hr1.
  eapply adds_check; [apply gives_d5|]. intros src Hsrc.
  assert (∀ m vs, adds m w (Add r2 src) vs →
    adds m w r2 ([("D5", advise (is_set "DEPLOYMENT_PRIVATE_KEY" w || local_mode w))] ++ vs)) as Hr2.
  { intros m vs (r' & Hm & Hv). exists r'. split; [done|]. by rewrite Hv, verdicts_Add, Hsrc, <- (assoc_L (++)). }
  apply Hr2. cbv zeta. apply adds_bind.
  { destruct key as [key|], client; try apply adds_nil. destruct (KeyHasFunds_view key) as (err & He & Hok).
    unfold adds. rewrite mbind_bind, (bind_run _ _ _ _ _ He). eexists. split; [done|].
    rewrite verdicts_Add, <- Hok. by destruct err. }
  intros r3. apply adds_bind.
  { destruct client; [|apply adds_nil]. eapply adds_check; [apply gives_d6|]. intros res Hres.
    apply adds_ret. by rewrite verdicts_Add, Hres. }
  intros r4. case_decide as Hp; [rewrite bool_decide_eq_false_2 by auto; apply adds_nil|].
  rewrite bool_decide_eq_true_2 by done. unfold adds. rewrite mbind_bind, bind_reads. eexists. split; [done|].
  by rewrite verdicts_foldl_Add, env_format_verdicts.
Qed.

(** ** The register step *)

Local Abbreviation chain := (a_chain a).
Lemma chain_answers : chain_reads chain.
Proof. apply Ha. Qed.

(** The checks of one chain read each. *)
Ltac one_read := eexists; (split; [reflexivity|]); rewrite verdicts_Add; reflexivity.
Lemma r1_adds r :
  ∃ r', check_r1 r w = ((r', result_option (v_next chain)), w) ∧
    verdicts r' = verdicts r ++ [("R1", match v_next chain with Err _ => FAIL | Ok n => advise (negb (n =? 0)%Z) end)].
Proof.
  destruct chain_answers as (Hn & _). unfold check_r1, bind. rewrite Hn.
  destruct (v_next chain) as [n|e]; [|one_read]. case_decide as Hz; [subst n; one_read|].
  apply Z.eqb_neq in Hz. eexists; (split; [reflexivity|]). by rewrite verdicts_Add, Hz.
Qed.
Lemma r2_adds r id sender :
  adds (check_r2 r id sender) w r
    [("R2", require (bool_decide (sender_is (v_sender chain) (HexToAddress sender) id)))].
Proof.
  destruct chain_answers as (_ & Hs & _). unfold adds, check_r2, bind. rewrite Hs.
  case_bool_decide as Hd; unfold sender_is in Hd.
  - rewrite Hd, decide_True by done. one_read.
  - destruct (v_sender chain id) as [x|e]; [rewrite decide_False by congruence|]; one_read.
Qed.
Lemma r3_adds r id key :
  adds (check_r3 r id key) w r [("R3", require (says_yes (v_machine_owner chain id (PubkeyToAddress key))))].
Proof.
  destruct chain_answers as (_ & _ & Ho & _). unfold adds, check_r3, bind. rewrite Ho.
  destruct (v_machine_owner chain _ _) as [[]|e]; one_read.
Qed.
Lemma r4_adds r id :
  adds (check_r4 r id) w r [("R4", require (says_yes (v_key_type chain id EVMType)))].
Proof.
  destruct chain_answers as (_ & _ & _ & Hk). unfold adds, check_r4, bind. rewrite Hk.
  destruct (v_key_type chain _ _) as [[]|e]; one_read.
Qed.
Lemma r7_adds r n sender :
  adds (check_r7 r n sender) w r [("R7", advise (length (ids_of_sender n (HexToAddress sender)) <=? 1))].
Proof.
  destruct chain_answers as (_ & Hs & _). unfold adds, check_r7. rewrite mbind_bind. unfold bind.
  rewrite (r7_loop_spec _ _ _ _ _ _ Hs).
  replace (Z.of_nat (Z.to_nat (swrap64 n))) with (Z.max 0 (swrap64 n)) by lia. fold (ids_of_sender n (HexToAddress sender)).
  cbn [app]. rewrite length_fmap. case_decide as Hd; eexists; (split; [done|]); rewrite verdicts_Add.
  - by rewrite (proj2 (Nat.leb_gt _ _)).
  - by rewrite (proj2 (Nat.leb_le _ _)) by lia.
Qed.

(** A check that is made only under a condition. *)
Lemma adds_when (b : bool) m r vs : adds m w r vs → adds (if b then m else ret r) w r (when b vs).
Proof. destruct b; [done|intros _; apply adds_nil]. Qed.

Lemma registration_adds r client key registry allowlist path :
  adds (RegisterRegistrationChecks r client key registry allowlist path) w r
    (registration_table client key registry allowlist path w).
Proof.
  unfold RegisterRegistrationChecks, registration_table.
  case_decide as Hp; [rewrite bool_decide_eq_true_2 by auto; one_read|].
  unfold adds. rewrite mbind_bind, bind_reads, file_values.
  set (ext := file_ext_id path w). set (sender := file_sender path w).
  replace (bool_decide (path = "" ∨ ext = "" ∧ sender = "")) with (bool_decide (ext = "") && bool_decide (sender = ""))
    by (repeat case_bool_decide; naive_solver).
  destruct (bool_decide (ext = "") && bool_decide (sender = "")); [one_read|].
  assert (∃ r1, (if registry && client then check_r1 r else ret (r, None)) w =
      ((r1, if registry && client then result_option (v_next chain) else None), w) ∧
    verdicts r1 = verdicts r ++ when (registry && client)
      [("R1", match v_next chain with Err _ => FAIL | Ok n => advise (negb (n =? 0)%Z) end)]) as (r1 & H1 & Hv1).
  { destruct (registry && client); [apply r1_adds|]. exists r. cbn. by rewrite app_nil_r. }
  rewrite mbind_bind, (bind_run _ _ _ _ _ H1). set (later := if negb (extensionIDRegex ext) then _ else _).
  assert (∀ m vs, adds m w r1 vs → ∃ r', m w = (r', w) ∧ verdicts r' = verdicts r ++ when (registry && client)
      [("R1", match v_next chain with Err _ => FAIL | Ok n => advise (negb (n =? 0)%Z) end)] ++ vs) as Hr1.
  { intros m vs (r' & Hm & Hv). exists r'. split; [done|]. by rewrite Hv, Hv1, (assoc_L (++)). }
  apply Hr1. clear Hr1 H1 Hv1 r. subst later.
  destruct (negb (extensionIDRegex ext)); [one_read|]. cbv zeta.
  apply adds_bind; [apply adds_when, r2_adds|]. intros r2. apply adds_bind.
  { destruct key as [key|]; [apply adds_when, r3_adds|apply adds_nil]. }
  intros r3. apply adds_bind; [apply adds_when, r4_adds|]. intros r4.
  destruct (registry && client) eqn:Hrc.
  - destruct (v_next chain) as [n|e]; cbn [result_option andb]; [|apply adds_nil].
    rewrite <- andb_assoc, Hrc, andb_true_r. apply adds_when, r7_adds.
  - cbn [andb]. destruct (v_next chain); apply adds_nil.
Qed.

(** ** Properties *)

(** A registrar adds these checks, as results of its step that have a fix only when
    they fail or warn, to what the report has. *)
Definition reports (step : string) (m : M W Report) (w : W) (r : Report) (vs : list (string * Status)) : Prop :=
  ∃ new, m w = (mkReport (Results r ++ new), w) ∧ verdict <$> new = vs ∧ Forall (wf_result step) new.
Lemma adds_reports step m r vs : adds m w r vs → always (extends step r) m → reports step m w r vs.
Proof.
  intros ([l] & Hm & Hv) He. specialize (He w). rewrite Hm in He. destruct He as (new & Hl & Hnew). cbn in Hl. subst l.
  exists new. split_and!; [done| |done]. unfold verdicts in Hv. cbn in Hv. rewrite fmap_app in Hv. by apply app_inv_head in Hv.
Qed.

(** C39: every check of the validator, and its verdict.  While the chain and the
    network answer from a fixed state, each step's registrar adds exactly the checks
    of its table to the report, in that order and with that status, and changes
    nothing else: deploy checks that no address is zero, that there is code at the
    others, the key, its balance, the chain id and the configuration file, for
    whatever order the runtime gives the addresses in; register the id, the sender,
    the owner and the key type on the chain, as far as it has the handles to; the
    others the configuration file, the environment and the proxies.  Only what
    cannot work is a failure, what may not work is a warning, and what cannot be
    looked at is skipped. *)
Theorem checks_made (r : Report) (client registry allowlist : bool) (key : option PrivateKey)
    (order1 order2 : list (string * string)) (path : string) :
  order1 ≡ₚ order2 → NoDup order1.*1 →
  reports "deploy" (RegisterDeployChecks r client key order1 order2 path) w r
    (deploy_table client key order1 order2 path w) ∧
  reports "register" (RegisterRegistrationChecks r client key registry allowlist path) w r
    (registration_table client key registry allowlist path w) ∧
  reports "services" (RegisterServicesChecks r path) w r (services_table path w) ∧
  reports "tee-version" (RegisterTeeVersionChecks r path) w r (tee_version_table path w) ∧
  reports "tee-machine" (RegisterTeeMachineChecks r path) w r (tee_machine_table w) ∧
  reports "test" (RegisterTestChecks r path) w r (test_table path w).
Proof.
  intros Hperm Hnd. split_and!; apply adds_reports; auto using deploy_adds, registration_adds, services_adds,
    tee_version_adds, tee_machine_adds, test_adds, deploy_extends, registration_extends, services_extends,
    tee_version_extends, tee_machine_extends, test_extends.
Qed.
End verdicts.

(** ** A run

    One of two addresses is zero, the registered sender is the file's, the environment
    is empty, and nothing listens. *)
Definition demo_answers : answers :=
  mkAnswers demo_view (λ x, Ok (if decide (x = zero_address) then "" else "code")) (λ _, Ok (2 * 10 ^ 16)%Z) (Ok 114%Z)
    (λ _, Err (ErrMsg "connection refused")) (λ _, false).
Definition demo_addresses : list (string * string) :=
  [("FlareTeeManager", HexToAddress demo_sender); ("Fdc2Hub", zero_address)].

Lemma checks_made_witness :
  let run := RegisterRegistrationChecks (EMgr := sim_manager demo_senders) (Allow := sim_allowlist true)
    empty_report true (Some "key") true true "extension.env" demo_world in
  let deploy := RegisterDeployChecks empty_report true (Some "key") demo_addresses demo_addresses "extension.env"
    demo_world in
  verdicts (fst run) = [("R1", PASS); ("R2", PASS); ("R3", PASS); ("R4", PASS); ("R7", PASS)] ∧
  verdicts (fst deploy) = [("D3", PASS); ("D3", FAIL); ("D1", PASS); ("D5", PASS); ("D5", PASS); ("D6", PASS);
                           ("D7", PASS); ("D7", PASS)].
Proof.
  cbv zeta.
  destruct (checks_made (EMgr := sim_manager demo_senders) (Allow := sim_allowlist true) demo_answers demo_world
    (ltac:(split_and!; [split_and!|..]; done)) empty_report true true true (Some "key") demo_addresses demo_addresses
    "extension.env" (reflexivity _) (ltac:(by_decide)))
    as ((d & Hd & Hdv & _) & (g & Hg & Hgv & _) & _).
  rewrite Hd, Hg. cbn [fst]. unfold verdicts. cbn [Results empty_report app]. rewrite Hdv, Hgv.
  split; vm_compute; reflexivity.
Defined.
