(* ===== verification/Revert.v ===== *)
(** * Revert reasons: tools/pkg/fccutils/revert.go and diag.go

    How a failed call becomes text: the RPC error's data field, the [eth_call]
    replay, the [Error(string)] payload, and the custom errors of the ABIs.  A
    Go map of errors is the list of its entries in the order one iteration
    visits them. *)

From S2P Require Import Prelude GoStrings GoText Platform Sim.
From stdpp Require Import options.

(** The first four bytes of the error's id. *)
Definition selector_of (e : AbiError) : string := str_take 4 (e_ID e).
(** [0x08c379a0], the selector of [Error(string)]. *)
Definition error_string_selector : string := str [byte 8; byte 195; byte 121; byte 160].

Section revert.
Context {W : Type} `{Uni : !Unicode, Geth : !GoEthereum, Eth : !Ethclient W, Abis : !ContractAbis}.

Definition decodeRevertHex (hexStr : string) : string :=
  let hexStr := trim_prefix hexStr "0x" in
  match hex_decode hexStr with
  | None => ""
  | Some decoded =>
    if decide (len decoded < 4) then ""
    else match UnpackRevert decoded with
         | Some reason => reason
         | None => "0x" +:+ hexStr
         end
  end.

(** [None] is a nil error. *)
Definition DecodeRevertReason (err : option error) : string :=
  match err with
  | None => ""
  | Some err =>
    match errors_as_data err with
    | Some (DataString hexStr) => decodeRevertHex hexStr
    | _ => ""
    end
  end.

Definition SimulateAndDecodeRevert (from to : string) (value : option Z) (data : string) :
    M W string :=
  let msg := call_msg from to value data in
  result ←? CallContract msg
    | err =>
      let reason := DecodeRevertReason (Some err) in
      if bool_decide (reason ≠ "") then ret reason else ret (err_text err);
  if decide (4 ≤ len result) then ret (decodeRevertHex (hex_encode result)) else ret "".

(** An error's name, followed by its arguments when it has any. *)
Definition error_with_args (name : string) (e : AbiError) (data : string) : string :=
  match e_Unpack e data with
  | Ok argStr =>
    if bool_decide (argStr ≠ "[]") && bool_decide (argStr ≠ "<nil>") then name +:+ argStr else name
  | Err _ => name
  end.

(** The loop over [parsedABI.Errors]. *)
Fixpoint match_errors (es : list (string * AbiError)) (selector data : string) : string :=
  match es with
  | [] => ""
  | (name, e) :: es =>
    if decide (selector_of e ≠ selector) then match_errors es selector data
    else error_with_args name e data
  end.

Definition MatchCustomError (parsedABI : Abi) (revertHex : string) : string :=
  let revertHex := trim_prefix revertHex "0x" in
  match hex_decode revertHex with
  | None => ""
  | Some data =>
    if decide (len data < 4) then ""
    else match_errors (Errors parsedABI) (str_take 4 data) data
  end.

(** A nil slice and an empty one are both the empty string. *)
Definition ExtractRevertData (err : option error) : string :=
  match err with
  | None => ""
  | Some err =>
    match errors_as_data err with
    | Some (DataString d) => FromHex d
    | Some (DataBytes d) => d
    | _ => ""
    end
  end.

(** ** Diagnostics: a log line is its level and its text *)

Definition Infof (s : string) : string * string := ("INFO", s).
Definition Warnf (s : string) : string * string := ("WARN", s).
Definition Errorf (s : string) : string * string := ("ERROR", s).

(** The loop over one ABI's errors, [print]ing the first whose selector matches. *)
Fixpoint find_error (es : list (string * AbiError)) (selector : string)
    (print : string → AbiError → string) : option string :=
  match es with
  | [] => None
  | (errName, eDef) :: es =>
    if decide (selector_of eDef ≠ selector) then find_error es selector print
    else Some (print errName eDef)
  end.

(** The loop over the named ABIs; one that does not load is skipped. *)
Fixpoint find_source (srcs : list (string * result Abi)) (selector : string)
    (print : string → string → AbiError → string) : option string :=
  match srcs with
  | [] => None
  | (name, md) :: srcs =>
    match md with
    | Err _ => find_source srcs selector print
    | Ok a =>
      match find_error (Errors a) selector (print name) with
      | Some line => Some line
      | None => find_source srcs selector print
      end
    end
  end.

Definition diag_sources : list (string * result Abi) :=
  [("Verification", VerificationMetaData); ("Fdc2Hub", Fdc2HubMetaData);
   ("MachineManager", MachineManagerMetaData); ("ExtensionManager", ExtensionManagerMetaData)].

Definition diag_line (revertData srcName errName : string) (eDef : AbiError) : string :=
  match e_Inputs_Unpack eDef (str_drop 4 revertData) with
  | Err unpackErr =>
    "diag: revert -> " +:+ srcName +:+ "." +:+ errName +:+ " (arg unpack failed: " +:+
    err_text unpackErr +:+ ") data=0x" +:+ hex_encode revertData
  | Ok args => "diag: revert -> " +:+ srcName +:+ "." +:+ errName +:+ "(" +:+ args +:+ ")"
  end.

(** The last line of the diagnosis of a failed [eth_call]. *)
Definition diag_verdict (callErr : error) : string * string :=
  let revertData := ExtractRevertData (Some callErr) in
  if decide (len revertData = 0) then
    Warnf ("diag: eth_call error has no revert data: " +:+ err_text callErr)
  else if decide (len revertData < 4) then
    Warnf ("diag: revert data too short to contain a selector: 0x" +:+ hex_encode revertData)
  else
    let selector := str_take 4 revertData in
    let custom :=
      match find_source diag_sources selector (diag_line revertData) with
      | Some line => Errorf line
      | None => Errorf ("diag: revert with unknown selector 0x" +:+ hex_encode selector +:+
                        "; full data: 0x" +:+ hex_encode revertData)
      end in
    if decide (selector = error_string_selector) then
      match UnpackRevert revertData with
      | Some reason => Errorf ("diag: revert reason (string): " +:+ fmt_q reason)
      | None => custom
      end
    else custom.

Definition diagAvailabilityCheckRevert (prv : PrivateKey) (FlareTeeManager : string)
    (opts : TransactOpts PrivateKey)
    (teeID instructionID externalTeeID proofOwner claimBackAddress : string) :
    M W (list (string * string)) :=
  match VerificationMetaData with
  | Err err => ret [Warnf ("diag: load Verification ABI: " +:+ err_text err)]
  | Ok verABI =>
    match Pack verABI "requestAvailabilityCheckAttestation"
            [AAddress teeID; ABytes32 instructionID; AAddress externalTeeID;
             AAddress proofOwner; AAddress claimBackAddress] with
    | Err err => ret [Warnf ("diag: pack calldata: " +:+ err_text err)]
    | Ok calldata =>
      let from := PubkeyToAddress prv in
      let msg := call_msg from FlareTeeManager (o_value opts) calldata in
      let intro :=
        [Infof ("diag: eth_call requestAvailabilityCheckAttestation from=" +:+ Address_Hex from +:+
                " to=" +:+ Address_Hex FlareTeeManager +:+ " value=" +:+
                match o_value opts with Some v => itoa v | None => "<nil>" end);
         Infof ("diag:   teeID=" +:+ Address_Hex teeID +:+ " instructionID=0x" +:+
                hex_encode instructionID +:+ " externalTeeID=" +:+ Address_Hex externalTeeID +:+
                " proofOwner=" +:+ Address_Hex proofOwner +:+ " claimBack=" +:+
                Address_Hex claimBackAddress)] in
      _ ←? CallContract msg | callErr => ret (intro ++ [diag_verdict callErr]);
      ret (intro ++
        [Warnf "diag: eth_call unexpectedly succeeded — revert may be tx-time/gas-related"])
    end
  end.

(** ** Lemmas *)

Lemma find_error_in es name e sel print :
  NoDup (selector_of ∘ snd <$> es) → (name, e) ∈ es → selector_of e = sel →
  find_error es sel print = Some (print name e).
Proof.
  induction es as [|[n e'] es IH]; [by intros _ ?%elem_of_nil|].
  intros [Hnew Hnd]%NoDup_cons Hin Hsel. cbn. apply elem_of_cons in Hin as [Hin|Hin].
  - simplify_eq. by rewrite decide_False by (intros H; by apply H).
  - rewrite decide_True; [by apply IH|]. intros Heq. apply Hnew. cbn. rewrite Heq, <- Hsel.
    apply list_elem_of_fmap. by exists (name, e).
Qed.

Lemma find_error_none es sel print :
  sel ∉ (selector_of ∘ snd <$> es) → find_error es sel print = None.
Proof.
  induction es as [|[n e'] es IH]; [done|]. cbn. intros Hno. rewrite decide_True by set_solver.
  apply IH. set_solver.
Qed.

Lemma match_errors_find es sel data :
  match_errors es sel data = default "" (find_error es sel (λ n e, error_with_args n e data)).
Proof. induction es as [|[n e'] es IH]; [done|]. cbn. by case_decide. Qed.

Lemma find_source_in srcs1 name a srcs2 sel print errName e :
  Forall (λ s, ∀ b, snd s = Ok b → sel ∉ (selector_of ∘ snd <$> Errors b)) srcs1 →
  NoDup (selector_of ∘ snd <$> Errors a) → (errName, e) ∈ Errors a → selector_of e = sel →
  find_source (srcs1 ++ (name, Ok a) :: srcs2) sel print = Some (print name errName e).
Proof.
  intros Hearlier Hnd Hin Hsel. induction Hearlier as [|[n md] srcs1 Hmd _ IH]; cbn.
  - by erewrite find_error_in.
  - destruct md as [b|err]; [|done]. rewrite find_error_none by (by eapply Hmd). done.
Qed.

Lemma hex_encode_no_0x d : trim_prefix (hex_encode d) "0x" = hex_encode d.
Proof.
  apply trim_prefix_no. unfold has_prefix. apply bool_decide_eq_false. unfold hex_encode.
  rewrite bytes_str. destruct (bytes d) as [|c l]; cbn; [by intros []|].
  destruct c as [[] [] [] [] [] [] [] []]; vm_compute; by intros [].
Qed.

(** With or without its prefix, a hexadecimal payload decodes to the same. *)
Lemma decodeRevertHex_encode d :
  decodeRevertHex (hex_encode d) =
  (if decide (len d < 4) then "" else default ("0x" +:+ hex_encode d) (UnpackRevert d)) ∧
  decodeRevertHex ("0x" +:+ hex_encode d) = decodeRevertHex (hex_encode d).
Proof.
  unfold decodeRevertHex. rewrite trim_prefix_app, hex_encode_no_0x, hex_decode_encode.
  split; [|done]. case_decide; [done|]. by destruct (UnpackRevert d).
Qed.

Lemma MatchCustomError_find abi d :
  4 ≤ len d →
  MatchCustomError abi ("0x" +:+ hex_encode d) =
  default "" (find_error (Errors abi) (str_take 4 d) (λ n e, error_with_args n e d)).
Proof.
  intros Hd. unfold MatchCustomError. rewrite trim_prefix_app, hex_decode_encode.
  rewrite decide_False by lia. apply match_errors_find.
Qed.

Lemma prefix_0x_nonempty s : "0x" +:+ s ≠ "".
Proof. done. Qed.

(** ** Properties *)

(** [MatchCustomError] does not depend on the order in which the runtime
    iterates over the ABI's error map when the selectors are distinct: for every
    iteration order [es], a payload that starts with the selector of an error of
    the ABI names that error with its arguments, and any other text (not hex,
    fewer than four bytes, or an unknown selector) gives the empty string. *)
Theorem MatchCustomError_selects (es es' : list (string * AbiError)) :
  NoDup (selector_of ∘ snd <$> es) → es ≡ₚ es' →
  (∀ name e data, (name, e) ∈ es → 4 ≤ len data → str_take 4 data = selector_of e →
     MatchCustomError (mkAbi es') ("0x" +:+ hex_encode data) = error_with_args name e data) ∧
  (∀ revertHex,
     match hex_decode (trim_prefix revertHex "0x") with
     | Some data => 4 ≤ len data → str_take 4 data ∉ (selector_of ∘ snd <$> es)
     | None => True
     end → MatchCustomError (mkAbi es') revertHex = "").
Proof.
  intros Hnd Hperm. split.
  - intros name e data Hin Hlen Hsel. rewrite MatchCustomError_find by done. cbn.
    erewrite find_error_in; [done| |by rewrite <- Hperm|done]. by rewrite <- Hperm.
  - intros h Hh. unfold MatchCustomError. destruct (hex_decode _) as [data|]; [|done].
    case_decide; [done|]. cbn. rewrite match_errors_find, find_error_none; [done|].
    rewrite <- Hperm. apply Hh. lia.
Qed.

(** The diagnosis of a reverted transaction end to end.  Whether the node
    answers the replayed [eth_call] with an error carrying the payload as hex
    data or with the payload itself, [SimulateAndDecodeRevert] gives the reason
    of an [Error(string)] payload, and for any other payload of at least four
    bytes the hex text from which [MatchCustomError] recovers the ABI error whose
    selector the payload starts with. *)
Theorem revert_diagnosis (from to : string) (value : option Z) (call data : string) (w : W)
    (answer : result string) :
  fst (CallContract (call_msg from to value call) w) = answer →
  (answer = Ok data ∨
   ∃ err, answer = Err err ∧ errors_as_data err = Some (DataString ("0x" +:+ hex_encode data))) →
  4 ≤ len data →
  let text := fst (SimulateAndDecodeRevert from to value call w) in
  (∀ reason, UnpackRevert data = Some reason → reason ≠ "" → text = reason) ∧
  (UnpackRevert data = None →
     text = "0x" +:+ hex_encode data ∧
     ∀ abi name e, NoDup (selector_of ∘ snd <$> Errors abi) → (name, e) ∈ Errors abi →
       str_take 4 data = selector_of e → MatchCustomError abi text = error_with_args name e data).
Proof.
  intros Hcall Hanswer Hlen. cbn zeta.
  set (decoded := default ("0x" +:+ hex_encode data) (UnpackRevert data)).
  assert (decodeRevertHex (hex_encode data) = decoded ∧
          decodeRevertHex ("0x" +:+ hex_encode data) = decoded) as [Hd1 Hd2].
  { destruct (decodeRevertHex_encode data) as [H1 H2]. rewrite H2, H1.
    by rewrite decide_False by lia. }
  assert (decoded ≠ "" → fst (SimulateAndDecodeRevert from to value call w) = decoded) as Htext.
  { intros Hne. unfold SimulateAndDecodeRevert, bind.
    destruct (CallContract _ w) as [ans w'] eqn:E. cbn in Hcall. subst ans.
    destruct Hanswer as [->|(err & -> & Herr)].
    - by rewrite decide_True.
    - unfold DecodeRevertReason. rewrite Herr, Hd2. by rewrite bool_decide_eq_true_2. }
  subst decoded. split.
  - intros reason Hu Hne. rewrite Hu in Htext. by apply Htext.
  - intros Hu. rewrite Hu in Htext. cbn in Htext. rewrite Htext by done. split; [done|].
    intros abi name e Hnd Hin Hsel. rewrite MatchCustomError_find by done.
    by erewrite find_error_in.
Qed.

(** The diagnosis of a reverted availability check ends with a line that
    names the first of the four facets declaring the payload's selector, and the
    error, whatever the iteration order of the ABI's error map. *)
Theorem diag_names_error (callErr : error) (srcs1 srcs2 : list (string * result Abi))
    (facet : string) (es es' : list (string * AbiError)) (errName : string) (e : AbiError) :
  let revertData := ExtractRevertData (Some callErr) in
  diag_sources = srcs1 ++ (facet, Ok (mkAbi es')) :: srcs2 →
  NoDup (selector_of ∘ snd <$> es) → es ≡ₚ es' → (errName, e) ∈ es →
  4 ≤ len revertData → str_take 4 revertData = selector_of e →
  selector_of e ≠ error_string_selector →
  Forall (λ s, ∀ b, snd s = Ok b → selector_of e ∉ (selector_of ∘ snd <$> Errors b)) srcs1 →
  diag_verdict callErr = Errorf (diag_line revertData facet errName e).
Proof.
  cbn zeta. intros Hsrc Hnd Hperm Hin Hlen Hsel Hstr Hearlier. unfold diag_verdict.
  rewrite decide_False, decide_False by lia. rewrite Hsel, decide_False by done.
  rewrite Hsrc. erewrite find_source_in; [done|done| |..|done]; cbn; by rewrite <- Hperm.
Qed.
End revert.

(** ** Witnesses *)

Definition demo_payload : string := str (byte <$> [1; 2; 3; 4; 5]).
Definition demo_error : AbiError :=
  mkAbiError (str ((byte <$> [1; 2; 3; 4]) ++ replicate 28 (byte 0))) (λ _, Ok "[7]") (λ _, Ok "[7]").
Definition demo_rpc_error : error :=
  ErrWrap "call failed" (ErrRPC "execution reverted" (DataString ("0x" +:+ hex_encode demo_payload))).

Lemma demo_errors_nodup : NoDup (selector_of ∘ snd <$> sim_errors).
Proof. by_decide. Qed.
Lemma demo_errors_in : ("InvalidGovernanceHash", demo_error) ∈ sim_errors.
Proof. left. Qed.

Lemma MatchCustomError_selects_witness :
  MatchCustomError (mkAbi (reverse sim_errors)) ("0x" +:+ hex_encode demo_payload) =
    "InvalidGovernanceHash[7]" ∧
  MatchCustomError (mkAbi (reverse sim_errors)) "not hex" = "".
Proof.
  split.
  - apply (proj1 (MatchCustomError_selects sim_errors (reverse sim_errors) demo_errors_nodup
             (symmetry (reverse_Permutation sim_errors))) _ _ demo_payload demo_errors_in);
      [vm_compute; lia|reflexivity].
  - apply (proj2 (MatchCustomError_selects sim_errors (reverse sim_errors) demo_errors_nodup
             (symmetry (reverse_Permutation sim_errors)))). vm_compute. exact I.
Defined.

Lemma revert_diagnosis_witness :
  let client := sim_client (λ _, Err demo_rpc_error) (λ t, Ok (mkReceipt 1 [t])) in
  let text := fst (SimulateAndDecodeRevert (Eth := client) "" "" None "" empty_world) in
  text = "0x0102030405" ∧
  MatchCustomError (mkAbi sim_errors) text = "InvalidGovernanceHash[7]".
Proof.
  intros client.
  destruct (proj2 (revert_diagnosis (Eth := client) "" "" None "" demo_payload empty_world
    (Err demo_rpc_error) eq_refl (or_intror (ex_intro _ demo_rpc_error (conj eq_refl eq_refl)))
    ltac:(vm_compute; lia)) eq_refl) as [H1 H2].
  split; [exact H1|].
  by apply (H2 (mkAbi sim_errors) _ _ demo_errors_nodup demo_errors_in).
Defined.

Lemma diag_names_error_witness :
  diag_verdict demo_rpc_error =
  Errorf "diag: revert -> MachineManager.InvalidGovernanceHash([7])".
Proof.
  apply (diag_names_error demo_rpc_error [("Verification", Err (ErrMsg "no abi")); ("Fdc2Hub", Ok (mkAbi []))]
    [("ExtensionManager", Ok (mkAbi sim_errors))] "MachineManager" sim_errors sim_errors
    "InvalidGovernanceHash" demo_error); try done.
  - apply demo_errors_nodup.
  - apply demo_errors_in.
  - vm_compute; lia.
  - repeat constructor; intros b; cbn; intros [=]; subst; cbn; apply not_elem_of_nil.
Defined.
