(* ===== verification/Support.v ===== *)
(** * tools/pkg/support and tools/pkg/configs

    What every tool starts from: the deployed addresses in either of their file
    formats, the deployer key, the facet bindings, and [CheckTx], which waits
    for a transaction and explains its failure. *)

From S2P Require Import Prelude GoStrings GoText Json Platform Sim Revert.
From stdpp Require Import options.

(** ** Addresses *)

Record Addresses := mkAddresses {
  FlareSystemManager : string;
  Fdc2Hub : string;
  FlareTeeManager : string;
}.
Definition no_addresses : Addresses := mkAddresses zero_address zero_address zero_address.

(** The entries of the list format. *)
Record RawContract := mkRawContract { rc_Name : string; rc_ContractName : string; rc_Address : string }.

Definition RawContract_fields : list (field RawContract) :=
  [string_field "name" (λ x c, mkRawContract x (rc_ContractName c) (rc_Address c));
   string_field "contractName" (λ x c, mkRawContract (rc_Name c) x (rc_Address c));
   string_field "address" (λ x c, mkRawContract (rc_Name c) (rc_ContractName c) x)].

(** A pointer to a field of [Addresses]. *)
Inductive AddressField := FSystems | FFdc2Hub | FTeeManager.
#[export] Instance AddressField_eq_dec : EqDecision AddressField.
Proof. solve_decision. Defined.

Definition get_field (f : AddressField) (a : Addresses) : string :=
  match f with
  | FSystems => FlareSystemManager a | FFdc2Hub => Fdc2Hub a | FTeeManager => FlareTeeManager a
  end.
Definition set_field (f : AddressField) (x : string) (a : Addresses) : Addresses :=
  match f with
  | FSystems => mkAddresses x (Fdc2Hub a) (FlareTeeManager a)
  | FFdc2Hub => mkAddresses (FlareSystemManager a) x (FlareTeeManager a)
  | FTeeManager => mkAddresses (FlareSystemManager a) (Fdc2Hub a) x
  end.

(** What reflection sees of [Addresses]: name, type is [common.Address], JSON
    tag, pointer. *)
Definition reflect_fields : list (string * bool * string * AddressField) :=
  [("FlareSystemManager", true, "FlareSystemsManager", FSystems);
   ("Fdc2Hub", true, "Fdc2Hub", FFdc2Hub);
   ("FlareTeeManager", true, "FlareTeeManager", FTeeManager)].

Definition fieldMap : gmap string AddressField :=
  foldl (λ out '(name, is_address, tag, f),
           if negb is_address then out
           else let key := if bool_decide (tag = "") || bool_decide (tag = "-") then name else tag in
                <[key := f]> out)
    ∅ reflect_fields.

Section support.
Context {W : Type} `{OSW : !OS W, Uni : !Unicode, Geth : !GoEthereum, Txt : !GoEthereumText,
  JErr : !JsonErrors, Eth : !Ethclient W, Env : !Dotenv W, Bnd : !Bindings}.

(** *** configs.go *)

Definition PrvWithFunds : result PrivateKey :=
  match HexToECDSA "804b01a8c27a65cc694a867be76edae3ccce7a7161cda1f67a8349df696d2207" with
  | Ok k => Ok k
  | Err _ => Err (ErrMsg "panic: cannot read privateKey with funds")
  end.

(** A field of type [common.Address], which has its own [UnmarshalJSON]. *)
Definition address_field (tag : string) (f : AddressField) : field Addresses :=
  (tag, λ v a, x ← Address_UnmarshalJSON v; Some (set_field f x a)).
Definition Addresses_fields : list (field Addresses) :=
  (λ '(_, _, tag, f), address_field tag f) <$> reflect_fields.

Definition ReadAddresses (filePath : string) (w : W) : result Addresses :=
  match read_file filePath w with
  | Err err => Err err
  | Ok file => Unmarshal "Addresses" Addresses_fields no_addresses file
  end.

(** *** ParseAddresses *)

(** [Unmarshal] into [[]RawContract]. *)
Definition decode_raw_contracts (j : json) : option (list RawContract) :=
  match j with
  | JArr l => mapM (λ v, decode_struct RawContract_fields false v (mkRawContract "" "" "")) l
  | JNull => Some []
  | _ => None
  end.

Definition assign_contract (addrs : Addresses) (c : RawContract) : Addresses :=
  match fieldMap !! rc_Name c with
  | Some dest => set_field dest (HexToAddress (rc_Address c)) addrs
  | None => addrs
  end.

Definition ParseAddresses (filePath : string) (w : W) : result Addresses :=
  match read_file filePath w with
  | Err err => Err err
  | Ok file =>
    match j ← json_whole file; decode_raw_contracts j with
    | None => Err (json_error "[]support.RawContract" file)
    | Some raw => Ok (foldl assign_contract no_addresses raw)
    end
  end.

(** *** The key and the bindings *)

Definition strip_0x (s : string) : string :=
  if has_prefix s "0x" || has_prefix s "0X" then str_drop 2 s else s.

Definition DefaultPrivateKey : M W (result PrivateKey) :=
  _ ← godotenv_Load [];
  privKeyString ← reads (getenv "DEPLOYMENT_PRIVATE_KEY");
  if decide (privKeyString = "") then ret PrvWithFunds
  else
    ret match HexToECDSA (strip_0x privKeyString) with
        | Err err => Err (ErrMsg (err_text err))
        | Ok privKey => Ok privKey
        end.

Record Support := mkSupport {
  Prv : PrivateKey;
  s_FlareSystemManager : Binding;
  s_Fdc2Hub : Binding;
  TeeMachineRegistry : Binding;
  TeeWalletProjectManager : Binding;
  TeeWalletManager : Binding;
  TeeWalletKeyManager : Binding;
  TeeVerification : Binding;
  TeeExtensionRegistry : Binding;
  TeeExtensionGovernance : Binding;
  TeeOwnerAllowlist : Binding;
  SAddresses : Addresses;
  SChainID : Z;
}.

Definition NewSupport (prv : PrivateKey) (addresses : Addresses) : M W (result Support) :=
  let diamond := FlareTeeManager addresses in
  tr ←? ret (NewBinding "MachineManager" diamond);
  twm ←? ret (NewBinding "WalletManager" diamond);
  twkm ←? ret (NewBinding "WalletKeyManager" diamond);
  twpm ←? ret (NewBinding "WalletProjectManager" diamond);
  sm ←? ret (NewBinding "FlareSystemsManager" (FlareSystemManager addresses));
  ftdc ←? ret (NewBinding "Fdc2Hub" (Fdc2Hub addresses));
  tv ←? ret (NewBinding "Verification" diamond);
  ter ←? ret (NewBinding "ExtensionManager" diamond);
  toal ←? ret (NewBinding "OwnerAllowlist" diamond);
  teg ←? ret (NewBinding "ExtensionGovernance" diamond);
  chainID ←? ChainID;
  ret (Ok (mkSupport prv sm ftdc tr twpm twm twkm tv ter teg toal addresses chainID)).

Definition DefaultSupport (AddressesFilePath chainNodeURL : string) : M W (result Support) :=
  addr ←? reads (λ w, match ReadAddresses AddressesFilePath w with
                      | Ok addr => Ok addr
                      | Err _ =>
                        match ParseAddresses AddressesFilePath w with
                        | Err err => Err (ErrMsg (err_text err))
                        | Ok addr => Ok addr
                        end
                      end);
  cc ← Dial chainNodeURL;
  match cc with
  | Some err => ret (Err (ErrMsg (err_text err)))
  | None =>
    privKey ←? DefaultPrivateKey;
    NewSupport privKey addr
  end.

(** *** CheckTx *)

Definition decodeRevertFromError (err : error) : string :=
  match errors_as_data err with
  | Some (DataString hexStr) =>
    match hex_decode (trim_prefix hexStr "0x") with
    | Some decoded => default "" (UnpackRevert decoded)
    | None => ""
    end
  | _ => ""
  end.

Definition getFailingMessage (hash : string) : M W (result string) :=
  tx ←? TransactionByHash hash | err => ret (Err (ErrMsg (err_text err)));
  from ←? ret (TxSender tx) | err => ret (Err (ErrMsg (err_text err)));
  let msg := mkCallMsg from (t_to tx) (t_gas tx) (Some (t_gas_price tx)) (Some (t_value tx)) (t_data tx) in
  res ←? CallContract msg
    | err =>
      let reason := decodeRevertFromError err in
      if bool_decide (reason ≠ "") then ret (Ok reason) else ret (Ok (err_text err));
  match UnpackRevert res with
  | Some reason => ret (Ok reason)
  | None =>
    if decide (0 < len res) then ret (Ok ("0x" +:+ hex_encode res))
    else ret (Ok "unknown revert reason")
  end.

Definition CheckTx (tx : Tx) : M W (result (Receipt Log)) :=
  receipt ←? WaitMined tx
    | err => ret (Err (ErrMsg ("transaction not mined within 2 minutes (tx: " +:+
                               Hash_Hex (tx_hash tx) +:+ "): " +:+ err_text err)));
  if decide (r_status receipt = 0%Z) then
    reason ←? getFailingMessage (tx_hash tx);
    ret (Err (ErrMsg ("error: Transaction fail: " +:+ reason)))
  else ret (Ok receipt).

(** ** Lemmas *)

(** The JSON tag under which a field is looked up. *)
Definition tag_of (f : AddressField) : string :=
  match f with
  | FSystems => "FlareSystemsManager" | FFdc2Hub => "Fdc2Hub" | FTeeManager => "FlareTeeManager"
  end.

Lemma fieldMap_lookup name f : fieldMap !! name = Some f ↔ name = tag_of f.
Proof.
  change fieldMap with
    (<["FlareTeeManager" := FTeeManager]> (<["Fdc2Hub" := FFdc2Hub]>
       (<["FlareSystemsManager" := FSystems]> (∅ : gmap string AddressField)))).
  rewrite !lookup_insert_Some, lookup_empty.
  split; [naive_solver|]. intros ->. destruct f; naive_solver.
Qed.

Lemma get_set_field f g x a :
  get_field f (set_field g x a) = if decide (f = g) then x else get_field f a.
Proof. by destruct f, g. Qed.

Lemma assign_contract_get f a c :
  get_field f (assign_contract a c) =
  if decide (rc_Name c = tag_of f) then HexToAddress (rc_Address c) else get_field f a.
Proof.
  unfold assign_contract. destruct (fieldMap !! rc_Name c) as [g|] eqn:E.
  - apply fieldMap_lookup in E. rewrite get_set_field, E.
    destruct (decide (f = g)) as [->|Hne]; [by rewrite decide_True|].
    rewrite decide_False; [done|]. by destruct f, g.
  - rewrite decide_False; [done|]. intros Hf%fieldMap_lookup. congruence.
Qed.

Definition last_named (name : string) (raw : list RawContract) : option RawContract :=
  last (filter (λ c, rc_Name c = name) raw).

Lemma assign_contracts_get f a raw :
  get_field f (foldl assign_contract a raw) =
  match last_named (tag_of f) raw with
  | Some c => HexToAddress (rc_Address c)
  | None => get_field f a
  end.
Proof.
  induction raw as [|c raw IH] using rev_ind; [done|].
  rewrite foldl_snoc, assign_contract_get, IH. unfold last_named.
  rewrite filter_app, filter_cons. case_decide as Hc; cbn; [by rewrite last_snoc|by rewrite app_nil_r].
Qed.

Lemma NewSupport_inv prv addrs w s w' :
  NewSupport prv addrs w = (Ok s, w') →
  let diamond := FlareTeeManager addrs in
  Prv s = prv ∧ SAddresses s = addrs ∧ ChainID w = (Ok (SChainID s), w') ∧
  NewBinding "FlareSystemsManager" (FlareSystemManager addrs) = Ok (s_FlareSystemManager s) ∧
  NewBinding "Fdc2Hub" (Fdc2Hub addrs) = Ok (s_Fdc2Hub s) ∧
  NewBinding "MachineManager" diamond = Ok (TeeMachineRegistry s) ∧
  NewBinding "WalletProjectManager" diamond = Ok (TeeWalletProjectManager s) ∧
  NewBinding "WalletManager" diamond = Ok (TeeWalletManager s) ∧
  NewBinding "WalletKeyManager" diamond = Ok (TeeWalletKeyManager s) ∧
  NewBinding "Verification" diamond = Ok (TeeVerification s) ∧
  NewBinding "ExtensionManager" diamond = Ok (TeeExtensionRegistry s) ∧
  NewBinding "ExtensionGovernance" diamond = Ok (TeeExtensionGovernance s) ∧
  NewBinding "OwnerAllowlist" diamond = Ok (TeeOwnerAllowlist s).
Proof.
  intros H. unfold NewSupport in H. cbn zeta in *. ok_steps H.
  simplify_eq. by split_and!.
Qed.

(** A receipt [CheckTx] returns is one of a transaction mined successfully. *)
Lemma CheckTx_mined (t : Tx) r (w w' : W) :
  CheckTx t w = (Ok r, w') → WaitMined t w = (Ok r, w') ∧ r_status r ≠ 0%Z.
Proof.
  unfold CheckTx. destruct (WaitMined t w) as [[r'|err] w1] eqn:Hw; rewrite (bind_run _ _ _ _ _ Hw);
    [|discriminate].
  case_decide; [|by intros [= <- <-]].
  unfold bind. destruct (getFailingMessage _ _) as [[]]; discriminate.
Qed.

(** One transaction: a call with a transactor for the key, mined with success, and
    nothing else. *)
Definition transacted `{!Transactor} (s : Support) (key : PrivateKey)
    (call : TransactOpts PrivateKey → M W (result Tx)) (w : W) (receipt : Receipt Log) (w' : W) : Prop :=
  ∃ o tx w1, NewKeyedTransactorWithChainID key (SChainID s) = Ok o ∧ call o w = (Ok tx, w1) ∧
    WaitMined tx w1 = (Ok receipt, w') ∧ r_status receipt ≠ 0%Z.
Lemma transacted_intro `{!Transactor} s key call o tx receipt (w w1 w' : W) :
  NewKeyedTransactorWithChainID key (SChainID s) = Ok o → call o w = (Ok tx, w1) →
  CheckTx tx w1 = (Ok receipt, w') → transacted s key call w receipt w'.
Proof. intros Ho Hc [Hm Hs]%CheckTx_mined. by exists o, tx, w1. Qed.

(** ** Properties *)

(** The list format of the addresses file: [ParseAddresses] fills each of the
    three fields from the last entry whose name is the field's JSON tag, leaves a
    field without such an entry at the zero address, ignores every other entry,
    and fails exactly when the file cannot be read or is not a list of contracts. *)
Theorem ParseAddresses_fields (filePath : string) (w : W) :
  match read_file filePath w with
  | Err err => ParseAddresses filePath w = Err err
  | Ok file =>
    match j ← json_whole file; decode_raw_contracts j with
    | None => is_ok (ParseAddresses filePath w) = false
    | Some raw =>
      ∃ addrs, ParseAddresses filePath w = Ok addrs ∧
        ∀ f, get_field f addrs =
             match last_named (tag_of f) raw with
             | Some c => HexToAddress (rc_Address c)
             | None => zero_address
             end
    end
  end.
Proof.
  unfold ParseAddresses. destruct (read_file filePath w) as [file|err]; [|done].
  destruct (_ ≫= _) as [raw|]; [|done]. eexists. split; [done|]. intros f.
  rewrite assign_contracts_get. by destruct (last_named _ _), f.
Qed.

(** What a tool holds after [DefaultSupport]: the addresses come from the
    file in one of its two formats, the key is the hardcoded development key
    exactly when DEPLOYMENT_PRIVATE_KEY is empty after loading .env and is the
    configured one, without its 0x, otherwise, the chain id is the node's, and
    every TEE facet is bound to the FlareTeeManager diamond. *)
Theorem DefaultSupport_wiring (file url : string) (w w' : W) (s : Support) :
  DefaultSupport file url w = (Ok s, w') →
  (ReadAddresses file w = Ok (SAddresses s) ∨
   is_ok (ReadAddresses file w) = false ∧ ParseAddresses file w = Ok (SAddresses s)) ∧
  (∃ w1, let key := getenv "DEPLOYMENT_PRIVATE_KEY" w1 in
     snd (godotenv_Load [] (snd (Dial url w))) = w1 ∧
     (key = "" → PrvWithFunds = Ok (Prv s)) ∧ (key ≠ "" → HexToECDSA (strip_0x key) = Ok (Prv s)) ∧
     ChainID w1 = (Ok (SChainID s), w')) ∧
  let diamond := FlareTeeManager (SAddresses s) in
  Forall (λ '(facet, binding), NewBinding facet diamond = Ok binding)
    [("MachineManager", TeeMachineRegistry s); ("WalletManager", TeeWalletManager s);
     ("WalletKeyManager", TeeWalletKeyManager s); ("WalletProjectManager", TeeWalletProjectManager s);
     ("Verification", TeeVerification s); ("ExtensionManager", TeeExtensionRegistry s);
     ("OwnerAllowlist", TeeOwnerAllowlist s); ("ExtensionGovernance", TeeExtensionGovernance s)].
Proof.
  unfold DefaultSupport. rewrite bind_reads. intros H.
  set (addr := match ReadAddresses file w with Ok _ => _ | Err _ => _ end) in H.
  destruct addr as [addrs|err] eqn:Ea; [|discriminate H]. subst addr.
  cbv [mbind M_bind bind] in H. destruct (Dial url w) as [[err|] w0] eqn:Ed; [discriminate H|].
  unfold DefaultPrivateKey in H. cbv [mbind M_bind bind reads] in H.
  destruct (godotenv_Load [] w0) as [err w1] eqn:El.
  set (key := getenv "DEPLOYMENT_PRIVATE_KEY" w1) in *.
  assert (∃ k, NewSupport k addrs w1 = (Ok s, w') ∧ (key = "" → PrvWithFunds = Ok k) ∧
               (key ≠ "" → HexToECDSA (strip_0x key) = Ok k)) as (k & Hs & Hk1 & Hk2).
  { case_decide as Hkey; cbv [ret] in H.
    - destruct PrvWithFunds as [k|]; [|discriminate H]. by exists k.
    - destruct (HexToECDSA (strip_0x key)) as [k|] eqn:Ek; [|discriminate H]. exists k. naive_solver. }
  destruct (NewSupport_inv _ _ _ _ _ Hs) as (<- & <- & Hc & _ & _ & Hb).
  split; [|split].
  - destruct (ReadAddresses file w); [by left; simplify_eq|]. right. split; [done|].
    destruct (ParseAddresses file w); by simplify_eq.
  - exists w1. cbn. by rewrite El.
  - cbn zeta. rewrite !Forall_cons, Forall_nil. naive_solver.
Qed.

(** The text that explains an answer to the replayed [eth_call], best first: the
    message of an [Error(string)] payload, which an RPC error carries as hex data;
    the bytes returned; the error's own text. *)
Inductive explains : result string → string → Prop :=
  | explained_by_data err h payload m :
      errors_as_data err = Some (DataString h) → hex_decode (trim_prefix h "0x") = Some payload →
      UnpackRevert payload = Some m → m ≠ "" → explains (Err err) m
  | explained_by_error err :
      (∀ h payload m, errors_as_data err = Some (DataString h) → hex_decode (trim_prefix h "0x") = Some payload →
         UnpackRevert payload = Some m → m = "") →
      explains (Err err) (err_text err)
  | explained_by_result res m : UnpackRevert res = Some m → explains (Ok res) m
  | explained_by_bytes res : UnpackRevert res = None → res ≠ "" → explains (Ok res) ("0x" +:+ hex_encode res)
  | unexplained : UnpackRevert "" = None → explains (Ok "") "unknown revert reason".

Lemma explains_data err : decodeRevertFromError err ≠ "" → explains (Err err) (decodeRevertFromError err).
Proof.
  unfold decodeRevertFromError. destruct (errors_as_data err) as [[]|] eqn:Hd; try done.
  destruct (hex_decode _) as [payload|] eqn:Hh; [|done].
  destruct (UnpackRevert payload) as [m|] eqn:Hu; [|done]. by eapply explained_by_data.
Qed.
Lemma explains_error err : decodeRevertFromError err = "" → explains (Err err) (err_text err).
Proof.
  unfold decodeRevertFromError. intros H. apply explained_by_error. intros h payload m Hd Hh Hu.
  by rewrite Hd, Hh, Hu in H.
Qed.
(** There is one such text. *)
Lemma explains_unique answer m m' : explains answer m → explains answer m' → m = m'.
Proof. destruct 1; inversion 1; simplify_eq; naive_solver. Qed.

Lemma len_0 s : ¬ 0 < len s ↔ s = "".
Proof. destruct s; cbn; split; intros; (done || lia). Qed.

(** C28: [CheckTx] returns a receipt exactly when the transaction was mined with
    status 1 (any non-zero status), without touching the node again; a
    transaction that is not mined, or mined with status 0, is always an error,
    and the error of a failed one carries the reason that explains the answer to
    the very same call (sender, target, gas, value, data) replayed after reading it
    back from the node: the [Error(string)] message in the returned bytes or in the
    hex data of the RPC error, else the bytes or the error itself. *)
Theorem CheckTx_outcome (tx : Tx) (w : W) :
  match WaitMined tx w with
  | (Err _, _) => is_ok (fst (CheckTx tx w)) = false
  | (Ok receipt, w1) =>
    if decide (r_status receipt = 0%Z) then
      is_ok (fst (CheckTx tx w)) = false ∧
      ∀ t w2 from, TransactionByHash (tx_hash tx) w1 = (Ok t, w2) → TxSender t = Ok from →
        let replay := CallContract
          (mkCallMsg from (t_to t) (t_gas t) (Some (t_gas_price t)) (Some (t_value t)) (t_data t)) w2 in
        ∃ reason, explains (fst replay) reason ∧
          CheckTx tx w = (Err (ErrMsg ("error: Transaction fail: " +:+ reason)), snd replay)
    else CheckTx tx w = (Ok receipt, w1)
  end.
Proof.
  unfold CheckTx. destruct (WaitMined tx w) as [[receipt|err] w1] eqn:E;
    rewrite (bind_run _ _ _ _ _ E); [|done].
  case_decide; [|done]. split.
  - unfold bind. by destruct (getFailingMessage _ w1) as [[]].
  - intros t w2 from Ht Hfrom. unfold getFailingMessage, bind. rewrite Ht. cbv [ret]. rewrite Hfrom.
    destruct (CallContract _ w2) as [[res|err] w3]; cbn.
    + destruct (UnpackRevert res) as [m|] eqn:Hu; [exists m; split; [by constructor|done]|].
      case_decide as Hl; (eexists; split; [|done]).
      * apply explained_by_bytes; [done|]. rewrite <- len_0. naive_solver.
      * apply len_0 in Hl as ->. by constructor.
    + case_bool_decide as Hr; (eexists; split; [|done]); [by apply explains_data|by apply explains_error].
Qed.
End support.

(** ** Witnesses *)

Definition demo_addresses_file : string :=
  let q s := quote +:+ s +:+ quote in
  "[{" +:+ q "name" +:+ ": " +:+ q "FlareTeeManager" +:+ ", " +:+ q "address" +:+ ": " +:+
  q "0x155f065A741b1CBe2A57A5CE28A75a3727ffEbDD" +:+ "}]".

Definition demo_world : world := with_files [("addresses.json", demo_addresses_file)] empty_world.
Definition demo_diamond : string := HexToAddress "0x155f065A741b1CBe2A57A5CE28A75a3727ffEbDD".
Definition demo_support : Support :=
  mkSupport (sim_hex "804b01a8c27a65cc694a867be76edae3ccce7a7161cda1f67a8349df696d2207")
    ("FlareSystemsManager", zero_address) ("Fdc2Hub", zero_address) ("MachineManager", demo_diamond)
    ("WalletProjectManager", demo_diamond) ("WalletManager", demo_diamond)
    ("WalletKeyManager", demo_diamond) ("Verification", demo_diamond)
    ("ExtensionManager", demo_diamond) ("ExtensionGovernance", demo_diamond)
    ("OwnerAllowlist", demo_diamond) (mkAddresses zero_address zero_address demo_diamond) 114.

Lemma DefaultSupport_wiring_witness :
  DefaultSupport "addresses.json" "http://127.0.0.1:8545" demo_world = (Ok demo_support, demo_world) ∧
  ParseAddresses "addresses.json" demo_world = Ok (SAddresses demo_support).
Proof.
  assert (DefaultSupport "addresses.json" "http://127.0.0.1:8545" demo_world =
          (Ok demo_support, demo_world)) as E by (vm_compute; reflexivity).
  split; [exact E|].
  destruct (DefaultSupport_wiring _ _ _ _ _ E) as [[H|[_ H]] _]; [|exact H].
  exfalso. revert H. vm_compute. discriminate.
Defined.
