(* ===== verification/TeeCalls.v ===== *)
(** * tools/pkg/fccutils: calls to the TEE node and the proxy

    tee_calls.go and common.go: the node's info, the addresses of the TEE and of
    the proxy that vouches for it, polling an action result, and the code hash
    and platform check. *)

From S2P Require Import Prelude GoStrings GoText Platform.
From stdpp Require Import options.

Definition repeats : nat := 15.
Definition StatusOK : Z := 200.
(** Durations are in milliseconds. *)
Definition Second : Z := 1000.

Section tee_calls.
Context {W : Type} `{OSW : !OS W, Geth : !GoEthereum, Tee : !TeeTypes}.

(** Any status code is accepted; only the body matters. *)
Definition TeeInfo (nodeURL : string) : M W (result SignedTeeInfoResponse) :=
  result ←? http_get (nodeURL +:+ "/info") | err => ret (Err (ErrMsg (err_text err)));
  match decode_tee_info (snd result) with
  | Err err => ret (Err (ErrMsg (err_text err)))
  | Ok teeInfo => ret (Ok teeInfo)
  end.

(** The error is formatted, never wrapped. *)
Definition reformat {A} (r : result A) : result A :=
  match r with Ok a => Ok a | Err err => Err (ErrMsg (err_text err)) end.

Definition CodeHashAndPlatform (attestationString : string) : result (string * string) :=
  match ParsePKITokenUnverifiedClaims attestationString with
  | Err err => Err (ErrMsg (err_text err))
  | Ok claims =>
    match Claims_CodeHash claims with
    | Err err => Err (ErrMsg (err_text err))
    | Ok codeHash =>
      match Claims_Platform claims with
      | Err err => Err (ErrMsg (err_text err))
      | Ok platform => Ok (codeHash, platform)
      end
    end
  end.

Definition TeeProxyId (teeInfo : SignedTeeInfoResponse) : result (string * string) :=
  match ParsePubKey (ti_PublicKey (si_TeeInfo teeInfo)) with
  | Err err => Err (ErrMsg (err_text err))
  | Ok pubKey =>
    let teeID := PublicKeyToAddress pubKey in
    match TeeInfo_Hash (si_TeeInfo teeInfo) with
    | Err err => Err (ErrMsg (err_text err))
    | Ok hash =>
      match ProxyTeeInfo_Hash (ti_ChainID (si_TeeInfo teeInfo)) hash with
      | Err err => Err (ErrMsg (err_text err))
      | Ok infoSignHash =>
        match SigToPub (TextHash infoSignHash) (ProxySignature teeInfo) with
        | Err err => Err (ErrMsg (err_text err))
        | Ok proxyPubKey => Ok (teeID, PublicKeyToAddress proxyPubKey)
        end
      end
    end
  end.

Definition GetTeeProxyID (proxyURL : string) : M W (result (string * string)) :=
  teeInfo ←? TeeInfo proxyURL;
  ret (TeeProxyId teeInfo).

(** The polling loop: [n] rounds are left and [last] is the last answer. *)
Fixpoint poll (n : nat) (url : string) (last : result (Z * string)) : M W (result (Z * string)) :=
  match n with
  | O => ret last
  | S n =>
    result ← http_get url;
    if match result with Ok (status, _) => (status =? StatusOK)%Z | Err _ => false end
    then ret result
    else _ ← sleep (2 * Second); poll n url result
  end.

Definition ActionResult (nodeURL actionID : string) : M W (result ActionResponse) :=
  result ←? poll repeats (nodeURL +:+ "/action/result/" +:+ Hash_Hex actionID) (Err (ErrMsg ""))
    | err => ret (Err (ErrMsg (err_text err)));
  if negb (fst result =? StatusOK)%Z then
    ret (Err (ErrMsg ("action result status not ok, got: " +:+ itoa (fst result))))
  else ret (reformat (decode_action_response (snd result))).

Definition SetProxyUrl (configurationPort proxyPort : Z) : M W (option error) :=
  let url := "http://localhost:" +:+ itoa proxyPort in
  match marshal_proxy_url url with
  | Err err => ret (Some err)
  | Ok body =>
    let url := "http://localhost:" +:+ itoa configurationPort +:+ "/proxy" in
    resp ←? http_post url body | err => ret (Some err);
    if decide (resp ≠ StatusOK) then
      ret (Some (ErrMsg ("unexpected status code: " +:+ itoa resp)))
    else ret None
  end.

(** ** common.go and encoding.go *)

Definition PlatformIntel : string :=
  HexToHash "4743505f494e54454c5f54445800000000000000000000000000000000000000".
Definition PlatformAMD : string :=
  HexToHash "4743505f414d445f534556000000000000000000000000000000000000000000".
Definition PlatformAMDESEV : string :=
  HexToHash "4743505f414d445f5345565f4553000000000000000000000000000000000000".
Definition TestPlatform : string :=
  HexToHash "544553545f504c4154464f524d00000000000000000000000000000000000000".
Definition TeeCodeHash : string :=
  HexToHash "194844cf417dde867073e5ab7199fa4d21fd82b5dbe2bdea8b3d7fc18d10fdc2".

(** The code hash and platform the machine claims. *)
Definition claimed (teeInfo : SignedTeeInfoResponse) (w : W) : result (string * string) :=
  let simulatedTee := bool_decide (getenv "SIMULATED_TEE" w = "true") in
  if simulatedTee then Ok (TeeCodeHash, TestPlatform)
  else CodeHashAndPlatform (Attestation teeInfo).

(** A hash in a [%s] verb prints as its hexadecimal text. *)
Definition GetCodeHashAndPlatform (teeInfo : SignedTeeInfoResponse) (w : W) : result (string * string) :=
  match claimed teeInfo w with
  | Err err => Err err
  | Ok (codeHash, platform) =>
    let md := si_MachineData teeInfo in
    if decide (codeHash ≠ CodeHash md) then
      Err (ErrMsg ("code hashes do not match: " +:+ Hash_Hex codeHash +:+ ", " +:+ Hash_Hex (CodeHash md)))
    else if decide (platform ≠ md_Platform md) then
      Err (ErrMsg ("platforms do not matc: " +:+ Hash_Hex platform +:+ ", " +:+ Hash_Hex (md_Platform md)))
    else Ok (codeHash, platform)
  end.

(** A hash already is its 32 bytes. *)
Definition HashArrayToBytes32Array (hashes : list string) : list string :=
  (λ hash, hash) <$> hashes.

(** ** The polling loop, seen from outside *)

(** The world before round [i], when the rounds before it failed. *)
Fixpoint round_world (url : string) (i : nat) (w : W) : W :=
  match i with
  | O => w
  | S i => snd (sleep (2 * Second) (snd (http_get url (round_world url i w))))
  end.
Definition round_answer (url : string) (i : nat) (w : W) : result (Z * string) :=
  fst (http_get url (round_world url i w)).
Definition answered (r : result (Z * string)) : bool :=
  match r with Ok (status, _) => (status =? StatusOK)%Z | Err _ => false end.

Lemma round_world_S url i w :
  round_world url i (snd (sleep (2 * Second) (snd (http_get url w)))) = round_world url (S i) w.
Proof. induction i as [|i IH]; [done|]. cbn. by rewrite IH. Qed.

Lemma poll_round n url last w :
  poll (S n) url last w =
  if answered (round_answer url 0 w) then http_get url w
  else poll n url (round_answer url 0 w) (round_world url 1 w).
Proof.
  cbn [poll]. unfold round_answer, mbind, M_bind, bind. cbn [round_world].
  destruct (http_get url w) as [r w1]. cbn [fst snd].
  fold (answered r). destruct (answered r); [done|]. by destruct (sleep _ w1).
Qed.

Lemma poll_success n url last w k :
  k < n → (∀ i, i < k → answered (round_answer url i w) = false) →
  answered (round_answer url k w) = true →
  poll n url last w = http_get url (round_world url k w).
Proof.
  revert n last w. induction k as [|k IH]; intros [|n] last w Hk Hno Hyes; try lia.
  - by rewrite poll_round, Hyes.
  - rewrite poll_round, Hno by lia. change (round_world url 1 w) with (snd (sleep (2 * Second) (snd (http_get url w)))).
    rewrite IH; [by rewrite round_world_S|lia| |].
    + intros i Hi. unfold round_answer. rewrite round_world_S. apply Hno. lia.
    + unfold round_answer. by rewrite round_world_S.
Qed.

Lemma poll_failure n url last w :
  (∀ i, i < S n → answered (round_answer url i w) = false) →
  poll (S n) url last w = (round_answer url n w, round_world url (S n) w).
Proof.
  revert last w. induction n as [|n IH]; intros last w Hno; rewrite poll_round, Hno by lia; [done|].
  change (round_world url 1 w) with (snd (sleep (2 * Second) (snd (http_get url w)))). rewrite IH.
  - unfold round_answer. by rewrite !round_world_S.
  - intros i Hi. unfold round_answer. rewrite round_world_S. apply Hno. lia.
Qed.

Lemma claimed_ok teeInfo w codeHash platform :
  claimed teeInfo w = Ok (codeHash, platform) ↔
  if decide (getenv "SIMULATED_TEE" w = "true")
  then codeHash = TeeCodeHash ∧ platform = TestPlatform
  else ∃ claims, ParsePKITokenUnverifiedClaims (Attestation teeInfo) = Ok claims ∧
         Claims_CodeHash claims = Ok codeHash ∧ Claims_Platform claims = Ok platform.
Proof.
  unfold claimed, CodeHashAndPlatform. case_decide as Hs.
  - rewrite bool_decide_eq_true_2 by done. split; [by intros [= <- <-]|by intros [-> ->]].
  - rewrite bool_decide_eq_false_2 by done. split.
    + destruct (ParsePKITokenUnverifiedClaims _) as [c|]; [|discriminate].
      destruct (Claims_CodeHash c) eqn:?; [|discriminate].
      destruct (Claims_Platform c) eqn:?; [|discriminate]. intros [= <- <-]. by exists c.
    + intros (c & -> & -> & ->). done.
Qed.

(** ** Properties *)

(** [ActionResult] asks the proxy at most fifteen times, two seconds apart:
    when round [k] is the first that answers 200, it stops there and returns the
    decoded body of that answer; when none of the fifteen does, it returns an
    error after exactly fifteen requests and pauses. *)
Theorem ActionResult_polls (nodeURL actionID : string) (w : W) :
  let url := nodeURL +:+ "/action/result/" +:+ Hash_Hex actionID in
  (∀ k, k < 15 → (∀ i, i < k → answered (round_answer url i w) = false) →
     ∀ body, round_answer url k w = Ok (StatusOK, body) →
     ActionResult nodeURL actionID w =
       (reformat (decode_action_response body), snd (http_get url (round_world url k w)))) ∧
  ((∀ i, i < 15 → answered (round_answer url i w) = false) →
     is_ok (fst (ActionResult nodeURL actionID w)) = false ∧
     snd (ActionResult nodeURL actionID w) = round_world url 15 w).
Proof.
  intros url. unfold ActionResult. fold url. split.
  - intros k Hk Hno body Hbody. unfold bind.
    rewrite (poll_success _ _ _ _ k Hk Hno) by (by rewrite Hbody).
    unfold round_answer in Hbody. destruct (http_get url _) as [r w1]. cbn in *. by subst r.
  - intros Hno. unfold bind. change repeats with (S 14). rewrite poll_failure by done.
    specialize (Hno 14 ltac:(lia)). destruct (round_answer url 14 w) as [[status body]|err]; [|done].
    cbn in *. by rewrite Hno.
Qed.

(** [GetCodeHashAndPlatform] vouches for a machine only when what it claims
    (the attestation token, or the fixed test values with SIMULATED_TEE=true) is
    what the node reports in its machine data, and then returns exactly those. *)
Theorem GetCodeHashAndPlatform_sound (teeInfo : SignedTeeInfoResponse) (w : W) (codeHash platform : string) :
  GetCodeHashAndPlatform teeInfo w = Ok (codeHash, platform) ↔
  codeHash = CodeHash (si_MachineData teeInfo) ∧ platform = md_Platform (si_MachineData teeInfo) ∧
  (if decide (getenv "SIMULATED_TEE" w = "true")
   then codeHash = TeeCodeHash ∧ platform = TestPlatform
   else ∃ claims, ParsePKITokenUnverifiedClaims (Attestation teeInfo) = Ok claims ∧
          Claims_CodeHash claims = Ok codeHash ∧ Claims_Platform claims = Ok platform).
Proof.
  rewrite <- claimed_ok. unfold GetCodeHashAndPlatform. split.
  - destruct (claimed _ _) as [[ch pl]|]; [|discriminate].
    destruct (decide (ch ≠ _)) as [|H1%dec_stable]; [discriminate|].
    destruct (decide (pl ≠ _)) as [|H2%dec_stable]; [discriminate|].
    by intros [= <- <-].
  - intros (Hch & Hpl & ->). by rewrite !decide_False by (intros H; by apply H).
Qed.
End tee_calls.
