(* ===== verification/Policy.v ===== *)
(** * tools/pkg/fccutils/policy_consistency.go

    The pre-flight gate of the availability check: the FTDC proxy's signing
    policy against the on-chain reward epoch.  Policy ids and epochs are
    [uint64]. *)

From S2P Require Import Prelude GoStrings GoText Platform Sim TeeCalls.
From stdpp Require Import options.

Definition ErrPolicyOutOfSync : error :=
  ErrSentinel "ErrPolicyOutOfSync"
    "FTDC proxy signing policy out of sync with on-chain reward epoch".

Definition policyInSync (onchainEpoch proxyPolicyID : Z) : bool :=
  (proxyPolicyID =? onchainEpoch)%Z || (proxyPolicyID =? wrap64 (onchainEpoch + 1))%Z.

Definition outOfSyncError (onchainEpoch proxyPolicyID : Z) : error :=
  let rel :=
    if (proxyPolicyID <? onchainEpoch)%Z then
      "proxy is " +:+ itoa (wrap64 (onchainEpoch - proxyPolicyID)) +:+ " epoch(s) behind"
    else "proxy is " +:+ itoa (wrap64 (proxyPolicyID - onchainEpoch)) +:+ " epoch(s) ahead" in
  ErrWrap (err_text ErrPolicyOutOfSync +:+ ": proxy signing policy " +:+ itoa proxyPolicyID +:+
    " vs on-chain current reward epoch " +:+ itoa onchainEpoch +:+ " (" +:+ rel +:+ "); " +:+
    "data providers will reject the availability check with 404 " +:+ quote +:+ "no round" +:+ quote +:+
    "; wait for the proxy to catch up to the current signing policy, or check the proxy's " +:+
    "initial_signing_policy_offset and C-chain indexer sync") ErrPolicyOutOfSync.

Section policy.
Context {W : Type} `{OSW : !OS W, Geth : !GoEthereum, Tee : !TeeTypes, Sys : !SystemsManager W}.

(** [onchain.Uint64()] keeps the low 64 bits; the policy id is a [uint32]. *)
Definition CheckFTDCProxyPolicyConsistency (ftdcProxyURL : string) : M W (result unit) :=
  onchain ←? GetCurrentRewardEpochId | err => ret (Ok tt);
  match onchain with
  | None => ret (Ok tt)
  | Some onchain =>
    info ←? TeeInfo ftdcProxyURL | err => ret (Ok tt);
    let onchainEpoch := wrap64 onchain in
    let proxyPolicyID := LastSigningPolicyID (si_TeeInfo info) in
    if negb (policyInSync onchainEpoch proxyPolicyID)
    then ret (Err (outOfSyncError onchainEpoch proxyPolicyID))
    else ret (Ok tt)
  end.

Lemma policyInSync_spec e p :
  (0 ≤ e < 2 ^ 64 - 1)%Z → policyInSync e p = true ↔ (p = e ∨ p = e + 1)%Z.
Proof.
  intros He. unfold policyInSync. rewrite wrap64_small by lia.
  rewrite orb_true_iff, !Z.eqb_eq. done.
Qed.

(** The error is the sentinel's, and names the true distance. *)
Lemma outOfSync_text e p :
  (0 ≤ e < 2 ^ 64 - 1)%Z → (0 ≤ p < 2 ^ 32)%Z →
  errors_is "ErrPolicyOutOfSync" (outOfSyncError e p) = true ∧
  contains (err_text (outOfSyncError e p))
    (if decide (p < e)%Z then "proxy is " +:+ itoa (e - p) +:+ " epoch(s) behind"
     else "proxy is " +:+ itoa (p - e) +:+ " epoch(s) ahead") = true.
Proof.
  intros He Hp. split; [done|]. unfold outOfSyncError. cbn [err_text].
  do 6 apply contains_app_l. apply contains_app_r.
  case_decide as Hlt.
  - rewrite (proj2 (Z.ltb_lt _ _)), wrap64_small by lia. apply contains_refl.
  - rewrite (proj2 (Z.ltb_ge _ _)), wrap64_small by lia. apply contains_refl.
Qed.

(** C32: the gate blocks a registration only on a confirmed mismatch.  It returns
    an error exactly when both lookups succeeded and the proxy's policy is
    neither the on-chain epoch nor one ahead of it; that error is recognised by
    [errors.Is(err, ErrPolicyOutOfSync)], and its text gives the true distance
    and direction.  Whenever a lookup fails or the epoch is nil it passes. *)
Theorem policy_gate (url : string) (w : W) :
  match GetCurrentRewardEpochId w with
  | (Ok (Some epoch), w1) =>
    (0 ≤ epoch < 2 ^ 64 - 1)%Z →
    match TeeInfo url w1 with
    | (Ok info, w2) =>
      let policy := LastSigningPolicyID (si_TeeInfo info) in
      (0 ≤ policy < 2 ^ 32)%Z →
      let out := CheckFTDCProxyPolicyConsistency url w in
      snd out = w2 ∧
      (fst out = Ok tt ↔ (policy = epoch ∨ policy = epoch + 1)%Z) ∧
      ∀ err, fst out = Err err →
        errors_is "ErrPolicyOutOfSync" err = true ∧
        contains (err_text err)
          (if decide (policy < epoch)%Z then "proxy is " +:+ itoa (epoch - policy) +:+ " epoch(s) behind"
           else "proxy is " +:+ itoa (policy - epoch) +:+ " epoch(s) ahead") = true
    | (Err _, w2) => CheckFTDCProxyPolicyConsistency url w = (Ok tt, w2)
    end
  | (_, w1) => CheckFTDCProxyPolicyConsistency url w = (Ok tt, w1)
  end.
Proof.
  unfold CheckFTDCProxyPolicyConsistency.
  destruct (GetCurrentRewardEpochId w) as [[[epoch|]|err] w1] eqn:E1;
    rewrite (bind_run _ _ _ _ _ E1); [|done|done].
  intros He. destruct (TeeInfo url w1) as [[info|err] w2] eqn:E2;
    rewrite (bind_run _ _ _ _ _ E2); [|done].
  cbn zeta. set (policy := LastSigningPolicyID (si_TeeInfo info)). intros Hp.
  rewrite (wrap64_small epoch) by lia. pose proof (policyInSync_spec epoch policy He) as Hs.
  destruct (policyInSync epoch policy); cbn -[contains itoa outOfSyncError].
  - split_and!; [done|naive_solver|done].
  - split_and!; [done|split; [done|]; intros H%Hs; done|].
    intros err [= <-]. by apply outOfSync_text.
Qed.
End policy.

Lemma policy_gate_witness :
  let check (epoch : Z) := fst (CheckFTDCProxyPolicyConsistency (Tee := sim_tee (sim_info 300) no_action)
                                  (Sys := sim_systems epoch) "http://proxy" up_world) in
  check 300%Z = Ok tt ∧ check 299%Z = Ok tt ∧
  ∃ err, check 305%Z = Err err ∧ errors_is "ErrPolicyOutOfSync" err = true ∧
    contains (err_text err) "proxy is 5 epoch(s) behind" = true.
Proof.
  intros check.
  assert (∀ epoch, (0 ≤ epoch < 2 ^ 64 - 1)%Z →
    let out := CheckFTDCProxyPolicyConsistency (Tee := sim_tee (sim_info 300) no_action)
                 (Sys := sim_systems epoch) "http://proxy" up_world in
    snd out = up_world ∧ (fst out = Ok tt ↔ 300 = epoch ∨ 300 = epoch + 1)%Z ∧
    ∀ err, fst out = Err err → errors_is "ErrPolicyOutOfSync" err = true ∧
      contains (err_text err)
        (if decide (300 < epoch)%Z then "proxy is " +:+ itoa (epoch - 300) +:+ " epoch(s) behind"
         else "proxy is " +:+ itoa (300 - epoch) +:+ " epoch(s) ahead") = true) as H.
  { intros epoch He. refine (policy_gate (Tee := sim_tee (sim_info 300) no_action)
      (Sys := sim_systems epoch) "http://proxy" up_world He _). cbn; lia. }
  split; [apply H; [lia|by left]|split; [apply H; [lia|by right]|]].
  eexists. split; [reflexivity|]. apply (H 305%Z); [lia|reflexivity].
Defined.
