(* ===== verification/Governance.v ===== *)
(** * TEE governance: tools/pkg/fccutils/governance.go and tools/cmd/set-governance

    Registering the governance signer set and threshold of an extension, once,
    and reading both from the environment. *)

From S2P Require Import Prelude GoStrings GoText Json Platform Sim Revert Support TeeCalls.
From stdpp Require Import options.

Section governance.
Context {W : Type} `{OSW : !OS W, Uni : !Unicode, Geth : !GoEthereum, Txt : !GoEthereumText,
  JErr : !JsonErrors, Eth : !Ethclient W, Env : !Dotenv W, Bnd : !Bindings, Tee : !TeeTypes,
  Trans : !Transactor, Gov : !ExtensionGovernance W}.

(** A lookup that fails counts as a hash that differs. *)
Definition SetTeeGovernance (s : Support) (privKey : PrivateKey) (extensionId : Z)
    (signers : list string) (threshold : Z) : M W (result unit) :=
  if decide (length signers = 0) then
    ret (Err (ErrMsg "at least one governance signer is required (set GOVERNANCE_SIGNERS)"))
  else if bool_decide (threshold = 0%Z) || (Z.of_nat (length signers) <? threshold)%Z then
    ret (Err (ErrMsg ("invalid GOVERNANCE_THRESHOLD " +:+ itoa threshold +:+ " for " +:+
                      itoa (Z.of_nat (length signers)) +:+ " signer(s)")))
  else
    desiredHash ←? ret (GovernanceHashOf signers threshold)
      | err => ret (Err (ErrMsg ("computing governance hash: " +:+ err_text err)));
    current ← GetLatestTeeGovernanceHash extensionId;
    if match current with Ok h => bool_decide (h = desiredHash) | Err _ => false end
    then ret (Ok tt)
    else
      opts ←? ret (NewKeyedTransactorWithChainID privKey (SChainID s))
        | err => ret (Err (ErrMsg (err_text err)));
      tx ←? SetNewTeeGovernance opts extensionId signers threshold
        | err => ret (Err (ErrMsg ("SetNewTeeGovernance failed: " +:+ err_text err)));
      _ ←? CheckTx tx | err => ret (Err (ErrMsg (err_text err)));
      ret (Ok tt).

(** ** set-governance *)

Definition parseSigners (raw fallback : string) : list string :=
  let signers :=
    foldl (λ signers part,
             let part := trim_space part in
             if bool_decide (part ≠ "") then signers ++ [HexToAddress part] else signers)
      [] (split raw ","%char) in
  if decide (length signers = 0) then [fallback] else signers.

Definition parseThreshold (raw : string) : Z :=
  match parse_uint (trim_space raw) with
  | Some v => if (0 <? v)%N then Z.of_N v else 1
  | None => 1
  end.

(** [h.Big()] of a hash: its bytes as a big-endian number. *)
Definition hash_big (h : string) : Z := Z.of_N (undigits 256 (N_of_ascii <$> bytes h)).

(** The arguments are the flags; an error is the one the command dies with. *)
Definition set_governance_main (af cf pf : string) : M W (result unit) :=
  testSupport ←? DefaultSupport af cf;
  ownerKey ← reads (getenv "EXTENSION_OWNER_KEY");
  privKey ←? ret (if bool_decide (ownerKey ≠ "")
                  then HexToECDSA (trim_prefix (trim_prefix ownerKey "0x") "0X")
                  else Ok (Prv testSupport));
  let deployer := PubkeyToAddress privKey in
  io ← reads (getenv "INITIAL_OWNER");
  let defaultSigner :=
    if bool_decide (trim_space io ≠ "") then HexToAddress (trim_space io) else deployer in
  teeInfo ←? TeeInfo pf;
  let extensionID := hash_big (ExtensionID (si_MachineData teeInfo)) in
  rawSigners ← reads (getenv "GOVERNANCE_SIGNERS");
  rawThreshold ← reads (getenv "GOVERNANCE_THRESHOLD");
  SetTeeGovernance testSupport privKey extensionID
    (parseSigners rawSigners defaultSigner) (parseThreshold rawThreshold).

(** ** Lemmas *)

(** The parts that name a signer. *)
Definition signer_parts (raw : string) : list string :=
  filter (λ part, part ≠ "") (trim_space <$> split raw ","%char).

Lemma parseSigners_parts raw fallback :
  parseSigners raw fallback =
  match signer_parts raw with [] => [fallback] | parts => HexToAddress <$> parts end.
Proof.
  unfold parseSigners, signer_parts.
  assert (∀ l acc,
    foldl (λ signers part, let part := trim_space part in
             if bool_decide (part ≠ "") then signers ++ [HexToAddress part] else signers) acc l =
    acc ++ (HexToAddress <$> filter (λ part, part ≠ "") (trim_space <$> l))) as H.
  { induction l as [|p l IH]; intros acc; cbn [foldl fmap list_fmap]; [by rewrite app_nil_r|].
    rewrite IH, filter_cons. destruct (decide (trim_space p ≠ "")) as [Hp|Hp].
    - rewrite (bool_decide_eq_true_2 _ Hp). cbn. by rewrite <- app_assoc.
    - by rewrite (bool_decide_eq_false_2 _ Hp). }
  rewrite H. cbn [app]. destruct (filter _ _) as [|p ps]; done.
Qed.

Lemma parseThreshold_range raw : (1 ≤ parseThreshold raw < 2 ^ 64)%Z.
Proof.
  unfold parseThreshold. destruct (parse_uint _) as [v|] eqn:E; [|lia].
  apply parse_uint_range in E. destruct (N.ltb_spec 0 v); lia.
Qed.

(** ** Properties *)

(** C30: [SetTeeGovernance] rejects an empty signer set and a threshold outside
    1..#signers before doing anything; sends nothing when the extension's latest
    governance hash is already the wanted one (so repeating it is harmless); and
    otherwise succeeds only if the transaction for exactly these signers and
    threshold was sent and mined with success. *)
Theorem SetTeeGovernance_guarded (s : Support) (privKey : PrivateKey) (ext : Z)
    (signers : list string) (threshold : Z) (w : W) :
  (0 ≤ threshold)%Z →
  let out := SetTeeGovernance s privKey ext signers threshold w in
  if decide (1 ≤ threshold ≤ Z.of_nat (length signers))%Z then
    match GovernanceHashOf signers threshold with
    | Err _ => is_ok (fst out) = false ∧ snd out = w
    | Ok hash =>
      let '(current, w1) := GetLatestTeeGovernanceHash ext w in
      if decide (result_option current = Some hash) then out = (Ok tt, w1)
      else fst out = Ok tt →
           ∃ opts tx w2 receipt, NewKeyedTransactorWithChainID privKey (SChainID s) = Ok opts ∧
             SetNewTeeGovernance opts ext signers threshold w1 = (Ok tx, w2) ∧
             CheckTx tx w2 = (Ok receipt, snd out)
    end
  else is_ok (fst out) = false ∧ snd out = w.
Proof.
  intros Ht. unfold SetTeeGovernance. cbn zeta. case_decide as Hg.
  - rewrite decide_False by lia. rewrite (bool_decide_eq_false_2 (threshold = 0%Z)) by lia.
    rewrite (proj2 (Z.ltb_ge _ _)) by lia. cbn [orb]. rewrite bind_ret_l.
    destruct (GovernanceHashOf signers threshold) as [hash|err]; [|done].
    destruct (GetLatestTeeGovernanceHash ext w) as [current w1] eqn:E.
    rewrite mbind_bind, (bind_run _ _ _ _ _ E).
    assert ((match current with Ok h => bool_decide (h = hash) | Err _ => false end) =
            bool_decide (result_option current = Some hash)) as ->.
    { destruct current; cbn; [apply bool_decide_ext; naive_solver|by rewrite bool_decide_eq_false_2]. }
    destruct (decide (result_option current = Some hash)) as [Hc|Hc];
      [by rewrite (bool_decide_eq_true_2 _ Hc)|].
    rewrite (bool_decide_eq_false_2 _ Hc), bind_ret_l.
    destruct (NewKeyedTransactorWithChainID _ _) as [opts|err]; [|done].
    unfold bind. destruct (SetNewTeeGovernance _ _ _ _ w1) as [[tx|err] w2] eqn:Etx; [|done].
    destruct (CheckTx tx w2) as [[receipt|err] w3] eqn:Ec; [|done].
    intros _. by exists opts, tx, w2, receipt.
  - destruct (decide (length signers = 0)); [done|].
    rewrite (proj2 (orb_true_iff _ _)); [done|].
    rewrite bool_decide_eq_true, Z.ltb_lt. lia.
Qed.

(** The environment's governance configuration: the signers are the addresses
    of the non-empty, trimmed, comma-separated parts in order, never none, and
    the threshold is a [uint64] of at least 1, the number written in decimal when
    there is one and 1 otherwise.  With nothing configured that is the fallback
    signer alone with threshold 1, which passes every guard. *)
Theorem governance_env (raw fallback rawThreshold : string) :
  let signers := parseSigners raw fallback in
  let threshold := parseThreshold rawThreshold in
  signers ≠ [] ∧ (1 ≤ threshold < 2 ^ 64)%Z ∧
  (signer_parts raw ≠ [] → signers = HexToAddress <$> signer_parts raw) ∧
  (signer_parts raw = [] → signers = [fallback]) ∧
  (∀ n, (0 < n < 2 ^ 64)%N → trim_space rawThreshold = fmt_d n → threshold = Z.of_N n) ∧
  parseSigners "" fallback = [fallback] ∧ parseThreshold "" = 1%Z.
Proof.
  cbn zeta. rewrite parseSigners_parts. split_and!.
  - by destruct (signer_parts raw).
  - apply parseThreshold_range.
  - apply parseThreshold_range.
  - by destruct (signer_parts raw).
  - by intros ->.
  - intros n Hn Hr. unfold parseThreshold. rewrite Hr, parse_uint_fmt by lia.
    by rewrite (proj2 (N.ltb_lt _ _)) by lia.
  - done.
  - done.
Qed.
End governance.

(** ** Witness *)

(** A facet whose governance hash is the one of one signer with threshold 1. *)
Definition sim_governance (current : string) : ExtensionGovernance world := {|
  GetLatestTeeGovernanceHash _ := ret (Ok current);
  SetNewTeeGovernance _ _ _ _ := λ w, (Ok "setNewTeeGovernance", send "setNewTeeGovernance" w);
|}.

Lemma SetTeeGovernance_guarded_witness :
  let tee := sim_tee (sim_info 1) no_action in
  let run (current : string) (threshold : Z) :=
    SetTeeGovernance (Tee := tee) (Gov := sim_governance current) demo_support ""
      7 ["signer"] threshold up_world in
  snd (run zero_hash 2%Z) = up_world ∧
  run (fit 32 "signer1") 1%Z = (Ok tt, up_world) ∧
  w_sent (snd (run zero_hash 1%Z)) = ["setNewTeeGovernance"].
Proof.
  intros tee run. split; [|split].
  - apply (SetTeeGovernance_guarded (Tee := tee) (Gov := sim_governance zero_hash) demo_support ""
             7 ["signer"] 2 up_world). lia.
  - apply (SetTeeGovernance_guarded (Tee := tee) (Gov := sim_governance (fit 32 "signer1")) demo_support ""
             7 ["signer"] 1 up_world). lia.
  - vm_compute. reflexivity.
Defined.
