(* ===== verification/Registration.v ===== *)
(** * Registering a TEE node: tools/pkg/fccutils/registration.go

    The single transactions of the flow, each with its receipt, its event and its
    diagnosis.  [RegisterNode] strings them together. *)

From S2P Require Import Prelude GoStrings GoText Json Platform Sim Revert Support TeeCalls Policy.
From stdpp Require Import options.

(** ** StringToBytes32 *)

(** [copy(b[:], s)] into 32 zero bytes. *)
Definition StringToBytes32 `{!Unicode} (s : string) : result string :=
  if decide (32 < len s) then Err (ErrMsg ("version " +:+ fmt_q s +:+ " exceeds 32 bytes"))
  else Ok (s +:+ str (replicate (32 - len s) (byte 0))).

(** ** The state file *)

Record registrationState := mkState {
  CompletedSteps : string;
  TeeAttestInstructionID : string;
  InstructionID : string;
}.
Definition fresh_state : registrationState := mkState "" zero_hash zero_hash.

Section state_file.
Context {W : Type} `{OSW : !OS W, Txt : !GoEthereumText, JErr : !JsonErrors}.

Definition state_fields : list (field registrationState) :=
  [string_field "completed_steps"
     (λ x s, mkState x (TeeAttestInstructionID s) (InstructionID s));
   ("tee_attest_instruction_id",
     λ v s, h ← Hash_UnmarshalJSON v; Some (mkState (CompletedSteps s) h (InstructionID s)));
   ("instruction_id",
     λ v s, h ← Hash_UnmarshalJSON v;
            Some (mkState (CompletedSteps s) (TeeAttestInstructionID s) h))].

Definition loadState (path : string) (w : W) : result registrationState :=
  match read_file path w with
  | Err err =>
    if is_not_exist err then Ok fresh_state
    else Err (ErrMsg ("failed to read state file: " +:+ err_text err))
  | Ok data =>
    match Unmarshal "registrationState" state_fields fresh_state data with
    | Err err => Err (ErrMsg ("failed to parse state file: " +:+ err_text err))
    | Ok state => Ok state
    end
  end.

(** [MarshalIndent] of the state. *)
Definition state_json (state : registrationState) : json :=
  JObj [("completed_steps", JStr (CompletedSteps state));
        ("tee_attest_instruction_id", JStr (Hash_MarshalText (TeeAttestInstructionID state)));
        ("instruction_id", JStr (Hash_MarshalText (InstructionID state)))].

Definition saveState (path : string) (state : registrationState) : M W (option error) :=
  let data := json_indent 0 (state_json state) in
  err ← write_file path data;
  ret match err with
      | Some err => Some (ErrMsg ("failed to write state file: " +:+ err_text err))
      | None => None
      end.
End state_file.

(** ** The transactions *)

Section transactions.
Context {W : Type} `{OSW : !OS W, Uni : !Unicode, Geth : !GoEthereum, Eth : !Ethclient W,
  Abis : !ContractAbis, Bnd : !Bindings, Tee : !TeeTypes, Trans : !Transactor, Fdc : !FdcTypes,
  Codec : !FdcCodec, MM : !MachineManager W, Ver : !Verification W, EMTx : !ExtensionManagerTx W}.

Definition fee : option Z := Some 1000000000%Z.

Definition SetBytes (b : string) : Z := Z.of_N (undigits 256 (N_of_ascii <$> bytes b)).

Definition register_args (data : TeeMachineData) (sig : VRS) (proxyID hostURL claimBack : string) :
    list abi_arg :=
  [ATuple [AUint (tm_ExtensionId data); AAddress (tm_InitialOwner data); ABytes32 (tm_CodeHash data);
           ABytes32 (tm_Platform data);
           ATuple [ABytes32 (fst (tm_PublicKey data)); ABytes32 (snd (tm_PublicKey data))];
           ABytes32 (tm_GovernanceHash data)];
   ATuple [AUint (Z.of_nat (nat_of_ascii (sig_V sig))); ABytes32 (sig_R sig); ABytes32 (sig_S sig)];
   AAddress proxyID; AString hostURL; AAddress claimBack].

(** Why [register()] reverted: a named custom error of the ABI first, then the
    decoded reason, then the raw replay, then the error itself. *)
Definition register_reason (s : Support) (opts : TransactOpts PrivateKey) (args : list abi_arg)
    (claimBackAddress : string) (err : error) : M W string :=
  let reason := DecodeRevertReason (Some err) in
  reason ← match MachineManagerMetaData with
           | Err _ => ret reason
           | Ok parsed =>
             match Pack parsed "register" args with
             | Err _ => ret reason
             | Ok callData =>
               raw ← SimulateAndDecodeRevert claimBackAddress (FlareTeeManager (SAddresses s))
                       (o_value opts) callData;
               let named := MatchCustomError parsed raw in
               if bool_decide (named ≠ "") then ret named
               else if bool_decide (reason = "") then ret raw else ret reason
             end
           end;
  ret (if decide (reason = "") then err_text err else reason).

Definition PreRegistration (s : Support) (hostURL teeID proxyID : string)
    (teeInfo : SignedTeeInfoResponse) : M W (result (string * string)) :=
  opts ←? ret (NewKeyedTransactorWithChainID (Prv s) (SChainID s))
    | err => ret (Err (ErrMsg (err_text err)));
  let opts := with_value fee opts in
  let md := si_MachineData teeInfo in
  let data := mkTeeMachineData (SetBytes (ExtensionID md)) (InitialOwner md) (CodeHash md)
                (md_Platform md) (PublicKey_X md, PublicKey_Y md) (GovernanceHash md) in
  if decide (len (DataSignature teeInfo) ≠ 65) then ret (Err (ErrMsg "signature error"))
  else
  sigVRS ←? ret (TransformSignatureRSVtoVRS (DataSignature teeInfo))
    | err => ret (Err (ErrMsg (err_text err)));
  let signature := mkVRS (default (byte 0) (bytes sigVRS !! 0))
                     (str_take 32 (str_drop 1 sigVRS)) (str_take 32 (str_drop 33 sigVRS)) in
  let claimBackAddress := PubkeyToAddress (Prv s) in
  tx ←? Register_tx opts data signature proxyID hostURL claimBackAddress
    | err => reason ← register_reason s opts
                        (register_args data signature proxyID hostURL claimBackAddress)
                        claimBackAddress err;
             ret (Err (ErrMsg ("register() reverted: " +:+ reason)));
  receipt ←? CheckTx tx;
  match r_logs receipt with
  | log0 :: log1 :: _ =>
    challenge ←? ret (ParseTeeAttestationRequested log1)
      | err => ret (Err (ErrMsg ("failed to parse TeeAttestationRequested event: " +:+ err_text err)));
    instructionID ←? ret (ParseTeeInstructionsSent log0)
      | err => ret (Err (ErrMsg ("failed to parse TeeInstructionsSent event: " +:+ err_text err)));
    ret (Ok (challenge, instructionID))
  | _ => ret (Err (ErrMsg "unexpected logs, this should not happen"))
  end.

Definition RequestTeeAttestation (s : Support) (teeID : string) : M W (result string) :=
  opts ←? ret (NewKeyedTransactorWithChainID (Prv s) (SChainID s))
    | err => ret (Err (ErrMsg (err_text err)));
  let opts := with_value fee opts in
  let claimBackAddress := PubkeyToAddress (Prv s) in
  tx ←? RequestTeeAttestation_tx opts teeID claimBackAddress
    | err => ret (Err (ErrMsg ("error: " +:+ err_text err)));
  receipt ←? CheckTx tx;
  match r_logs receipt with
  | log0 :: _ :: _ =>
    instructionID ←? ret (ParseTeeInstructionsSent log0)
      | err => ret (Err (ErrMsg ("failed to parse TeeInstructionsSent event: " +:+ err_text err)));
    ret (Ok instructionID)
  | _ => ret (Err (ErrMsg "unexpected logs, this should not happen"))
  end.

Definition RequestFTDCAvailabilityCheck (s : Support) (teeID externalTeeID teeAttestInstructionID : string) :
    M W (result string) :=
  opts ←? ret (NewKeyedTransactorWithChainID (Prv s) (SChainID s))
    | err => ret (Err (ErrMsg (err_text err)));
  let opts := with_value fee opts in
  let claimBackAddress := PubkeyToAddress (Prv s) in
  let proofOwner := claimBackAddress in
  tx ←? RequestAvailabilityCheckAttestation_tx opts teeID teeAttestInstructionID externalTeeID
          proofOwner claimBackAddress
    | err =>
      _ ← diagAvailabilityCheckRevert (Prv s) (FlareTeeManager (SAddresses s)) opts teeID
            teeAttestInstructionID externalTeeID proofOwner claimBackAddress;
      ret (Err (ErrMsg (err_text err)));
  receipt ←? CheckTx tx | err => ret (Err (ErrMsg (err_text err)));
  match r_logs receipt with
  | [] => ret (Err (ErrMsg "no logs found in receipt"))
  | log0 :: _ =>
    instructionID ←? ret (ParseTeeInstructionsSent log0)
      | err => ret (Err (ErrMsg ("failed to parse TeeInstructionsSent event: " +:+ err_text err)));
    ret (Ok instructionID)
  end.

(** encoding.go *)
Definition EncodeFTDCTeeAvailabilityCheckRequest (data : RequestBody) : result string :=
  encode_request data.
Definition DecodeFTDCTeeAvailabilityCheckRequest (data : string) : result RequestBody :=
  reformat (decode_request data).
Definition EncodeFTDCTeeAvailabilityCheckResponse (data : ResponseBody State) : result string :=
  encode_response data.
Definition DecodeFTDCTeeAvailabilityCheckResponse (data : string) : result (ResponseBody State) :=
  reformat (decode_response data).

Definition GetFTDCAvailabilityCheckResult (hostURL instructionId : string) :
    M W (result AvailabilityProof) :=
  actionResult ←? ActionResult hostURL instructionId;
  ftdcProof ←? ret (reformat (decode_prove_response (ar_Data (Result actionResult))));
  header ←? ret (reformat (DecodeResponse (ResponseHeader ftdcProof)));
  request ←? ret (reformat (DecodeFTDCTeeAvailabilityCheckRequest (pr_RequestBody ftdcProof)));
  response ←? ret (reformat (DecodeFTDCTeeAvailabilityCheckResponse (pr_ResponseBody ftdcProof)));
  ret (Ok (mkProof (DataProviderSignatures ftdcProof) header request
    (mkResponseBody (rb_Status response) (rb_TeeTimestamp response) (rb_CodeHash response)
       (rb_Platform response) (rb_InitialSigningPolicyId response) (rb_LastSigningPolicyId response)
       (rb_State response)))).

Definition ToProduction (s : Support) (toProductionProof : AvailabilityProof) : M W (result unit) :=
  opts ←? ret (NewKeyedTransactorWithChainID (Prv s) (SChainID s))
    | err => ret (Err (ErrMsg (err_text err)));
  tx ←? ToProduction_tx opts toProductionProof | err => ret (Err (ErrMsg (err_text err)));
  _ ←? CheckTx tx | err => ret (Err (ErrMsg (err_text err)));
  teeMachineInfo ←? GetTeeMachine (req_TeeId (p_RequestBody toProductionProof))
    | err => ret (Err (ErrMsg (err_text err)));
  if decide (mi_TeeId teeMachineInfo ≠ req_TeeId (p_RequestBody toProductionProof)) then
    ret (Err (ErrMsg "tee machine not set up correctly"))
  else ret (Ok tt).

Definition AddTeeVersion (s : Support) (privKey : PrivateKey) (extensionId : Z)
    (codeHash platform version : string) : M W (result unit) :=
  opts ←? ret (NewKeyedTransactorWithChainID privKey (SChainID s))
    | err => ret (Err (ErrMsg (err_text err)));
  versionBytes ←? ret (StringToBytes32 version);
  tx ←? AddTeeVersion_tx opts extensionId versionBytes codeHash [platform]
    | err => ret (Err (ErrMsg ("TeeExtensionRegistry.AddTeeVersion failed: " +:+ err_text err)));
  _ ←? CheckTx tx | err => ret (Err (ErrMsg (err_text err)));
  ret (Ok tt).

(** ** What a successful step has done *)

(** The machine data that is registered is the node's. *)
Definition data_of (md : MachineData) : TeeMachineData :=
  mkTeeMachineData (SetBytes (ExtensionID md)) (InitialOwner md) (CodeHash md) (md_Platform md)
    (PublicKey_X md, PublicKey_Y md) (GovernanceHash md).

(** The 65 bytes of a signature with [V] in front, taken apart. *)
Definition signature_of (sigVRS : string) (sig : VRS) : Prop :=
  len sigVRS = 65 → sigVRS = String (sig_V sig) (sig_R sig +:+ sig_S sig) ∧ len (sig_R sig) = 32.
Lemma signature_of_slices sigVRS :
  signature_of sigVRS (mkVRS (default (byte 0) (bytes sigVRS !! 0)) (str_take 32 (str_drop 1 sigVRS))
                         (str_take 32 (str_drop 33 sigVRS))).
Proof.
  destruct sigVRS as [|c s]; [done|]. unfold signature_of, str_take, str_drop. rewrite len_bytes.
  change (bytes (String c s)) with (c :: bytes s). cbn [length drop sig_V sig_R sig_S lookup list_lookup default].
  intros [= Hs]. rewrite !bytes_str, !drop_0, (take_ge (drop 32 _)) by (rewrite length_drop; lia). split.
  - by rewrite <- str_app, take_drop, str_bytes.
  - rewrite len_bytes, bytes_str, length_take. lia.
Qed.

(** Each step sends one transaction, with the fee where one is due, and returns what
    its events say. *)
Definition registered (s : Support) (hostURL proxyID : string) (teeInfo : SignedTeeInfoResponse)
    (challenge id : string) (w w' : W) : Prop :=
  len (DataSignature teeInfo) = 65 ∧
  ∃ sigVRS sig receipt log0 log1 logs,
    TransformSignatureRSVtoVRS (DataSignature teeInfo) = Ok sigVRS ∧ signature_of sigVRS sig ∧
    transacted s (Prv s)
      (λ o, Register_tx (with_value fee o) (data_of (si_MachineData teeInfo)) sig proxyID hostURL
              (PubkeyToAddress (Prv s))) w receipt w' ∧
    r_logs receipt = log0 :: log1 :: logs ∧ ParseTeeInstructionsSent log0 = Ok id ∧
    ParseTeeAttestationRequested log1 = Ok challenge.
Definition attested (s : Support) (teeID id : string) (w w' : W) : Prop :=
  ∃ receipt log0 log1 logs,
    transacted s (Prv s)
      (λ o, RequestTeeAttestation_tx (with_value fee o) teeID (PubkeyToAddress (Prv s))) w receipt w' ∧
    r_logs receipt = log0 :: log1 :: logs ∧ ParseTeeInstructionsSent log0 = Ok id.
Definition check_requested (s : Support) (teeID externalTeeID attestID id : string) (w w' : W) : Prop :=
  ∃ receipt log0 logs,
    transacted s (Prv s)
      (λ o, RequestAvailabilityCheckAttestation_tx (with_value fee o) teeID attestID externalTeeID
              (PubkeyToAddress (Prv s)) (PubkeyToAddress (Prv s))) w receipt w' ∧
    r_logs receipt = log0 :: logs ∧ ParseTeeInstructionsSent log0 = Ok id.
(** The proof is sent, and then the registry gives the TEE of the proof for its id. *)
Definition in_production (s : Support) (proof : AvailabilityProof) (w w' : W) : Prop :=
  ∃ receipt w1 machine,
    transacted s (Prv s) (λ o, ToProduction_tx o proof) w receipt w1 ∧
    GetTeeMachine (req_TeeId (p_RequestBody proof)) w1 = (Ok machine, w') ∧
    mi_TeeId machine = req_TeeId (p_RequestBody proof).

(** The next action of a step, run. *)
Local Ltac run_next x w1 H :=
  lazymatch goal with
  | |- bind ?m _ ?w = _ → _ => destruct (m w) as [[x|] w1] eqn:H; rewrite (bind_run _ _ _ _ _ H)
  end.

Lemma PreRegistration_ok s hostURL teeID proxyID info challenge id (w w' : W) :
  PreRegistration s hostURL teeID proxyID info w = (Ok (challenge, id), w') →
  registered s hostURL proxyID info challenge id w w'.
Proof.
  unfold PreRegistration. rewrite bind_ret_l.
  destruct (NewKeyedTransactorWithChainID _ _) as [o|] eqn:Ho; [|discriminate]. cbv zeta.
  case_decide as Hlen; [discriminate|].
  rewrite bind_ret_l. destruct (TransformSignatureRSVtoVRS _) as [vrs|] eqn:Hvrs; [|discriminate].
  pose proof (signature_of_slices vrs) as Hsig.
  match type of Hsig with signature_of _ ?sig => set (vrs' := sig) in * end.
  run_next tx w1 Ht;
    [|rewrite mbind_bind; unfold bind; by destruct (register_reason _ _ _ _ _ _)].
  run_next receipt w2 Hc; [|discriminate].
  destruct (r_logs receipt) as [|log0 [|log1 logs]] eqn:Hl; try discriminate.
  rewrite bind_ret_l. destruct (ParseTeeAttestationRequested log1) eqn:H1; [|discriminate].
  rewrite bind_ret_l. destruct (ParseTeeInstructionsSent log0) eqn:H0; [|discriminate].
  cbv [ret]. intros [= -> -> <-]. split; [done|]. exists vrs, vrs', receipt, log0, log1, logs.
  split_and!; try done. by eapply transacted_intro.
Qed.

Lemma RequestTeeAttestation_ok s teeID id (w w' : W) :
  RequestTeeAttestation s teeID w = (Ok id, w') → attested s teeID id w w'.
Proof.
  unfold RequestTeeAttestation. rewrite bind_ret_l.
  destruct (NewKeyedTransactorWithChainID _ _) as [o|] eqn:Ho; [|discriminate]. cbv zeta.
  run_next tx w1 Ht; [|discriminate].
  run_next receipt w2 Hc; [|discriminate].
  destruct (r_logs receipt) as [|log0 [|log1 logs]] eqn:Hl; try discriminate.
  rewrite bind_ret_l. destruct (ParseTeeInstructionsSent log0) eqn:H0; [|discriminate].
  cbv [ret]. intros [= -> <-]. exists receipt, log0, log1, logs. split_and!; try done. by eapply transacted_intro.
Qed.

Lemma RequestFTDCAvailabilityCheck_ok s teeID ext attestID id (w w' : W) :
  RequestFTDCAvailabilityCheck s teeID ext attestID w = (Ok id, w') →
  check_requested s teeID ext attestID id w w'.
Proof.
  unfold RequestFTDCAvailabilityCheck. rewrite bind_ret_l.
  destruct (NewKeyedTransactorWithChainID _ _) as [o|] eqn:Ho; [|discriminate]. cbv zeta.
  run_next tx w1 Ht;
    [|rewrite mbind_bind; unfold bind; by destruct (diagAvailabilityCheckRevert _ _ _ _ _ _ _ _ _)].
  run_next receipt w2 Hc; [|discriminate].
  destruct (r_logs receipt) as [|log0 logs] eqn:Hl; try discriminate.
  rewrite bind_ret_l. destruct (ParseTeeInstructionsSent log0) eqn:H0; [|discriminate].
  cbv [ret]. intros [= -> <-]. exists receipt, log0, logs. split_and!; try done. by eapply transacted_intro.
Qed.

Lemma ToProduction_ok s proof (w w' : W) :
  ToProduction s proof w = (Ok tt, w') → in_production s proof w w'.
Proof.
  unfold ToProduction. rewrite bind_ret_l. destruct (NewKeyedTransactorWithChainID _ _) as [o|] eqn:Ho; [|discriminate].
  run_next tx w1 Ht; [|discriminate].
  run_next receipt w2 Hc; [|discriminate].
  run_next machine w3 Hg; [|discriminate].
  case_decide as Hid; [discriminate|]. cbv [ret]. intros [= <-]. exists receipt, w2, machine.
  split; [|done]. by eapply transacted_intro.
Qed.

(** ** Property *)

(** C29: what the steps of a registration have done when they report success.  Each
    has sent one transaction, mined with success, and nothing else: the machine data
    of the node with its own 65-byte signature, taken apart into V, R and S; the
    request of an attestation for the TEE; the request of an availability check for
    the given attestation - each paid with the fee, and the id returned is that of
    its first event; and the availability proof, after which the registry was read
    and knew the machine under the id of the proof. *)
Theorem registration_steps_sound (s : Support) :
  (∀ hostURL teeID proxyID info challenge id w w',
     PreRegistration s hostURL teeID proxyID info w = (Ok (challenge, id), w') →
     registered s hostURL proxyID info challenge id w w') ∧
  (∀ teeID id w w', RequestTeeAttestation s teeID w = (Ok id, w') → attested s teeID id w w') ∧
  (∀ teeID ext attestID id w w', RequestFTDCAvailabilityCheck s teeID ext attestID w = (Ok id, w') →
     check_requested s teeID ext attestID id w w') ∧
  (∀ proof w w', ToProduction s proof w = (Ok tt, w') → in_production s proof w w').
Proof.
  split_and!; intros; eauto using PreRegistration_ok, RequestTeeAttestation_ok,
    RequestFTDCAvailabilityCheck_ok, ToProduction_ok.
Qed.
End transactions.
