(* ===== verification/Resume.v ===== *)
(** * Resuming a registration never repeats a step

    [RegisterNode] run on a world that also records the steps that succeeded.
    The recording world is built on top of an arbitrary one; [recording_faithful]
    shows that recording changes nothing. *)

From S2P Require Import Prelude GoStrings GoText Json Platform Sim Support TeeCalls Registration RegisterNode.
From stdpp Require Import options.

(** ** The record *)

Inductive event :=
  | EPreRegistration (id : string)
  | EAttestation (id : string)
  | EAvailability (attest id : string)
  | EProof (instruction : string)
  | EProduction.

Section recording.
Context {W : Type} `{OSW : !OS W, Geth : !GoEthereum, Txt : !GoEthereumText, JErr : !JsonErrors,
  Tee : !TeeTypes, Ops : !RegistrationOps W}.

(** A computation of the world, run on the recording one. *)
Definition logged {A} (ev : A → list event) (m : M W A) : M (W * list event) A :=
  λ wl, let '(a, w) := m (fst wl) in (a, (w, snd wl ++ ev a)).
Definition silent {A} (m : M W A) : M (W * list event) A := logged (λ _, []) m.
Definition on_ok {A} (ev : A → event) (r : result A) : list event :=
  match r with Ok a => [ev a] | Err _ => [] end.

#[export] Instance recording_os : OS (W * list event) := {|
  getenv k wl := getenv k (fst wl);
  setenv k v wl := (setenv k v (fst wl), snd wl);
  open_file p wl := open_file p (fst wl);
  read_file p wl := read_file p (fst wl);
  stat_missing p wl := stat_missing p (fst wl);
  write_file p d := silent (write_file p d);
  remove_file p := silent (remove_file p);
  http_get u := silent (http_get u);
  http_post u b := silent (http_post u b);
  dial_tcp a := silent (dial_tcp a);
  sleep d := silent (sleep d);
  now wl := now (fst wl);
|}.

#[export] Instance recording_ops : RegistrationOps (W * list event) := {|
  Proof_ := Proof_;
  op_GetTeeMachine t := silent (op_GetTeeMachine t);
  op_PreRegistration h t p i :=
    logged (on_ok (λ r, EPreRegistration (snd r))) (op_PreRegistration h t p i);
  op_RequestTeeAttestation t := logged (on_ok EAttestation) (op_RequestTeeAttestation t);
  op_CheckPolicy u := silent (op_CheckPolicy u);
  op_RequestAvailabilityCheck t e a :=
    logged (on_ok (EAvailability a)) (op_RequestAvailabilityCheck t e a);
  op_GetProof u i := logged (on_ok (λ _, EProof i)) (op_GetProof u i);
  op_ToProduction p := logged (on_ok (λ _, EProduction)) (op_ToProduction p);
|}.

Lemma silent_run {A} (m : M W A) w l : silent m (w, l) = (fst (m w), (snd (m w), l)).
Proof. unfold silent, logged. cbn. destruct (m w). by rewrite app_nil_r. Qed.
Lemma logged_run {A} (ev : A → list event) (m : M W A) w l :
  logged ev m (w, l) = (fst (m w), (snd (m w), l ++ ev (fst (m w)))).
Proof. unfold logged. cbn. by destruct (m w). Qed.

Lemma sleep_run d w l :
  sleep (OS := recording_os) d (w, l) = (fst (sleep d w), (snd (sleep d w), l)).
Proof. apply silent_run. Qed.
Lemma write_run p d w l :
  write_file (OS := recording_os) p d (w, l) = (fst (write_file p d w), (snd (write_file p d w), l)).
Proof. apply silent_run. Qed.
Lemma remove_run p w l :
  remove_file (OS := recording_os) p (w, l) = (fst (remove_file p w), (snd (remove_file p w), l)).
Proof. apply silent_run. Qed.

(** [m'] does what [m] does, and appends to the record. *)
Definition records {A} (m : M W A) (m' : M (W * list event) A) : Prop :=
  ∀ w l, ∃ new, m' (w, l) = (fst (m w), (snd (m w), l ++ new)).

Lemma records_logged {A} (ev : A → list event) (m : M W A) : records m (logged ev m).
Proof. intros w l. unfold logged. cbn. destruct (m w). by eexists. Qed.
Lemma records_silent {A} (m : M W A) : records m (silent m).
Proof. apply records_logged. Qed.
Lemma records_ret {A} (a : A) : records (ret a) (ret a).
Proof. intros w l. exists []. by rewrite app_nil_r. Qed.
Lemma records_reads {A} (f : W → A) : records (reads f) (reads (λ wl : W * list event, f (fst wl))).
Proof. intros w l. exists []. by rewrite app_nil_r. Qed.
Lemma records_bind {A B} (m : M W A) m' (k : A → M W B) k' :
  records m m' → (∀ a, records (k a) (k' a)) → records (bind m k) (bind m' k').
Proof.
  intros Hm Hk w l. unfold bind. destruct (Hm w l) as [n1 ->]. destruct (m w) as [a w1]. cbn.
  destruct (Hk a w1 (l ++ n1)) as [n2 ->]. exists (n1 ++ n2). by rewrite app_assoc.
Qed.

Ltac records_step :=
  first
    [ apply records_ret | apply records_logged | apply records_silent | apply records_reads
    | apply records_bind; [|intros ?]
    | match goal with
      | |- records (match ?x with _ => _ end) _ => destruct x
      end ].
Ltac records_tac := repeat records_step.

Lemma saveState_records path state :
  records (saveState path state) (saveState (OSW := recording_os) path state).
Proof. unfold saveState. cbn zeta. rewrite !mbind_bind. records_tac. Qed.

Lemma RegisterNode_records teeInfo host url tee cmd instr path :
  records (RegisterNode teeInfo host url tee cmd instr path)
    (RegisterNode (OSW := recording_os) (Ops := recording_ops) teeInfo host url tee cmd instr path).
Proof.
  unfold RegisterNode, stage_r, stage_R, stage_a, stage_p. cbn zeta.
  repeat first [apply saveState_records | records_step | progress rewrite ?mbind_bind].
Qed.
End recording.

(** ** The plan *)

Definition is_attest (e : event) : bool :=
  match e with EPreRegistration _ | EAttestation _ => true | _ => false end.
Definition is_attestation (e : event) : bool :=
  match e with EAttestation _ => true | _ => false end.
Definition is_availability (e : event) : bool :=
  match e with EAvailability _ _ => true | _ => false end.
Definition is_production (e : event) : bool :=
  match e with EProduction => true | _ => false end.
(** Fetching a proof submits nothing. *)
Definition is_submission (e : event) : bool := match e with EProof _ => false | _ => true end.
Definition submissions (tr : list event) : list event := filter (λ e, is_submission e = true) tr.

(** The submissions a command still has to make in a state, in order: a step of
    the command that the state does not record. *)
Definition pending (command step : string) (st : registrationState) : bool :=
  contains command step && negb (contains (CompletedSteps st) step).
Definition planned (b : bool) (p : event → bool) : list (event → bool) := if b then [p] else [].
Definition plan_p (command : string) : list (event → bool) :=
  planned (contains command "p") is_production.
Definition plan_ap (command : string) (st : registrationState) : list (event → bool) :=
  planned (pending command "a" st) is_availability ++ plan_p command.
Definition plan_Rap (command : string) (st : registrationState) : list (event → bool) :=
  planned (pending command "R" st) is_attestation ++ plan_ap command st.
Definition plan (command : string) (st : registrationState) : list (event → bool) :=
  planned (pending command "r" st) is_attest ++ plan_Rap command st.
Definition matches (ps : list (event → bool)) (tr : list event) : Prop :=
  Forall2 (λ p e, p e = true) ps (submissions tr).

(** The attestation and the availability check an event leaves as the latest, and
    the ids it may use: an availability check the latest attestation, a proof the
    latest availability check. *)
Definition id_step (ids : string * string) (e : event) : string * string :=
  match e with
  | EPreRegistration id | EAttestation id => (id, snd ids)
  | EAvailability _ id => (fst ids, id)
  | _ => ids
  end.
Definition uses (ids : string * string) (e : event) : Prop :=
  match e with EAvailability a _ => a = fst ids | EProof i => i = snd ids | _ => True end.
Fixpoint ids_linked (ids : string * string) (tr : list event) : Prop :=
  match tr with [] => True | e :: tr => uses ids e ∧ ids_linked (id_step ids e) tr end.

Lemma ids_linked_app ids tr1 tr2 :
  ids_linked ids (tr1 ++ tr2) ↔ ids_linked ids tr1 ∧ ids_linked (foldl id_step ids tr1) tr2.
Proof. revert ids. induction tr1 as [|e tr1 IH]; intros ids; cbn; [naive_solver|]. rewrite IH. naive_solver. Qed.

Lemma matches_nil : matches [] [].
Proof. constructor. Qed.
Lemma matches_app ps1 ps2 tr1 tr2 :
  matches ps1 tr1 → matches ps2 tr2 → matches (ps1 ++ ps2) (tr1 ++ tr2).
Proof. unfold matches, submissions. rewrite filter_app. apply Forall2_app. Qed.

(** A one-letter step is recorded exactly when its letter occurs. *)
Lemma contains_letter s c : contains s (String c "") = bool_decide (c ∈ bytes s).
Proof.
  apply eq_true_iff_eq. rewrite contains_true, bool_decide_eq_true. split.
  - intros (a & b & ->). rewrite !bytes_app. set_solver.
  - intros (l1 & l2 & H)%list_elem_of_split. exists (str l1), (str l2).
    apply (inj bytes). rewrite H, !bytes_app, !bytes_str. done.
Qed.

Lemma pending_other command c d st step id instr :
  CompletedSteps st +:+ String d "" = step → c ≠ d →
  pending command (String c "") (mkState step id instr) = pending command (String c "") st.
Proof.
  intros <- Hne. unfold pending. cbn [CompletedSteps]. rewrite !contains_letter, bytes_app.
  do 2 f_equal. apply bool_decide_ext. set_solver.
Qed.
Lemma pending_done command c st id instr :
  pending command (String c "") (mkState (CompletedSteps st +:+ String c "") id instr) = false.
Proof.
  unfold pending. cbn [CompletedSteps]. rewrite !contains_letter, bytes_app.
  rewrite (bool_decide_eq_true_2 (c ∈ _ ++ _)) by (apply elem_of_app; right; left). by rewrite andb_false_r.
Qed.

(** ** What the proofs need of the world *)

Definition is_hash (h : string) : Prop := len h = 32.

(** The state file at [path] can be written and removed, keeps what was written,
    and a pause does not change it. *)
Class FileLaws (W : Type) `{OSW : !OS W} (path : string) := {
  write_ok d w : fst (write_file path d w) = None;
  read_written d w : read_file path (snd (write_file path d w)) = Ok d;
  remove_gone w : ∃ msg, read_file path (snd (remove_file path w)) = Err (ErrNotExist msg);
  sleep_frame d w : read_file path (snd (sleep d w)) = read_file path w;
}.

(** A hash's JSON text is plain and reads back. *)
Class HashTextLaws `{Txt : GoEthereumText} := {
  hash_text_printable h : forallb printable (bytes (Hash_MarshalText h)) = true;
  hash_text_reads h : is_hash h → Hash_UnmarshalJSON (JStr (Hash_MarshalText h)) = Some h;
}.

(** The steps leave the state file alone, and instruction ids are hashes. *)
Class OpsLaws (W : Type) `{OSW : !OS W, Ops : !RegistrationOps W} (path : string) := {
  machine_frame t w : read_file path (snd (op_GetTeeMachine t w)) = read_file path w;
  prereg_frame h t p i w : read_file path (snd (op_PreRegistration h t p i w)) = read_file path w;
  attest_frame t w : read_file path (snd (op_RequestTeeAttestation t w)) = read_file path w;
  policy_frame u w : read_file path (snd (op_CheckPolicy u w)) = read_file path w;
  check_frame t e a w : read_file path (snd (op_RequestAvailabilityCheck t e a w)) = read_file path w;
  proof_frame u i w : read_file path (snd (op_GetProof u i w)) = read_file path w;
  production_frame p w : read_file path (snd (op_ToProduction p w)) = read_file path w;
  prereg_hash h t p i w r : fst (op_PreRegistration h t p i w) = Ok r → is_hash (snd r);
  attest_hash t w id : fst (op_RequestTeeAttestation t w) = Ok id → is_hash id;
  check_hash t e a w id : fst (op_RequestAvailabilityCheck t e a w) = Ok id → is_hash id;
}.

#[local] Set Default Proof Using "Type*".

Section resume.
Context {W : Type} `{OSW : !OS W, Geth : !GoEthereum, Txt : !GoEthereumText, JErr : !JsonErrors,
  Tee : !TeeTypes, Ops : !RegistrationOps W}.
Context (path : string) `{FileL : !FileLaws W path, HashL : !HashTextLaws, OpsL : !OpsLaws W path}.

Implicit Types (st : registrationState) (w : W) (l new : list event).

(** ** The state file *)

Definition wf_state st : Prop :=
  forallb printable (bytes (CompletedSteps st)) = true ∧ is_hash (TeeAttestInstructionID st) ∧
  is_hash (InstructionID st).
(** The state the file at [path] holds. *)
Definition saved w st : Prop := loadState path w = Ok st ∧ wf_state st.

Lemma saved_frame w w' st : read_file path w' = read_file path w → saved w st → saved w' st.
Proof. unfold saved, loadState. by intros ->. Qed.

Lemma state_json_strings st :
  state_json st =
  JObj (string_members [("completed_steps", CompletedSteps st);
                        ("tee_attest_instruction_id", Hash_MarshalText (TeeAttestInstructionID st));
                        ("instruction_id", Hash_MarshalText (InstructionID st))]).
Proof. done. Qed.

Lemma decode_state st :
  is_hash (TeeAttestInstructionID st) → is_hash (InstructionID st) →
  decode_struct state_fields false (state_json st) fresh_state = Some st.
Proof.
  intros Ha Hi. unfold decode_struct, state_json. cbn [foldl]. unfold decode_member. cbn [fst snd].
  assert (lookup_field state_fields "completed_steps" =
          snd <$> (state_fields !! 0)) as -> by reflexivity.
  assert (lookup_field state_fields "tee_attest_instruction_id" =
          snd <$> (state_fields !! 1)) as -> by reflexivity.
  assert (lookup_field state_fields "instruction_id" =
          snd <$> (state_fields !! 2)) as -> by reflexivity.
  cbn -[Hash_UnmarshalJSON Hash_MarshalText]. rewrite !hash_text_reads by done. cbn. by destruct st.
Qed.

(** What [saveState] writes, [loadState] reads back. *)
Lemma saveState_saved w st : wf_state st → saved (snd (saveState path st w)) st.
Proof.
  intros Hwf. split; [|done]. destruct Hwf as (Hp & Ha & Hi).
  set (data := json_indent 0 (state_json st)).
  assert (snd (saveState path st w) = snd (write_file path data w)) as ->.
  { unfold saveState. cbv [mbind M_bind bind]. fold data. by destruct (write_file path data w). }
  unfold loadState. rewrite read_written. unfold Unmarshal, data. rewrite state_json_strings.
  rewrite json_whole_indent; [|done|].
  - cbn [mbind option_bind]. rewrite <- state_json_strings, decode_state by done. done.
  - repeat constructor; done || apply hash_text_printable.
Qed.

(** ** One step of the flow *)

(** The common shape of the steps r, R and a. *)
Definition stage (command step : string) (id_of : registrationState → string) (skip : string)
    (act : M (W * list event) (result (registrationState * string))) (st : registrationState) :
    M (W * list event) (result (registrationState * string)) :=
  if contains command step then
    next ←? (if contains (CompletedSteps st) step then ret (Ok (st, id_of st)) else act);
    _ ← sleep (OS := recording_os) (1 * Second);
    ret (Ok next)
  else ret (Ok (st, skip)).

(** What carrying out a step does: it fails without a trace, or records one
    event and saves the state with the id it obtained. *)
Definition carries_out (act : M (W * list event) (result (registrationState * string))) st
    (complete : string → registrationState → registrationState) (P : string → event → Prop) : Prop :=
  ∀ w l, saved w st →
    let '(r, (w', l')) := act (w, l) in
    match r with
    | Ok (st', id) => st' = complete id st ∧ ∃ e, l' = l ++ [e] ∧ P id e ∧ saved w' st'
    | Err _ => l' = l ∧ saved w' st
    end.

(** How a step that ends well moves on from [st]: it does nothing when it was not
    pending, and otherwise records one event. *)
Definition moved (command step : string) st (complete : string → registrationState → registrationState)
    (P : string → event → Prop) st' new : Prop :=
  (pending command step st = false ∧ st' = st ∧ new = []) ∨
  (pending command step st = true ∧ ∃ id e, st' = complete id st ∧ new = [e] ∧ P id e).

Lemma stage_spec command step id_of skip act st complete P w l :
  (∀ id, id_of (complete id st) = id) →
  saved w st → carries_out act st complete P →
  (∃ st' w' new,
     stage command step id_of skip act st (w, l) =
       (Ok (st', if contains command step then id_of st' else skip), (w', l ++ new)) ∧
     saved w' st' ∧ moved command step st complete P st' new) ∨
  (∃ err w', stage command step id_of skip act st (w, l) = (Err err, (w', l)) ∧ saved w' st ∧
     pending command step st = true).
Proof.
  intros Hid Hs Hact. unfold stage, moved, pending.
  destruct (contains command step); 
    [|left; exists st, w, []; rewrite app_nil_r; split; [done|split; [done|by left]]].
  destruct (contains (CompletedSteps st) step) eqn:Hdone.
  - left. exists st, (snd (sleep (1 * Second) w)), []. rewrite bind_ret_l, mbind_bind, app_nil_r.
    rewrite (bind_run _ _ _ _ _ (sleep_run _ _ _)). split; [done|].
    split; [|by left]. eapply saved_frame; [apply sleep_frame|done].
  - specialize (Hact w l Hs). destruct (act (w, l)) as [[[st' id]|err] [w1 l1]] eqn:Ha.
    + destruct Hact as (-> & e & -> & HP & Hs1). left. exists (complete id st), (snd (sleep (1 * Second) w1)), [e].
      rewrite (bind_ok _ _ _ _ _ Ha), mbind_bind, (bind_run _ _ _ _ _ (sleep_run _ _ _)), Hid.
      split; [done|]. split; [|right; eauto 6]. eapply saved_frame; [apply sleep_frame|done].
    + destruct Hact as [-> Hs1]. right. exists err, w1. by rewrite (bind_err _ _ _ _ _ Ha).
Qed.

(** The end of a step that obtained [id]. *)
Lemma save_step w l st (id : string) :
  wf_state st →
  ∃ w', bind (saveState (OSW := recording_os) path st) (λ _, ret (Ok (st, id))) (w, l) =
        (Ok (st, id), (w', l)) ∧ saved w' st.
Proof.
  intros Hwf. exists (snd (saveState path st w)). split; [|by apply saveState_saved].
  unfold saveState. rewrite !mbind_bind, bind_assoc.
  rewrite (bind_run _ _ _ _ _ (write_run _ _ _ _)), bind_ret_l.
  unfold bind. by destruct (write_file path _ w).
Qed.

Lemma wf_complete_attest step id st :
  forallb printable (bytes step) = true → wf_state st → is_hash id → wf_state (complete_attest step id st).
Proof.
  intros Hstep (Hp & Ha & Hi) Hid. split; [|done]. cbn [complete_attest CompletedSteps].
  by rewrite bytes_app, forallb_app, Hp, Hstep.
Qed.
Lemma wf_complete_check id st : wf_state st → is_hash id → wf_state (complete_check id st).
Proof.
  intros (Hp & Ha & Hi) Hid. split; [|done]. cbn [complete_check CompletedSteps].
  by rewrite bytes_app, forallb_app, Hp.
Qed.

(** Running an operation of the recording world. *)
Lemma op_run {A B} (ev : A → list event) (m : M W A) (k : A → M (W * list event) B) w l :
  bind (logged ev m) k (w, l) = k (fst (m w)) (snd (m w), l ++ ev (fst (m w))).
Proof. unfold bind. by rewrite logged_run. Qed.

Abbreviation rec_stage_r := (stage_r (OSW := recording_os) (Ops := recording_ops)).
Abbreviation rec_stage_R := (stage_R (OSW := recording_os) (Ops := recording_ops)).
Abbreviation rec_stage_a := (stage_a (OSW := recording_os) (Ops := recording_ops)).
Abbreviation rec_stage_p := (stage_p (Ops := recording_ops)).
Abbreviation recording_RegisterNode := (RegisterNode (OSW := recording_os) (Ops := recording_ops)).

Lemma attest_step step id w l st :
  forallb printable (bytes step) = true → saved w st → is_hash id →
  ∃ w', bind (saveState (OSW := recording_os) path (complete_attest step id st))
          (λ _, ret (Ok (complete_attest step id st, id))) (w, l) =
        (Ok (complete_attest step id st, id), (w', l)) ∧ saved w' (complete_attest step id st).
Proof. intros Hstep [_ Hwf] Hid. by apply save_step, wf_complete_attest. Qed.

Lemma stage_r_act host teeID proxyID teeInfo command st :
  ∃ act, rec_stage_r host teeID proxyID teeInfo command path st =
         stage command "r" TeeAttestInstructionID zero_hash act st ∧
         carries_out act st (complete_attest "r") (λ id e, e = EPreRegistration id ∨ e = EAttestation id).
Proof.
  eexists. split; [reflexivity|]. intros w l Hs. rewrite mbind_bind. unfold op_GetTeeMachine, recording_ops at 1.
  unfold silent. rewrite op_run, app_nil_r.
  set (w1 := snd (op_GetTeeMachine teeID w)).
  assert (saved w1 st) as Hs1 by (eapply saved_frame; [apply machine_frame|done]).
  destruct (match fst _ with Ok info => _ | Err _ => false end).
  - unfold op_RequestTeeAttestation, recording_ops at 1. rewrite op_run.
    set (w2 := snd (op_RequestTeeAttestation teeID w1)).
    assert (saved w2 st) as Hs2 by (eapply saved_frame; [apply attest_frame|done]).
    destruct (fst (op_RequestTeeAttestation teeID w1)) as [id|err] eqn:E; cbn [on_ok].
    + destruct (attest_step "r" id w2 (l ++ [EAttestation id]) st) as (w3 & H3 & Hs3);
        [done|done|by eapply attest_hash|].
      rewrite mbind_bind, H3. eauto 8.
    + cbn. by rewrite app_nil_r.
  - rewrite bind_assoc. unfold op_PreRegistration, recording_ops at 1. rewrite op_run.
    set (w2 := snd (op_PreRegistration host teeID proxyID teeInfo w1)).
    assert (saved w2 st) as Hs2 by (eapply saved_frame; [apply prereg_frame|done]).
    destruct (fst (op_PreRegistration host teeID proxyID teeInfo w1)) as [[c id]|err] eqn:E; cbn [on_ok].
    + destruct (attest_step "r" id w2 (l ++ [EPreRegistration id]) st) as (w3 & H3 & Hs3);
        [done|done|by apply (prereg_hash _ _ _ _ _ _ E)|].
      rewrite bind_ret_l, mbind_bind. cbn [snd]. rewrite H3. eauto 8.
    + cbn. by rewrite app_nil_r.
Qed.

Lemma stage_R_act teeID command attestID st :
  ∃ act, rec_stage_R teeID command path st attestID =
         stage command "R" TeeAttestInstructionID attestID act st ∧
         carries_out act st (complete_attest "R") (λ id e, e = EAttestation id).
Proof.
  eexists. split; [reflexivity|]. intros w l Hs.
  unfold op_RequestTeeAttestation, recording_ops at 1. rewrite op_run.
  set (w2 := snd (op_RequestTeeAttestation teeID w)).
  assert (saved w2 st) as Hs2 by (eapply saved_frame; [apply attest_frame|done]).
  destruct (fst (op_RequestTeeAttestation teeID w)) as [id|err] eqn:E; cbn [on_ok].
  - destruct (attest_step "R" id w2 (l ++ [EAttestation id]) st) as (w3 & H3 & Hs3);
      [done|done|by eapply attest_hash|].
    rewrite mbind_bind, H3. eauto 8.
  - cbn. by rewrite app_nil_r.
Qed.

Lemma stage_a_act url teeID ftdcTee command instr attestID st :
  ∃ act, rec_stage_a url teeID ftdcTee command instr path st attestID =
         stage command "a" InstructionID (HexToHash instr) act st ∧
         carries_out act st complete_check (λ id e, e = EAvailability attestID id).
Proof.
  eexists. split; [reflexivity|]. intros w l Hs.
  unfold op_CheckPolicy, recording_ops at 1. unfold silent. rewrite op_run, app_nil_r.
  set (w1 := snd (op_CheckPolicy url w)).
  assert (saved w1 st) as Hs1 by (eapply saved_frame; [apply policy_frame|done]).
  destruct (fst (op_CheckPolicy url w)) as [[]|err]; [|by cbn].
  unfold op_RequestAvailabilityCheck, recording_ops at 1. rewrite op_run.
  set (w2 := snd (op_RequestAvailabilityCheck teeID ftdcTee attestID w1)).
  assert (saved w2 st) as Hs2 by (eapply saved_frame; [apply check_frame|done]).
  destruct (fst (op_RequestAvailabilityCheck teeID ftdcTee attestID w1)) as [id|err] eqn:E; cbn [on_ok].
  - destruct (save_step w2 (l ++ [EAvailability attestID id]) (complete_check id st) id) as (w3 & H3 & Hs3);
      [apply wf_complete_check; [apply Hs2|by eapply check_hash]|].
    rewrite mbind_bind, H3. eauto 8.
  - cbn. by rewrite app_nil_r.
Qed.

(** The last step submits at most the production transaction. *)
Lemma stage_p_spec url command instr st w l :
  saved w st →
  ∃ out w' new, rec_stage_p url command instr (w, l) = (out, (w', l ++ new)) ∧ saved w' st ∧
    (out = Ok tt → matches (plan_p command) new) ∧ (is_ok out = false → matches [] new) ∧
    ∀ attest, ids_linked (attest, instr) new.
Proof.
  intros Hs. unfold stage_p, plan_p. destruct (contains command "p").
  2:{ exists (Ok tt), w, []. rewrite app_nil_r. split_and!; try done; intros; apply matches_nil. }
  pose proof (proof_frame url instr w) as Hf1. destruct (op_GetProof url instr w) as [r w1] eqn:E1.
  assert (saved w1 st) as Hs1 by (by eapply saved_frame).
  assert (op_GetProof (RegistrationOps := recording_ops) url instr (w, l) =
          (r, (w1, l ++ on_ok (λ _, EProof instr) r))) as Hr1.
  { change (logged (on_ok (λ _ : Proof_, EProof instr)) (op_GetProof url instr) (w, l) =
            (r, (w1, l ++ on_ok (λ _, EProof instr) r))). by rewrite logged_run, E1. }
  destruct r as [proof|err]; cbn [on_ok] in Hr1.
  2:{ exists (Err err), w1, []. rewrite (bind_err _ _ _ _ _ Hr1).
      split_and!; try done; intros; apply matches_nil. }
  rewrite (bind_ok _ _ _ _ _ Hr1).
  pose proof (production_frame proof w1) as Hf2. destruct (op_ToProduction proof w1) as [r w2] eqn:E2.
  assert (saved w2 st) as Hs2 by (by eapply saved_frame).
  assert (∀ l', op_ToProduction (RegistrationOps := recording_ops) proof (w1, l') =
                (r, (w2, l' ++ on_ok (λ _, EProduction) r))) as Hr2.
  { intros l'. change (logged (on_ok (λ _ : unit, EProduction)) (op_ToProduction proof) (w1, l') =
                       (r, (w2, l' ++ on_ok (λ _, EProduction) r))). by rewrite logged_run, E2. }
  rewrite Hr2. destruct r as [[]|err]; cbn [on_ok].
  - exists (Ok tt), w2, [EProof instr; EProduction]. rewrite <- app_assoc.
    split_and!; try done. intros _. by repeat constructor.
  - exists (Err err), w2, [EProof instr]. rewrite app_nil_r.
    split_and!; try done. intros _. by repeat constructor.
Qed.

(** ** A whole run *)

(** The ids a run starts from: what the state file holds, for the steps the
    command names. *)
Definition start_ids (command instr : string) st : string * string :=
  (if contains command "r" || contains command "R" then TeeAttestInstructionID st else zero_hash,
   if contains command "a" then InstructionID st else HexToHash instr).

(** What a step that ended well leaves to do. *)
Lemma moved_spec command step c instr st complete P kind st' new :
  step = String c "" → moved command step st complete P st' new →
  (∀ id e, P id e → kind e = true ∧ is_submission e = true) →
  (∀ id, ∃ a i, complete id st = mkState (CompletedSteps st +:+ step) a i) →
  (∀ id e, contains command step = true → P id e →
     start_ids command instr (complete id st) = id_step (start_ids command instr st) e) →
  matches (planned (pending command step st) kind) new ∧ pending command step st' = false ∧
  (∀ d, d ≠ c → pending command (String d "") st' = pending command (String d "") st) ∧
  start_ids command instr st' = foldl id_step (start_ids command instr st) new.
Proof.
  intros -> [(Hp & -> & ->)|(Hp & id & e & -> & -> & HP)] Hkind Hc Hids.
  - rewrite Hp. split_and!; try done. constructor.
  - rewrite Hp. destruct (Hkind _ _ HP) as [Hk Hs]. destruct (Hc id) as (a & i & Heq).
    split_and!.
    + unfold matches, submissions, planned. rewrite filter_cons, decide_True by done. by repeat constructor.
    + rewrite Heq. apply pending_done.
    + intros d Hd. rewrite Heq. by eapply pending_other.
    + cbn [foldl]. apply Hids; [|done]. unfold pending in Hp. by apply andb_prop in Hp as [? _].
Qed.

Lemma moved_linked command step st complete P st' new ids :
  moved command step st complete P st' new → (∀ id e, P id e → uses ids e) → ids_linked ids new.
Proof. intros [(_ & _ & ->)|(_ & id & e & _ & -> & HP)] Huse; [done|]. cbn. eauto. Qed.

Lemma run_r host teeID proxyID teeInfo command instr st w l :
  saved w st →
  (∃ st' w' new, rec_stage_r host teeID proxyID teeInfo command path st (w, l) =
       (Ok (st', if contains command "r" then TeeAttestInstructionID st' else zero_hash), (w', l ++ new)) ∧
     saved w' st' ∧ plan command st = planned (pending command "r" st) is_attest ++ plan command st' ∧
     matches (planned (pending command "r" st) is_attest) new ∧ pending command "r" st' = false ∧
     ids_linked (start_ids command instr st) new ∧
     start_ids command instr st' = foldl id_step (start_ids command instr st) new) ∨
  (∃ err w', rec_stage_r host teeID proxyID teeInfo command path st (w, l) = (Err err, (w', l)) ∧
     saved w' st).
Proof.
  intros Hs. destruct (stage_r_act host teeID proxyID teeInfo command st) as (act & -> & Hact).
  destruct (stage_spec command "r" TeeAttestInstructionID zero_hash act st
              (complete_attest "r") _ w l (λ _, eq_refl) Hs Hact) as [(st' & w' & new & -> & Hs' & Hm)|(err & w' & -> & Hs' & _)];
    [left|right; eauto].
  destruct (moved_spec _ _ _ instr _ _ _ is_attest _ _ eq_refl Hm) as (H1 & H2 & H3 & H4).
  - by intros id e [-> | ->].
  - intros id. by do 2 eexists.
  - intros id e Hc [-> | ->]; unfold start_ids; by rewrite Hc.
  - exists st', w', new. split_and!; try done.
    + unfold plan, plan_Rap, plan_ap. rewrite H2, !H3 by done. done.
    + eapply moved_linked; [done|]. by intros id e [-> | ->].
Qed.

Lemma run_R teeID command instr attestID st w l :
  saved w st → pending command "r" st = false →
  (contains command "R" = false → attestID = fst (start_ids command instr st)) →
  (∃ st' w' new, rec_stage_R teeID command path st attestID (w, l) =
       (Ok (st', fst (start_ids command instr st')), (w', l ++ new)) ∧ saved w' st' ∧
     plan command st = planned (pending command "R" st) is_attestation ++ plan command st' ∧
     matches (planned (pending command "R" st) is_attestation) new ∧
     pending command "r" st' = false ∧ pending command "R" st' = false ∧
     ids_linked (start_ids command instr st) new ∧
     start_ids command instr st' = foldl id_step (start_ids command instr st) new) ∨
  (∃ err w', rec_stage_R teeID command path st attestID (w, l) = (Err err, (w', l)) ∧ saved w' st).
Proof.
  intros Hs Hr Hattest. destruct (stage_R_act teeID command attestID st) as (act & -> & Hact).
  destruct (stage_spec command "R" TeeAttestInstructionID attestID act st
              (complete_attest "R") _ w l (λ _, eq_refl) Hs Hact) as [(st' & w' & new & -> & Hs' & Hm)|(err & w' & -> & Hs' & _)];
    [left|right; eauto].
  destruct (moved_spec _ _ _ instr _ _ _ is_attestation _ _ eq_refl Hm) as (H1 & H2 & H3 & H4).
  - by intros id e ->.
  - intros id. by do 2 eexists.
  - intros id e Hc ->; unfold start_ids; by rewrite Hc, orb_true_r.
  - exists st', w', new. split_and!; try done.
    + do 2 f_equal. unfold start_ids in *. destruct (contains command "R") eqn:HR.
      * by rewrite orb_true_r.
      * destruct Hm as [(_ & -> & _)|(Hp & _)]; [by rewrite Hattest|].
        unfold pending in Hp. by rewrite HR in Hp.
    + unfold plan, plan_Rap, plan_ap. rewrite H2, !H3, Hr by done. done.
    + by rewrite H3.
    + eapply moved_linked; [done|]. by intros id e ->.
Qed.

Lemma run_a url teeID ftdcTee command instr st w l :
  saved w st → pending command "r" st = false → pending command "R" st = false →
  (∃ st' w' new,
     rec_stage_a url teeID ftdcTee command instr path st (fst (start_ids command instr st)) (w, l) =
       (Ok (st', snd (start_ids command instr st')), (w', l ++ new)) ∧ saved w' st' ∧
     plan command st = planned (pending command "a" st) is_availability ++ plan command st' ∧
     matches (planned (pending command "a" st) is_availability) new ∧ plan command st' = plan_p command ∧
     ids_linked (start_ids command instr st) new ∧
     start_ids command instr st' = foldl id_step (start_ids command instr st) new) ∨
  (∃ err w',
     rec_stage_a url teeID ftdcTee command instr path st (fst (start_ids command instr st)) (w, l) =
       (Err err, (w', l)) ∧ saved w' st).
Proof.
  intros Hs Hr HR.
  destruct (stage_a_act url teeID ftdcTee command instr (fst (start_ids command instr st)) st)
    as (act & -> & Hact).
  destruct (stage_spec command "a" InstructionID (HexToHash instr) act st
              complete_check _ w l (λ _, eq_refl) Hs Hact) as [(st' & w' & new & -> & Hs' & Hm)|(err & w' & -> & Hs' & _)];
    [left|right; eauto].
  destruct (moved_spec _ _ _ instr _ _ _ is_availability _ _ eq_refl Hm) as (H1 & H2 & H3 & H4).
  - by intros id e ->.
  - intros id. by do 2 eexists.
  - intros id e Hc ->; unfold start_ids; by rewrite Hc.
  - assert (plan command st' = plan_p command) as Hplan.
    { unfold plan, plan_Rap, plan_ap. by rewrite H2, !H3, Hr, HR by done. }
    exists st', w', new. split_and!; try done.
    + rewrite Hplan. unfold plan, plan_Rap, plan_ap. by rewrite Hr, HR.
    + eapply moved_linked; [done|]. by intros id e ->.
Qed.

Definition run_outcome (command instr : string) st (out : result unit) w' new : Prop :=
  ids_linked (start_ids command instr st) new ∧
  match out with
  | Ok _ => matches (plan command st) new ∧ loadState path w' = Ok fresh_state
  | Err _ =>
    ∃ st' done, saved w' st' ∧ plan command st = done ++ plan command st' ∧ matches done new ∧
      start_ids command instr st' = foldl id_step (start_ids command instr st) new
  end.

Lemma run_failed command instr st w' err : saved w' st → run_outcome command instr st (Err err) w' [].
Proof. intros Hs. split; [done|]. exists st, []. split_and!; try done. apply matches_nil. Qed.

(** A step that ended well, followed by the rest of the run. *)
Lemma run_outcome_step command instr st st1 out w' new new1 done1 :
  ids_linked (start_ids command instr st) new1 → plan command st = done1 ++ plan command st1 →
  matches done1 new1 → start_ids command instr st1 = foldl id_step (start_ids command instr st) new1 →
  run_outcome command instr st1 out w' new → run_outcome command instr st out w' (new1 ++ new).
Proof.
  intros Hl Hp Hm Hids [Hl' Hout]. split.
  - apply ids_linked_app. by rewrite <- Hids.
  - destruct out as [[]|err].
    + destruct Hout as [Hm' Hload]. split; [|done]. rewrite Hp. by apply matches_app.
    + destruct Hout as (st' & rest & Hs & Hp' & Hm' & Hids'). exists st', (done1 ++ rest). split_and!.
      * done.
      * by rewrite Hp, Hp', app_assoc.
      * by apply matches_app.
      * by rewrite Hids', Hids, foldl_app.
Qed.

Lemma remove_fresh w : loadState path (snd (remove_file path w)) = Ok fresh_state.
Proof. unfold loadState. by destruct (remove_gone w) as [msg ->]. Qed.

Lemma run_p url command instr st w l :
  saved w st → plan command st = plan_p command →
  ∃ out w' new,
    bind (rec_stage_p url command (snd (start_ids command instr st)))
      (λ r, match r with
            | Err e => ret (Err e)
            | Ok _ => _ ← remove_file (OS := recording_os) path; ret (Ok tt)
            end) (w, l) = (out, (w', l ++ new)) ∧ run_outcome command instr st out w' new.
Proof.
  intros Hs Hplan.
  destruct (stage_p_spec url command (snd (start_ids command instr st)) st w l Hs)
    as (out & w' & new & Hrun & Hs' & Hok & Herr & Hids).
  specialize (Hids (fst (start_ids command instr st))). rewrite <- surjective_pairing in Hids.
  destruct out as [[]|err].
  - exists (Ok tt), (snd (remove_file path w')), new.
    rewrite (bind_ok _ _ _ _ _ Hrun), mbind_bind, (bind_run _ _ _ _ _ (remove_run _ _ _)).
    split; [done|]. split; [done|]. split; [rewrite Hplan; by apply Hok|apply remove_fresh].
  - exists (Err err), w', new. rewrite (bind_err _ _ _ _ _ Hrun). split; [done|].
    split; [done|]. exists st, []. split_and!; try done; [by apply Herr|].
    specialize (Herr eq_refl). clear -Herr.
    generalize (start_ids command instr st) as ids. induction new as [|e new IH]; intros ids; [done|].
    unfold matches, submissions in Herr. rewrite filter_cons in Herr. destruct e; cbn in Herr;
      try by inversion Herr. cbn. by apply IH.
Qed.

(** C1 of a single run, for every outcome. *)
Lemma RegisterNode_run teeInfo host url ftdcTee command instr st w l :
  saved w st →
  ∃ out w' new, recording_RegisterNode teeInfo host url ftdcTee command instr path (w, l) =
      (out, (w', l ++ new)) ∧ run_outcome command instr st out w' new.
Proof.
  intros Hs. unfold RegisterNode. rewrite bind_ret_l.
  destruct (TeeProxyId teeInfo) as [[teeID proxyID]|err].
  2:{ exists (Err err), w, []. rewrite app_nil_r. split; [done|by apply run_failed]. }
  rewrite bind_reads. change (loadState path (w, l)) with (loadState path w). rewrite (proj1 Hs).
  destruct (run_r host teeID proxyID teeInfo command instr st w l Hs)
    as [(st1 & w1 & n1 & Hrun & Hs1 & Hp1 & Hm1 & Hr1 & Hl1 & Hi1)|(err & w1 & Hrun & Hs1)];
    rewrite (bind_run _ _ _ _ _ Hrun); cbv beta iota.
  2:{ exists (Err err), w1, []. rewrite app_nil_r. split; [done|by apply run_failed]. }
  clear Hrun. set (attest1 := if contains command "r" then _ else _).
  destruct (run_R teeID command instr attest1 st1 w1 (l ++ n1) Hs1 Hr1)
    as [(st2 & w2 & n2 & Hrun & Hs2 & Hp2 & Hm2 & Hr2 & HR2 & Hl2 & Hi2)|(err & w2 & Hrun & Hs2)].
  { intros HR. unfold attest1, start_ids. by rewrite HR, orb_false_r. }
  all: rewrite (bind_run _ _ _ _ _ Hrun); cbv beta iota.
  2:{ exists (Err err), w2, (n1 ++ []). split; [by rewrite app_nil_r|]. eapply run_outcome_step; try done. by apply run_failed. }
  clear Hrun.
  destruct (run_a url teeID ftdcTee command instr st2 w2 ((l ++ n1) ++ n2) Hs2 Hr2 HR2)
    as [(st3 & w3 & n3 & Hrun & Hs3 & Hp3 & Hm3 & Hplan & Hl3 & Hi3)|(err & w3 & Hrun & Hs3)];
    rewrite (bind_run _ _ _ _ _ Hrun); cbv beta iota.
  2:{ exists (Err err), w3, (n1 ++ n2 ++ []). split; [by rewrite app_nil_r, app_assoc|].
      do 2 (eapply run_outcome_step; try done). by apply run_failed. }
  clear Hrun.
  destruct (run_p url command instr st3 w3 (((l ++ n1) ++ n2) ++ n3) Hs3 Hplan)
    as (out & w4 & n4 & -> & Hout).
  exists out, w4, (n1 ++ n2 ++ n3 ++ n4). split; [by rewrite !app_assoc|]. do 3 (eapply run_outcome_step; try done).
Qed.

(** Attempts at a registration, each resuming from the state file the last one
    left, until one succeeds.  Between attempts the world may change in any way
    that leaves the state file alone. *)
Inductive attempts (command instr : string) : W → list event → W → Prop :=
  | attempts_done teeInfo host url ftdcTee w tr w' :
      recording_RegisterNode teeInfo host url ftdcTee command instr path (w, []) = (Ok tt, (w', tr)) →
      attempts command instr w tr w'
  | attempts_retry teeInfo host url ftdcTee w err w1 w2 tr1 tr2 w' :
      recording_RegisterNode teeInfo host url ftdcTee command instr path (w, []) = (Err err, (w1, tr1)) →
      read_file path w2 = read_file path w1 →
      attempts command instr w2 tr2 w' →
      attempts command instr w (tr1 ++ tr2) w'.

(** C4: however often a registration fails and is resumed, across all attempts
    together each step of the command that the state file did not record is
    submitted with success exactly once and in the order r, R, a, p; the
    availability check always uses the latest attestation instruction and the
    proof the latest availability check, also when those were obtained in an
    earlier attempt; and afterwards the state file is gone. *)
Theorem resumed_registration_once (command instr : string) (w w' : W) (st : registrationState)
    (tr : list event) :
  saved w st → attempts command instr w tr w' →
  matches (plan command st) tr ∧ ids_linked (start_ids command instr st) tr ∧
  loadState path w' = Ok fresh_state.
Proof.
  intros Hs Hatt. revert st Hs.
  induction Hatt as [teeInfo host url ftdcTee w tr w' Hrun
                    |teeInfo host url ftdcTee w err w1 w2 tr1 tr2 w' Hrun Hfile _ IH]; intros st Hs;
    destruct (RegisterNode_run teeInfo host url ftdcTee command instr st w [] Hs)
      as (out & w3 & new & Hrun' & Hlink & Hout); rewrite Hrun in Hrun'; simplify_eq/=.
  - destruct Hout. by split_and!.
  - destruct Hout as (st' & dn & Hs' & Hp & Hm & Hids).
    assert (saved w2 st') as Hs2 by (by eapply saved_frame).
    destruct (IH st' Hs2) as (Hm2 & Hl2 & Hload). split_and!; [|apply ids_linked_app|done].
    + rewrite Hp. by apply matches_app.
    + by rewrite <- Hids.
Qed.

Lemma unattested_ids ids tr a id :
  Forall (λ e, is_attest e = false) tr → ids_linked ids tr → EAvailability a id ∈ tr → a = fst ids.
Proof.
  intros Hno. revert ids. induction Hno as [|e tr He _ IH]; intros ids; [by intros _ ?%elem_of_nil|].
  intros [Huse Hl] [Heq|Hin]%elem_of_cons; [by subst e|].
  rewrite (IH _ Hl Hin). by destruct e.
Qed.

Lemma matches_unattested command st dn rest tr :
  contains command "r" = false → contains command "R" = false →
  plan command st = dn ++ rest → matches dn tr → Forall (λ e, is_attest e = false) tr.
Proof.
  intros Hr HR Hp Hm.
  assert (Forall (λ p : event → bool, ∀ e, p e = true → is_attest e = false) (plan command st)) as Hall.
  { unfold plan, plan_Rap, plan_ap, plan_p, pending. rewrite Hr, HR. cbn [andb planned app].
    apply Forall_app. unfold planned. split.
    - destruct (contains command "a" && _); repeat constructor; by intros [].
    - destruct (contains command "p"); repeat constructor; by intros []. }
  rewrite Hp in Hall. apply Forall_app in Hall as [Hall _].
  assert (Forall (λ e, is_attest e = false) (submissions tr)) as Hsub.
  { clear -Hall Hm. unfold matches in Hm. induction Hm as [|p e dn tr' Hpe _ IH]; [done|].
    apply Forall_cons in Hall as [Hp Hall]. constructor; [by apply Hp|by apply IH]. }
  apply Forall_forall. intros e He. destruct (is_submission e) eqn:Es; [|by destruct e].
  rewrite Forall_forall in Hsub. by apply Hsub, list_elem_of_filter.
Qed.

(** C40: a command that names neither r nor R requests the availability check with
    the zero attestation instruction, whatever attestation the state file holds:
    resuming with "ap" after an interrupted "rap" does not use the saved one. *)
Theorem ap_ignores_saved_attestation (command instr : string) (teeInfo : SignedTeeInfoResponse)
    (host url ftdcTee : string) (w : W) (st : registrationState) (a id : string) :
  saved w st → contains command "r" = false → contains command "R" = false →
  EAvailability a id ∈
    snd (snd (recording_RegisterNode teeInfo host url ftdcTee command instr path (w, []))) →
  a = zero_hash.
Proof.
  intros Hs Hr HR Hin.
  destruct (RegisterNode_run teeInfo host url ftdcTee command instr st w [] Hs)
    as (out & w' & new & Hrun & Hlink & Hout).
  rewrite Hrun in Hin. cbn in Hin.
  assert (Forall (λ e, is_attest e = false) new) as Hno.
  { destruct out as [[]|err].
    - destruct Hout as [Hm _]. eapply matches_unattested; [done|done| |done].
      symmetry. apply app_nil_r.
    - destruct Hout as (st' & dn & _ & Hp & Hm & _). by eapply matches_unattested. }
  rewrite (unattested_ids _ _ _ _ Hno Hlink Hin). unfold start_ids. by rewrite Hr, HR.
Qed.
End resume.

(** ** Witnesses: a registration interrupted by the policy gate and resumed *)

#[export] Instance sim_file_laws path : FileLaws world path.
Proof.
  split; try done.
  - intros d w. cbn. unfold sim_file. cbn. by rewrite lookup_insert_eq.
  - intros w. eexists. cbn. unfold sim_file. cbn. by rewrite lookup_delete_eq.
Qed.

Lemma hex_encode_printable s : forallb printable (bytes (hex_encode s)) = true.
Proof.
  unfold hex_encode. rewrite bytes_str. induction (bytes s) as [|c l IH]; [done|].
  cbn [mbind list_bind]. rewrite forallb_app, IH, andb_true_r. clear.
  destruct c as [[] [] [] [] [] [] [] []]; reflexivity.
Qed.
#[export] Instance sim_hash_text_laws : HashTextLaws (Txt := sim_text).
Proof.
  split.
  - intros h. cbn [Hash_MarshalText sim_text]. rewrite bytes_app, forallb_app, hex_encode_printable. done.
  - intros h Hh. cbn [Hash_UnmarshalJSON Hash_MarshalText sim_text sim_unmarshal].
    rewrite trim_prefix_app, hex_decode_encode. cbn. by rewrite decide_True.
Qed.

Definition demo_id (n : nat) : string := str (replicate 31 (byte 0) ++ [byte n]).
(** The gate opens once SYNCED is set. *)
Definition sim_ops : RegistrationOps world := {|
  Proof_ := string;
  op_GetTeeMachine _ := ret (Err (ErrMsg "not registered"));
  op_PreRegistration _ _ _ _ := ret (Ok (zero_hash, demo_id 1));
  op_RequestTeeAttestation _ := ret (Ok (demo_id 2));
  op_CheckPolicy _ := reads (λ w, if decide (getenv "SYNCED" w = "") then Err (ErrMsg "out of sync") else Ok tt);
  op_RequestAvailabilityCheck _ _ _ := ret (Ok (demo_id 3));
  op_GetProof _ _ := ret (Ok "proof");
  op_ToProduction _ := ret (Ok tt);
|}.
#[export] Instance sim_ops_laws path : OpsLaws world (Ops := sim_ops) path.
Proof. split; intros; cbn in *; simplify_eq; done. Qed.

Definition demo_run (command : string) (w : world) : result unit * (world * list event) :=
  RegisterNode (OSW := recording_os) (Tee := sim_tee (sim_info 1) no_action)
    (Ops := recording_ops (Ops := sim_ops)) (sim_info 1) "host" "ftdc" "" command "" "state" (w, []).
(** What is left after the gate refused the first attempt, now in sync. *)
Definition demo_interrupted : world := setenv "SYNCED" "yes" (fst (snd (demo_run "rap" empty_world))).
Definition demo_trace : list event :=
  [EPreRegistration (demo_id 1)] ++ [EAvailability (demo_id 1) (demo_id 3); EProof (demo_id 3); EProduction].

Lemma demo_fresh path : saved (OSW := sim_os) path empty_world fresh_state.
Proof. split; [done|]. by split_and!. Qed.

Lemma demo_saved : saved (OSW := sim_os) "state" demo_interrupted (mkState "r" (demo_id 1) zero_hash).
Proof. split; [vm_compute; reflexivity|]. by split_and!. Qed.

Lemma resumed_registration_once_witness :
  matches (plan "rap" fresh_state) demo_trace ∧
  loadState (OSW := sim_os) "state" (fst (snd (demo_run "rap" demo_interrupted))) = Ok fresh_state.
Proof.
  assert (attempts (Tee := sim_tee (sim_info 1) no_action) (Ops := sim_ops) "state" "rap" ""
            empty_world demo_trace (fst (snd (demo_run "rap" demo_interrupted)))) as Hatt.
  { apply (attempts_retry (Tee := sim_tee (sim_info 1) no_action) (Ops := sim_ops) "state" "rap" ""
      (sim_info 1) "host" "ftdc" "" empty_world (ErrMsg "out of sync")
      (fst (snd (demo_run "rap" empty_world))) demo_interrupted).
    - vm_compute. reflexivity.
    - reflexivity.
    - apply (attempts_done (Tee := sim_tee (sim_info 1) no_action) (Ops := sim_ops) "state" "rap" ""
        (sim_info 1) "host" "ftdc" ""). vm_compute. reflexivity. }
  destruct (resumed_registration_once (Tee := sim_tee (sim_info 1) no_action) (Ops := sim_ops) "state"
              "rap" "" _ _ fresh_state _ (demo_fresh "state") Hatt) as (H1 & _ & H2).
  split; [exact H1|exact H2].
Defined.

Lemma ap_ignores_saved_attestation_witness :
  EAvailability zero_hash (demo_id 3) ∈ snd (snd (demo_run "ap" demo_interrupted)) ∧
  ∀ a, EAvailability a (demo_id 3) ∈ snd (snd (demo_run "ap" demo_interrupted)) → a = zero_hash.
Proof.
  split.
  - assert (snd (snd (demo_run "ap" demo_interrupted)) =
            [EAvailability zero_hash (demo_id 3); EProof (demo_id 3); EProduction]) as ->
      by (vm_compute; reflexivity). left.
  - intros a Ha.
    apply (ap_ignores_saved_attestation (Tee := sim_tee (sim_info 1) no_action) (Ops := sim_ops) "state"
      "ap" "" (sim_info 1) "host" "ftdc" "" demo_interrupted _ a (demo_id 3) demo_saved); done.
Defined.
