(* ===== verification/VerifyDeploy.v ===== *)
(** * tools/cmd/verify-deploy

    Step dispatch, the in-place filter of [--checks], the two output formats and
    the exit code. *)

From S2P Require Import Prelude GoStrings GoText Json Platform Sim Report EnvFile Checks Revert Support.
From stdpp Require Import options.

(** What the process prints, and its exit code. *)
Record outcome := mkOutcome { stdout : string; stderr : string; exit_code : Z }.

Definition nonempty_set (ids : list string) : gset string :=
  foldl (λ allowed id, let t := trim_space id in
                       if bool_decide (t ≠ "") then {[t]} ∪ allowed else allowed) ∅ ids.
(** The [allowed] map. *)
Definition allowed_ids (checksFilter : string) : gset string :=
  nonempty_set (split checksFilter ","%char).

(** [filtered := report.Results[:0]] shares the array of [report.Results]: the
    loop reads index [i] and [append] writes index [n] of the same array. *)
Fixpoint filter_loop (todo : nat) (allowed : gset string) (arr : list CheckResult) (i n : nat) :
    list CheckResult * nat :=
  match todo with
  | O => (arr, n)
  | S todo =>
    match arr !! i with
    | None => (arr, n)
    | Some res =>
      if decide (ID res ∈ allowed) then filter_loop todo allowed (<[n := res]> arr) (S i) (S n)
      else filter_loop todo allowed arr (S i) n
    end
  end.
Definition filter_results (checksFilter : string) (report : Report) : Report :=
  if decide (checksFilter = "") then report
  else
    let '(arr, n) := filter_loop (length (Results report)) (allowed_ids checksFilter) (Results report) 0 0 in
    mkReport (take n arr).

(** From the filter to the end of [main]. *)
Definition finish (report : Report) (checksFilter : string) (jsonOut : bool) : outcome :=
  let report := filter_results checksFilter report in
  mkOutcome (if jsonOut then FprintJSON report else Fprint report) ""
    (if HasFailures report then 1 else 0).

Section verify_deploy.
Context {W : Type} `{OSW : !OS W, Uni : !Unicode, Geth : !GoEthereum, Txt : !GoEthereumText,
  JErr : !JsonErrors, Eth : !Ethclient W, Env : !Dotenv W, Bnd : !Bindings,
  EMgr : !ExtensionManager W, Allow : !OwnerAllowlist W, Node : !TeeNode}.

Definition support_error (af cf : string) (err : error) : outcome :=
  mkOutcome ""
    ("Error initializing support: " +:+ err_text err +:+ lf +:+ lf +:+ "Hints:" +:+ lf +:+
     "  - Check that the addresses file exists: " +:+ af +:+ lf +:+
     "  - Check that the chain node is running: " +:+ cf +:+ lf +:+
     "  - If using a custom key, ensure DEPLOYMENT_PRIVATE_KEY is set in .env" +:+ lf) 1.

Definition unknown_step (step : string) : outcome :=
  mkOutcome "" ("Unknown step: " +:+ fmt_q step +:+ lf +:+
    "Valid steps: deploy, register, services, tee-version, tee-machine, test, all" +:+ lf) 1.

(** The checks of the steps that need a chain. *)
Definition chain_checks (step : string) (s : Support) (configPath : string) (report : Report) :
    M W Report :=
  let addresses := [("FlareTeeManager", FlareTeeManager (SAddresses s))] in
  if decide (step = "deploy") then
    RegisterDeployChecks report true (Some (Prv s)) addresses addresses configPath
  else if decide (step = "register") then
    RegisterRegistrationChecks report true (Some (Prv s)) true true configPath
  else
    report ← RegisterDeployChecks report true (Some (Prv s)) addresses addresses configPath;
    report ← RegisterRegistrationChecks report true (Some (Prv s)) true true configPath;
    report ← RegisterServicesChecks report configPath;
    report ← RegisterTeeVersionChecks report configPath;
    report ← RegisterTeeMachineChecks report configPath;
    RegisterTestChecks report configPath.

(** The arguments are the flags. *)
Definition verify_deploy_main (af cf configPath step checksFilter : string) (jsonOut : bool) :
    M W outcome :=
  let report := empty_report in
  if decide (step = "deploy" ∨ step = "register" ∨ step = "all") then
    s ←? DefaultSupport af cf | err => ret (support_error af cf err);
    report ← chain_checks step s configPath report;
    ret (finish report checksFilter jsonOut)
  else if decide (step = "services") then
    report ← RegisterServicesChecks report configPath; ret (finish report checksFilter jsonOut)
  else if decide (step = "tee-version") then
    report ← RegisterTeeVersionChecks report configPath; ret (finish report checksFilter jsonOut)
  else if decide (step = "tee-machine") then
    report ← RegisterTeeMachineChecks report configPath; ret (finish report checksFilter jsonOut)
  else if decide (step = "test") then
    report ← RegisterTestChecks report configPath; ret (finish report checksFilter jsonOut)
  else ret (unknown_step step).
End verify_deploy.

(** ** Lemmas *)

(** The ids the filter names. *)
Definition named (checksFilter id : string) : Prop :=
  id ≠ "" ∧ id ∈ trim_space <$> split checksFilter ","%char.

Lemma nonempty_set_elem ids id : id ∈ nonempty_set ids ↔ id ≠ "" ∧ id ∈ trim_space <$> ids.
Proof.
  unfold nonempty_set. induction ids as [|x ids IH] using rev_ind; [set_solver|].
  rewrite foldl_snoc, fmap_app, elem_of_app. cbn -[trim_space]. case_bool_decide as Hx.
  - rewrite elem_of_union, elem_of_singleton, IH, elem_of_cons, elem_of_nil. naive_solver.
  - rewrite IH, elem_of_cons, elem_of_nil. naive_solver.
Qed.

Lemma drop_insert_after {A} (l : list A) i n x : n < i → drop i (<[n := x]> l) = drop i l.
Proof.
  intros Hn. apply list_eq. intros j. rewrite !lookup_drop. apply list_lookup_insert_ne. lia.
Qed.

(** The loop invariant: the first [n] cells hold what was kept of the first [i],
    and the cells from [i] on are untouched. *)
Lemma filter_loop_spec allowed todo all arr i n :
  todo = length all - i → i ≤ length all → n ≤ i → length arr = length all →
  drop i arr = drop i all → take n arr = filter (λ res, ID res ∈ allowed) (take i all) →
  let '(arr', n') := filter_loop todo allowed arr i n in
  take n' arr' = filter (λ res, ID res ∈ allowed) all.
Proof.
  revert arr i n. induction todo as [|todo IH]; intros arr i n Htodo Hi Hn Hlen Hdrop Htake; cbn.
  - rewrite Htake. f_equal. apply take_ge. lia.
  - assert (arr !! i = all !! i) as ->.
    { rewrite <- (Nat.add_0_r i), <- !lookup_drop. by rewrite Hdrop. }
    destruct (all !! i) as [res|] eqn:Eres; [|apply lookup_ge_None in Eres; lia].
    assert (take (S i) all = take i all ++ [res]) as Hsnoc by (by apply take_S_r).
    assert (drop (S i) arr = drop (S i) all) as Hdrop'.
    { replace (S i) with (i + 1) by lia. by rewrite <- !drop_drop, Hdrop. }
    case_decide as Hin; apply IH; try lia.
    + by rewrite length_insert.
    + rewrite drop_insert_after by lia. done.
    + rewrite Hsnoc, filter_app, filter_cons, decide_True by done. rewrite <- Htake.
      erewrite take_S_r; [|apply list_lookup_insert_eq; lia]. by rewrite take_insert_ge by lia.
    + done.
    + by rewrite Hsnoc, filter_app, filter_cons, decide_False, app_nil_r, <- Htake by done.
Qed.

Lemma filter_results_spec checksFilter report :
  Results (filter_results checksFilter report) =
  if decide (checksFilter = "") then Results report
  else filter (λ res, ID res ∈ allowed_ids checksFilter) (Results report).
Proof.
  unfold filter_results. case_decide; [done|].
  pose proof (filter_loop_spec (allowed_ids checksFilter) (length (Results report)) (Results report)
    (Results report) 0 0 ltac:(lia) ltac:(lia) ltac:(lia) eq_refl eq_refl eq_refl) as H1.
  by destruct (filter_loop _ _ _ _ _).
Qed.

Lemma HasFailures_exists r : HasFailures r = true ↔ ∃ res, res ∈ Results r ∧ CStatus res = FAIL.
Proof.
  unfold HasFailures. rewrite existsb_exists.
  split; intros (res & Hin & Hf); exists res; apply list_elem_of_In in Hin || apply list_elem_of_In;
    by rewrite ?Z.eqb_eq in *.
Qed.

(** ** Properties *)

(** [--checks] filters in place, in the array it is reading, yet for every
    report prints exactly the results whose id the flag names, in their order,
    and the exit code looks at those alone: 1 when a FAIL is among them, 0
    otherwise.  Without the flag every result counts. *)
Theorem finish_filtered (report : Report) (checksFilter : string) (jsonOut : bool) :
  let kept := if decide (checksFilter = "") then Results report
              else filter (λ res, ID res ∈ allowed_ids checksFilter) (Results report) in
  let out := finish report checksFilter jsonOut in
  (∀ id, id ∈ allowed_ids checksFilter ↔ named checksFilter id) ∧
  stdout out = (if jsonOut then FprintJSON (mkReport kept) else Fprint (mkReport kept)) ∧
  exit_code out = (if decide (Exists (λ res, CStatus res = FAIL) kept) then 1%Z else 0%Z).
Proof.
  cbn zeta. rewrite <- filter_results_spec. unfold finish.
  destruct (filter_results checksFilter report) as [kept] eqn:E. cbn.
  split_and!; [intros id; apply nonempty_set_elem|done|].
  pose proof (HasFailures_exists (mkReport kept)) as Hf. cbn in Hf.
  rewrite <- Exists_exists in Hf. destruct (existsb _ kept).
  - by rewrite decide_True by (by apply Hf).
  - rewrite decide_False; [done|]. by intros H%Hf.
Qed.

Section exit_codes.
Context {W : Type} `{OSW : !OS W, Uni : !Unicode, Geth : !GoEthereum, Txt : !GoEthereumText,
  JErr : !JsonErrors, Eth : !Ethclient W, Env : !Dotenv W, Bnd : !Bindings,
  EMgr : !ExtensionManager W, Allow : !OwnerAllowlist W, Node : !TeeNode}.

Lemma finish_exit (m : M W Report) jsonOut w :
  exit_code (fst ((report ← m; ret (finish report "" jsonOut)) w)) =
  if HasFailures (fst (m w)) then 1%Z else 0%Z.
Proof. unfold mbind, M_bind, bind. by destruct (m w) as [r w']. Qed.

(** The exit code of the steps that need no chain, run without a filter: the
    services step fails the deployment exactly when the configured EXTENSION_ID
    is not 0x and 64 hex digits, the tee-version step likewise unless the file is
    missing, the tee-machine step never, the test step exactly when the file is
    there and its INSTRUCTION_SENDER is not an address.  An unknown step exits
    with 1, printing nothing on stdout and touching nothing. *)
Theorem chainless_exit_codes (af cf path step : string) (jsonOut : bool) (w : W) :
  let out := verify_deploy_main af cf path step "" jsonOut w in
  let bad_id := bool_decide (path ≠ "") && negb (extensionIDRegex (file_ext_id path w)) in
  let code (fails : bool) := if fails then 1%Z else 0%Z in
  (step = "services" → exit_code (fst out) = code bad_id) ∧
  (step = "tee-version" → exit_code (fst out) =
     code (bad_id && negb (bool_decide (file_ext_id path w = "") && stat_missing path w))) ∧
  (step = "tee-machine" → exit_code (fst out) = 0%Z) ∧
  (step = "test" → exit_code (fst out) =
     code (bool_decide (path ≠ "") && negb (addressRegex (file_sender path w)) &&
           negb (stat_missing path w))) ∧
  (step ∉ ["deploy"; "register"; "all"; "services"; "tee-version"; "tee-machine"; "test"] →
     exit_code (fst out) = 1%Z ∧ stdout (fst out) = "" ∧ snd out = w).
Proof.
  cbn zeta. unfold verify_deploy_main. split_and!; try intros ->.
  1-4: rewrite decide_False by naive_solver; repeat (rewrite decide_False by done);
    rewrite decide_True, finish_exit by done.
  - by rewrite services_HasFailures, s2_fails.
  - by rewrite tee_version_HasFailures, v4_fails.
  - by rewrite tee_machine_HasFailures.
  - by rewrite test_HasFailures, e1_fails.
  - intros Hstep. rewrite !not_elem_of_cons in Hstep. destruct Hstep as (?&?&?&?&?&?&?&_).
    repeat (rewrite decide_False by naive_solver). done.
Qed.
End exit_codes.
