(* ===== verification/ExtServer.v ===== *)
(** * The extension server: go/internal/extension and go/pkg/types

    The HTTP handlers as functions of the extension's state, and the server as a
    step relation in which any number of requests run concurrently, one memory
    access at a time, around the RWMutex that guards the counters. *)

From S2P Require Import Prelude GoStrings GoText Json Platform Sim.
From stdpp Require Import options.

(** ** config.go constants and types.go *)

Definition Version : string := "0.1.0".
Definition OPTypeGreeting : string := "GREETING".
Definition OPCommandSayHello : string := "SAY_HELLO".
Definition OPCommandSayGoodbye : string := "SAY_GOODBYE".

Definition StatusOK : Z := 200.
Definition StatusBadRequest : Z := 400.
Definition StatusNotImplemented : Z := 501.

(** The fields of [Extension] that [mu] guards; the counters are [int]s. *)
Record Extension := mkExtension {
  greetingCount : Z;
  lastGreeting : string;
  farewellCount : Z;
  lastFarewell : string;
}.
(** [&Extension{}] *)
Definition New : Extension := mkExtension 0 "" 0 "".

(** An HTTP response. *)
Record response := mkResponse { status : Z; body : string }.
#[export] Instance response_eq_dec : EqDecision response.
Proof. solve_decision. Defined.

(** [SayHelloRequest] is its name. *)
Definition SayHelloRequest_fields : list (field string) := [string_field "name" (λ x _, x)].

Definition SayHelloResponse_json (greeting : string) (greetingNumber : Z) : json :=
  JObj [("greeting", JStr greeting); ("greetingNumber", JInt greetingNumber)].
Definition SayGoodbyeResponse_json (farewell : string) (farewellNumber : Z) : json :=
  JObj [("farewell", JStr farewell); ("farewellNumber", JInt farewellNumber)].

Section server.
Context `{Geth : !GoEthereum, Txt : !GoEthereumText, JErr : !JsonErrors, Srv : !TeeServer}.

(** *** utils.go *)

Definition buildResult (a : ActionData) (df : DataFixed) (data : string) (status : Z)
    (err : option error) : ActionResultData :=
  mkActionResult (act_ID a) (act_SubmissionTag a) Version (OPType df) (OPCommand df) data status
    (if (status =? 0)%Z then "error: " +:+ match err with Some e => err_text e | None => "<nil>" end
     else if (status =? 1)%Z then "ok"
     else "pending").

Definition getLogFromBody (body : string) : string :=
  match unmarshal_action_result body with Err _ => body | Ok ar => ar_Log ar end.

(** *** extension.go *)

Definition greeting_of (name : string) : string :=
  "Hello, " +:+ name +:+ "! Welcome to Flare Confidential Compute.".
Definition farewell_of (name reason : string) : string :=
  "Goodbye, " +:+ name +:+ "! Reason: " +:+ reason.

Definition decoding_error (err : error) : option error :=
  Some (ErrWrap ("decoding request: " +:+ err_text err) err).
Definition empty_name : option error := Some (ErrMsg "name must not be empty").

Definition processSayHello (e : Extension) (action : ActionData) (df : DataFixed) :
    ActionResultData * Extension :=
  match Decode_strict "SayHelloRequest" SayHelloRequest_fields "" (OriginalMessage df) with
  | Err err => (buildResult action df "" 0 (decoding_error err), e)
  | Ok name =>
    if decide (name = "") then (buildResult action df "" 0 empty_name, e)
    else
      let greetingNumber := swrap64 (greetingCount e + 1) in
      let greeting := greeting_of name in
      let e := mkExtension greetingNumber greeting (farewellCount e) (lastFarewell e) in
      (buildResult action df (json_compact (SayHelloResponse_json greeting greetingNumber)) 1 None, e)
  end.

Definition processSayGoodbye (e : Extension) (action : ActionData) (df : DataFixed) :
    ActionResultData * Extension :=
  match decode_goodbye (OriginalMessage df) with
  | Err err => (buildResult action df "" 0 (decoding_error err), e)
  | Ok (name, reason) =>
    if decide (name = "") then (buildResult action df "" 0 empty_name, e)
    else
      let farewellNumber := swrap64 (farewellCount e + 1) in
      let farewell := farewell_of name reason in
      let e := mkExtension (greetingCount e) (lastGreeting e) farewellNumber farewell in
      (buildResult action df (json_compact (SayGoodbyeResponse_json farewell farewellNumber)) 1 None, e)
  end.

Definition processGreeting (e : Extension) (action : ActionData) (df : DataFixed) : response * Extension :=
  if decide (OPCommand df = ToHash OPCommandSayHello) then
    let '(ar, e) := processSayHello e action df in
    (mkResponse StatusOK (marshal_action_result ar), e)
  else if decide (OPCommand df = ToHash OPCommandSayGoodbye) then
    let '(ar, e) := processSayGoodbye e action df in
    (mkResponse StatusOK (marshal_action_result ar), e)
  else
    (mkResponse StatusNotImplemented
       ("unsupported op command: received " +:+ Hash_Hex (OPCommand df) +:+ ", expected one of [" +:+
        Hash_Hex (ToHash OPCommandSayHello) +:+ " (" +:+ OPCommandSayHello +:+ "), " +:+
        Hash_Hex (ToHash OPCommandSayGoodbye) +:+ " (" +:+ OPCommandSayGoodbye +:+ ")]"), e).

Definition processAction (e : Extension) (action : ActionData) : response * Extension :=
  match parse_data_fixed (act_Message action) with
  | Err err => (mkResponse StatusBadRequest ("decoding fixed data: " +:+ err_text err), e)
  | Ok dataFixed =>
    if decide (OPType dataFixed = ToHash OPTypeGreeting) then processGreeting e action dataFixed
    else
      (mkResponse StatusNotImplemented
         ("unsupported op type: received " +:+ Hash_Hex (OPType dataFixed) +:+ ", expected " +:+
          Hash_Hex (ToHash OPTypeGreeting) +:+ " (" +:+ OPTypeGreeting +:+ ")"), e)
  end.

(** [http.Error] ends the body with a newline. *)
Definition actionHandler (e : Extension) (body : string) : response * Extension :=
  match decode_action body with
  | Err err =>
    (mkResponse StatusBadRequest ("decoding action: " +:+ err_text err +:+ str [newline]), e)
  | Ok action => processAction e action
  end.

(** [types.StateResponse]; [Encode] ends with a newline. *)
Definition StateResponse_json (e : Extension) : json :=
  JObj [("stateVersion", JStr (Hash_MarshalText (ToHash Version)));
        ("state", JObj [("greetingCount", JInt (greetingCount e));
                        ("lastGreeting", JStr (lastGreeting e));
                        ("farewellCount", JInt (farewellCount e));
                        ("lastFarewell", JStr (lastFarewell e))])].
Definition stateHandler (e : Extension) : response :=
  mkResponse StatusOK (json_compact (StateResponse_json e) +:+ str [newline]).

(** The mux: [GET /state] and [POST /action] with a body. *)
Inductive request := GetState | PostAction (body : string).
Definition handle (e : Extension) (q : request) : response * Extension :=
  match q with GetState => (stateHandler e, e) | PostAction body => actionHandler e body end.

(** ** The concurrent server

    What a handler does between its local computations: nothing, or the critical
    section of one of the two counters, or the locked read of the state. *)
Inductive counter := Greeting | Farewell.
Inductive program :=
  | Local (r : response)
  | Update (c : counter) (text : string) (reply : Z → response)
  | ReadState.

Definition count (c : counter) (e : Extension) : Z :=
  match c with Greeting => greetingCount e | Farewell => farewellCount e end.
(** [e.greetingCount++], [e.lastGreeting = greeting], and the farewell ones. *)
Definition incr (c : counter) (e : Extension) : Extension :=
  match c with
  | Greeting => mkExtension (swrap64 (greetingCount e + 1)) (lastGreeting e) (farewellCount e) (lastFarewell e)
  | Farewell => mkExtension (greetingCount e) (lastGreeting e) (swrap64 (farewellCount e + 1)) (lastFarewell e)
  end.
Definition set_last (c : counter) (text : string) (e : Extension) : Extension :=
  match c with
  | Greeting => mkExtension (greetingCount e) text (farewellCount e) (lastFarewell e)
  | Farewell => mkExtension (greetingCount e) (lastGreeting e) (farewellCount e) text
  end.

(** The handler's code up to the lock, and after the unlock. *)
Definition hello_program (action : ActionData) (df : DataFixed) : program :=
  match Decode_strict "SayHelloRequest" SayHelloRequest_fields "" (OriginalMessage df) with
  | Err err =>
    Local (mkResponse StatusOK (marshal_action_result (buildResult action df "" 0 (decoding_error err))))
  | Ok name =>
    if decide (name = "") then
      Local (mkResponse StatusOK (marshal_action_result (buildResult action df "" 0 empty_name)))
    else
      Update Greeting (greeting_of name) (λ n, mkResponse StatusOK (marshal_action_result
        (buildResult action df (json_compact (SayHelloResponse_json (greeting_of name) n)) 1 None)))
  end.
Definition goodbye_program (action : ActionData) (df : DataFixed) : program :=
  match decode_goodbye (OriginalMessage df) with
  | Err err =>
    Local (mkResponse StatusOK (marshal_action_result (buildResult action df "" 0 (decoding_error err))))
  | Ok (name, reason) =>
    if decide (name = "") then
      Local (mkResponse StatusOK (marshal_action_result (buildResult action df "" 0 empty_name)))
    else
      Update Farewell (farewell_of name reason) (λ n, mkResponse StatusOK (marshal_action_result
        (buildResult action df (json_compact (SayGoodbyeResponse_json (farewell_of name reason) n)) 1 None)))
  end.
Definition program_of (q : request) : program :=
  match q with
  | GetState => ReadState
  | PostAction body =>
    match decode_action body with
    | Err _ => Local (fst (handle New q))
    | Ok action =>
      match parse_data_fixed (act_Message action) with
      | Err _ => Local (fst (handle New q))
      | Ok df =>
        if decide (OPType df = ToHash OPTypeGreeting) then
          if decide (OPCommand df = ToHash OPCommandSayHello) then hello_program action df
          else if decide (OPCommand df = ToHash OPCommandSayGoodbye) then goodbye_program action df
          else Local (fst (handle New q))
        else Local (fst (handle New q))
      end
    end
  end.

(** Where a request is: before its critical section, after [Lock], after the
    increment, after reading the number, after setting the text; after [RLock],
    and with 1..4 fields read; answered. *)
Inductive pc :=
  | Start
  | Locked | Incremented | Numbered (n : Z) | Texted (n : Z)
  | RLocked | Read1 (gc : Z) | Read2 (gc : Z) (lg : string) | Read3 (gc : Z) (lg : string) (fc : Z)
  | Read4 (e : Extension)
  | Done (r : response).

Record server := mkServer {
  threads : gmap nat (request * pc);
  writer : option nat;
  readers : gset nat;
  ext : Extension;
}.

Definition at_pc (s : server) (t : nat) (q : request) (p : pc) : Prop := threads s !! t = Some (q, p).
Definition go (s : server) (t : nat) (q : request) (p : pc) : gmap nat (request * pc) :=
  <[t := (q, p)]> (threads s).

Inductive step (s : server) : server → Prop :=
  | step_arrive t q :
      threads s !! t = None →
      step s (mkServer (go s t q Start) (writer s) (readers s) (ext s))
  | step_local t q r :
      at_pc s t q Start → program_of q = Local r →
      step s (mkServer (go s t q (Done r)) (writer s) (readers s) (ext s))
  | step_lock t q c text reply :
      at_pc s t q Start → program_of q = Update c text reply → writer s = None → readers s = ∅ →
      step s (mkServer (go s t q Locked) (Some t) (readers s) (ext s))
  | step_incr t q c text reply :
      at_pc s t q Locked → program_of q = Update c text reply →
      step s (mkServer (go s t q Incremented) (writer s) (readers s) (incr c (ext s)))
  | step_number t q c text reply :
      at_pc s t q Incremented → program_of q = Update c text reply →
      step s (mkServer (go s t q (Numbered (count c (ext s)))) (writer s) (readers s) (ext s))
  | step_text t q c text reply n :
      at_pc s t q (Numbered n) → program_of q = Update c text reply →
      step s (mkServer (go s t q (Texted n)) (writer s) (readers s) (set_last c text (ext s)))
  | step_unlock t q c text reply n :
      at_pc s t q (Texted n) → program_of q = Update c text reply →
      step s (mkServer (go s t q (Done (reply n))) None (readers s) (ext s))
  | step_rlock t q :
      at_pc s t q Start → program_of q = ReadState → writer s = None →
      step s (mkServer (go s t q RLocked) (writer s) ({[t]} ∪ readers s) (ext s))
  | step_read1 t q :
      at_pc s t q RLocked →
      step s (mkServer (go s t q (Read1 (greetingCount (ext s)))) (writer s) (readers s) (ext s))
  | step_read2 t q gc :
      at_pc s t q (Read1 gc) →
      step s (mkServer (go s t q (Read2 gc (lastGreeting (ext s)))) (writer s) (readers s) (ext s))
  | step_read3 t q gc lg :
      at_pc s t q (Read2 gc lg) →
      step s (mkServer (go s t q (Read3 gc lg (farewellCount (ext s)))) (writer s) (readers s) (ext s))
  | step_read4 t q gc lg fc :
      at_pc s t q (Read3 gc lg fc) →
      step s (mkServer (go s t q (Read4 (mkExtension gc lg fc (lastFarewell (ext s)))))
                (writer s) (readers s) (ext s))
  | step_runlock t q e :
      at_pc s t q (Read4 e) →
      step s (mkServer (go s t q (Done (stateHandler e))) (writer s) (readers s ∖ {[t]}) (ext s)).

Definition start : server := mkServer ∅ None ∅ New.
Definition reachable (s : server) : Prop := rtc step start s.

(** ** Handlers as programs *)

Definition run_program (p : program) (e : Extension) : response * Extension :=
  match p with
  | Local r => (r, e)
  | Update c text reply => (reply (count c (incr c e)), set_last c text (incr c e))
  | ReadState => (stateHandler e, e)
  end.

(** A handler is its program, run without interruption. *)
Lemma handle_program e q : handle e q = run_program (program_of q) e.
Proof.
  destruct q as [|body]; [done|]. cbn. unfold actionHandler.
  destruct (decode_action body) as [action|]; [|done]. unfold processAction.
  destruct (parse_data_fixed (act_Message action)) as [df|] eqn:Edf; [|done].
  case_decide as Ht; [|done]. unfold processGreeting.
  case_decide as Hh; [|case_decide as Hg]; [| |done].
  - unfold processSayHello, hello_program. destruct (Decode_strict _ _ _ _) as [name|]; [|done].
    by case_decide.
  - unfold processSayGoodbye, goodbye_program. destruct (decode_goodbye _) as [[name reason]|]; [|done].
    by case_decide.
Qed.

(** ** Linearization

    One request after the other, with their answers. *)
Fixpoint serve (e : Extension) (order : list (nat * request)) :
    list (nat * request * response) * Extension :=
  match order with
  | [] => ([], e)
  | (t, q) :: order =>
    let '(r, e) := handle e q in
    let '(answers, e) := serve e order in ((t, q, r) :: answers, e)
  end.

Lemma serve_snoc e order t q :
  serve e (order ++ [(t, q)]) =
  (fst (serve e order) ++ [(t, q, fst (handle (snd (serve e order)) q))],
   snd (handle (snd (serve e order)) q)).
Proof.
  revert e. induction order as [|[t' q'] order IH]; intros e; cbn.
  - by destruct (handle e q).
  - destruct (handle e q') as [r' e']. rewrite IH. by destruct (serve e' order).
Qed.

Lemma serve_order e order : fst <$> fst (serve e order) = order.
Proof.
  revert e. induction order as [|[t q] order IH]; intros e; cbn; [done|].
  destruct (handle e q) as [r e']. specialize (IH e'). destruct (serve e' order). cbn in *. by rewrite IH.
Qed.

(** The server's finished requests are those of [order], answered as if served one
    after the other, and between writers the memory is what that leaves. *)
Definition linearized (s : server) (order : list (nat * request)) : Prop :=
  NoDup (fst <$> order) ∧
  (∀ t q r, threads s !! t = Some (q, Done r) ↔ (t, q, r) ∈ fst (serve New order)) ∧
  (writer s = None → ext s = snd (serve New order)).

(** *** The invariant *)

Definition writing (s : server) (e : Extension) (t : nat) (q : request)
    (P : counter → string → Extension → Prop) : Prop :=
  writer s = Some t ∧ ∃ c text reply, program_of q = Update c text reply ∧ P c text (ext s).
Definition reading (s : server) (t : nat) (q : request) : Prop :=
  t ∈ readers s ∧ program_of q = ReadState.

Definition pc_ok (s : server) (e : Extension) (t : nat) (q : request) (p : pc) : Prop :=
  match p with
  | Start | Done _ => True
  | Locked => writing s e t q (λ _ _ x, x = e)
  | Incremented => writing s e t q (λ c _ x, x = incr c e)
  | Numbered n => writing s e t q (λ c _ x, x = incr c e ∧ n = count c (incr c e))
  | Texted n => writing s e t q (λ c text x, x = set_last c text (incr c e) ∧ n = count c (incr c e))
  | RLocked => reading s t q
  | Read1 gc => reading s t q ∧ gc = greetingCount e
  | Read2 gc lg => reading s t q ∧ gc = greetingCount e ∧ lg = lastGreeting e
  | Read3 gc lg fc => reading s t q ∧ gc = greetingCount e ∧ lg = lastGreeting e ∧ fc = farewellCount e
  | Read4 x => reading s t q ∧ x = e
  end.

Definition inv (s : server) (order : list (nat * request)) : Prop :=
  linearized s order ∧
  (∀ t q p, threads s !! t = Some (q, p) → pc_ok s (snd (serve New order)) t q p) ∧
  (readers s ≠ ∅ → writer s = None).

(** A thread outside the critical sections does not look at the lock. *)
Definition outside (p : pc) : Prop := match p with Start | Done _ => True | _ => False end.

Lemma pc_ok_outside s e t q p : outside p → pc_ok s e t q p.
Proof. by destruct p. Qed.

(** The holder of the write lock is alone in a critical section. *)
Lemma alone s order t t' q' p' :
  inv s order → writer s = Some t → threads s !! t' = Some (q', p') → t' ≠ t → outside p'.
Proof.
  intros (_ & Hpc & Hrw) Hw Ht' Hne. specialize (Hpc _ _ _ Ht').
  assert (readers s = ∅) as Hr by (destruct (decide (readers s = ∅)); [done|]; rewrite Hrw in Hw; done).
  destruct p'; cbn in *; unfold writing, reading in *; rewrite ?Hr in *; try done; try set_solver; try naive_solver.
Qed.
(** Nobody is in a critical section when both locks are free. *)
Lemma nobody s order t' q' p' :
  inv s order → writer s = None → readers s = ∅ → threads s !! t' = Some (q', p') → outside p'.
Proof.
  intros (_ & Hpc & _) Hw Hr Ht'. specialize (Hpc _ _ _ Ht').
  destruct p'; cbn in *; unfold writing, reading in *; rewrite ?Hr in *; try done; try set_solver; try naive_solver.
Qed.

Definition is_done (p : pc) : Prop := match p with Done _ => True | _ => False end.

(** A thread that moves on without finishing. *)
Lemma linearized_move s s' order t q p' :
  linearized s order → (∀ q p, threads s !! t = Some (q, p) → ¬ is_done p) → ¬ is_done p' →
  threads s' = go s t q p' → (writer s' = None → ext s' = snd (serve New order)) →
  linearized s' order.
Proof.
  intros (Hnd & Hdone & _) Hp Hp' Hth Hext. split_and!; [done| |done].
  intros t' q' r'. rewrite Hth. unfold go. destruct (decide (t' = t)) as [->|Hne].
  - rewrite lookup_insert_eq, <- Hdone. split; [intros [= <- ->]; by destruct Hp'|].
    intros Ht%Hp. by destruct Ht.
  - by rewrite lookup_insert_ne.
Qed.

(** A thread that finishes with the answer the sequential order gives it. *)
Lemma linearized_finish s s' order t q p :
  linearized s order → threads s !! t = Some (q, p) → ¬ is_done p →
  let e := snd (serve New order) in
  threads s' = go s t q (Done (fst (handle e q))) → (writer s' = None → ext s' = snd (handle e q)) →
  linearized s' (order ++ [(t, q)]).
Proof.
  intros (Hnd & Hdone & _) Ht Hp e Hth Hext.
  assert (∀ q' r', (t, q', r') ∉ fst (serve New order)) as Hnew.
  { intros q' r' Hin. apply Hdone in Hin. rewrite Ht in Hin. simplify_eq. by apply Hp. }
  unfold linearized. rewrite serve_snoc. fold e. cbn [fst snd]. split_and!; [| |done].
  - rewrite fmap_app. apply NoDup_app. split; [done|split; [|apply NoDup_singleton]].
    intros t' Hin Ht'. apply list_elem_of_singleton in Ht'. cbn in Ht'. subst t'.
    apply list_elem_of_fmap in Hin as ([t1 q1] & -> & Hin).
    rewrite <- (serve_order New order) in Hin.
    apply list_elem_of_fmap in Hin as ([[t2 q2] r2] & [= -> ->] & Hin). by apply Hnew in Hin.
  - intros t' q' r'. rewrite Hth. unfold go. rewrite elem_of_app, list_elem_of_singleton.
    destruct (decide (t' = t)) as [->|Hne].
    + rewrite lookup_insert_eq. split; [intros [= <- <-]; by right|].
      intros [Hin|[= <- <-]]; [by apply Hnew in Hin|done].
    + rewrite lookup_insert_ne by done. rewrite Hdone. naive_solver.
Qed.

(** The invariant after a step of [t], given that of the others. *)
Lemma inv_move s s' order t q p' :
  inv s order → (∀ q p, threads s !! t = Some (q, p) → ¬ is_done p) → ¬ is_done p' →
  threads s' = go s t q p' → (writer s' = None → ext s' = snd (serve New order)) →
  pc_ok s' (snd (serve New order)) t q p' →
  (∀ t' q' p, t' ≠ t → threads s !! t' = Some (q', p) → pc_ok s' (snd (serve New order)) t' q' p) →
  (readers s' ≠ ∅ → writer s' = None) → inv s' order.
Proof.
  intros (Hlin & Hpc & Hrw) Hp Hp' Hth Hext Ht Hothers Hrw'. split_and!; [by eapply linearized_move| |done].
  intros t' q' p. rewrite Hth. unfold go. destruct (decide (t' = t)) as [->|Hne].
  - rewrite lookup_insert_eq. by intros [= <- <-].
  - rewrite lookup_insert_ne by done. by apply Hothers.
Qed.
Lemma inv_finish s s' order t q p :
  inv s order → threads s !! t = Some (q, p) → ¬ is_done p →
  let e := snd (serve New order) in
  threads s' = go s t q (Done (fst (handle e q))) → (writer s' = None → ext s' = snd (handle e q)) →
  (∀ t' q' p, t' ≠ t → threads s !! t' = Some (q', p) → pc_ok s' (snd (handle e q)) t' q' p) →
  (readers s' ≠ ∅ → writer s' = None) → inv s' (order ++ [(t, q)]).
Proof.
  intros (Hlin & Hpc & Hrw) Ht Hp e Hth Hext Hothers Hrw'.
  split_and!; [by eapply linearized_finish| |done].
  rewrite serve_snoc. cbn [snd]. fold e. intros t' q' p0. rewrite Hth. unfold go.
  destruct (decide (t' = t)) as [->|Hne].
  - rewrite lookup_insert_eq. by intros [= <- <-].
  - rewrite lookup_insert_ne by done. by apply Hothers.
Qed.

(** A step that leaves the locks and the memory alone keeps the others' claims. *)
Lemma pc_ok_same s s' e t q p :
  writer s' = writer s → readers s' = readers s → ext s' = ext s → pc_ok s e t q p → pc_ok s' e t q p.
Proof. intros Hw Hr Hx. destruct p; cbn; unfold writing, reading; by rewrite ?Hw, ?Hr, ?Hx. Qed.

Lemma not_done_start s (t : nat) (q : request) p :
  threads s !! t = Some (q, p) → ¬ is_done p → ∀ q' p', threads s !! t = Some (q', p') → ¬ is_done p'.
Proof. intros -> Hp q' p' [= <- <-]. done. Qed.

(** The writer's own claim, opened. *)
Lemma writing_inv s e t q P c text reply :
  writing s e t q P → program_of q = Update c text reply → writer s = Some t ∧ P c text (ext s).
Proof. intros (Hw & c' & text' & reply' & Hq & HP) Hq'. rewrite Hq in Hq'. by simplify_eq. Qed.

(** A step inside the write-locked section. *)
Lemma inv_write s order t q p p' x :
  inv s order → threads s !! t = Some (q, p) → ¬ is_done p → writer s = Some t → ¬ is_done p' →
  pc_ok (mkServer (go s t q p') (writer s) (readers s) x) (snd (serve New order)) t q p' →
  inv (mkServer (go s t q p') (writer s) (readers s) x) order.
Proof.
  intros Hinv Ht Hp Hw Hp' Hok. eapply inv_move; [done| |done|done| |done| |]; cbn.
  - by eapply not_done_start.
  - by rewrite Hw.
  - intros t' q' p0 Hne Ht'. apply pc_ok_outside. by eapply alone.
  - by destruct Hinv as (_ & _ & Hrw).
Qed.

(** A step that only reads. *)
Lemma inv_read s order t q p p' :
  inv s order → threads s !! t = Some (q, p) → ¬ is_done p → ¬ is_done p' →
  pc_ok s (snd (serve New order)) t q p' →
  inv (mkServer (go s t q p') (writer s) (readers s) (ext s)) order.
Proof.
  intros Hinv Ht Hp Hp' Hok.
  pose proof Hinv as (Hlin & Hpc & Hrw). eapply inv_move; [done| |done|done| | | |].
  - by eapply not_done_start.
  - apply Hlin.
  - by apply (pc_ok_same s).
  - intros t' q' p0 _ Ht'. apply (pc_ok_same s); [done..|]. by apply Hpc.
  - done.
Qed.

(** What a reader reads is what the sequential order left. *)
Lemma reader_memory s order t q :
  inv s order → reading s t q → ext s = snd (serve New order).
Proof. intros (Hlin & _ & Hrw) [Hin _]. apply Hlin, Hrw. set_solver. Qed.

Lemma inv_step s s' order : inv s order → step s s' → ∃ more, inv s' (order ++ more).
Proof.
  intros Hinv Hstep. pose proof Hinv as (Hlin & Hpc & Hrw). set (e := snd (serve New order)) in *.
  inversion Hstep as
    [t q Ht|t q r Ht Hq|t q c text reply Ht Hq Hw Hr|t q c text reply Ht Hq|t q c text reply Ht Hq
    |t q c text reply n Ht Hq|t q c text reply n Ht Hq|t q Ht Hq Hw|t q Ht|t q gc Ht|t q gc lg Ht
    |t q gc lg fc Ht|t q x Ht]; subst s'; try unfold at_pc in Ht.
  - exists []. rewrite app_nil_r. eapply (inv_move _ _ _ t q Start); [done| |by intros []|done| |done| |done].
    + by rewrite Ht.
    + apply Hlin.
    + intros t' q' p0 _ Ht'. apply (pc_ok_same s); [done..|]. by apply Hpc.
  - exists [(t, q)]. pose proof (handle_program e q) as Hh. rewrite Hq in Hh. cbn in Hh.
    eapply inv_finish; [done|done|by intros []| | | |done]; fold e; rewrite Hh; [done|apply Hlin|].
    intros t' q' p0 _ Ht'. apply (pc_ok_same s); [done..|]. by apply Hpc.
  - exists []. rewrite app_nil_r. eapply (inv_move _ _ _ t q Locked); [done| |by intros []|done|done| | |done].
    + apply (not_done_start _ _ _ _ Ht). by intros [].
    + split; [done|]. exists c, text, reply. split; [done|]. by apply Hlin.
    + intros t' q' p0 _ Ht'. apply pc_ok_outside. by eapply nobody.
  - exists []. rewrite app_nil_r. specialize (Hpc _ _ _ Ht). cbn in Hpc.
    destruct (writing_inv _ _ _ _ _ _ _ _ Hpc Hq) as [Hw Hx]. eapply inv_write; [done|done|by intros []|done|by intros []|].
    split; [done|]. exists c, text, reply. split; [done|]. cbn. by rewrite Hx.
  - exists []. rewrite app_nil_r. specialize (Hpc _ _ _ Ht). cbn in Hpc.
    destruct (writing_inv _ _ _ _ _ _ _ _ Hpc Hq) as [Hw Hx]. eapply inv_write; [done|done|by intros []|done|by intros []|].
    split; [done|]. exists c, text, reply. split; [done|]. cbn. by rewrite Hx.
  - exists []. rewrite app_nil_r. specialize (Hpc _ _ _ Ht). cbn in Hpc.
    destruct (writing_inv _ _ _ _ _ _ _ _ Hpc Hq) as [Hw [Hx Hn]]. eapply inv_write; [done|done|by intros []|done|by intros []|].
    split; [done|]. exists c, text, reply. split; [done|]. cbn. by rewrite Hx.
  - exists [(t, q)]. specialize (Hpc _ _ _ Ht). cbn in Hpc.
    destruct (writing_inv _ _ _ _ _ _ _ _ Hpc Hq) as [Hw [Hx Hn]].
    pose proof (handle_program e q) as Hh. rewrite Hq in Hh. cbn in Hh.
    eapply inv_finish; [done|done|by intros []| | | |done]; fold e; rewrite Hh; [by rewrite Hn|done|].
    intros t' q' p0 Hne Ht'. apply pc_ok_outside. by eapply alone.
  - exists []. rewrite app_nil_r. eapply (inv_move _ _ _ t q RLocked); [done| |by intros []|done| | | |done].
    + apply (not_done_start _ _ _ _ Ht). by intros [].
    + apply Hlin.
    + split; [cbn; set_solver|done].
    + intros t' q' p0 _ Ht'. specialize (Hpc _ _ _ Ht').
      destruct p0; cbn in *; unfold writing, reading in *; cbn; try done;
        rewrite ?elem_of_union; try naive_solver; rewrite Hw in Hpc; naive_solver.
  - exists []. rewrite app_nil_r. specialize (Hpc _ _ _ Ht). cbn in Hpc. eapply inv_read; [done|done|by intros []|by intros []|].
    cbn. rewrite (reader_memory _ _ _ _ Hinv Hpc). naive_solver.
  - exists []. rewrite app_nil_r. specialize (Hpc _ _ _ Ht). cbn in Hpc. eapply inv_read; [done|done|by intros []|by intros []|].
    cbn. rewrite (reader_memory _ _ _ _ Hinv (proj1 Hpc)). naive_solver.
  - exists []. rewrite app_nil_r. specialize (Hpc _ _ _ Ht). cbn in Hpc. eapply inv_read; [done|done|by intros []|by intros []|].
    cbn. rewrite (reader_memory _ _ _ _ Hinv (proj1 Hpc)). naive_solver.
  - exists []. rewrite app_nil_r. specialize (Hpc _ _ _ Ht). cbn in Hpc. eapply inv_read; [done|done|by intros []|by intros []|].
    cbn. rewrite (reader_memory _ _ _ _ Hinv (proj1 Hpc)). destruct Hpc as (? & -> & -> & ->).
    split; [done|]. by destruct (snd _).
  - exists [(t, q)]. specialize (Hpc _ _ _ Ht) as Hpt. cbn in Hpt. destruct Hpt as [[Hin Hq] ->].
    pose proof (handle_program e q) as Hh. rewrite Hq in Hh. cbn in Hh.
    eapply inv_finish; [done|done|by intros []| | | |]; fold e; rewrite ?Hh; [done|apply Hlin| |].
    + intros t' q' p0 Hne Ht'. specialize (Hpc _ _ _ Ht').
      assert (writer s = None) as Hw by (apply Hrw; set_solver).
      destruct p0; cbn in *; unfold writing, reading in *; cbn; try done;
        rewrite ?elem_of_difference, ?not_elem_of_singleton; try naive_solver; rewrite Hw in Hpc; naive_solver.
    + intros _. cbn. apply Hrw. set_solver.
Qed.

Lemma inv_start : inv start [].
Proof.
  split; [|split]; [split_and!|done|done]; [constructor| |done].
  intros t q r. cbn. split; [done|]. by intros ?%elem_of_nil.
Qed.

Lemma inv_steps s s' order : inv s order → rtc step s s' → ∃ more, inv s' (order ++ more).
Proof.
  intros Hinv Hsteps. revert order Hinv. induction Hsteps as [s|s s1 s' Hstep _ IH]; intros order Hinv.
  - exists []. by rewrite app_nil_r.
  - destruct (inv_step _ _ _ Hinv Hstep) as [m1 H1]. destruct (IH _ H1) as [m2 H2].
    exists (m1 ++ m2). by rewrite app_assoc.
Qed.

(** How many requests of a sequence reach a counter's critical section. *)
Definition is_update (c : counter) (q : request) : bool :=
  match program_of q, c with
  | Update Greeting _ _, Greeting | Update Farewell _ _, Farewell => true
  | _, _ => false
  end.
Definition updates (c : counter) (order : list (nat * request)) : Z :=
  Z.of_nat (length (filter (λ tq, is_update c (snd tq) = true) order)).

Lemma updates_snoc c order t q :
  updates c (order ++ [(t, q)]) = (updates c order + if is_update c q then 1 else 0)%Z.
Proof.
  unfold updates. rewrite filter_app, filter_cons, length_app, filter_nil. cbn [snd].
  case_decide as Hu; destruct (is_update c q); try done; cbn [length]; lia.
Qed.

Lemma serve_count c order : count c (snd (serve New order)) = swrap64 (updates c order).
Proof.
  induction order as [|[t q] order IH] using rev_ind; [by destruct c|].
  rewrite serve_snoc, updates_snoc. cbn [snd]. rewrite handle_program.
  set (e := snd (serve New order)) in *. unfold is_update.
  destruct (program_of q) as [r|[] text reply|]; destruct c; cbn in *;
    rewrite ?Z.add_0_r; try done; rewrite IH; apply swrap64_add.
Qed.

Lemma serve_answer order i t q :
  order !! i = Some (t, q) →
  (t, q, fst (run_program (program_of q) (snd (serve New (take i order))))) ∈ fst (serve New order).
Proof.
  intros Hi. rewrite <- (take_drop_middle _ _ _ Hi) at 2. generalize (drop (S i) order) as rest.
  generalize (take i order) as pre. clear. intros pre rest. rewrite cons_middle, app_assoc.
  induction rest as [|[t' q'] rest IH] using rev_ind.
  - rewrite app_nil_r, serve_snoc, handle_program. set_solver.
  - rewrite app_assoc, serve_snoc. set_solver.
Qed.

(** ** Properties *)

(** C3: whatever the interleaving of the requests' memory accesses, the server is
    linearizable: the finished requests can be put in an order in which running
    the handlers one after the other gives every one of them the response it got
    and leaves the memory as it is whenever no writer holds the lock.  As the
    server goes on the order only grows at its end, so it respects the order of
    requests that did not overlap. *)
Theorem server_linearizable (s s' : server) :
  reachable s → rtc step s s' →
  ∃ order more, linearized s order ∧ linearized s' (order ++ more).
Proof.
  intros Hs Hsteps. destruct (inv_steps _ _ _ inv_start Hs) as [order H1].
  destruct (inv_steps _ _ _ H1 Hsteps) as [more H2]. exists order, more.
  split; [apply H1|apply H2].
Qed.

(** C25: no greeting number is lost, skipped or given twice.  In every reachable
    state the finished requests can be ordered so that the request which is the
    n-th of them to update a counter was answered with the number n (as an
    [int]); and between writers each counter is the number of updates. *)
Theorem numbers_sequential (s : server) :
  reachable s →
  ∃ order, linearized s order ∧
    (∀ i t q c text reply, order !! i = Some (t, q) → program_of q = Update c text reply →
       threads s !! t = Some (q, Done (reply (swrap64 (updates c (take i order) + 1))))) ∧
    (writer s = None → ∀ c, count c (ext s) = swrap64 (updates c order)).
Proof.
  intros Hs. destruct (inv_steps _ _ _ inv_start Hs) as [order [Hlin _]].
  exists order. split; [done|]. destruct Hlin as (Hnd & Hdone & Hext). split.
  - intros i t q c text reply Hi Hq. apply Hdone. pose proof (serve_answer _ _ _ _ Hi) as Hin.
    rewrite Hq in Hin. cbn [run_program fst] in Hin. cbn [app] in *.
    replace (swrap64 (updates c (take i order) + 1)) with (count c (incr c (snd (serve New (take i order)))));
      [done|].
    rewrite <- swrap64_add, <- (serve_count c). by destruct c.
  - intros Hw c. rewrite Hext by done. apply serve_count.
Qed.

(** The data of a reply. *)
Definition reply_json (c : counter) (text : string) (n : Z) : json :=
  match c with Greeting => SayHelloResponse_json text n | Farewell => SayGoodbyeResponse_json text n end.

(** What a message asks of a command: the name, and the text it is to be told. *)
Definition asked (c : counter) (m : string) : result (string * string) :=
  match c with
  | Greeting =>
    match Decode_strict "SayHelloRequest" SayHelloRequest_fields "" m with
    | Ok name => Ok (name, "Hello, " +:+ name +:+ "! Welcome to Flare Confidential Compute.")
    | Err err => Err err
    end
  | Farewell =>
    match decode_goodbye m with
    | Ok (name, reason) => Ok (name, "Goodbye, " +:+ name +:+ "! Reason: " +:+ reason)
    | Err err => Err err
    end
  end.
(** The response that carries a result for an action, and the two kinds of result. *)
Definition result_response (action : ActionData) (df : DataFixed) (data : string) (status : Z) (log : string) : response :=
  mkResponse StatusOK (marshal_action_result
    (mkActionResult (act_ID action) (act_SubmissionTag action) Version (OPType df) (OPCommand df) data status log)).
Inductive command_answer (c : counter) (action : ActionData) (df : DataFixed) (e : Extension) :
    response → Extension → Prop :=
  | answer_undecoded err :
      asked c (OriginalMessage df) = Err err →
      command_answer c action df e
        (result_response action df "" 0 ("error: decoding request: " +:+ err_text err)) e
  | answer_nameless text :
      asked c (OriginalMessage df) = Ok ("", text) →
      command_answer c action df e (result_response action df "" 0 "error: name must not be empty") e
  | answer_told name text :
      asked c (OriginalMessage df) = Ok (name, text) → name ≠ "" →
      command_answer c action df e
        (result_response action df (json_compact (reply_json c text (swrap64 (count c e + 1)))) 1 "ok")
        (set_last c text (incr c e)).

Lemma hello_contract action df e :
  let '(ar, e') := processSayHello e action df in
  command_answer Greeting action df e (mkResponse StatusOK (marshal_action_result ar)) e'.
Proof.
  unfold processSayHello. destruct (Decode_strict _ _ _ _) as [name|err] eqn:Hd; [case_decide as Hn|].
  - eapply answer_nameless. cbn. by rewrite Hd, Hn.
  - apply (answer_told Greeting _ _ _ name); [|done]. cbn. by rewrite Hd.
  - apply (answer_undecoded Greeting _ _ _ err). cbn. by rewrite Hd.
Qed.
Lemma goodbye_contract action df e :
  let '(ar, e') := processSayGoodbye e action df in
  command_answer Farewell action df e (mkResponse StatusOK (marshal_action_result ar)) e'.
Proof.
  unfold processSayGoodbye. destruct (decode_goodbye _) as [[name reason]|err] eqn:Hd; [case_decide as Hn|].
  - eapply answer_nameless. cbn. by rewrite Hd, Hn.
  - apply (answer_told Farewell _ _ _ name); [|done]. cbn. by rewrite Hd.
  - apply (answer_undecoded Farewell _ _ _ err). cbn. by rewrite Hd.
Qed.

(** C26: the response contract of [POST /action]: 400 for a body that is no action
    or whose message does not parse, 501, naming the type or the command, for an
    operation other than GREETING/SAY_HELLO and GREETING/SAY_GOODBYE, and otherwise
    200 with a result that echoes the action's id, submission tag, type and command
    under the extension's version.  A message with a name is told "Hello" or
    "Goodbye" under status 1 and log "ok", with the next number, and the counter and
    the last text of its command are set to these; a message without a name, or that
    does not decode, gets status 0, no data and a log that says so, and every
    response but the first leaves the state alone. *)
Theorem action_contract (e : Extension) (body_ : string) :
  let '(r, e') := actionHandler e body_ in
  match decode_action body_ with
  | Err _ => status r = StatusBadRequest ∧ e' = e
  | Ok action =>
    match parse_data_fixed (act_Message action) with
    | Err _ => status r = StatusBadRequest ∧ e' = e
    | Ok df =>
      if decide (OPType df ≠ ToHash OPTypeGreeting) then
        status r = StatusNotImplemented ∧ has_prefix (body r) "unsupported op type: " = true ∧ e' = e
      else if decide (OPCommand df = ToHash OPCommandSayHello) then command_answer Greeting action df e r e'
      else if decide (OPCommand df = ToHash OPCommandSayGoodbye) then command_answer Farewell action df e r e'
      else status r = StatusNotImplemented ∧ has_prefix (body r) "unsupported op command: " = true ∧ e' = e
    end
  end.
Proof.
  unfold actionHandler. destruct (decode_action body_) as [action|]; [|done]. unfold processAction.
  destruct (parse_data_fixed _) as [df|]; [|done]. unfold processGreeting.
  pose proof (hello_contract action df e) as Hh. pose proof (goodbye_contract action df e) as Hg.
  destruct (processSayHello e action df), (processSayGoodbye e action df).
  by repeat case_decide.
Qed.

(** ** The step relation, executed

    The next step of a thread, when it can take one. *)
Definition advance (t : nat) (s : server) : option server :=
  '(q, p) ← threads s !! t;
  let update c text reply :=
    match p with
    | Start => if decide (writer s = None ∧ readers s = ∅)
               then Some (mkServer (go s t q Locked) (Some t) (readers s) (ext s)) else None
    | Locked => Some (mkServer (go s t q Incremented) (writer s) (readers s) (incr c (ext s)))
    | Incremented => Some (mkServer (go s t q (Numbered (count c (ext s)))) (writer s) (readers s) (ext s))
    | Numbered n => Some (mkServer (go s t q (Texted n)) (writer s) (readers s) (set_last c text (ext s)))
    | Texted n => Some (mkServer (go s t q (Done (reply n))) None (readers s) (ext s))
    | _ => None
    end in
  match program_of q with
  | Local r => match p with
               | Start => Some (mkServer (go s t q (Done r)) (writer s) (readers s) (ext s))
               | _ => None
               end
  | Update c text reply => update c text reply
  | ReadState =>
    match p with
    | Start => if decide (writer s = None)
               then Some (mkServer (go s t q RLocked) (writer s) ({[t]} ∪ readers s) (ext s)) else None
    | RLocked => Some (mkServer (go s t q (Read1 (greetingCount (ext s)))) (writer s) (readers s) (ext s))
    | Read1 gc => Some (mkServer (go s t q (Read2 gc (lastGreeting (ext s)))) (writer s) (readers s) (ext s))
    | Read2 gc lg =>
      Some (mkServer (go s t q (Read3 gc lg (farewellCount (ext s)))) (writer s) (readers s) (ext s))
    | Read3 gc lg fc =>
      Some (mkServer (go s t q (Read4 (mkExtension gc lg fc (lastFarewell (ext s)))))
              (writer s) (readers s) (ext s))
    | Read4 e => Some (mkServer (go s t q (Done (stateHandler e))) (writer s) (readers s ∖ {[t]}) (ext s))
    | _ => None
    end
  end.
Inductive event := Arrive (t : nat) (q : request) | Advance (t : nat).
Definition perform (ev : event) (s : server) : option server :=
  match ev with
  | Arrive t q => if decide (threads s !! t = None)
                  then Some (mkServer (go s t q Start) (writer s) (readers s) (ext s)) else None
  | Advance t => advance t s
  end.
Fixpoint perform_all (evs : list event) (s : server) : option server :=
  match evs with [] => Some s | ev :: evs => s' ← perform ev s; perform_all evs s' end.

Lemma advance_step t s s' : advance t s = Some s' → step s s'.
Proof.
  unfold advance. destruct (threads s !! t) as [[q p]|] eqn:Ht; [|done]. cbn [mbind option_bind].
  destruct (program_of q) as [r|c text reply|] eqn:Hq; destruct p; try done; try case_decide as Hl;
    intros [= <-]; [eapply step_local|eapply step_lock|eapply step_incr|eapply step_number|eapply step_text
      |eapply step_unlock|eapply step_rlock|eapply step_read1|eapply step_read2|eapply step_read3
      |eapply step_read4|eapply step_runlock]; try done; apply Hl.
Qed.

Lemma perform_all_steps evs s s' : perform_all evs s = Some s' → rtc step s s'.
Proof.
  revert s. induction evs as [|ev evs IH]; intros s; cbn; [by intros [= <-]|].
  destruct (perform ev s) as [s1|] eqn:H1; [|done]. cbn. intros Hs. apply (rtc_l _ _ s1); [|by apply IH].
  destruct ev as [t q|t]; cbn in H1; [|by eapply advance_step].
  case_decide; [|done]. injection H1 as <-. by apply step_arrive.
Qed.
End server.

(** ** A concrete run

    Messages are ["H" + request] for SAY_HELLO and ["G" + name] for SAY_GOODBYE. *)

#[export] Instance sim_server : TeeServer := {|
  decode_action b := Ok (mkAction "id" "submit" b);
  parse_data_fixed m :=
    if has_prefix m "H" then Ok (mkDataFixed "GREETING" "SAY_HELLO" (str_drop 1 m))
    else if has_prefix m "G" then Ok (mkDataFixed "GREETING" "SAY_GOODBYE" (str_drop 1 m))
    else Err (ErrMsg "no data");
  ToHash s := s;
  decode_goodbye m := Ok (m, "done");
  marshal_action_result ar := ar_Log ar +:+ " " +:+ ar_Data ar;
  unmarshal_action_result _ := Err (ErrMsg "no result");
|}.

Definition quoted (s : string) : string := quote +:+ s +:+ quote.
Definition hello (name : string) : request := PostAction ("H{" +:+ quoted "name" +:+ ":" +:+ quoted name +:+ "}").

(** Two SAY_HELLO requests that overlap, a SAY_GOODBYE and a read of the state. *)
Definition overlap : list event :=
  [Arrive 1 (hello "Al"); Arrive 2 (hello "Bo"); Advance 2; Advance 2; Arrive 3 (PostAction "GCy"); Advance 2;
   Advance 2; Advance 2; Arrive 4 GetState; Advance 4; Advance 4; Advance 4; Advance 4; Advance 4; Advance 4;
   Advance 3; Advance 3; Advance 3; Advance 3; Advance 3; Advance 1; Advance 1].
Definition finish_1 : list event := [Advance 1; Advance 1; Advance 1].
Definition midway : server := default start (perform_all overlap start).
Definition at_end : server := default start (perform_all finish_1 midway).

Lemma midway_reachable : reachable midway.
Proof.
  unfold midway. destruct (perform_all overlap start) as [s|] eqn:Hs; [|apply rtc_refl].
  by apply (perform_all_steps overlap).
Qed.
Lemma midway_at_end : rtc step midway at_end.
Proof.
  unfold at_end. destruct (perform_all finish_1 midway) as [s|] eqn:Hs;
    [by apply (perform_all_steps finish_1)|exfalso; by vm_compute in Hs].
Qed.

(** The overlapping requests got the numbers 2 and 1; the reader saw the first. *)
Example overlap_runs :
  count Greeting (ext at_end) = 2%Z ∧ count Farewell (ext at_end) = 1%Z ∧ writer at_end = None ∧
  (snd <$> threads at_end !! 1) = Some (Done (fst (handle (mkExtension 1 "" 0 "") (hello "Al")))) ∧
  (snd <$> threads at_end !! 4) = Some (Done (stateHandler (mkExtension 1 (greeting_of "Bo") 0 ""))).
Proof. vm_compute. done. Qed.

Lemma server_linearizable_witness :
  reachable midway ∧ rtc step midway at_end ∧
  ∃ order more, linearized midway order ∧ linearized at_end (order ++ more).
Proof.
  split; [apply midway_reachable|split; [apply midway_at_end|]].
  apply (server_linearizable midway at_end); [apply midway_reachable|apply midway_at_end].
Defined.

Lemma numbers_sequential_witness :
  reachable at_end ∧
  ∃ order, linearized at_end order ∧
    (∀ i t q c text reply, order !! i = Some (t, q) → program_of q = Update c text reply →
       threads at_end !! t = Some (q, Done (reply (swrap64 (updates c (take i order) + 1))))) ∧
    (writer at_end = None → ∀ c, count c (ext at_end) = swrap64 (updates c order)).
Proof.
  assert (reachable at_end) as Hr.
  { unfold reachable; etrans; [apply midway_reachable|apply midway_at_end]. }
  split; [exact Hr|]. apply (numbers_sequential at_end Hr).
Defined.
