(* ===== verification/Conformance.v ===== *)
(** * Two extensions, one contract: Go against Python

    docs/extension-contract.md asks every implementation for the same answers, and for
    the same bytes in [data], which the node signs.  The Go server of [ExtServer] and
    the Python server of [PyServer] on the same requests: where they agree, where
    the bytes differ, and where the Python server does not answer. *)

From S2P Require Import Prelude GoStrings GoText Json Js Py PyServer Platform Sim ExtServer.
From stdpp Require Import options.
Set Default Proof Using "Type*".

(** ** Text both write alike *)

(** Go escapes these three for HTML. *)
Definition marked (c : ascii) : bool := bool_decide (c ∈ ["<"%char; ">"%char; "&"%char]).
Definition plain_text (s : string) : Prop := forallb printable (bytes s) = true ∧ forallb (λ c, negb (marked c)) (bytes s) = true.

Lemma chars_printable s : forallb printable (bytes s) = true → chars s = (λ c, ([c], N_of_ascii c)) <$> bytes s.
Proof.
  unfold chars. rewrite len_bytes. induction (bytes s) as [|c l IH]; [done|]. cbn [forallb length].
  intros [Hc Hl]%andb_prop. cbn [code_points].
  assert (surrogate_head (c :: l) = None ∧ decode_rune (c :: l) = (N_of_ascii c, 1)) as [-> ->].
  { clear -Hc. destruct c as [[] [] [] [] [] [] [] []]; try discriminate Hc; destruct l as [|? [|? ?]]; done. }
  cbn [take drop]. rewrite drop_0. cbn [fmap list_fmap]. f_equal. by apply IH.
Qed.
Lemma dumps_char_printable c :
  printable c = true → dumps_char [c] (N_of_ascii c) = if marked c then [c] else json_escape c.
Proof. destruct c as [[] [] [] [] [] [] [] []]; try discriminate; reflexivity. Qed.
Lemma marked_escape c : marked c = true → length (json_escape c) = 6.
Proof. destruct c as [[] [] [] [] [] [] [] []]; try discriminate; reflexivity. Qed.

Definition dumped (c : ascii) : list ascii := if marked c then [c] else json_escape c.
Lemma dumps_string_printable s :
  forallb printable (bytes s) = true → dumps_string s = quote +:+ str (bytes s ≫= dumped) +:+ quote.
Proof.
  intros Hs. unfold dumps_string. rewrite chars_printable by done. do 3 f_equal.
  induction (bytes s) as [|c l IH]; [done|]. cbn [forallb] in Hs. apply andb_prop in Hs as [Hc Hl].
  cbn [fmap list_fmap mbind list_bind]. rewrite dumps_char_printable by done. f_equal. by apply IH.
Qed.
Lemma json_string_printable s :
  forallb printable (bytes s) = true → json_string s = quote +:+ str (bytes s ≫= json_escape) +:+ quote.
Proof. intros Hs. unfold json_string. by rewrite concat_runes_printable. Qed.

Lemma dumped_same l : forallb (λ c, negb (marked c)) l = true → l ≫= dumped = l ≫= json_escape.
Proof.
  induction l as [|c l IH]; [done|]. cbn [forallb mbind list_bind]. intros [Hc Hl]%andb_prop.
  unfold dumped at 1. destruct (marked c); [done|]. f_equal. by apply IH.
Qed.
Lemma dumped_shorter l :
  length (l ≫= dumped) ≤ length (l ≫= json_escape) ∧
  (length (l ≫= dumped) = length (l ≫= json_escape) → forallb (λ c, negb (marked c)) l = true).
Proof.
  induction l as [|c l [IH1 IH2]]; [done|]. cbn [forallb mbind list_bind]. rewrite !length_app.
  unfold dumped at 1 3. destruct (marked c) eqn:Hc; cbn [negb andb length].
  - rewrite marked_escape by done. split; [lia|]. intros H. change (list_bind _ _ dumped l) with (l ≫= dumped) in H.
    change (list_bind _ _ json_escape l) with (l ≫= json_escape) in H. lia.
  - split; [by apply Nat.add_le_mono_l|]. intros H. apply IH2. by apply Nat.add_cancel_l in H.
Qed.

(** Both write a text alike exactly when it is plain. *)
Lemma same_string s :
  forallb printable (bytes s) = true →
  (json_string s = dumps_string s ↔ forallb (λ c, negb (marked c)) (bytes s) = true) ∧
  len (dumps_string s) ≤ len (json_string s) ∧
  (len (json_string s) = len (dumps_string s) → json_string s = dumps_string s).
Proof.
  intros Hs. rewrite dumps_string_printable, json_string_printable by done.
  destruct (dumped_shorter (bytes s)) as [Hle Heq].
  rewrite !len_app, !len_bytes, !bytes_str. split_and!; [split|lia|].
  - intros H. apply Heq. apply (f_equal len) in H. rewrite !len_app, !len_bytes, !bytes_str in H. lia.
  - intros H. by rewrite dumped_same.
  - intros H. rewrite dumped_same; [done|]. apply Heq. lia.
Qed.

(** ** Reading a request *)

Lemma printable_escape c : printable c = true → forallb printable (json_escape c) = true.
Proof. destruct c as [[] [] [] [] [] [] [] []]; try discriminate; reflexivity. Qed.
Lemma printable_json_string s : forallb printable (bytes s) = true → forallb printable (bytes (json_string s)) = true.
Proof.
  intros Hs. rewrite json_string_printable by done. rewrite !bytes_app, bytes_str, !forallb_app.
  assert (forallb printable (bytes s ≫= json_escape) = true) as ->; [|done].
  induction (bytes s) as [|c l IH]; [done|]. cbn [forallb mbind list_bind] in *. apply andb_prop in Hs as [Hc Hl].
  rewrite forallb_app, printable_escape by done. by apply IH.
Qed.

(** A printable text is read as UTF-8, as it stands. *)
Lemma utf8_strict_printable l : forallb printable l = true → utf8_strict (length l) l = true.
Proof.
  induction l as [|c l IH]; [done|]. cbn [forallb length]. intros [Hc Hl]%andb_prop. cbn [utf8_strict].
  assert (surrogate_head (c :: l) = None ∧ utf8_chunk (c :: l) = (true, 1)) as [-> ->].
  { clear -Hc. destruct c as [[] [] [] [] [] [] [] []]; try discriminate Hc; destruct l as [|? [|? ?]]; done. }
  cbn [drop andb]. rewrite drop_0. by apply IH.
Qed.
Lemma decode_printable l : forallb printable l = true → decode_bytes l = Some l.
Proof.
  intros Hl. assert (detect_encoding l = Utf8) as He.
  { assert (∀ i, bool_decide (l !! i = Some (byte 0)) = false) as Hz.
    { intros i. apply bool_decide_eq_false. intros Hi%list_elem_of_lookup_2. rewrite forallb_forall in Hl.
      apply list_elem_of_In in Hi. by specialize (Hl _ Hi). }
    unfold detect_encoding. rewrite !Hz. destruct l as [|c l]; [done|]. cbn [forallb] in Hl. apply andb_prop in Hl as [Hc _].
    assert (∀ p a, a :: p ∈ [BOM_UTF32 true; BOM_UTF32 false; BOM_UTF16 true; BOM_UTF16 false; BOM_UTF8] →
      starts (a :: p) (c :: l) = false) as Hs.
    { intros p a Hp. assert (a ≠ c) as Hne.
      { repeat (apply elem_of_cons in Hp as [[= -> ->]|Hp]; [intros <-; by vm_compute in Hc|]). by apply elem_of_nil in Hp. }
      unfold starts. cbn [strip_prefix]. rewrite decide_False by done. by apply bool_decide_eq_false; intros [? ?]. }
    unfold BOM_UTF32, BOM_UTF16, BOM_UTF8 in *. cbn [fmap list_fmap] in *. rewrite !Hs by set_solver. cbn [orb].
    by repeat case_match. }
  unfold decode_bytes. rewrite He. unfold decode_utf8. by rewrite utf8_strict_printable.
Qed.

Lemma fromhex_hex l : fromhex_b (l ≫= hex_byte) = Some l.
Proof.
  induction l as [|c l IH]; [done|]. cbn [mbind list_bind]. change (list_bind _ _ hex_byte l) with (l ≫= hex_byte).
  unfold hex_byte at 1. cbn [app fromhex_b].
  assert (py_space (digit_char (N_of_ascii c / 16)) = false) as -> by (destruct c as [[] [] [] [] [] [] [] []]; reflexivity).
  assert (N_of_ascii c < 256)%N by apply N_ascii_bounded.
  rewrite !digit_val_char by first [apply N.mod_upper_bound; lia | apply N.Div0.div_lt_upper_bound; lia].
  cbn [mbind option_bind]. rewrite IH. cbn [mbind option_bind].
  by rewrite (N.mul_comm _ 16), <- N.div_mod', ascii_N_embedding.
Qed.
Lemma hex_no_0X b : trim_prefix (hex_encode b) "0X" = hex_encode b.
Proof.
  apply trim_prefix_no. unfold has_prefix, hex_encode. rewrite bytes_str. destruct (bytes b) as [|c l]; [done|].
  cbn [mbind list_bind]. destruct c as [[] [] [] [] [] [] [] []]; reflexivity.
Qed.

(** ** The two servers *)

(** What the contract says of tee-node's encodings: §4, and its bytes32. *)
Definition padded (s : string) : string := str (bytes s ++ replicate (32 - len s) (byte 0)).
Definition result_json `{!GoEthereum, !GoEthereumText, !TeeServer} (ar : ActionResultData) : json :=
  JObj [("id", JStr (Hash_MarshalText (ar_ID ar))); ("submissionTag", JStr (ar_SubmissionTag ar));
        ("status", JInt (ar_Status ar)); ("log", JStr (ar_Log ar)); ("opType", JStr (Hash_MarshalText (ar_OPType ar)));
        ("opCommand", JStr (Hash_MarshalText (ar_OPCommand ar))); ("additionalResultStatus", JStr "0x");
        ("version", JStr (ar_Version ar)); ("data", JStr (bytes_to_hex (ar_Data ar)))].
Class TeeServerLaws `{!GoEthereum, !GoEthereumText, !TeeServer} := {
  ToHash_padded s : len s ≤ 32 → ToHash s = padded s;
  Hash_text h : Hash_MarshalText h = bytes_to_hex h;
  marshal_result ar : marshal_action_result ar = json_compact (result_json ar);
}.
(** A Python [int] is written in decimal. *)
Class PyNumbers `{!PyEngine} := { py_int_text z : py_number_text (itoa z) = itoa z }.

Section conformance.
Context `{Geth : !GoEthereum, Txt : !GoEthereumText, JErr : !JsonErrors, Srv : !TeeServer, Laws : !TeeServerLaws}.
Context `{Uni : !Unicode, Eng : !PyEngine, Num : !PyNumbers, Abi : !EthAbi}.

(** Both servers read the same action from a body: its fields for Go, and the
    members they are for Python. *)
Record reads_alike (body : string) (action : ActionData) (df : DataFixed) : Prop := {
  go_action : decode_action body = Ok action;
  go_fixed : parse_data_fixed (act_Message action) = Ok df;
  py_action : ∃ raw a, json_loads body = Return raw ∧ parse_action raw = Return a ∧
    PyServer.id a = JStr (Hash_MarshalText (act_ID action)) ∧ submission_tag a = JStr (act_SubmissionTag action) ∧
    message a = JStr (bytes_to_hex (act_Message action));
  py_fixed : ∃ raw d, json_loads (act_Message action) = Return raw ∧ PyServer.parse_data_fixed raw = Return d ∧
    op_type d = JStr (Hash_MarshalText (OPType df)) ∧ op_command d = JStr (Hash_MarshalText (OPCommand df)) ∧
    original_message d = JStr (bytes_to_hex (OriginalMessage df));
}.

(** The message of a SAY_HELLO with printable name, as [json.Marshal] writes it. *)
Definition hello_message (name : string) : string := json_compact (JObj [("name", JStr name)]).
Definition says_hello (df : DataFixed) (name : string) : Prop :=
  OPType df = ToHash OPTypeGreeting ∧ OPCommand df = ToHash OPCommandSayHello ∧
  OriginalMessage df = hello_message name ∧ forallb printable (bytes name) = true.
Definition says_goodbye (df : DataFixed) (name reason : string) : Prop :=
  OPType df = ToHash OPTypeGreeting ∧ OPCommand df = ToHash OPCommandSayGoodbye ∧
  decode_goodbye (OriginalMessage df) = Ok (name, reason) ∧ abi_decode_strings (OriginalMessage df) = inl (name, reason) ∧
  forallb printable (bytes name) = true ∧ forallb printable (bytes reason) = true.
Definition no_operation (df : DataFixed) : Prop :=
  ¬ (OPType df = ToHash OPTypeGreeting ∧
     (OPCommand df = ToHash OPCommandSayHello ∨ OPCommand df = ToHash OPCommandSayGoodbye)).

(** The counters agree, and Go's have room for [room] more. *)
Record related (room : Z) (e : Extension) (s : py_state) : Prop := {
  rel_greetings : greetingCount e = _greeting_count s;
  rel_greeting : lastGreeting e = _last_greeting s;
  rel_farewells : farewellCount e = _farewell_count s;
  rel_farewell : lastFarewell e = _last_farewell s;
  rel_room : (0 ≤ greetingCount e < 2 ^ 63 - room)%Z ∧ (0 ≤ farewellCount e < 2 ^ 63 - room)%Z;
}.

(** *** Python's side *)

Lemma hex_to_bytes_hex b : hex_to_bytes (JStr (bytes_to_hex b)) = Return b.
Proof using.
  unfold hex_to_bytes, bytes_to_hex. rewrite trim_prefix_app, hex_no_0X. case_decide as Hb.
  - apply (f_equal hex_decode) in Hb. rewrite hex_decode_encode in Hb. injection Hb as ->. done.
  - unfold hex_encode at 2. rewrite bytes_str, fromhex_hex. cbn. by rewrite str_bytes.
Qed.
Lemma normalize_hex_py b : _normalize (JStr (bytes_to_hex b)) = Return (bytes_to_hex b).
Proof using.
  unfold _normalize, py_truthy, bytes_to_hex, lower. rewrite bool_decide_true by done. rewrite toLowerCase_hex.
  by rewrite (proj2 (has_prefix_true _ "0x")) by by exists (hex_encode b).
Qed.
Lemma raises_hex b : bytes32_hex_raises (JStr (bytes_to_hex b)) = None.
Proof using. unfold bytes32_hex_raises. by rewrite hex_to_bytes_hex. Qed.

Lemma find_handler_cons t c t1 c1 h (f : Framework py_state) :
  find_handler t c ((t1, c1, h) :: f) = if decide (t1 = t ∧ c1 = c) then Some h else find_handler t c f.
Proof using.
  unfold find_handler. cbn [list_find fst snd]. repeat case_decide; try done; try tauto.
  by destruct (list_find _ f) as [[]|].
Qed.
Definition py_route (t c : string) : option (HandlerFunc py_state) :=
  if decide (t = padded OPTypeGreeting ∧ c = padded OPCommandSayHello) then Some handle_say_hello
  else if decide (t = padded OPTypeGreeting ∧ c = padded OPCommandSayGoodbye) then Some handle_say_goodbye
  else None.
Lemma lookup_py t c :
  lookup_handler (framework greeting_srv) (JStr (bytes_to_hex t)) (JStr (bytes_to_hex c)) = Return (py_route t c).
Proof using.
  unfold lookup_handler. rewrite !normalize_hex_py. cbn [mbind outcome_bind]. f_equal.
  cbn [framework greeting_srv]. rewrite !find_handler_cons.
  change (bytes32_hex ?x) with (bytes_to_hex (padded x)).
  assert (bytes_to_hex (padded OP_COMMAND_SAY_HELLO) ≠ EMPTY_BYTES32 ∧
          bytes_to_hex (padded OP_COMMAND_SAY_GOODBYE) ≠ EMPTY_BYTES32) as [Hb Hc] by by_decide.
  assert (∀ x y, bytes_to_hex (padded x) = bytes_to_hex t ∧ bytes_to_hex (padded y) = bytes_to_hex c ↔
    t = padded x ∧ c = padded y) as Hi.
  { intros x y. split; [intros [->%hex_0x_inj%eq_sym ->%hex_0x_inj%eq_sym]; done|intros [-> ->]; done]. }
  rewrite !(decide_ext _ _ _ _ (Hi _ _)). unfold py_route. repeat case_decide; try done; tauto.
Qed.

(** What the Python server does with an action both read alike. *)
Lemma py_process body action df s :
  reads_alike body action df →
  _process_action greeting_srv body s =
  match py_route (OPType df) (OPCommand df) with
  | None => (Return (501%Z, PyServer.Text "unsupported op type"), s)
  | Some h =>
    match h (JStr (bytes_to_hex (OriginalMessage df))) s with
    | (Raise e, s) => (Raise e, s)
    | (Return (data, status, err), s) =>
      (Return (200%Z, PyServer.Json (JObj
         [("id", JStr (Hash_MarshalText (act_ID action))); ("submissionTag", JStr (act_SubmissionTag action));
          ("status", JInt status); ("log", JStr (result_log status err));
          ("opType", JStr (Hash_MarshalText (OPType df))); ("opCommand", JStr (Hash_MarshalText (OPCommand df)));
          ("additionalResultStatus", JStr "0x"); ("version", JStr Version); ("data", JStr (or_text data "0x"))])), s)
    end
  end.
Proof using Laws.
  intros [_ _ (raw & a & Hraw & Ha & Hid & Htag & Hm) (raw' & d & Hraw' & Hd & Ht & Hc & Ho)].
  unfold _process_action, before_call. rewrite Hraw. cbn [catching mbind outcome_bind]. rewrite Ha.
  cbn [catching mbind outcome_bind]. rewrite Hm, hex_to_bytes_hex. cbn [catching mbind outcome_bind].
  rewrite Hraw'. cbn [mbind outcome_bind]. rewrite Hd. cbn [catching mbind outcome_bind].
  rewrite Ht, Hc, !Hash_text, lookup_py. cbn [mbind outcome_bind].
  destruct (py_route _ _) as [h|]; [|done]. rewrite Ho. destruct (h _ s) as [[[[data status] err]|e] s']; [|done].
  rewrite Ht, Hc, !Hash_text, !raises_hex. unfold to_dict. by rewrite Hid, Htag, Ht, Hc, !Hash_text.
Qed.

Lemma json_loads_hello n :
  forallb printable (bytes n) = true → json_loads (hello_message n) = Return (JObj [("name", JStr n)]).
Proof using.
  intros Hn. unfold json_loads, hello_message. rewrite decode_printable, str_bytes.
  - unfold json_text. rewrite (json_first_compact py_dialect) by done. reflexivity.
  - cbn [json_compact fmap list_fmap join]. rewrite !bytes_app, !forallb_app, !printable_json_string by done. done.
Qed.
Lemma decode_hello n :
  forallb printable (bytes n) = true → Decode_strict "SayHelloRequest" SayHelloRequest_fields "" (hello_message n) = Ok n.
Proof using.
  intros Hn. unfold Decode_strict, hello_message. rewrite (json_first_compact go_dialect) by done. reflexivity.
Qed.

(** *** Both sides *)

Definition with_data (d : string) (ar : ActionResultData) : ActionResultData :=
  mkActionResult (ar_ID ar) (ar_SubmissionTag ar) (ar_Version ar) (ar_OPType ar) (ar_OPCommand ar) d (ar_Status ar) (ar_Log ar).
(** Both servers advanced their counters and answered with results that differ at
    most in the data, [d] being Python's. *)
Definition answered_both (body_ : string) (room : Z) (e : Extension) (s : py_state) (ar : ActionResultData) (d : string) : Prop :=
  ∃ e' s', actionHandler e body_ = (mkResponse StatusOK (marshal_action_result ar), e') ∧
    _process_action greeting_srv body_ s = (Return (200%Z, PyServer.Json (result_json (with_data d ar))), s') ∧
    related (room - 1) e' s'.

Lemma related_less room e s : related room e s → related (room - 1) e s.
Proof using. intros [? ? ? ? ?]. split; [done..|lia]. Qed.
Lemma route_hello : py_route (padded OPTypeGreeting) (padded OPCommandSayHello) = Some handle_say_hello.
Proof using. unfold py_route. by rewrite decide_True. Qed.
Lemma route_goodbye : py_route (padded OPTypeGreeting) (padded OPCommandSayGoodbye) = Some handle_say_goodbye.
Proof using. unfold py_route. rewrite decide_False by (intros [_ H]; by vm_compute in H). by rewrite decide_True. Qed.
Lemma greeting_hashes :
  ToHash OPTypeGreeting = padded OPTypeGreeting ∧ ToHash OPCommandSayHello = padded OPCommandSayHello ∧
  ToHash OPCommandSayGoodbye = padded OPCommandSayGoodbye ∧ ToHash Version = padded Version.
Proof using Laws. split_and!; apply ToHash_padded; vm_compute; lia. Qed.

Lemma go_greeting body action df e :
  reads_alike body action df → OPType df = ToHash OPTypeGreeting →
  actionHandler e body = processGreeting e action df.
Proof using.
  intros [Ha Hf _ _] Ht. unfold actionHandler. rewrite Ha. unfold processAction. rewrite Hf. by rewrite decide_True.
Qed.

Lemma both_answer body action df room e s h gd status gerr e' data perr s' d :
  reads_alike body action df →
  actionHandler e body = (mkResponse StatusOK (marshal_action_result (buildResult action df gd status gerr)), e') →
  py_route (OPType df) (OPCommand df) = Some h →
  h (JStr (bytes_to_hex (OriginalMessage df))) s = (Return (data, status, perr), s') →
  or_text data "0x" = bytes_to_hex d → result_log status perr = ar_Log (buildResult action df gd status gerr) →
  related (room - 1) e' s' →
  answered_both body room e s (buildResult action df gd status gerr) d.
Proof using Laws.
  intros Hr Hgo Hroute Hh Hd Hlog Hs. exists e', s'. split_and!; [done| |done].
  rewrite (py_process _ _ _ s Hr), Hroute, Hh, Hd, Hlog. reflexivity.
Qed.

Lemma hello_handler name s :
  forallb printable (bytes name) = true →
  handle_say_hello (JStr (bytes_to_hex (hello_message name))) s =
  if decide (name = "") then (failure "name must not be empty", s)
  else let resp := SayHelloResponse_json (greeting_of name) (_greeting_count s + 1) in
       (compact_hex resp, mkState (_greeting_count s + 1) (greeting_of name) (_farewell_count s) (_last_farewell s)).
Proof using.
  intros Hn. unfold handle_say_hello. rewrite hex_to_bytes_hex, json_loads_hello by done.
  unfold assoc. cbn [fmap list_fmap fst filter list_filter]. rewrite decide_False by auto.
  cbn [least list_find]. rewrite decide_True by done. unfold py_truthy. cbn [snd compose fmap option_fmap option_map default from_option].
  unfold Datatypes.id. case_decide as Hd; [by rewrite bool_decide_false by auto|by rewrite bool_decide_true by done].
Qed.
Lemma goodbye_handler m name reason s :
  abi_decode_strings m = inl (name, reason) →
  handle_say_goodbye (JStr (bytes_to_hex m)) s =
  if decide (name = "") then (failure "name must not be empty", s)
  else let resp := SayGoodbyeResponse_json (farewell_of name reason) (_farewell_count s + 1) in
       (compact_hex resp, mkState (_greeting_count s) (_last_greeting s) (_farewell_count s + 1) (farewell_of name reason)).
Proof using.
  intros Hm. unfold handle_say_goodbye. rewrite hex_to_bytes_hex. unfold decode_say_goodbye. by rewrite Hm.
Qed.

Lemma hello_both body action df name room e s :
  reads_alike body action df → says_hello df name → related room e s → (1 ≤ room)%Z →
  ∃ ar d, answered_both body room e s ar d ∧
    if decide (name = "") then d = ar_Data ar
    else let resp := SayHelloResponse_json (greeting_of name) (greetingCount e + 1) in
         ar_Status ar = 1%Z ∧ ar_Data ar = json_compact resp ∧ d = json_dumps "," ":" resp.
Proof using Laws.
  intros Hr (Ht & Hc & Ho & Hn) Hs Hroom. destruct greeting_hashes as (Hth & Hch & _ & _).
  pose proof (go_greeting _ _ _ e Hr Ht) as Hgo. unfold processGreeting in Hgo. rewrite Hc, decide_True in Hgo by done.
  unfold processSayHello in Hgo. rewrite Ho, decode_hello in Hgo by done.
  pose proof (hello_handler name s Hn) as Hpy. rewrite <- Ho in Hpy.
  assert (py_route (OPType df) (OPCommand df) = Some handle_say_hello) as Hroute by by rewrite Ht, Hc, Hth, Hch, route_hello.
  case_decide as Hne.
  - eexists _, "". split; [by eapply (both_answer _ _ _ _ _ _ _ _ _ _ _ _ _ _ _ Hr Hgo Hroute Hpy), related_less|done].
  - destruct Hs as [Hg Hl Hf Hlf Hb]. rewrite swrap64_small in Hgo by lia. rewrite <- Hg in Hpy.
    eexists _, _. split; [eapply (both_answer _ _ _ _ _ _ _ _ _ _ _ _ _ _ _ Hr Hgo Hroute Hpy); [reflexivity|done|]|done].
    split; cbn; [done..|lia].
Qed.
Lemma goodbye_both body action df name reason room e s :
  reads_alike body action df → says_goodbye df name reason → related room e s → (1 ≤ room)%Z →
  ∃ ar d, answered_both body room e s ar d ∧
    if decide (name = "") then d = ar_Data ar
    else let resp := SayGoodbyeResponse_json (farewell_of name reason) (farewellCount e + 1) in
         ar_Status ar = 1%Z ∧ ar_Data ar = json_compact resp ∧ d = json_dumps "," ":" resp.
Proof using Laws.
  intros Hr (Ht & Hc & Hgd & Hpd & _ & _) Hs Hroom. destruct greeting_hashes as (Hth & Hhh & Hch & _).
  assert (ToHash OPCommandSayGoodbye ≠ ToHash OPCommandSayHello) as Hne' by (rewrite Hch, Hhh; by_decide).
  pose proof (go_greeting _ _ _ e Hr Ht) as Hgo. unfold processGreeting in Hgo.
  rewrite Hc, decide_False, decide_True in Hgo by done. unfold processSayGoodbye in Hgo. rewrite Hgd in Hgo.
  pose proof (goodbye_handler _ _ _ s Hpd) as Hpy.
  assert (py_route (OPType df) (OPCommand df) = Some handle_say_goodbye) as Hroute by by rewrite Ht, Hc, Hth, Hch, route_goodbye.
  case_decide as Hne.
  - eexists _, "". split; [by eapply (both_answer _ _ _ _ _ _ _ _ _ _ _ _ _ _ _ Hr Hgo Hroute Hpy), related_less|done].
  - destruct Hs as [Hg Hl Hf Hlf Hb]. rewrite swrap64_small in Hgo by lia. rewrite <- Hf in Hpy.
    eexists _, _. split; [eapply (both_answer _ _ _ _ _ _ _ _ _ _ _ _ _ _ _ Hr Hgo Hroute Hpy); [reflexivity|done|]|done].
    split; cbn; [done..|lia].
Qed.

(** *** The bytes of a reply *)

Definition unmarked (s : string) : Prop := forallb (λ c, negb (marked c)) (bytes s) = true.
Lemma unmarked_app a b : unmarked (a +:+ b) ↔ unmarked a ∧ unmarked b.
Proof using. unfold unmarked. by rewrite bytes_app, forallb_app, andb_true_iff. Qed.
Lemma printable_app a b :
  forallb printable (bytes a) = true → forallb printable (bytes b) = true → forallb printable (bytes (a +:+ b)) = true.
Proof using. intros. by rewrite bytes_app, forallb_app, andb_true_iff. Qed.

Lemma reply_bytes k text knum n :
  json_string k = dumps_string k → json_string knum = dumps_string knum → forallb printable (bytes text) = true →
  json_compact (JObj [(k, JStr text); (knum, JInt n)]) = json_dumps "," ":" (JObj [(k, JStr text); (knum, JInt n)]) ↔
  unmarked text.
Proof using Num.
  intros Hk Hknum Ht. destruct (same_string text Ht) as (Hiff & _ & Hlen). unfold unmarked. rewrite <- Hiff.
  cbn [json_compact json_dumps fmap list_fmap join JInt]. unfold JInt. cbn [json_compact json_dumps].
  rewrite py_int_text, <- Hk, <- Hknum. split; [|by intros ->].
  intros H. apply Hlen. apply (f_equal len) in H. rewrite !len_app in H. lia.
Qed.

Lemma greeting_text name :
  (forallb printable (bytes name) = true → forallb printable (bytes (greeting_of name)) = true) ∧
  (unmarked (greeting_of name) ↔ unmarked name).
Proof using.
  unfold greeting_of. split; [intros; by repeat apply printable_app|]. rewrite !unmarked_app. split; [tauto|]. intros ?.
  by split_and!.
Qed.
Lemma farewell_text name reason :
  (forallb printable (bytes name) = true → forallb printable (bytes reason) = true →
   forallb printable (bytes (farewell_of name reason)) = true) ∧
  (unmarked (farewell_of name reason) ↔ unmarked name ∧ unmarked reason).
Proof using.
  unfold farewell_of. split; [intros; by repeat apply printable_app|]. rewrite !unmarked_app. split; [tauto|]. intros [? ?].
  by split_and!.
Qed.

(** ** The same requests, one after the other *)

(** Requests both read alike: a read of the state; and an action whose operation
    neither has, or whose texts are plain. *)
Definition portable (q : request) : Prop :=
  match q with
  | GetState => True
  | PostAction b => ∃ action df, reads_alike b action df ∧
      (no_operation df ∨ (∃ name, says_hello df name ∧ unmarked name) ∨
       ∃ name reason, says_goodbye df name reason ∧ unmarked name ∧ unmarked reason)
  end.
Definition py_handle (s : py_state) (q : request) : outcome PyServer.answer * py_state :=
  match q with
  | GetState => handle_request greeting_srv "GET" "/state" "" s
  | PostAction b => handle_request greeting_srv "POST" "/action" b s
  end.
(** The same status; the same JSON value, which Go writes compactly, with a newline
    after a state; the text of a 501 is free. *)
Definition same_answer (r : response) (p : outcome PyServer.answer) : Prop :=
  ∃ a, p = Return a ∧ status r = a.1 ∧
    match a.2 with
    | PyServer.Json j => body r = json_compact j ∨ body r = json_compact j +:+ str [newline]
    | PyServer.Text _ => a.1 = StatusNotImplemented
    end.
Fixpoint go_answers (e : Extension) (qs : list request) : list response :=
  match qs with [] => [] | q :: qs => let '(r, e) := handle e q in r :: go_answers e qs end.
Fixpoint py_answers (s : py_state) (qs : list request) : list (outcome PyServer.answer) :=
  match qs with [] => [] | q :: qs => let '(p, s) := py_handle s q in p :: py_answers s qs end.

Lemma state_alike room e s : related room e s → same_answer (handle e GetState).1 (py_handle s GetState).1.
Proof using Laws.
  intros [Hg Hl Hf Hlf _]. eexists. split; [reflexivity|]. cbn [fst snd status handle stateHandler]. split; [done|]. right.
  cbn [body stateHandler]. unfold StateResponse_json. destruct greeting_hashes as (_ & _ & _ & ->).
  rewrite Hash_text, Hg, Hl, Hf, Hlf. reflexivity.
Qed.
Lemma other_alike body action df e s :
  reads_alike body action df → no_operation df →
  same_answer (actionHandler e body).1 (_process_action greeting_srv body s).1 ∧
  (actionHandler e body).2 = e ∧ (_process_action greeting_srv body s).2 = s.
Proof using Laws.
  intros Hr Hno. destruct greeting_hashes as (Hth & Hhh & Hch & _). rewrite (py_process _ _ _ s Hr).
  assert (py_route (OPType df) (OPCommand df) = None) as ->.
  { unfold py_route. unfold no_operation in Hno. rewrite Hth, Hhh, Hch in Hno. repeat case_decide; tauto. }
  unfold actionHandler. destruct Hr as [-> Hf _ _]. unfold processAction. rewrite Hf. unfold processGreeting.
  assert (∀ t : string, same_answer (mkResponse StatusNotImplemented t) (Return (501%Z, PyServer.Text "unsupported op type"))) as Hsame.
  { intros t. by eexists. }
  unfold no_operation in Hno. repeat case_decide; try (by split_and!; [apply Hsame|..]); tauto.
Qed.
Lemma both_alike body room e s ar d :
  answered_both body room e s ar d → d = ar_Data ar →
  same_answer (actionHandler e body).1 (_process_action greeting_srv body s).1 ∧
  related (room - 1) (actionHandler e body).2 (_process_action greeting_srv body s).2.
Proof using Laws.
  intros (e' & s' & -> & -> & Hs) ->. split; [|done]. eexists. split; [reflexivity|]. split; [done|]. left. cbn.
  rewrite marshal_result. by destruct ar.
Qed.

Lemma portable_alike q room e s :
  portable q → related room e s → (1 ≤ room)%Z →
  same_answer (handle e q).1 (py_handle s q).1 ∧ related (room - 1) (handle e q).2 (py_handle s q).2.
Proof using Laws Num.
  intros Hq Hs Hroom. destruct q as [|b].
  - split; [by eapply state_alike|by apply related_less].
  - change (py_handle s (PostAction b)) with (_process_action greeting_srv b s).
    change (handle e (PostAction b)) with (actionHandler e b).
    destruct Hq as (action & df & Hr & [Hno|[(name & Hh & Hu)|(name & reason & Hg & Hu & Hu')]]).
    + destruct (other_alike _ _ _ e s Hr Hno) as (Ha & -> & ->). split; [done|by apply related_less].
    + destruct (hello_both _ _ _ _ _ _ _ Hr Hh Hs Hroom) as (ar & d & Hb & Hd). apply (both_alike _ _ _ _ _ _ Hb).
      case_decide; [done|]. destruct Hd as (_ & -> & ->). symmetry. apply reply_bytes; [by vm_compute..| |];
        destruct (greeting_text name) as [Hp Hm]; [by apply Hp, Hh|by apply Hm].
    + destruct (goodbye_both _ _ _ _ _ _ _ _ Hr Hg Hs Hroom) as (ar & d & Hb & Hd). apply (both_alike _ _ _ _ _ _ Hb).
      case_decide; [done|]. destruct Hd as (_ & -> & ->). symmetry. apply reply_bytes; [by vm_compute..| |];
        destruct (farewell_text name reason) as [Hp Hm]; [by apply Hp; apply Hg|by apply Hm].
Qed.

(** ** Properties *)

(** C17: the Go and the Python extension conform.  Started together and given the same
    sequence of requests, reads of the state among them, whose texts are printable
    and without the characters < > &, they give the same status and the same JSON
    every time, the bytes of [data] included. *)
Theorem servers_conform (qs : list request) :
  Forall portable qs → (Z.of_nat (length qs) < 2 ^ 63)%Z →
  Forall2 same_answer (go_answers New qs) (py_answers py_start qs).
Proof using Laws Num.
  intros Hqs Hlen. assert (related (Z.of_nat (length qs)) New py_start) as Hs by (split; cbn; [done..|lia]).
  clear Hlen. revert Hs. generalize New py_start. induction Hqs as [|q qs Hq _ IH]; intros e s Hs; cbn [go_answers py_answers];
    [constructor|].
  destruct (portable_alike q _ e s Hq Hs) as [Ha Hs']; [cbn; lia|].
  destruct (handle e q) as [r e'], (py_handle s q) as [p s']. constructor; [done|]. apply IH.
  replace (Z.of_nat (length qs)) with (Z.of_nat (length (q :: qs)) - 1)%Z by (cbn; lia). done.
Qed.

(** C18: but the bytes that are signed are not the same for every name.  Given the same
    greeting with a printable name, both servers count it and answer with results
    that differ at most in the data; and the data is the same exactly when the name
    has none of < > &. *)
Theorem data_bytes_differ (body_ : string) (action : ActionData) (df : DataFixed) (name : string) (e : Extension) (s : py_state) :
  reads_alike body_ action df → says_hello df name → name ≠ "" → related 1 e s →
  ∃ ar d, answered_both body_ 1 e s ar d ∧ ar_Status ar = 1%Z ∧ (d = ar_Data ar ↔ unmarked name).
Proof using Laws Num.
  intros Hr Hh Hne Hs. destruct (hello_both _ _ _ _ _ _ _ Hr Hh Hs) as (ar & d & Hb & Hd); [lia|].
  rewrite decide_False in Hd by done. destruct Hd as (Hst & Hgo & Hpy). exists ar, d. split_and!; [done|done|].
  destruct (greeting_text name) as [Hp Hm]. rewrite <- Hm, Hgo, Hpy.
  rewrite <- (reply_bytes "greeting" _ "greetingNumber" (greetingCount e + 1)) by first [by vm_compute|apply Hp, Hh].
  by split; intros H; symmetry.
Qed.
End conformance.

(** ** Runs

    A reader of actions in Go, numbers and error texts of Python, and messages
    name;reason in place of ABI encodings. *)

Definition member (name : string) (j : json) : option json := Js.prop name j.
Definition text_member (name : string) (j : json) : option string :=
  match Js.prop name j with Some (JStr s) => Some s | _ => None end.
Definition hash_member (name : string) (j : json) : option string :=
  v ← Js.prop name j; Hash_UnmarshalJSON v.
Definition bytes_member (name : string) (j : json) : option string :=
  h ← text_member name j; hex_decode (trim_prefix h "0x").
Definition wire_decode {A} (what : string) (read : json → option A) (input : string) : result A :=
  match j ← json_whole input; read j with Some a => Ok a | None => Err (json_error what input) end.
Definition name_and_reason (m : string) : option (string * string) :=
  match split m ";" with [n; r] => Some (n, r) | _ => None end.

#[local] Instance wire_server : TeeServer := {|
  decode_action := wire_decode "Action" (λ j,
    d ← member "data" j; i ← hash_member "id" d; t ← text_member "submissionTag" d; m ← bytes_member "message" d;
    Some (mkAction i t m));
  parse_data_fixed := wire_decode "DataFixed" (λ j,
    t ← hash_member "opType" j; c ← hash_member "opCommand" j; m ← bytes_member "originalMessage" j;
    Some (mkDataFixed t c m));
  ToHash := padded;
  decode_goodbye m := match name_and_reason m with Some d => Ok d | None => Err (ErrMsg "abi: cannot unmarshal") end;
  marshal_action_result ar :=
    json_compact (JObj [("id", JStr (Hash_MarshalText (ar_ID ar))); ("submissionTag", JStr (ar_SubmissionTag ar));
      ("status", JInt (ar_Status ar)); ("log", JStr (ar_Log ar)); ("opType", JStr (Hash_MarshalText (ar_OPType ar)));
      ("opCommand", JStr (Hash_MarshalText (ar_OPCommand ar))); ("additionalResultStatus", JStr "0x");
      ("version", JStr (ar_Version ar)); ("data", JStr (bytes_to_hex (ar_Data ar)))]);
  unmarshal_action_result _ := Err (ErrMsg "no result");
|}.
#[local] Instance wire_server_laws : TeeServerLaws.
Proof. by split. Qed.
#[local] Instance demo_py : PyEngine := {|
  py_number_is_zero raw := bool_decide (raw = "0");
  py_number_text raw := raw;
  py_str v := match v with JNum raw => raw | _ => "?" end;
  decode_error _ := "'utf-8' codec can't decode";
  json_decode_error _ := "Expecting value: line 1 column 1 (char 0)";
  fromhex_error _ := "non-hexadecimal number found in fromhex()";
  subscript_error _ := "object is not subscriptable";
  no_attribute name _ := "object has no attribute '" +:+ name +:+ "'";
|}.
#[local] Instance demo_numbers : PyNumbers.
Proof. by split. Qed.
#[local] Instance demo_eth_abi : EthAbi := {|
  abi_decode_strings m := match name_and_reason m with Some d => inl d | None => inr "insufficient data" end;
|}.

(** The body of an action, as in src/testdata/conformance/. *)
Definition action_id : string := str (replicate 32 (byte 0x11)).
Definition fixed_text (opType opCommand originalMessage : json) : string :=
  json_compact (JObj [("instructionId", JStr (bytes_to_hex action_id)); ("timestamp", JNum "1700000000");
    ("opType", opType); ("opCommand", opCommand); ("cosigners", JArr []); ("originalMessage", originalMessage)]).
Definition body_text (message : json) : string :=
  json_compact (JObj [("data", JObj [("id", JStr (bytes_to_hex action_id)); ("type", JStr "instruction");
    ("submissionTag", JStr "submit"); ("message", message)]); ("timestamps", JArr [])]).
Definition op (name : string) : json := JStr (bytes_to_hex (padded name)).
Definition action_body (opType opCommand message : string) : string :=
  body_text (JStr (bytes_to_hex (fixed_text (op opType) (op opCommand) (JStr (bytes_to_hex message))))).

Ltac read_by_computing :=
  split; [vm_compute; reflexivity..|eexists _, _; split_and!; vm_compute; reflexivity|
          eexists _, _; split_and!; vm_compute; reflexivity].
Definition hello_body (name : string) : string := action_body "GREETING" "SAY_HELLO" (hello_message name).
Lemma world_read :
  ∃ m, reads_alike (hello_body "World") (mkAction action_id "submit" m)
         (mkDataFixed (padded "GREETING") (padded "SAY_HELLO") (hello_message "World")).
Proof. exists (fixed_text (op "GREETING") (op "SAY_HELLO") (JStr (bytes_to_hex (hello_message "World")))). read_by_computing. Qed.
Lemma html_read :
  ∃ m, reads_alike (hello_body "R&D") (mkAction action_id "submit" m)
         (mkDataFixed (padded "GREETING") (padded "SAY_HELLO") (hello_message "R&D")).
Proof. exists (fixed_text (op "GREETING") (op "SAY_HELLO") (JStr (bytes_to_hex (hello_message "R&D")))). read_by_computing. Qed.
Lemma farewell_read :
  ∃ m, reads_alike (action_body "GREETING" "SAY_GOODBYE" "World;done") (mkAction action_id "submit" m)
         (mkDataFixed (padded "GREETING") (padded "SAY_GOODBYE") "World;done").
Proof. exists (fixed_text (op "GREETING") (op "SAY_GOODBYE") (JStr (bytes_to_hex "World;done"))). read_by_computing. Qed.
Lemma unknown_read :
  ∃ m, reads_alike (action_body "QUIETFILL" "SAY_HELLO" "") (mkAction action_id "submit" m)
         (mkDataFixed (padded "QUIETFILL") (padded "SAY_HELLO") "").
Proof. exists (fixed_text (op "QUIETFILL") (op "SAY_HELLO") (JStr (bytes_to_hex ""))). read_by_computing. Qed.

Definition session : list request :=
  [PostAction (hello_body "World"); GetState; PostAction (action_body "QUIETFILL" "SAY_HELLO" "");
   PostAction (action_body "GREETING" "SAY_GOODBYE" "World;done"); PostAction (hello_body "World"); GetState].
Lemma session_portable : Forall portable session.
Proof.
  assert (portable (PostAction (hello_body "World"))) as Hh.
  { destruct world_read as [m Hm]. eexists _, _. split; [exact Hm|]. right. left. exists "World". unfold says_hello. split_and!; vm_compute; reflexivity. }
  unfold session. rewrite !Forall_cons, Forall_nil. split_and!; [exact Hh|done| | |exact Hh|done|done].
  - destruct unknown_read as [m Hm]. eexists _, _. split; [exact Hm|]. left. intros [H _]. by vm_compute in H.
  - destruct farewell_read as [m Hm]. eexists _, _. split; [exact Hm|]. right. right. exists "World", "done". unfold says_goodbye. split_and!; vm_compute; reflexivity.
Qed.
Lemma servers_conform_witness :
  Forall portable session ∧ Forall2 same_answer (go_answers New session) (py_answers py_start session).
Proof. split; [exact session_portable|]. apply (servers_conform session session_portable). vm_compute. reflexivity. Defined.

(** The ampersand is six bytes in Go's data and one in Python's. *)
Lemma data_bytes_differ_witness :
  ∃ ar d, answered_both (hello_body "R&D") 1 New py_start ar d ∧ ar_Status ar = 1%Z ∧ (d = ar_Data ar ↔ unmarked "R&D").
Proof.
  destruct html_read as [m Hm]. apply (data_bytes_differ _ _ _ "R&D" New py_start Hm);
    [unfold says_hello; split_and!; vm_compute; reflexivity|discriminate|split; cbn; [done..|lia]].
Defined.

(** Requests the Python server does not answer, and one it answers where the Go server
    fails: a name that is a number. *)
Example unanswered_messages :
  Forall (λ b, ∃ e, (_process_action greeting_srv b py_start).1 = Raise e)
    [body_text (JArr []); body_text (JStr (bytes_to_hex "[]"));
     body_text (JStr (bytes_to_hex (fixed_text (JNum "1") (op "SAY_HELLO") (JStr "0x"))));
     body_text (JStr (bytes_to_hex (fixed_text (op "GREETING") (op "SAY_HELLO") (JArr [JNull]))))].
Proof. repeat constructor; eexists; vm_compute; reflexivity. Qed.
Example number_greeted :
  (handle_say_hello (JStr (bytes_to_hex (json_compact (JObj [("name", JNum "5")])))) py_start).2 =
    mkState 1 (greeting_of "5") 0 "" ∧
  is_ok (Decode_strict "SayHelloRequest" SayHelloRequest_fields "" (json_compact (JObj [("name", JNum "5")]))) = false.
Proof. vm_compute. done. Qed.
