(* ===== verification/AuditDeploy.v ===== *)
(** * tools/cmd/audit-deploy and tools/cmd/query-tee

    The two inspection commands: what they read of the chain and what they print. *)

From S2P Require Import Prelude GoStrings GoText Json Platform Sim Report Revert Support Registration VerifyDeploy.
From stdpp Require Import options.

(** ** bytes32ToString *)

Fixpoint drop_zeros (l : list ascii) : list ascii :=
  match l with
  | [] => []
  | c :: l' => if decide (c = byte 0) then drop_zeros l' else l
  end.
(** The loop cuts the zero bytes at the end. *)
Definition bytes32ToString (b : string) : string :=
  trim_space (str (reverse (drop_zeros (reverse (bytes b))))).

(** [%-25s] of a name of the program. *)
Definition pad_right (w : nat) (s : string) : string := s +:+ str (replicate (w - len s) " "%char).

Section audit.
Context {W : Type} `{OSW : !OS W, Uni : !Unicode, Geth : !GoEthereum, Txt : !GoEthereumText,
  JErr : !JsonErrors, Eth : !Ethclient W, Info : !ChainInfo W, Abis : !ContractAbis, Bnd : !Bindings,
  EMgr : !ExtensionManager W, EInfo : !ExtensionManagerInfo W}.

(** ** The replay of addTeeVersion *)

Definition replay_sources : list (string * result Abi) :=
  [("ExtensionManager", ExtensionManagerMetaData); ("MachineManager", MachineManagerMetaData);
   ("Verification", VerificationMetaData)].

Definition replay_line (revertData srcName errName : string) (eDef : AbiError) : string :=
  match e_Inputs_Unpack eDef (str_drop 4 revertData) with
  | Err unpackErr =>
    "  revert -> " +:+ srcName +:+ "." +:+ errName +:+ " (unpack failed: " +:+ err_text unpackErr +:+
    ") data=0x" +:+ hex_encode revertData
  | Ok args => "  revert -> " +:+ srcName +:+ "." +:+ errName +:+ args
  end.

(** The line printed for a failed [eth_call]. *)
Definition replay_verdict (callErr : error) : string :=
  let revertData := ExtractRevertData (Some callErr) in
  if decide (len revertData < 4) then "  no/short revert data: " +:+ err_text callErr
  else
    let selector := str_take 4 revertData in
    let custom :=
      match find_source replay_sources selector (replay_line revertData) with
      | Some line => line
      | None => "  revert with unknown selector 0x" +:+ hex_encode selector +:+ " (full: 0x" +:+
                hex_encode revertData +:+ ")"
      end in
    if decide (selector = error_string_selector) then
      match UnpackRevert revertData with
      | Some reason => "  revert reason (string): " +:+ fmt_q reason
      | None => custom
      end
    else custom.

Definition replayAddTeeVersion (to from : string) (extID : Z) (version codeHash platform : string) :
    M W string :=
  match ExtensionManagerMetaData with
  | Err err => ret ("  load ABI: " +:+ err_text err +:+ lf)
  | Ok emABI =>
    match StringToBytes32 version with
    | Err verr => ret ("  version: " +:+ err_text verr +:+ lf)
    | Ok versionBytes =>
      match Pack emABI "addTeeVersion"
              [AUint extID; ABytes32 versionBytes; ABytes32 codeHash; ABytes32s [platform]] with
      | Err err => ret ("  pack: " +:+ err_text err +:+ lf)
      | Ok calldata =>
        _ ←? CallContract (call_msg from to None calldata)
          | callErr => ret (replay_verdict callErr +:+ lf);
        ret ("  eth_call succeeded — tx-time-only revert (gas/state race?)" +:+ lf)
      end
    end
  end.

(** ** audit-deploy *)

Definition address_status (a : string) (code : result string) : string :=
  match code with
  | Err err => "ERROR " +:+ err_text err
  | Ok code =>
    if decide (a = zero_address) then "ZERO ADDRESS"
    else if decide (len code = 0) then "NO CODE"
    else "ok (" +:+ fmt_d (N.of_nat (len code)) +:+ " bytes)"
  end.
Definition audit_address (name a : string) : M W string :=
  code ← CodeAt a;
  ret ("  " +:+ pad_right 25 name +:+ " " +:+ Address_Hex a +:+ "   " +:+ address_status a code +:+ lf).

Definition named_hash (h : string) : string :=
  "    " +:+ Hash_Hex h +:+ "   " +:+ fmt_q (bytes32ToString h) +:+ lf.
Definition fmt_len {A} (l : list A) : string := fmt_d (N.of_nat (length l)).

Definition audit_facet (diamond : string) : M W string :=
  plats ← GetSystemSupportedPlatforms;
  cnt ← NextPublicExtensionId;
  ret (lf +:+ "=== ExtensionManager facet @ FlareTeeManager " +:+ Address_Hex diamond +:+ " ===" +:+ lf +:+
       match plats with
       | Err perr => "  getSystemSupportedPlatforms ERROR: " +:+ err_text perr +:+ lf
       | Ok plats => "  systemSupportedPlatforms (" +:+ fmt_len plats +:+ "):" +:+ lf +:+
                     concat_str (named_hash <$> plats)
       end +:+
       match cnt with
       | Err _ => ""
       | Ok cnt => "  nextPublicExtensionId: " +:+ itoa cnt +:+ lf
       end).

Definition audit_extension (eid : Z) : M W string :=
  owner ← GetExtensionOwner eid;
  ch ← GetSupportedCodeHashes eid;
  kt ← GetSupportedKeyTypes eid;
  ret (lf +:+ "=== Extension id=" +:+ itoa eid +:+ " ===" +:+ lf +:+
       match owner with
       | Err err => "  getExtensionOwner ERROR: " +:+ err_text err +:+ lf
       | Ok owner => "  owner: " +:+ Address_Hex owner +:+ lf
       end +:+
       match ch with
       | Err err => "  getSupportedCodeHashes ERROR: " +:+ err_text err +:+ lf
       | Ok ch => "  supportedCodeHashes (" +:+ fmt_len ch +:+ "):" +:+ lf +:+
                  concat_str ((λ h, "    " +:+ Hash_Hex h +:+ lf) <$> ch)
       end +:+
       match kt with
       | Err _ => ""
       | Ok kt => "  supportedKeyTypes (" +:+ fmt_len kt +:+ "):" +:+ lf +:+ concat_str (named_hash <$> kt)
       end).

(** The arguments are the flags; what is printed before a failure stays printed. *)
Definition audit_deploy_main (af rpcURL : string) (extID : Z) (codeHash platform from version : string) :
    M W outcome :=
  addr ←? reads (ParseAddresses af)
    | err => ret (mkOutcome "" ("parse addresses: " +:+ err_text err +:+ lf) 1);
  dialled ← Dial rpcURL;
  match dialled with
  | Some err => ret (mkOutcome "" ("dial: " +:+ err_text err +:+ lf) 1)
  | None =>
    chainID ←? ChainID | err => ret (mkOutcome "" ("chainId: " +:+ err_text err +:+ lf) 1);
    bn ← BlockNumber;
    let intro := "Chain ID: " +:+ itoa chainID +:+ "   block: " +:+
                 itoa match bn with Ok n => n | Err _ => 0%Z end +:+ lf in
    l1 ← audit_address "FlareTeeManager" (FlareTeeManager addr);
    l2 ← audit_address "FlareSystemsManager" (FlareSystemManager addr);
    l3 ← audit_address "Fdc2Hub" (Fdc2Hub addr);
    let addresses := intro +:+ l1 +:+ l2 +:+ l3 in
    if decide (FlareTeeManager addr = zero_address) then ret (mkOutcome addresses "" 0)
    else
    match NewBinding "ExtensionManager" (FlareTeeManager addr) with
    | Err err => ret (mkOutcome addresses ("bind ExtensionManager: " +:+ err_text err +:+ lf) 0)
    | Ok _ =>
      facet ← audit_facet (FlareTeeManager addr);
      extension ← (if (0 <=? extID)%Z then audit_extension extID else ret "");
      replay ← (if bool_decide (codeHash ≠ "") && bool_decide (platform ≠ "") && (0 <=? extID)%Z then
                  line ← replayAddTeeVersion (FlareTeeManager addr) (HexToAddress from) extID version
                           (HexToHash codeHash) (HexToHash platform);
                  ret (lf +:+ "=== addTeeVersion eth_call replay (decoding revert) ===" +:+ lf +:+ line)
                else ret "");
      ret (mkOutcome (addresses +:+ facet +:+ extension +:+ replay) "" 0)
    end
  end.

(** ** query-tee *)

Context `{MInfo : !MachineManagerInfo W, Trans : !Transactor, Fdc : !FdcTypes, MM : !MachineManager W}.

(** The line of the [i]-th machine; [None] is an index out of range of [urls]. *)
Fixpoint machine_lines (i : nat) (ids urls : list string) : option string :=
  match ids with
  | [] => Some ""
  | id :: ids =>
    url ← urls !! i;
    rest ← machine_lines (S i) ids urls;
    Some ("  " +:+ fmt_d (N.of_nat i) +:+ ": " +:+ Address_Hex id +:+ " url=" +:+ fmt_q url +:+ lf +:+ rest)
  end.

(** [None] when the program panics. *)
Definition active_machines (ext : Z) : M W (option string) :=
  out ← GetActiveTeeMachines ext;
  ret (rest ← match out with
              | Err err => Some ("getActiveTeeMachines ERROR: " +:+ err_text err +:+ lf)
              | Ok (ids, urls) =>
                lines ← machine_lines 0 ids urls;
                Some (lines +:+ if decide (length ids = 0) then "  (none)" +:+ lf else "")
              end;
       Some (lf +:+ "=== Active TEEs for extensionId=" +:+ itoa ext +:+ " ===" +:+ lf +:+ rest)).

(** One getter's line. *)
Definition getter_line {A} (name : string) (fmt : A → string) (r : result A) : string :=
  match r with
  | Err err => "  " +:+ name +:+ " ERROR: " +:+ err_text err +:+ lf
  | Ok a => "  " +:+ name +:+ ": " +:+ fmt a +:+ lf
  end.
Definition machine_line (m : TeeMachine) : string :=
  "teeId=" +:+ Address_Hex (mi_TeeId m) +:+ " teeProxyId=" +:+ Address_Hex (mi_TeeProxyId m) +:+
  " url=" +:+ fmt_q (mi_Url m) +:+
  if decide (mi_TeeId m = zero_address) then lf +:+ "  -> EMPTY/UNREGISTERED" else "".

Definition query_machine (raw : string) : M W string :=
  let id := HexToAddress raw in
  m ← GetTeeMachine id;
  st ← GetTeeMachineStatus id;
  owner ← GetTeeMachineOwner id;
  extID ← GetExtensionId id;
  ts ← GetLastStatusChangeTs id;
  spid ← GetInitialSigningPolicyId id;
  ret (lf +:+ "=== TEE " +:+ Address_Hex id +:+ " ===" +:+ lf +:+
       getter_line "getTeeMachine" machine_line m +:+
       getter_line "getTeeMachineStatus" itoa st +:+
       getter_line "getTeeMachineOwner" Address_Hex owner +:+
       getter_line "getExtensionId" itoa extID +:+
       getter_line "getLastStatusChangeTs" itoa ts +:+
       getter_line "getInitialSigningPolicyId" itoa spid).

Fixpoint query_machines (args : list string) : M W string :=
  match args with
  | [] => ret ""
  | raw :: args => s ← query_machine raw; rest ← query_machines args; ret (s +:+ rest)
  end.

(** [args] are the arguments after the flags.  A panic is exit code 2; its trace
    is left out. *)
Definition query_tee_main (rpc reg : string) (listExt : Z) (args : list string) : M W outcome :=
  dialled ← Dial rpc;
  match dialled with
  | Some err => ret (mkOutcome "" ("dial: " +:+ err_text err +:+ lf) 1)
  | None =>
    match NewBinding "MachineManager" (HexToAddress reg) with
    | Err err => ret (mkOutcome "" ("bind: " +:+ err_text err +:+ lf) 1)
    | Ok _ =>
      active ← (if (0 <=? listExt)%Z then active_machines listExt else ret (Some ""));
      match active with
      | None => ret (mkOutcome "" "panic: runtime error: index out of range" 2)
      | Some active => sections ← query_machines args; ret (mkOutcome (active +:+ sections) "" 0)
      end
    end
  end.

(** ** Lemmas *)

Lemma drop_zeros_zeros n l : drop_zeros (replicate n (byte 0) ++ l) = drop_zeros l.
Proof. induction n as [|n IH]; [done|]. cbn [replicate app drop_zeros]. by rewrite decide_True. Qed.
Lemma drop_zeros_id l : head l ≠ Some (byte 0) → drop_zeros l = l.
Proof. destruct l as [|c l]; [done|]. cbn. intros Hc. rewrite decide_False; congruence. Qed.

Lemma bytes32_of_version s n :
  bytes32ToString (s +:+ str (replicate n (byte 0))) = bytes32ToString s.
Proof.
  unfold bytes32ToString. do 3 f_equal.
  rewrite bytes_app, bytes_str, reverse_app, reverse_replicate. apply drop_zeros_zeros.
Qed.

Lemma same_padding s s' :
  s' +:+ str (replicate (32 - len s') (byte 0)) = s +:+ str (replicate (32 - len s) (byte 0)) →
  ∃ n, s' = s +:+ str (replicate n (byte 0)) ∨ s = s' +:+ str (replicate n (byte 0)).
Proof.
  intros Heq. apply (f_equal bytes) in Heq. rewrite !bytes_app, !bytes_str in Heq.
  assert (∀ l l' k k', l' ++ replicate k' (byte 0) = l ++ replicate k (byte 0) → length l ≤ length l' →
            ∃ n, l' = l ++ replicate n (byte 0)) as Hpad.
  { intros l l' k k' Hl Hlen. exists (length l' - length l).
    pose proof (f_equal length Hl) as Hll. rewrite !length_app, !length_replicate in Hll.
    apply (f_equal (take (length l'))) in Hl. rewrite take_app_length in Hl.
    rewrite Hl at 1. rewrite take_app_ge, take_replicate by done. do 2 f_equal. lia. }
  destruct (decide (len s ≤ len s')) as [Hle|Hgt].
  - destruct (Hpad _ _ _ _ Heq) as [n Hn]; [by rewrite <- !len_bytes|]. exists n. left.
    by rewrite <- (str_bytes s'), Hn, str_app, str_bytes.
  - destruct (Hpad _ _ _ _ (symmetry Heq)) as [n Hn]; [rewrite <- !len_bytes; lia|]. exists n. right.
    by rewrite <- (str_bytes s), Hn, str_app, str_bytes.
Qed.

Lemma find_source_unique srcs name a sel print errName e :
  NoDup (fst <$> srcs) → (name, Ok a) ∈ srcs →
  (∀ n b, (n, Ok b) ∈ srcs → n ≠ name → sel ∉ (selector_of ∘ snd <$> Errors b)) →
  NoDup (selector_of ∘ snd <$> Errors a) → (errName, e) ∈ Errors a → selector_of e = sel →
  find_source srcs sel print = Some (print name errName e).
Proof.
  intros Hnames Hin Hothers Hnd He Hsel.
  apply list_elem_of_split in Hin as (l1 & l2 & ->). apply find_source_in; [|done..].
  apply Forall_forall. intros [n r] Hn b Hb. cbn in Hb. subst r.
  apply (Hothers n b); [set_solver|]. intros ->.
  rewrite fmap_app, fmap_cons in Hnames. apply NoDup_app in Hnames as (_ & Hdisj & _).
  apply (Hdisj name); [|cbn; set_solver]. apply list_elem_of_fmap. by exists (name, Ok b).
Qed.
End audit.

(** ** Properties *)

Section properties.
Context {W : Type} `{Uni : !Unicode, Geth : !GoEthereum, Abis : !ContractAbis}.

(** Packing a version string into a bytes32.  Strings of more than 32 bytes
    are refused; any other gives 32 bytes that start with the string, from which
    audit-deploy's [bytes32ToString] reads it back, provided it does not end in
    a NUL and has no surrounding white space; and two versions packed to the same
    word differ only in NULs at the end. *)
Theorem version_bytes32 (s : string) :
  match StringToBytes32 s with
  | Err err => 32 < len s
  | Ok b =>
    len s ≤ 32 ∧ len b = 32 ∧ has_prefix b s = true ∧
    (trimmed s → last (bytes s) ≠ Some (byte 0) → bytes32ToString b = s) ∧
    (∀ s', StringToBytes32 s' = Ok b →
       ∃ n, s' = s +:+ str (replicate n (byte 0)) ∨ s = s' +:+ str (replicate n (byte 0)))
  end.
Proof.
  unfold StringToBytes32. case_decide as Hs; [done|]. split_and!.
  - lia.
  - rewrite len_app, !len_bytes, bytes_str, length_replicate. rewrite len_bytes in *. lia.
  - apply has_prefix_true. by eexists.
  - intros Ht Hl. rewrite bytes32_of_version. unfold bytes32ToString.
    rewrite drop_zeros_id by (by rewrite head_reverse). rewrite reverse_involutive, str_bytes.
    by apply trim_space_trimmed.
  - intros s'. case_decide as Hs'; [done|]. intros [= Heq]. by apply same_padding in Heq.
Qed.

(** Audit-deploy's replay and register-tee's diagnosis agree: when one facet
    that both look at is the only one of the diagnosis to declare the selector
    of the revert payload, both name that facet and that error. *)
Theorem diagnoses_agree (callErr : error) (facet : string) (a : Abi) (errName : string) (e : AbiError) :
  let revertData := ExtractRevertData (Some callErr) in
  (facet, Ok a) ∈ replay_sources →
  (∀ name b, (name, Ok b) ∈ diag_sources → name ≠ facet → selector_of e ∉ (selector_of ∘ snd <$> Errors b)) →
  NoDup (selector_of ∘ snd <$> Errors a) → (errName, e) ∈ Errors a →
  4 ≤ len revertData → str_take 4 revertData = selector_of e → selector_of e ≠ error_string_selector →
  diag_verdict callErr = Errorf (diag_line revertData facet errName e) ∧
  replay_verdict callErr = replay_line revertData facet errName e.
Proof.
  cbn zeta. intros Hin Hothers Hnd He Hlen Hsel Hstr.
  assert (∀ x, x ∈ replay_sources → x ∈ diag_sources) as Hsub by (unfold replay_sources, diag_sources; set_solver).
  split.
  - unfold diag_verdict. rewrite decide_False, decide_False by lia. rewrite Hsel, decide_False by done.
    by rewrite (find_source_unique diag_sources facet a _ _ errName e) by (by_decide || by apply Hsub || done).
  - unfold replay_verdict. rewrite decide_False by lia. rewrite Hsel, decide_False by done.
    rewrite (find_source_unique replay_sources facet a _ _ errName e); [done|by_decide|done| |done..].
    intros n b Hn. by apply Hothers, Hsub.
Qed.
End properties.

(** ** Witnesses *)

(** [InvalidGovernanceHash] is declared by the MachineManager facet only. *)
Definition one_facet : ContractAbis := {|
  VerificationMetaData := Err (ErrMsg "no abi");
  Fdc2HubMetaData := Ok (mkAbi []);
  MachineManagerMetaData := Ok (mkAbi sim_errors);
  ExtensionManagerMetaData := Ok (mkAbi []);
  QuietFillAuctionMetaData := Ok (mkAbi []);
  Pack _ name _ := Ok name;
|}.

Lemma diagnoses_agree_witness :
  diag_verdict (Abis := one_facet) demo_rpc_error =
    Errorf "diag: revert -> MachineManager.InvalidGovernanceHash([7])" ∧
  replay_verdict (Abis := one_facet) demo_rpc_error = "  revert -> MachineManager.InvalidGovernanceHash[7]".
Proof.
  apply (diagnoses_agree (Abis := one_facet) demo_rpc_error "MachineManager" (mkAbi sim_errors)
    "InvalidGovernanceHash" demo_error); try done.
  - right. left.
  - unfold diag_sources. cbn. intros name b Hb Hne.
    rewrite !elem_of_cons, elem_of_nil in Hb. destruct_or! Hb; simplify_eq; by apply not_elem_of_nil.
  - apply demo_errors_nodup.
  - apply demo_errors_in.
  - vm_compute; lia.
Defined.
