(* ===== verification/ExtensionSetup.v ===== *)
(** * Setting up an extension: tools/pkg/fccutils/extension.go, tools/cmd/register-extension
      and tools/cmd/allow-tee-version

    [SetupExtension] registers an extension and then grants the deployer what is
    still missing: ownership of TEE machines and of wallet projects, and the EVM
    key type. *)

From S2P Require Import Prelude GoStrings GoText Json Platform Sim Report EnvFile Checks Revert Support TeeCalls Governance Registration.
From stdpp Require Import options.

Section setup.
Context {W : Type} `{OSW : !OS W, Uni : !Unicode, Geth : !GoEthereum, Txt : !GoEthereumText,
  JErr : !JsonErrors, Eth : !Ethclient W, Env : !Dotenv W, Bnd : !Bindings, Tee : !TeeTypes,
  Trans : !Transactor, EMgr : !ExtensionManager W, Allow : !OwnerAllowlist W, Node : !TeeNode,
  EMTx : !ExtensionManagerTx W}.

(** ** extension.go *)

(** The id of the registration event; the contracts event must parse too. *)
Definition registerExtension (opts : TransactOpts PrivateKey)
    (instructionsSenderAddress stateVerifierAddress : string) : M W (result (option Z)) :=
  tx ←? RegisterExtension_tx opts stateVerifierAddress instructionsSenderAddress
    | err => ret (Err (ErrMsg ("TeeExtensionRegistry.Register failed: " +:+ err_text err)));
  receipt ←? CheckTx tx | err => ret (Err (ErrMsg ("Register transaction failed: " +:+ err_text err)));
  match r_logs receipt with
  | log0 :: log1 :: _ =>
    extensionId ←? ret (ParseTeeExtensionRegistered log0)
      | err => ret (Err (ErrMsg ("failed to parse TeeExtensionRegistered event: " +:+ err_text err)));
    _ ←? ret (ParseTeeExtensionContractsSet log1)
      | err => ret (Err (ErrMsg ("failed to parse TeeExtensionContractsSet event: " +:+ err_text err)));
    ret (Ok extensionId)
  | logs => ret (Err (ErrMsg ("expected at least 2 logs from Register() transaction, got " +:+
                              itoa (Z.of_nat (length logs)) +:+
                              " — the registry contract may have changed or be behind a proxy")))
  end.

Definition allowTeeMachineOwners (opts : TransactOpts PrivateKey) (extensionId : Z) (owners : list string) :
    M W (result unit) :=
  tx ←? AddAllowedTeeMachineOwners_tx opts extensionId owners
    | err => ret (Err (ErrMsg ("AddAllowedTeeMachineOwners failed: " +:+ err_text err)));
  receipt ←? CheckTx tx
    | err => ret (Err (ErrMsg ("AddAllowedTeeMachineOwners transaction failed: " +:+ err_text err)));
  match r_logs receipt with
  | [] => ret (Err (ErrMsg "no logs in AddAllowedTeeMachineOwners transaction — unexpected"))
  | log0 :: _ =>
    ret match ParseAllowedTeeMachineOwnersAdded log0 with
        | Err err => Err (ErrMsg ("failed to parse AllowedTeeMachineOwnersAdded event: " +:+ err_text err))
        | Ok _ => Ok tt
        end
  end.

Definition allowTeeProjectManagerOwners (opts : TransactOpts PrivateKey) (extensionId : Z)
    (owners : list string) : M W (result unit) :=
  tx ←? AddAllowedTeeWalletProjectOwners_tx opts extensionId owners
    | err => ret (Err (ErrMsg ("AddAllowedTeeWalletProjectOwners failed: " +:+ err_text err)));
  receipt ←? CheckTx tx
    | err => ret (Err (ErrMsg ("AddAllowedTeeWalletProjectOwners transaction failed: " +:+ err_text err)));
  match r_logs receipt with
  | [] => ret (Err (ErrMsg "no logs in AddAllowedTeeWalletProjectOwners transaction — unexpected"))
  | log0 :: _ =>
    ret match ParseAllowedTeeWalletProjectOwnersAdded log0 with
        | Err err =>
          Err (ErrMsg ("failed to parse AllowedTeeWalletProjectOwnersAdded event: " +:+ err_text err))
        | Ok _ => Ok tt
        end
  end.

Definition addSupportedKeyTypesTx (opts : TransactOpts PrivateKey) (extensionId : Z)
    (keyTypesBytes32 : list string) : M W (result unit) :=
  tx ←? AddSupportedKeyTypes_tx opts extensionId keyTypesBytes32
    | err => ret (Err (ErrMsg (err_text err)));
  _ ←? CheckTx tx | err => ret (Err (ErrMsg (err_text err)));
  ret (Ok tt).

Definition AddSupportedKeyTypes (s : Support) (extensionId : Z) (keyTypes : list string) :
    M W (result unit) :=
  opts ←? ret (NewKeyedTransactorWithChainID (Prv s) (SChainID s))
    | err => ret (Err (ErrMsg (err_text err)));
  _ ←? addSupportedKeyTypesTx opts extensionId (HashArrayToBytes32Array keyTypes)
    | err => ret (Err (ErrMsg (err_text err)));
  ret (Ok tt).

Definition isKeyTypeSupportedCall (extensionId : Z) (keyType : string) : M W (result bool) :=
  IsKeyTypeSupportedCall extensionId keyType.
Definition IsKeyTypeSupported (extensionId : Z) (keyType : string) : M W (result bool) :=
  isSupported ←? isKeyTypeSupportedCall extensionId keyType | err => ret (Err (ErrMsg (err_text err)));
  ret (Ok isSupported).

(** Step 2 to 4: look the grant up, and send the transaction when it is missing. *)
Definition grant (lookup : M W (result bool)) (failed : error → error) (send : M W (result unit))
    (unsent : error → error) : M W (result unit) :=
  already ←? lookup | err => ret (Err (failed err));
  if already then ret (Ok tt)
  else _ ←? send | err => ret (Err (unsent err)); ret (Ok tt).

(** Calling a facet with a nil [*big.Int] panics in the ABI encoder. *)
Definition nil_extension_id : error :=
  ErrMsg "runtime error: invalid memory address or nil pointer dereference".

(** [governanceHash] is not used. *)
Definition SetupExtension (s : Support)
    (governanceHash instructionsSenderAddress stateVerifierAddress : string) : M W (result Z) :=
  let deployerAddr := PubkeyToAddress (Prv s) in
  opts ←? ret (NewKeyedTransactorWithChainID (Prv s) (SChainID s));
  extRegistered ←? registerExtension opts instructionsSenderAddress stateVerifierAddress;
  match extRegistered with
  | None => ret (Err nil_extension_id)
  | Some extensionID =>
    _ ←? grant (IsAllowedTeeMachineOwner extensionID deployerAddr)
           (λ err, ErrMsg ("failed checking TEE machine owner status: " +:+ err_text err))
           (allowTeeMachineOwners opts extensionID [deployerAddr])
           (λ err, ErrMsg ("failed adding TEE machine owners (extension exists as ID " +:+
                           itoa extensionID +:+ " but owners not set): " +:+ err_text err));
    _ ←? grant (IsAllowedTeeWalletProjectOwner extensionID deployerAddr)
           (λ err, ErrMsg ("failed checking wallet project owner status: " +:+ err_text err))
           (allowTeeProjectManagerOwners opts extensionID [deployerAddr])
           (λ err, ErrMsg ("failed adding wallet project owners (extension exists as ID " +:+
                           itoa extensionID +:+ " but owners not set): " +:+ err_text err));
    _ ←? grant (IsKeyTypeSupported extensionID EVMType) (λ err, err)
           (AddSupportedKeyTypes s extensionID [EVMType]) (λ err, err);
    ret (Ok extensionID)
  end.

(** ** register-extension *)

(** The arguments are the flags; the value is what is printed on standard output. *)
Definition register_extension_main (af cf instructionSenderF governanceHashF : string) :
    M W (result string) :=
  if decide (instructionSenderF = "") then ret (Err (ErrMsg "--instructionSender flag is required"))
  else
  testSupport ←? DefaultSupport af cf;
  let governanceHash := HexToHash governanceHashF in
  let instructionSenderAddress := HexToAddress instructionSenderF in
  err ← AddressHasCode true instructionSenderAddress "InstructionSender";
  match err with
  | Some err => ret (Err err)
  | None =>
    extensionID ←? SetupExtension testSupport governanceHash instructionSenderAddress zero_address;
    ret (Ok (extensionIDHex (Z.to_N extensionID) +:+ lf))
  end.

(** ** allow-tee-version *)

Inductive version_outcome := AlreadySupported | AlreadyExists | VersionAdded.

Definition allow_tee_version_main (af cf pf versionF : string) : M W (result version_outcome) :=
  testSupport ←? DefaultSupport af cf;
  teeInfo ←? TeeInfo pf;
  privKeyString ← reads (getenv "EXTENSION_OWNER_KEY");
  privKey ←? ret (if bool_decide (privKeyString ≠ "") then HexToECDSA (strip_0x privKeyString)
                  else Ok (Prv testSupport));
  _ ←? ret (TeeProxyId teeInfo);
  let md := si_MachineData teeInfo in
  supported ←? IsCodeHashPlatformSupported (hash_big (ExtensionID md)) (CodeHash md) (md_Platform md);
  if supported then ret (Ok AlreadySupported)
  else
  res ← AddTeeVersion testSupport privKey (hash_big (ExtensionID md)) (CodeHash md) (md_Platform md) versionF;
  ret match res with
      | Err err => if contains (err_text err) "VersionAlreadyExists" then Ok AlreadyExists else Err err
      | Ok _ => Ok VersionAdded
      end.
End setup.

(** ** The contract the transactions are sent to

    What the program relies on: the facets' documented behaviour.  A transaction
    is the call it makes; when it is mined successfully the call has been
    performed; and nothing ever withdraws what was granted. *)

Inductive setup_call :=
  | CRegister (stateVerifier sender : string)
  | CMachineOwners (ext : Z) (owners : list string)
  | CProjectOwners (ext : Z) (owners : list string)
  | CKeyTypes (ext : Z) (types : list string).

Record setup_view := mkView {
  v_registered : gmap Z (string * string);
  v_machine_owners : gset (Z * string);
  v_project_owners : gset (Z * string);
  v_key_types : gset (Z * string);
  v_sent : list setup_call;
}.
(** [v'] has all that [v] has. *)
Definition keeps (v v' : setup_view) : Prop :=
  v_registered v ⊆ v_registered v' ∧ v_machine_owners v ⊆ v_machine_owners v' ∧
  v_project_owners v ⊆ v_project_owners v' ∧ v_key_types v ⊆ v_key_types v'.
#[export] Instance keeps_preorder : PreOrder keeps.
Proof.
  split; [intros v; split_and!; set_solver|].
  intros v1 v2 v3 (? & ? & ? & ?) (? & ? & ? & ?). split_and!; by etrans.
Qed.

Class SetupLaws (W : Type) `{Geth : !GoEthereum, Eth : !Ethclient W, Allow : !OwnerAllowlist W,
    EMgr : !ExtensionManager W, EMTx : !ExtensionManagerTx W} := {
  view : W → setup_view;
  call_of : Tx → setup_call;
  performed : setup_call → Receipt Log → setup_view → Prop;
  quiet : W → W → Prop := λ w w', keeps (view w) (view w') ∧ v_sent (view w') = v_sent (view w);
  submits : setup_call → W → W → Prop := λ c w w',
    keeps (view w) (view w') ∧ v_sent (view w') = v_sent (view w) ++ [c];
  register_law o sv sender t w w' :
    RegisterExtension_tx o sv sender w = (Ok t, w') → call_of t = CRegister sv sender ∧ submits (CRegister sv sender) w w';
  machine_law o i l t w w' :
    AddAllowedTeeMachineOwners_tx o i l w = (Ok t, w') →
    call_of t = CMachineOwners i l ∧ submits (CMachineOwners i l) w w';
  project_law o i l t w w' :
    AddAllowedTeeWalletProjectOwners_tx o i l w = (Ok t, w') →
    call_of t = CProjectOwners i l ∧ submits (CProjectOwners i l) w w';
  key_law o i l t w w' :
    AddSupportedKeyTypes_tx o i l w = (Ok t, w') → call_of t = CKeyTypes i l ∧ submits (CKeyTypes i l) w w';
  mined_law t r w w' :
    WaitMined (W := W) t w = (Ok r, w') → quiet w w' ∧ (r_status r ≠ 0%Z → performed (call_of t) r (view w'));
  performed_register sv sender r v log i :
    performed (CRegister sv sender) r v → head (r_logs r) = Some log →
    ParseTeeExtensionRegistered log = Ok (Some i) → v_registered v !! i = Some (sv, sender);
  performed_machine i l r v a : performed (CMachineOwners i l) r v → a ∈ l → (i, a) ∈ v_machine_owners v;
  performed_project i l r v a : performed (CProjectOwners i l) r v → a ∈ l → (i, a) ∈ v_project_owners v;
  performed_key i l r v a : performed (CKeyTypes i l) r v → a ∈ l → (i, a) ∈ v_key_types v;
  machine_read i a b w w' :
    IsAllowedTeeMachineOwner i a w = (Ok b, w') →
    quiet w w' ∧ b = bool_decide ((i, a) ∈ v_machine_owners (view w));
  project_read i a b w w' :
    IsAllowedTeeWalletProjectOwner i a w = (Ok b, w') →
    quiet w w' ∧ b = bool_decide ((i, a) ∈ v_project_owners (view w));
  key_read i a b w w' :
    IsKeyTypeSupportedCall i a w = (Ok b, w') →
    quiet w w' ∧ b = bool_decide ((i, a) ∈ v_key_types (view w));
}.

Section proofs.
Context {W : Type} `{Geth : !GoEthereum, Eth : !Ethclient W, Bnd : !Bindings, Trans : !Transactor,
  EMgr : !ExtensionManager W, Allow : !OwnerAllowlist W, Node : !TeeNode, EMTx : !ExtensionManagerTx W,
  Laws : !SetupLaws W}.
Set Default Proof Using "Type*".

(** Submitting a call and waiting for it. *)
Lemma submitted c t r (w w1 w' : W) :
  call_of t = c ∧ submits c w w1 → CheckTx t w1 = (Ok r, w') →
  submits c w w' ∧ performed c r (view w').
Proof.
  intros [<- [Hk Hs]] [Hm Hok]%CheckTx_mined. destruct (mined_law _ _ _ _ Hm) as [[Hk' Hs'] Hp].
  split; [|by apply Hp]. split; [by etrans|by rewrite Hs', Hs].
Qed.

Lemma register_ok o sender sv id (w w' : W) :
  registerExtension o sender sv w = (Ok (Some id), w') →
  submits (CRegister sv sender) w w' ∧ v_registered (view w') !! id = Some (sv, sender).
Proof.
  unfold registerExtension.
  destruct (RegisterExtension_tx o sv sender w) as [[t|] w1] eqn:Ht; rewrite (bind_run _ _ _ _ _ Ht); [|discriminate].
  destruct (CheckTx t w1) as [[r|] w2] eqn:Hc; rewrite (bind_run _ _ _ _ _ Hc); [|discriminate].
  destruct (r_logs r) as [|log0 [|log1 logs]] eqn:Hlogs; try discriminate.
  rewrite bind_ret_l. destruct (ParseTeeExtensionRegistered log0) as [i|] eqn:Hlog; [|discriminate].
  rewrite bind_ret_l. destruct (ParseTeeExtensionContractsSet log1); [|discriminate]. intros [= -> <-].
  destruct (submitted _ _ _ _ _ _ (register_law _ _ _ _ _ _ Ht) Hc) as [Hs Hp]. split; [done|].
  eapply performed_register; [done| |done]. by rewrite Hlogs.
Qed.

Lemma machine_ok o i l (w w' : W) :
  allowTeeMachineOwners o i l w = (Ok tt, w') →
  submits (CMachineOwners i l) w w' ∧ ∀ a, a ∈ l → (i, a) ∈ v_machine_owners (view w').
Proof.
  unfold allowTeeMachineOwners.
  destruct (AddAllowedTeeMachineOwners_tx o i l w) as [[t|] w1] eqn:Ht; rewrite (bind_run _ _ _ _ _ Ht); [|discriminate].
  destruct (CheckTx t w1) as [[r|] w2] eqn:Hc; rewrite (bind_run _ _ _ _ _ Hc); [|discriminate].
  destruct (submitted _ _ _ _ _ _ (machine_law _ _ _ _ _ _ Ht) Hc) as [Hs Hp].
  destruct (r_logs r); [discriminate|]. cbv [ret]. intros [= _ <-]. split; [done|].
  intros a Ha. by eapply performed_machine.
Qed.
Lemma project_ok o i l (w w' : W) :
  allowTeeProjectManagerOwners o i l w = (Ok tt, w') →
  submits (CProjectOwners i l) w w' ∧ ∀ a, a ∈ l → (i, a) ∈ v_project_owners (view w').
Proof.
  unfold allowTeeProjectManagerOwners.
  destruct (AddAllowedTeeWalletProjectOwners_tx o i l w) as [[t|] w1] eqn:Ht; rewrite (bind_run _ _ _ _ _ Ht); [|discriminate].
  destruct (CheckTx t w1) as [[r|] w2] eqn:Hc; rewrite (bind_run _ _ _ _ _ Hc); [|discriminate].
  destruct (submitted _ _ _ _ _ _ (project_law _ _ _ _ _ _ Ht) Hc) as [Hs Hp].
  destruct (r_logs r); [discriminate|]. cbv [ret]. intros [= _ <-]. split; [done|].
  intros a Ha. by eapply performed_project.
Qed.
Lemma key_ok s i l (w w' : W) :
  AddSupportedKeyTypes s i l w = (Ok tt, w') →
  submits (CKeyTypes i l) w w' ∧ ∀ a, a ∈ l → (i, a) ∈ v_key_types (view w').
Proof.
  unfold AddSupportedKeyTypes, addSupportedKeyTypesTx, HashArrayToBytes32Array.
  rewrite bind_ret_l. destruct (NewKeyedTransactorWithChainID _ _) as [o|]; [|discriminate].
  rewrite list_fmap_id, !bind_assoc.
  destruct (AddSupportedKeyTypes_tx o i l w) as [[t|] w1] eqn:Ht; rewrite (bind_run _ _ _ _ _ Ht); [|discriminate].
  rewrite bind_assoc.
  destruct (CheckTx t w1) as [[r|] w2] eqn:Hc; rewrite (bind_run _ _ _ _ _ Hc); [|discriminate].
  destruct (submitted _ _ _ _ _ _ (key_law _ _ _ _ _ _ Ht) Hc) as [Hs Hp].
  cbv [ret bind]. intros [= <-]. split; [done|]. intros a Ha. by eapply performed_key.
Qed.

(** A grant leaves its condition true, and sends nothing when it already was. *)
Definition granted (P : setup_view → Prop) (c : setup_call) (w w' : W) : Prop :=
  keeps (view w) (view w') ∧ P (view w') ∧
  ∃ already : bool, v_sent (view w') = v_sent (view w) ++ (if already then [] else [c]) ∧
    (P (view w) → already = true).

Lemma grant_ok P c lookup failed send unsent (w w' : W) :
  (∀ v v', keeps v v' → P v → P v') →
  (∀ b w w', lookup w = (Ok b, w') → quiet w w' ∧ (b = true ↔ P (view w))) →
  (∀ w w', send w = (Ok tt, w') → submits c w w' ∧ P (view w')) →
  grant lookup failed send unsent w = (Ok tt, w') → granted P c w w'.
Proof.
  intros Hmono Hlookup Hsend. unfold grant.
  destruct (lookup w) as [[b|] w1] eqn:Hl; rewrite (bind_run _ _ _ _ _ Hl); [|discriminate].
  apply Hlookup in Hl as [[Hk Hs] Hb]. destruct b.
  - cbv [ret]. intros [= <-]. split_and!; [done|eapply Hmono; [done|by apply Hb]|].
    exists true. by rewrite app_nil_r.
  - destruct (send w1) as [[[]|] w2] eqn:He; rewrite (bind_run _ _ _ _ _ He); [|discriminate].
    cbv [ret]. intros [= <-]. apply Hsend in He as [[Hk' Hs'] HP]. split_and!; [by etrans|done|].
    exists false. split; [by rewrite Hs', Hs|]. by intros ?%Hb.
Qed.

Lemma machine_grant o i d failed unsent (w w' : W) :
  grant (IsAllowedTeeMachineOwner i d) failed (allowTeeMachineOwners o i [d]) unsent w = (Ok tt, w') →
  granted (λ v, (i, d) ∈ v_machine_owners v) (CMachineOwners i [d]) w w'.
Proof.
  apply grant_ok.
  - intros v v' (_ & Hk & _) Hin. by apply Hk.
  - intros b w1 w2 [Hq ->]%machine_read. by rewrite bool_decide_eq_true.
  - intros w1 w2 [Hs Ha]%machine_ok. split; [done|]. apply Ha. set_solver.
Qed.
Lemma project_grant o i d failed unsent (w w' : W) :
  grant (IsAllowedTeeWalletProjectOwner i d) failed (allowTeeProjectManagerOwners o i [d]) unsent w = (Ok tt, w') →
  granted (λ v, (i, d) ∈ v_project_owners v) (CProjectOwners i [d]) w w'.
Proof.
  apply grant_ok.
  - intros v v' (_ & _ & Hk & _) Hin. by apply Hk.
  - intros b w1 w2 [Hq ->]%project_read. by rewrite bool_decide_eq_true.
  - intros w1 w2 [Hs Ha]%project_ok. split; [done|]. apply Ha. set_solver.
Qed.
Lemma key_grant s i t failed unsent (w w' : W) :
  grant (IsKeyTypeSupported i t) failed (AddSupportedKeyTypes s i [t]) unsent w = (Ok tt, w') →
  granted (λ v, (i, t) ∈ v_key_types v) (CKeyTypes i [t]) w w'.
Proof.
  apply grant_ok.
  - intros v v' (_ & _ & _ & Hk) Hin. by apply Hk.
  - intros b w1 w2. unfold IsKeyTypeSupported, isKeyTypeSupportedCall, bind.
    destruct (IsKeyTypeSupportedCall i t w1) as [[b'|] w1'] eqn:Hr; [|discriminate].
    cbv [ret]. intros [= -> <-]. apply key_read in Hr as [Hq ->]. by rewrite bool_decide_eq_true.
  - intros w1 w2 [Hs Ha]%key_ok. split; [done|]. apply Ha. set_solver.
Qed.

(** ** Properties *)

(** C21: what a successful [SetupExtension] has done, whatever the chain's state
    was.  The extension is registered under the returned id with its state
    verifier and its instruction sender, the deployer may own its TEE machines
    and its wallet projects, and the EVM key type is supported.  It sent the
    registration first and then at most one transaction per grant, in this order,
    and none for a grant that already stood. *)
Theorem SetupExtension_grants (s : Support) (gh sender sv : string) (id : Z) (w w' : W) :
  SetupExtension s gh sender sv w = (Ok id, w') →
  let d := PubkeyToAddress (Prv s) in
  let v := view w in let v' := view w' in
  v_registered v' !! id = Some (sv, sender) ∧
  (id, d) ∈ v_machine_owners v' ∧ (id, d) ∈ v_project_owners v' ∧ (id, EVMType) ∈ v_key_types v' ∧
  ∃ m p k : bool,
    v_sent v' = v_sent v ++ [CRegister sv sender] ++ (if m then [] else [CMachineOwners id [d]]) ++
                (if p then [] else [CProjectOwners id [d]]) ++ (if k then [] else [CKeyTypes id [EVMType]]) ∧
    ((id, d) ∈ v_machine_owners v → m = true) ∧ ((id, d) ∈ v_project_owners v → p = true) ∧
    ((id, EVMType) ∈ v_key_types v → k = true).
Proof.
  unfold SetupExtension. rewrite bind_ret_l. destruct (NewKeyedTransactorWithChainID _ _) as [o|]; [|discriminate].
  destruct (registerExtension o sender sv w) as [[[i|]|] w1] eqn:Hr; rewrite (bind_run _ _ _ _ _ Hr);
    [|discriminate..].
  intros H. ok_steps H. injection H as ->. cbn zeta.
  apply register_ok in Hr as [[Hk1 Hs1] Hreg].
  repeat match goal with u : unit |- _ => destruct u end.
  match goal with
  | H1 : grant _ _ _ _ w1 = (_, ?w2), H2 : grant _ _ _ _ ?w2 = (_, ?w3), H3 : grant _ _ _ _ ?w3 = _ |- _ =>
    apply (machine_grant _ _ _ _ _ _ w2) in H1 as (Hk2 & Hm & m & Hs2 & Hm');
    apply (project_grant _ _ _ _ _ _ w3) in H2 as (Hk3 & Hp & p & Hs3 & Hp');
    apply key_grant in H3 as (Hk4 & Ht & k & Hs4 & Ht')
  end.
  destruct Hk1 as (Hk1r & Hk1m & Hk1p & Hk1k), Hk2 as (Hk2r & Hk2m & Hk2p & Hk2k),
    Hk3 as (Hk3r & Hk3m & Hk3p & Hk3k), Hk4 as (Hk4r & Hk4m & Hk4p & Hk4k).
  split_and!; [do 3 (eapply lookup_weaken; [|done]); done|set_solver..|].
  exists m, p, k. split_and!; [by rewrite Hs4, Hs3, Hs2, Hs1, <- !app_assoc|set_solver..].
Qed.
End proofs.

(** ** Witness

    A chain whose state is the view itself; ids are handed out from 5 on. *)

Definition apply_call (c : setup_call) (v : setup_view) : setup_view :=
  let '(mkView reg mo po kt sent) := v in
  match c with
  | CRegister sv sender => mkView (<[(5 + Z.of_nat (size reg))%Z := (sv, sender)]> reg) mo po kt sent
  | CMachineOwners i l => mkView reg (list_to_set ((i,.) <$> l) ∪ mo) po kt sent
  | CProjectOwners i l => mkView reg mo (list_to_set ((i,.) <$> l) ∪ po) kt sent
  | CKeyTypes i l => mkView reg mo po (list_to_set ((i,.) <$> l) ∪ kt) sent
  end.
Definition send_call (c : setup_call) (v : setup_view) : setup_view :=
  let '(mkView reg mo po kt sent) := v in mkView reg mo po kt (sent ++ [c]).

(** A registration is refused when its id would be taken. *)
#[export] Instance view_client : Ethclient setup_view := {|
  Tx := setup_call;
  Log := option Z;
  tx_hash _ := zero_hash;
  CodeAt _ := ret (Ok "code");
  BalanceAt _ := ret (Ok 0%Z);
  ChainID := ret (Ok 114%Z);
  CallContract _ := ret (Ok "");
  WaitMined c := λ v,
    let id := (5 + Z.of_nat (size (v_registered v)))%Z in
    match c, v_registered v !! id with
    | CRegister _ _, Some _ => (Ok (mkReceipt 0 []), v)
    | _, _ => (Ok (mkReceipt 1 [Some id; Some id]), apply_call c v)
    end;
  TransactionByHash _ := ret (Err (ErrMsg "not found"));
  TxSender _ := Ok zero_address;
  Dial _ := ret None;
|}.
#[export] Instance view_allowlist : OwnerAllowlist setup_view := {|
  IsAllowedTeeMachineOwner i a := reads (λ v, Ok (bool_decide ((i, a) ∈ v_machine_owners v)));
  IsAllowedTeeWalletProjectOwner i a := reads (λ v, Ok (bool_decide ((i, a) ∈ v_project_owners v)));
|}.
#[export] Instance view_manager : ExtensionManager setup_view := {|
  NextPublicExtensionId := ret (Ok 0%Z);
  GetTeeExtensionInstructionsSender _ := ret (Ok zero_address);
  IsKeyTypeSupportedCall i t := reads (λ v, Ok (bool_decide ((i, t) ∈ v_key_types v)));
|}.
Definition send_tx (c : setup_call) : M setup_view (result setup_call) := λ v, (Ok c, send_call c v).
#[export] Instance view_tx : ExtensionManagerTx setup_view := {|
  AddTeeVersion_tx _ _ _ _ _ := ret (Err (ErrMsg "not here"));
  RegisterExtension_tx _ sv sender := send_tx (CRegister sv sender);
  AddSupportedKeyTypes_tx _ i l := send_tx (CKeyTypes i l);
  ParseTeeExtensionRegistered log := Ok log;
  ParseTeeExtensionContractsSet _ := Ok tt;
  AddAllowedTeeMachineOwners_tx _ i l := send_tx (CMachineOwners i l);
  AddAllowedTeeWalletProjectOwners_tx _ i l := send_tx (CProjectOwners i l);
  ParseAllowedTeeMachineOwnersAdded _ := Ok tt;
  ParseAllowedTeeWalletProjectOwnersAdded _ := Ok tt;
  IsCodeHashPlatformSupported _ _ _ := ret (Ok false);
|}.

Definition view_performed (c : setup_call) (r : Receipt (option Z)) (v : setup_view) : Prop :=
  match c with
  | CRegister sv sender => ∀ i, head (r_logs r) = Some (Some i) → v_registered v !! i = Some (sv, sender)
  | CMachineOwners i l => ∀ a, a ∈ l → (i, a) ∈ v_machine_owners v
  | CProjectOwners i l => ∀ a, a ∈ l → (i, a) ∈ v_project_owners v
  | CKeyTypes i l => ∀ a, a ∈ l → (i, a) ∈ v_key_types v
  end.

Lemma view_send c v t v' :
  send_tx c v = (Ok t, v') → t = c ∧ keeps v v' ∧ v_sent v' = v_sent v ++ [c].
Proof. unfold send_tx. intros [= <- <-]. destruct v. split_and!; done. Qed.
Lemma view_mined c r v v' :
  WaitMined c v = (Ok r, v') →
  (keeps v v' ∧ v_sent v' = v_sent v) ∧ (r_status r ≠ 0%Z → view_performed c r v').
Proof.
  destruct v as [reg mo po kt sent]. cbn. destruct c; [destruct (reg !! _) eqn:Hid|..]; intros [= <- <-]; cbn.
  - by split; [split|].
  - split; [split; [|done]|].
    + split_and!; [|done..]. cbn. by apply insert_subseteq.
    + intros _ i [= <-]. by rewrite lookup_insert_eq.
  - split; [split; [|done]|]; [split_and!; set_solver|]. intros _ a Ha. set_solver.
  - split; [split; [|done]|]; [split_and!; set_solver|]. intros _ a Ha. set_solver.
  - split; [split; [|done]|]; [split_and!; set_solver|]. intros _ a Ha. set_solver.
Qed.

#[export] Instance view_laws : SetupLaws setup_view.
Proof.
  refine (Build_SetupLaws setup_view _ _ _ _ _ (λ v, v) (λ t, t) view_performed _ _ _ _ _ _ _ _ _ _ _ _).
  1-4: by intros; match goal with H : _ = (Ok _, _) |- _ => apply view_send in H as (-> & ? & ?) end.
  - apply view_mined.
  - intros sv sender r v log i Hp Hh [= ->]. by apply Hp.
  - intros i l r v a Hp. apply Hp.
  - intros i l r v a Hp. apply Hp.
  - intros i l r v a Hp. apply Hp.
  - intros i a b v v' [= <- <-]. done.
  - intros i a b v v' [= <- <-]. done.
  - intros i a b v v' [= <- <-]. done.
Defined.

Definition setup_support : Support := demo_support.
Definition setup_start : setup_view := mkView ∅ ∅ {[(5%Z, PubkeyToAddress (Prv setup_support))]} ∅ [].
Definition setup_end : setup_view :=
  snd (SetupExtension setup_support zero_hash "sender" zero_address setup_start).

Lemma SetupExtension_grants_witness :
  let d := PubkeyToAddress (Prv setup_support) in
  SetupExtension setup_support zero_hash "sender" zero_address setup_start = (Ok 5%Z, setup_end) ∧
  v_registered setup_end !! 5%Z = Some (zero_address, "sender") ∧
  (5%Z, d) ∈ v_machine_owners setup_end ∧
  v_sent setup_end = [CRegister zero_address "sender"; CMachineOwners 5 [d]; CKeyTypes 5 [EVMType]].
Proof.
  intros d.
  assert (SetupExtension setup_support zero_hash "sender" zero_address setup_start = (Ok 5%Z, setup_end)) as Hrun.
  { vm_compute. reflexivity. }
  split; [exact Hrun|].
  destruct (SetupExtension_grants setup_support zero_hash "sender" zero_address 5 setup_start setup_end Hrun)
    as (H1 & H2 & _).
  split; [exact H1|]. split; [exact H2|]. vm_compute. reflexivity.
Defined.
