(* ===== verification/Deploy.v ===== *)
(** * Deploying the auction contract: tools/pkg/utils/instructions.go and tools/cmd/deploy-contract

    The deployment and the one-time [setExtensionId] call, the choice of the
    escrow tokens and the deploy-contract command. *)

From S2P Require Import Prelude GoStrings GoText Json GoPath Platform Sim Report EnvFile Checks Revert Support.
From stdpp Require Import options.

(** What the command prints on standard output. *)
Definition output (base quote address : string) : string :=
  "BASE_TOKEN=" +:+ base +:+ lf +:+ "QUOTE_TOKEN=" +:+ quote +:+ lf +:+ address +:+ lf.

Section deploy.
Context {W : Type} `{OSW : !OS W, Dirs : !Directories W, Uni : !Unicode, Geth : !GoEthereum,
  Txt : !GoEthereumText, JErr : !JsonErrors, Eth : !Ethclient W, Env : !Dotenv W, Bnd : !Bindings,
  Abis : !ContractAbis, Trans : !Transactor, Tok : !Erc20 W, Auction : !QuietFillAuction W}.

(** ** utils/instructions.go *)

(** [types.ReceiptStatusSuccessful] *)
Definition ReceiptStatusSuccessful : Z := 1.

Definition DeployInstructionSender (s : Support) (baseToken quoteToken : string) : M W (result string) :=
  opts ←? ret (NewKeyedTransactorWithChainID (Prv s) (SChainID s))
    | err => ret (Err (ErrMsg ("failed to create transactor: " +:+ err_text err)));
  '(address, tx) ←? DeployQuietFillAuction_tx opts (FlareTeeManager (SAddresses s))
                     (FlareTeeManager (SAddresses s)) baseToken quoteToken
    | err => ret (Err (ErrMsg ("failed to deploy contract: " +:+ err_text err)));
  receipt ←? WaitMined tx
    | err => ret (Err (ErrMsg ("deployment tx not mined within 2 minutes (tx: " +:+
                               Hash_Hex (tx_hash tx) +:+ "): " +:+ err_text err)));
  if decide (r_status receipt ≠ ReceiptStatusSuccessful) then ret (Err (ErrMsg "contract deployment failed"))
  else ret (Ok address).

(** The replay of [setExtensionId()], when its call data can be built. *)
Definition replay_set (s : Support) (instructionSenderAddress : string) : M W string :=
  match QuietFillAuctionMetaData with
  | Err _ => ret ""
  | Ok parsed =>
    match Pack parsed "setExtensionId" [] with
    | Err _ => ret ""
    | Ok callData => SimulateAndDecodeRevert (PubkeyToAddress (Prv s)) instructionSenderAddress None callData
    end
  end.

Definition SetExtensionId (s : Support) (instructionSenderAddress : string) : M W (result unit) :=
  _ ←? ret (NewBinding "QuietFillAuction" instructionSenderAddress)
    | err => ret (Err (ErrMsg ("failed to bind contract: " +:+ err_text err)));
  opts ←? ret (NewKeyedTransactorWithChainID (Prv s) (SChainID s))
    | err => ret (Err (ErrMsg ("failed to create transactor: " +:+ err_text err)));
  tx ←? SetExtensionId_tx instructionSenderAddress opts
    | err =>
      let reason := DecodeRevertReason (Some err) in
      reason ← (if decide (reason = "") then replay_set s instructionSenderAddress else ret reason);
      if bool_decide (reason ≠ "") then
        ret (Err (ErrMsg ("failed to call setExtensionId: " +:+ err_text err +:+ " (revert reason: " +:+
                          reason +:+ ")")))
      else ret (Err (ErrMsg ("failed to call setExtensionId: " +:+ err_text err)));
  receipt ←? WaitMined tx
    | err => ret (Err (ErrMsg ("failed waiting for transaction: " +:+ err_text err)));
  if decide (r_status receipt ≠ ReceiptStatusSuccessful) then
    reason ← replay_set s instructionSenderAddress;
    if bool_decide (reason ≠ "") then
      ret (Err (ErrMsg ("setExtensionId transaction failed (revert reason: " +:+ reason +:+ ")")))
    else ret (Err (ErrMsg "setExtensionId transaction failed"))
  else ret (Ok tt).

(** ** deploy-contract *)

Definition describeToken (addr name : string) : M W (result unit) :=
  _ ←? ret (NewBinding "TestToken" addr)
    | err => ret (Err (ErrMsg ("failed to bind " +:+ name +:+ ": " +:+ err_text err)));
  _ ←? Symbol addr
    | err => ret (Err (ErrMsg (name +:+ " at " +:+ Address_Hex addr +:+ " does not answer symbol(): " +:+
                               err_text err)));
  _ ←? Decimals addr
    | err => ret (Err (ErrMsg (name +:+ " at " +:+ Address_Hex addr +:+ " does not answer decimals(): " +:+
                               err_text err)));
  ret (Ok tt).

Definition deployTestToken (s : Support) (name symbol : string) (decimals : Z) : M W (result string) :=
  opts ←? ret (NewKeyedTransactorWithChainID (Prv s) (SChainID s))
    | err => ret (Err (ErrMsg ("failed to create transactor: " +:+ err_text err)));
  '(addr, tx) ←? DeployTestToken_tx opts name symbol decimals
    | err => ret (Err (ErrMsg ("failed to deploy " +:+ symbol +:+ ": " +:+ err_text err)));
  _ ←? CheckTx tx | err => ret (Err (ErrMsg (symbol +:+ " deployment failed: " +:+ err_text err)));
  ret (Ok addr).

(** The loop's body: the three checks of a token. *)
Definition check_token (name addr : string) : M W (result unit) :=
  match AddressNotZero addr name with
  | Some err => ret (Err err)
  | None =>
    err ← AddressHasCode true addr name;
    match err with
    | Some err => ret (Err err)
    | None => describeToken addr name
    end
  end.

Definition resolveTokens (s : Support) (baseHex quoteHex : string) : M W (result (string * string)) :=
  if bool_decide (baseHex ≠ "") && bool_decide (quoteHex ≠ "") then
    let base := HexToAddress baseHex in
    let quote := HexToAddress quoteHex in
    _ ←? check_token "base token" base;
    _ ←? check_token "quote token" quote;
    if decide (base = quote) then ret (Err (ErrMsg "base and quote token must differ"))
    else ret (Ok (base, quote))
  else
    localMode ← reads (getenv "LOCAL_MODE");
    if equal_fold_false localMode then
      ret (Err (ErrMsg ("BASE_TOKEN and QUOTE_TOKEN must be set on live networks — verify the current " +:+
        "Coston2 FXRP and USDT0 addresses against official Flare sources before deploying")))
    else
      base ←? deployTestToken s "Test FXRP" "FXRP" 6;
      quote ←? deployTestToken s "Test USDT0" "USDT0" 6;
      ret (Ok (base, quote)).

(** The three checks before anything is sent. *)
Definition preflight (testSupport : Support) : M W (result unit) :=
  let diamond := FlareTeeManager (SAddresses testSupport) in
  match AddressNotZero diamond "FlareTeeManager" with
  | Some err => ret (Err err)
  | None =>
    err ← AddressHasCode true diamond "FlareTeeManager";
    match err with
    | Some err => ret (Err err)
    | None =>
      err ← KeyHasFunds true (Prv testSupport) MinDeployBalance;
      ret match err with Some err => Err err | None => Ok tt end
    end
  end.

(** The arguments are the flags, the token ones absent when not given: their
    defaults are read before the .env file is loaded.  The value is what is
    printed on standard output. *)
Definition deploy_contract_main (af cf outFile : string) (baseTokenF quoteTokenF : option string)
    (preflightOnly : bool) : M W (result string) :=
  baseEnv ← reads (getenv "BASE_TOKEN");
  quoteEnv ← reads (getenv "QUOTE_TOKEN");
  testSupport ←? DefaultSupport af cf;
  _ ←? preflight testSupport;
  if preflightOnly then ret (Ok "")
  else
    '(baseToken, quoteToken) ←? resolveTokens testSupport (default baseEnv baseTokenF)
                                  (default quoteEnv quoteTokenF);
    address ←? DeployInstructionSender testSupport baseToken quoteToken;
    _ ← (if bool_decide (outFile ≠ "") then
           _ ← mkdir_all (Dir outFile); write_file outFile (Address_Hex address)
         else ret None);
    ret (Ok (output (Address_Hex baseToken) (Address_Hex quoteToken) (Address_Hex address))).
End deploy.

(** ** What pre-build.sh captures

    [tail -1] of the output, and [grep '^KEY=' | cut -d= -f2]. *)

Definition lines (out : string) : list string := str <$> raw_lines (bytes out).
Definition tail_1 (out : string) : string := default "" (last (lines out)).
Definition grep_cut (key out : string) : string :=
  join ((λ l, default "" (split l "="%char !! 1)) <$>
          filter (λ l, has_prefix l (key +:+ "=") = true) (lines out)) lf.

Section proofs.
Context {W : Type} `{OSW : !OS W, Dirs : !Directories W, Uni : !Unicode, Geth : !GoEthereum,
  Txt : !GoEthereumText, JErr : !JsonErrors, Eth : !Ethclient W, Env : !Dotenv W, Bnd : !Bindings,
  Abis : !ContractAbis, Trans : !Transactor, Tok : !Erc20 W, Auction : !QuietFillAuction W}.

(** ** Lemmas *)

(** A token that was seen to have code and to answer [symbol()] and [decimals()]. *)
Definition verified (a : string) : Prop :=
  a ≠ zero_address ∧
  (∃ w1 code w2, CodeAt (W := W) a w1 = (Ok code, w2) ∧ code ≠ "") ∧
  (∃ w1 x w2, Symbol (W := W) a w1 = (Ok x, w2)) ∧ (∃ w1 x w2, Decimals (W := W) a w1 = (Ok x, w2)).

Lemma AddressHasCode_none a label (w w' : W) :
  AddressHasCode true a label w = (None, w') → ∃ code, CodeAt a w = (Ok code, w') ∧ code ≠ "".
Proof.
  unfold AddressHasCode, bind. cbn. destruct (CodeAt a w) as [[code|err] w1] eqn:Hc; [|discriminate].
  case_decide as Hl; [discriminate|]. cbv [ret]. intros [= <-]. exists code. split; [done|]. by intros ->.
Qed.

Lemma describeToken_ok a name (w w' : W) :
  describeToken a name w = (Ok tt, w') →
  (∃ w1 x w2, Symbol (W := W) a w1 = (Ok x, w2)) ∧ (∃ w1 x w2, Decimals (W := W) a w1 = (Ok x, w2)).
Proof.
  unfold describeToken. rewrite bind_ret_l. destruct (NewBinding _ a); [|discriminate].
  destruct (Symbol a w) as [[x|] w1] eqn:Hx; rewrite (bind_run _ _ _ _ _ Hx); [|discriminate].
  destruct (Decimals a w1) as [[y|] w2] eqn:Hy; rewrite (bind_run _ _ _ _ _ Hy); [|discriminate].
  eauto 10.
Qed.

Lemma check_token_ok name a (w w' : W) : check_token name a w = (Ok tt, w') → verified a.
Proof.
  unfold check_token, AddressNotZero. case_decide as Hz; [discriminate|].
  rewrite mbind_bind. destruct (AddressHasCode true a name w) as [[err|] w1] eqn:Hc;
    rewrite (bind_run _ _ _ _ _ Hc); [discriminate|].
  apply AddressHasCode_none in Hc as (code & Hc & Hne). intros Hd%describeToken_ok.
  split; [done|]. split; [eauto|done].
Qed.

(** A test token that was deployed by a transaction mined successfully. *)
Definition deployed_token (symbol a : string) : Prop :=
  ∃ o name d w1 tx w2 w3 r w4, DeployTestToken_tx (W := W) o name symbol d w1 = (Ok (a, tx), w2) ∧
    WaitMined (W := W) tx w3 = (Ok r, w4) ∧ r_status r ≠ 0%Z.

Lemma deployTestToken_ok s name symbol d a (w w' : W) :
  deployTestToken s name symbol d w = (Ok a, w') → deployed_token symbol a.
Proof.
  unfold deployTestToken. rewrite bind_ret_l. destruct (NewKeyedTransactorWithChainID _ _) as [o|]; [|discriminate].
  destruct (DeployTestToken_tx o name symbol d w) as [[[a' tx]|] w1] eqn:Ht; rewrite (bind_run _ _ _ _ _ Ht); [|discriminate].
  destruct (CheckTx tx w1) as [[r|] w2] eqn:Hc; rewrite (bind_run _ _ _ _ _ Hc); [|discriminate].
  apply CheckTx_mined in Hc as [Hc Hs]. cbv [ret]. intros [= -> _]. unfold deployed_token. eauto 15.
Qed.

(** ** Properties *)

(** The escrow pair.  With both addresses given, tokens are returned only
    when they are two different non-zero addresses that were seen to have code
    and to answer [symbol()] and [decimals()].  With one missing, a run with
    LOCAL_MODE=false fails without touching anything, and any other run returns
    two test tokens it deployed, whatever the other address was. *)
Theorem resolveTokens_outcome (s : Support) (baseHex quoteHex : string) (w : W) :
  let '(r, w') := resolveTokens s baseHex quoteHex w in
  if bool_decide (baseHex ≠ "") && bool_decide (quoteHex ≠ "") then
    ∀ base quote, r = Ok (base, quote) →
      base = HexToAddress baseHex ∧ quote = HexToAddress quoteHex ∧ base ≠ quote ∧
      verified base ∧ verified quote
  else if equal_fold_false (getenv "LOCAL_MODE" w) then is_ok r = false ∧ w' = w
  else ∀ base quote, r = Ok (base, quote) → deployed_token "FXRP" base ∧ deployed_token "USDT0" quote.
Proof.
  destruct (resolveTokens s baseHex quoteHex w) as [r w'] eqn:Hr. unfold resolveTokens in Hr.
  destruct (_ && _).
  - intros base quote ->.
    apply bind_ok_inv in Hr as ([] & w1 & H1 & Hr). apply bind_ok_inv in Hr as ([] & w2 & H2 & Hr).
    case_decide; [discriminate|]. cbv [ret] in Hr. injection Hr as <- <- <-.
    split_and!; try done; by eapply check_token_ok.
  - rewrite mbind_bind, bind_reads in Hr. destruct (equal_fold_false _).
    + cbv [ret] in Hr. by injection Hr as <- <-.
    + intros base quote ->.
      apply bind_ok_inv in Hr as (b & w1 & H1 & Hr). apply bind_ok_inv in Hr as (q & w2 & H2 & Hr).
      cbv [ret] in Hr. injection Hr as -> -> _. split; by eapply deployTestToken_ok.
Qed.

Lemma lines_cons l rest : forallb plain (bytes l) = true → lines (l +:+ lf +:+ rest) = l :: lines rest.
Proof.
  intros Hl. unfold lines. rewrite !bytes_app. change (bytes lf ++ bytes rest) with (newline :: bytes rest).
  rewrite raw_lines_app by (by eapply plain_no_control). cbn [fmap list_fmap]. by rewrite str_bytes.
Qed.

Lemma address_text a : addressRegex a = true → forallb plain (bytes a) = true ∧ "="%char ∉ bytes a.
Proof.
  intros Ha. split; [by eapply match_0x_hex_plain|].
  apply match_0x_hex_bytes in Ha as (l & Hb & _ & Hl). rewrite Hb. intros Hin.
  apply elem_of_app in Hin as [Hin|Hin]; [vm_compute in Hin; set_solver|].
  rewrite forallb_forall in Hl. apply list_elem_of_In, Hl in Hin. done.
Qed.

(** The output's lines, and what the script takes from them. *)
Lemma output_lines base quote address :
  addressRegex base = true → addressRegex quote = true → addressRegex address = true →
  lines (output base quote address) = ["BASE_TOKEN=" +:+ base; "QUOTE_TOKEN=" +:+ quote; address].
Proof.
  intros [Hb _]%address_text [Hq _]%address_text [Ha _]%address_text.
  replace (output base quote address) with
    (("BASE_TOKEN=" +:+ base) +:+ lf +:+ ("QUOTE_TOKEN=" +:+ quote) +:+ lf +:+ address +:+ lf +:+ "").
  - by rewrite !lines_cons by (rewrite ?bytes_app, ?forallb_app; by rewrite ?Hb, ?Hq, ?Ha).
  - apply (inj bytes). unfold output. by rewrite !bytes_app, <- !app_assoc, app_nil_r.
Qed.

Lemma grep_cut_found key v pre post :
  "="%char ∉ bytes key → "="%char ∉ bytes v →
  Forall (λ l, has_prefix l (key +:+ "=") = false) (pre ++ post) →
  join ((λ l, default "" (split l "="%char !! 1)) <$>
          filter (λ l, has_prefix l (key +:+ "=") = true) (pre ++ (key +:+ "=" +:+ v) :: post)) lf = v.
Proof.
  intros Hk Hv [Hpre Hpost]%Forall_app.
  assert (∀ l, Forall (λ l, has_prefix l (key +:+ "=") = false) l →
            filter (λ l, has_prefix l (key +:+ "=") = true) l = []) as Hnone.
  { induction 1 as [|l ls Hl _ IH]; [done|]. rewrite filter_cons, decide_False by congruence. done. }
  assert (has_prefix (key +:+ "=" +:+ v) (key +:+ "=") = true) as Hkv.
  { apply has_prefix_true. exists v. apply (inj bytes). by rewrite !bytes_app, <- app_assoc. }
  rewrite filter_app, filter_cons, !Hnone, decide_True by done.
  cbn. change (key +:+ "=" +:+ v) with (key +:+ str ["="%char] +:+ v). by rewrite split_kv.
Qed.

Lemma output_captured base quote address :
  addressRegex base = true → addressRegex quote = true → addressRegex address = true →
  tail_1 (output base quote address) = address ∧
  grep_cut "BASE_TOKEN" (output base quote address) = base ∧
  grep_cut "QUOTE_TOKEN" (output base quote address) = quote.
Proof.
  intros Hb Hq Ha. unfold tail_1, grep_cut. rewrite output_lines by done.
  pose proof (address_text _ Hb) as [_ Hbe]. pose proof (address_text _ Hq) as [_ Hqe].
  apply match_0x_hex_bytes in Ha as (l & Hl & _). split; [done|].
  split.
  - apply (grep_cut_found "BASE_TOKEN" base []); [by_decide|done|].
    repeat constructor. unfold has_prefix. by rewrite Hl.
  - apply (grep_cut_found "QUOTE_TOKEN" quote ["BASE_TOKEN=" +:+ base]); [by_decide|done|].
    repeat constructor. unfold has_prefix. by rewrite Hl.
Qed.

(** A contract deployed with the diamond as both registries. *)
Definition deployed_contract (base quote address : string) : Prop :=
  ∃ o diamond w1 tx w2 r w3,
    DeployQuietFillAuction_tx (W := W) o diamond diamond base quote w1 = (Ok (address, tx), w2) ∧
    WaitMined (W := W) tx w2 = (Ok r, w3) ∧ r_status r = ReceiptStatusSuccessful.

Lemma DeployInstructionSender_ok s base quote address (w w' : W) :
  DeployInstructionSender s base quote w = (Ok address, w') → deployed_contract base quote address.
Proof.
  unfold DeployInstructionSender. rewrite bind_ret_l.
  destruct (NewKeyedTransactorWithChainID _ _) as [o|]; [|discriminate].
  destruct (DeployQuietFillAuction_tx o (FlareTeeManager (SAddresses s)) (FlareTeeManager (SAddresses s)) base quote w)
    as [[[a tx]|] w1] eqn:Ht; rewrite (bind_run _ _ _ _ _ Ht); [|discriminate].
  destruct (WaitMined tx w1) as [[r|] w2] eqn:Hm; rewrite (bind_run _ _ _ _ _ Hm); [|discriminate].
  case_decide as Hs; [discriminate|]. cbv [ret]. intros [= -> _].
  unfold deployed_contract. eauto 10.
Qed.

Lemma deploy_main_ok af cf outFile b q out (w w' : W) :
  deploy_contract_main af cf outFile b q false w = (Ok out, w') →
  ∃ base quote address, out = output (Address_Hex base) (Address_Hex quote) (Address_Hex address) ∧
    deployed_contract base quote address.
Proof.
  unfold deploy_contract_main. rewrite !mbind_bind, !bind_reads. intros H. rewrite mbind_bind, bind_reads in H.
  apply bind_ok_inv in H as (s & w1 & _ & H). apply bind_ok_inv in H as (u & w2 & _ & H).
  unfold bind at 1 in H. destruct (resolveTokens _ _ _ _) as [[[base quote]|] w3]; [|discriminate].
  apply bind_ok_inv in H as (address & w4 & Hd%DeployInstructionSender_ok & H).
  exists base, quote, address. split; [|done]. rewrite mbind_bind in H. unfold bind at 1 in H.
  destruct (if bool_decide (outFile ≠ "") then _ else _) as [e w5]. cbv [ret] in H. by injection H as <- _.
Qed.

(** C22: from deploy-contract to extension.env.  When the command deploys, what
    pre-build.sh captures of its output - the last line as the sender, the two
    token lines - is the contract it deployed with the diamond as both registries
    in a transaction that was mined successfully, and the tokens it was deployed
    with; the sender passes the script's check, and the file the script then
    writes, with the id register-extension prints, is read back by the validator
    as that id and that contract. *)
Theorem deploy_to_extension_env (af cf outFile : string) (b q : option string) (id : N) (out : string) (w w' : W) :
  (∀ a, addressRegex (Address_Hex a) = true) → (id < 2 ^ 256)%N →
  deploy_contract_main af cf outFile b q false w = (Ok out, w') →
  ∃ base quote address, deployed_contract base quote address ∧
    addressRegex (tail_1 out) = true ∧
    let content := pre_build_env (tail_1 (extensionIDHex id +:+ lf)) (tail_1 out)
                     (grep_cut "BASE_TOKEN" out) (grep_cut "QUOTE_TOKEN" out) in
    parseExtensionEnv (Ok content) = (extensionIDHex id, Address_Hex address, None) ∧
    env_vars content !! "BASE_TOKEN" = Some (Address_Hex base) ∧
    env_vars content !! "QUOTE_TOKEN" = Some (Address_Hex quote).
Proof.
  intros Hhex Hid (base & quote & address & -> & Hd)%deploy_main_ok. exists base, quote, address.
  destruct (output_captured (Address_Hex base) (Address_Hex quote) (Address_Hex address)) as (-> & -> & ->); try done.
  assert (tail_1 (extensionIDHex id +:+ lf) = extensionIDHex id) as ->.
  { unfold tail_1. change lf with (lf +:+ ""). rewrite lines_cons; [done|].
    by eapply match_0x_hex_plain, extensionIDHex_regex. }
  split; [done|]. split; [done|]. cbn zeta. rewrite parse_pre_build by (try right; done).
  rewrite env_vars_pre_build by (try right; done). split; [done|]. by simplify_map_eq.
Qed.
End proofs.

(** ** A local run *)

#[export] Instance sim_directories : Directories world := {|
  mkdir_all _ := ret None;
  stat_ok p w := bool_decide (is_Some (w_files w !! p));
|}.
(** A token's address is its symbol's, and the contract's is fixed. *)
#[export] Instance sim_tokens : Erc20 world := {|
  Symbol _ := ret (Ok "FXRP");
  Decimals _ := ret (Ok 6%Z);
  BalanceOf _ _ := ret (Ok 0%Z);
  Mint_tx _ _ _ _ := λ w, (Ok "mint", send "mint" w);
  Approve_tx _ _ _ _ := λ w, (Ok "approve", send "approve" w);
  DeployTestToken_tx _ name symbol _ := λ w, (Ok (fit 20 symbol, symbol), send symbol w);
|}.
#[export] Instance sim_auction : QuietFillAuction world := {|
  DeployQuietFillAuction_tx _ _ _ _ _ := λ w, (Ok (fit 20 "auction", "auction"), send "auction" w);
  SetExtensionId_tx _ _ := λ w, (Ok "set", send "set" w);
  ExtensionId _ := ret (Ok 5%Z);
  QuoteAmount _ lot price := ret (Ok (lot * price / 10 ^ 18)%Z);
  GetAuction _ _ := ret (Ok (mkAuctionInfo (fit 20 "tee") 3));
  CreateAuction_tx _ _ _ _ _ _ _ := λ w, (Ok "create", send "create" w);
  SubmitPrivateBid_tx _ _ _ _ := λ w, (Ok "bid", send "bid" w);
  RequestClear_tx _ _ _ := λ w, (Ok "clear", send "clear" w);
  SettleAuction_tx _ _ _ _ _ := λ w, (Ok "settle", send "settle" w);
  ParseAuctionCreated _ _ := Ok (Some 1%Z);
  ParsePrivateBidSubmitted _ _ := Ok (fit 32 "bid");
  ParseClearRequested _ _ := Ok (fit 32 "clear");
  ParseAuctionSettled _ _ := Ok (zero_address, 1%Z, 1%Z);
|}.

Lemma fit_length n s : length (bytes (fit n s)) = n.
Proof.
  unfold fit. rewrite bytes_str, length_app, length_replicate, length_drop. lia.
Qed.
Lemma hex_encode_regex s : length (bytes s) = 20 → addressRegex ("0x" +:+ hex_encode s) = true.
Proof.
  intros Hl. apply match_0x_hex_bytes. exists (bytes s ≫= hex_byte). unfold hex_encode.
  rewrite bytes_app, bytes_str. split; [done|].
  replace 40 with (2 * length (bytes s)) by lia. clear Hl. induction (bytes s) as [|c l [IH1 IH2]]; [done|].
  rewrite bind_cons, length_app, forallb_app, IH1, IH2. cbn [length].
  change (length (hex_byte c)) with 2. split; [lia|]. rewrite andb_true_r. destruct c as [[] [] [] [] [] [] [] []]; vm_compute; reflexivity.
Qed.
Lemma sim_address_hex a : addressRegex (Address_Hex a) = true.
Proof. apply hex_encode_regex, fit_length. Qed.

Definition deploy_world : world := demo_world.
Definition deploy_run : result string * world :=
  deploy_contract_main "addresses.json" "http://127.0.0.1:8545" "out/address" None None false deploy_world.
Definition deploy_out : string := match fst deploy_run with Ok out => out | Err _ => "" end.

Lemma deploy_to_extension_env_witness :
  deploy_contract_main "addresses.json" "http://127.0.0.1:8545" "out/address" None None false deploy_world =
    (Ok deploy_out, snd deploy_run) ∧
  ∃ base quote address, deployed_contract (W := world) base quote address ∧
    addressRegex (tail_1 deploy_out) = true ∧
    let content := pre_build_env (tail_1 (extensionIDHex 66046 +:+ lf)) (tail_1 deploy_out)
                     (grep_cut "BASE_TOKEN" deploy_out) (grep_cut "QUOTE_TOKEN" deploy_out) in
    parseExtensionEnv (Ok content) = (extensionIDHex 66046, Address_Hex address, None) ∧
    env_vars content !! "BASE_TOKEN" = Some (Address_Hex base) ∧
    env_vars content !! "QUOTE_TOKEN" = Some (Address_Hex quote).
Proof.
  assert (deploy_contract_main "addresses.json" "http://127.0.0.1:8545" "out/address" None None false deploy_world =
    (Ok deploy_out, snd deploy_run)) as Hrun.
  { assert (is_ok (fst deploy_run) = true) as Hok by (vm_compute; reflexivity).
    unfold deploy_out. fold deploy_run. destruct deploy_run as [[out|] w']; [reflexivity|discriminate Hok]. }
  split; [exact Hrun|].
  exact (deploy_to_extension_env "addresses.json" "http://127.0.0.1:8545" "out/address" None None 66046 deploy_out
    deploy_world (snd deploy_run) sim_address_hex (eq_refl : (66046 < 2 ^ 256)%N) Hrun).
Defined.
