(* ===== verification/RunTest.v ===== *)
(** * tools/cmd/run-test

    One auction from end to end: escrow, a private bid encrypted to the TEE, the
    TEE's clear, and the settlement of the signed result. *)

From S2P Require Import Prelude GoStrings GoText Json Platform Sim Report Revert Support TeeCalls GoPath Deploy.
From stdpp Require Import options.

(** ** Outside the repository *)

(** [abi.Arguments.Pack] and [Unpack], the ECIES encryption of tee-node's utils,
    [crypto/rand] and tee-node's submission tag of threshold-signed results. *)
Class AuctionCodec (W : Type) `{TeeTypes} := {
  Pack_arguments : list (string * string) → list abi_arg → result string;
  Unpack_arguments : list (string * string) → string → result (list abi_arg);
  Encrypt : string → PublicKey → M W (result string);
  rand_read : nat → M W (result string);
  Threshold : string;
}.

(** ** The ABI layouts *)

Definition instructionFeeWei : Z := 1000000.
Definition auctionStateSettled : Z := 3.

(** A field's name and type; the bid is one tuple of them. *)
Definition bidTupleArgs : list (string * string) :=
  [("bidder", "address"); ("contractAddr", "address"); ("auctionId", "uint256"); ("nonce", "uint64");
   ("unitPriceWei", "uint256"); ("salt", "bytes32")].
Definition bidReceiptArgs : list (string * string) :=
  [("contractAddr", "address"); ("auctionId", "uint256"); ("bidder", "address"); ("nonce", "uint64");
   ("bidCommitment", "bytes32")].
Definition clearResultArgs : list (string * string) :=
  [("contractAddr", "address"); ("auctionId", "uint256"); ("winner", "address");
   ("unitPriceWei", "uint256"); ("winningNonce", "uint64"); ("winningCommitment", "bytes32");
   ("submittedBidCount", "uint256"); ("eligibleBidCount", "uint256")].

Record privateBid := mkBid {
  Bidder : string;
  ContractAddr : string;
  AuctionId : Z;
  Nonce : Z;
  UnitPriceWei : Z;
  Salt : string;
}.
Definition bid_args (b : privateBid) : list abi_arg :=
  [ATuple [AAddress (Bidder b); AAddress (ContractAddr b); AUint (AuctionId b); AUint (Nonce b);
           AUint (UnitPriceWei b); ABytes32 (Salt b)]].

(** [vals[i].(T)]: [None] is a panic. *)
Definition address_at (vals : list abi_arg) (i : nat) : option string :=
  match vals !! i with Some (AAddress a) => Some a | _ => None end.
Definition uint_at (vals : list abi_arg) (i : nat) : option Z :=
  match vals !! i with Some (AUint n) => Some n | _ => None end.
Definition bytes32_at (vals : list abi_arg) (i : nat) : option string :=
  match vals !! i with Some (ABytes32 b) => Some b | _ => None end.
Definition type_panic : error := ErrMsg "interface conversion: interface {} has another type".
Definition or_panic {A} (x : option A) : result A :=
  match x with Some a => Ok a | None => Err type_panic end.

Definition clear_result (vals : list abi_arg) : option ClearResult :=
  c ← address_at vals 0; a ← uint_at vals 1; w ← address_at vals 2; p ← uint_at vals 3;
  n ← uint_at vals 4; k ← bytes32_at vals 5; s ← uint_at vals 6; e ← uint_at vals 7;
  Some (mkClearResult c a w p n k s e).

(** [new(big.Int).SetString(v, 10)] *)
Definition set_string_10 (v : string) : option Z :=
  match bytes v with
  | c :: l =>
    if decide (c = "-"%char) then n ← parse_digits 10 l; Some (- Z.of_N n)%Z
    else if decide (c = "+"%char) then n ← parse_digits 10 l; Some (Z.of_N n)
    else n ← parse_digits 10 (c :: l); Some (Z.of_N n)
  | [] => None
  end.

(** Seconds of a [time.Unix(sec, 0)]: its internal count from year 1 is an int64. *)
Definition unix_seconds (sec : Z) : Z := (swrap64 (sec + 62135596800) - 62135596800)%Z.
(** [time.Until] in milliseconds, saturated at the largest [Duration]. *)
Definition time_until (sec now_ms : Z) : Z :=
  Z.min (unix_seconds sec * 1000 - now_ms) ((2 ^ 63 - 1) / 10 ^ 6).

(** The two deadlines, [uint64]s computed from [int64]s. *)
Definition deadlines (now_ms bidWindow : Z) : Z * Z :=
  let bidDeadline := wrap64 (swrap64 (now_ms / 1000 + bidWindow)) in
  (bidDeadline, wrap64 (bidDeadline + 1800)).
(** How long step 6 waits. *)
Definition clear_wait (bidDeadline now_ms : Z) : Z := time_until (swrap64 (swrap64 bidDeadline + 2)) now_ms.

Section run_test.
Context {W : Type} `{OSW : !OS W, Uni : !Unicode, Geth : !GoEthereum, Txt : !GoEthereumText,
  JErr : !JsonErrors, Eth : !Ethclient W, Env : !Dotenv W, Bnd : !Bindings, Tee : !TeeTypes,
  Abis : !ContractAbis, Trans : !Transactor, Tok : !Erc20 W, Auction : !QuietFillAuction W,
  Codec : !AuctionCodec W}.

(** A run that returns [Err] is one in which [FatalWithCause] ended the process. *)

Definition mustBig (v name : string) : result Z :=
  match set_string_10 v with
  | Some n => if (n <=? 0)%Z then Err (ErrMsg ("invalid " +:+ name +:+ ": " +:+ fmt_q v)) else Ok n
  | None => Err (ErrMsg ("invalid " +:+ name +:+ ": " +:+ fmt_q v))
  end.

Definition dealerKey (fallback : PrivateKey) : M W (result PrivateKey) :=
  env ← reads (getenv "DEALER_PRIVATE_KEY");
  let raw := trim_prefix (trim_prefix env "0x") "0X" in
  if decide (raw = "") then ret (Ok fallback)
  else ret match HexToECDSA raw with
           | Err err => Err (ErrMsg ("invalid DEALER_PRIVATE_KEY: " +:+ err_text err))
           | Ok key => Ok key
           end.

Definition ensureFunds (s : Support) (token name holder : string) (holderPrv : PrivateKey) (needed : Z) :
    M W (result unit) :=
  balance ←? BalanceOf token holder
    | err => ret (Err (ErrMsg ("balanceOf(" +:+ name +:+ " token) failed: " +:+ err_text err)));
  if (needed <=? balance)%Z then ret (Ok tt)
  else
    opts ←? ret (NewKeyedTransactorWithChainID holderPrv (SChainID s));
    tx ←? Mint_tx token opts holder needed
      | err => ret (Err (ErrMsg (name +:+ " token balance " +:+ itoa balance +:+ " is below the required " +:+
                 itoa needed +:+ " and mint() failed (" +:+ err_text err +:+
                 ") — fund the account from a faucet")));
    _ ←? CheckTx tx;
    ret (Ok tt).

(** The loop of [sendTxRetry]: [todo] attempts are left, [i] were made. *)
Fixpoint send_attempts (todo i : nat) (s : Support) (label : string)
    (call : TransactOpts PrivateKey → M W (result Tx)) (key : PrivateKey) (value : option Z)
    (lastErr : option error) : M W (result (Receipt Log)) :=
  match todo with
  | O => ret (Err (default (ErrMsg "<nil>") lastErr))
  | S todo =>
    _ ← (if 0 <? i then sleep (5 * Second) else ret tt);
    opts ←? ret (NewKeyedTransactorWithChainID key (SChainID s));
    tx ←? call (with_value value opts)
      | err =>
        let reason := DecodeRevertReason (Some err) in
        send_attempts todo (S i) s label call key value
          (Some (ErrMsg (if bool_decide (reason ≠ "") then label +:+ " reverted: " +:+ reason
                         else label +:+ " failed: " +:+ err_text err)));
    receipt ←? CheckTx tx
      | err => send_attempts todo (S i) s label call key value
                 (Some (ErrMsg (label +:+ ": " +:+ err_text err)));
    ret (Ok receipt)
  end.
Definition sendTxRetry (s : Support) (label : string) (call : TransactOpts PrivateKey → M W (result Tx))
    (key : PrivateKey) (value : option Z) (attempts : nat) : M W (result (Receipt Log)) :=
  send_attempts attempts 0 s label call key value None.
Definition sendTx (s : Support) (label : string) (call : TransactOpts PrivateKey → M W (result Tx))
    (key : PrivateKey) (value : option Z) : M W (result (Receipt Log)) :=
  sendTxRetry s label call key value 1.

(** The loop of [pollResult]; [last] says whether a pending result was seen. *)
Fixpoint poll_pending (todo : nat) (proxyURL id : string) (last : bool) : M W (result ActionResponse) :=
  match todo with
  | O =>
    if last then ret (Err (ErrMsg ("result for " +:+ Hash_Hex id +:+ " still pending after polling")))
    else ret (Err (ErrMsg ("no result for " +:+ Hash_Hex id +:+ " from proxy")))
  | S todo =>
    resp ← ActionResult proxyURL id;
    match resp with
    | Ok resp =>
      if decide (ar_Status (Result resp) ≠ 2%Z) then ret (Ok resp)
      else _ ← sleep (3 * Second); poll_pending todo proxyURL id true
    | Err _ => _ ← sleep (3 * Second); poll_pending todo proxyURL id last
    end
  end.
Definition pollResult (proxyURL id : string) : M W (result ActionResponse) :=
  poll_pending 20 proxyURL id false.

(** The first log that parses. *)
Fixpoint first_event {A} (parse : Log → result A) (logs : list Log) : option A :=
  match logs with
  | [] => None
  | l :: logs => match parse l with Ok ev => Some ev | Err _ => first_event parse logs end
  end.

(** ** The steps of main *)

(** Step 0 *)
Definition cache_extension_id (s : Support) (senderAddr : string) : M W (result unit) :=
  cached ← ExtensionId senderAddr;
  if match cached with Ok n => (0 <? n)%Z | Err _ => false end then ret (Ok tt)
  else
    err ← SetExtensionId s senderAddr;
    ret match err with
        | Ok _ => Ok tt
        | Err err =>
          if contains (err_text err) "already set" || contains (err_text err) "ExtensionIdAlreadySet" ||
             contains (err_text err) "0x88f9fe3d"
          then Ok tt
          else Err (ErrMsg ("setExtensionId failed — is the extension registered? Check that " +:+
                            "pre-build.sh completed. Error: " +:+ err_text err))
        end.

(** Step 1: the TEE's public key and id. *)
Definition live_tee (pf : string) : M W (result (PublicKey * string)) :=
  teeInfo ←? TeeInfo pf
    | err => ret (Err (ErrMsg ("cannot fetch TEE info from " +:+ pf +:+ ": " +:+ err_text err)));
  teePub ←? ret (ParsePubKey (ti_PublicKey (si_TeeInfo teeInfo)))
    | err => ret (Err (ErrMsg ("cannot parse TEE public key: " +:+ err_text err)));
  ret (Ok (teePub, PublicKeyToAddress teePub)).

(** Step 2 *)
Definition fund_escrows (s : Support) (senderAddr baseAddr quoteAddr : string) (dealerPrv : PrivateKey)
    (lot ceiling : Z) : M W (result unit) :=
  let sellerAddr := PubkeyToAddress (Prv s) in
  let dealerAddr := PubkeyToAddress dealerPrv in
  _ ←? ret (NewBinding "TestToken" baseAddr);
  _ ←? ret (NewBinding "TestToken" quoteAddr);
  maxQuote ←? QuoteAmount senderAddr lot ceiling
    | err => ret (Err (ErrMsg ("quoteAmount call failed: " +:+ err_text err)));
  _ ←? ensureFunds s baseAddr "base" sellerAddr (Prv s) lot;
  _ ←? ensureFunds s quoteAddr "quote" dealerAddr dealerPrv maxQuote;
  _ ←? sendTx s "approve base escrow" (λ opts, Approve_tx baseAddr opts senderAddr lot) (Prv s) None;
  _ ←? sendTx s "approve quote escrow" (λ opts, Approve_tx quoteAddr opts senderAddr maxQuote) dealerPrv None;
  ret (Ok tt).

(** Step 3: the auction's id and its bid deadline. *)
Definition create_auction (s : Support) (senderAddr teeID : string) (lot floor ceiling bidWindow : Z) :
    M W (result (Z * Z)) :=
  now ← reads now;
  let '(bidDeadline, settleDeadline) := deadlines now bidWindow in
  receipt ←? sendTx s "createAuction"
               (λ opts, CreateAuction_tx senderAddr opts lot floor ceiling bidDeadline settleDeadline)
               (Prv s) None;
  match first_event (ParseAuctionCreated senderAddr) (r_logs receipt) with
  | Some (Some auctionID) =>
    auction ←? GetAuction senderAddr auctionID;
    if decide (au_TeeId auction ≠ teeID) then
      ret (Err (ErrMsg ("auction pinned TEE " +:+ Address_Hex (au_TeeId auction) +:+
        " but the proxy serves TEE " +:+ Address_Hex teeID +:+
        " — bids encrypted to this proxy cannot clear this auction")))
    else ret (Ok (auctionID, bidDeadline))
  | _ => ret (Err (ErrMsg "AuctionCreated event not found"))
  end.

(** Step 4: the instruction that carries the encrypted bid. *)
Definition submit_bid (s : Support) (senderAddr : string) (teePub : PublicKey) (dealerPrv : PrivateKey)
    (auctionID bidPrice : Z) : M W (result string) :=
  salt ←? rand_read 32;
  plaintext ←? ret (Pack_arguments bidTupleArgs
                      (bid_args (mkBid (PubkeyToAddress dealerPrv) senderAddr auctionID 1 bidPrice salt)))
    | err => ret (Err (ErrMsg ("failed to ABI-encode bid: " +:+ err_text err)));
  ciphertext ←? Encrypt plaintext teePub
    | err => ret (Err (ErrMsg ("ECIES encryption failed: " +:+ err_text err)));
  receipt ←? sendTx s "submitPrivateBid" (λ opts, SubmitPrivateBid_tx senderAddr opts auctionID ciphertext)
               dealerPrv (Some instructionFeeWei);
  let bidInstructionID :=
    default zero_hash (first_event (ParsePrivateBidSubmitted senderAddr) (r_logs receipt)) in
  if decide (bidInstructionID = zero_hash) then ret (Err (ErrMsg "PrivateBidSubmitted event not found"))
  else ret (Ok bidInstructionID).

(** Step 5: the commitment of the TEE's receipt. *)
Definition bid_receipt (pf bidInstructionID dealerAddr : string) : M W (result string) :=
  bidResp ←? pollResult pf bidInstructionID;
  if decide (ar_Status (Result bidResp) ≠ 1%Z) then
    ret (Err (ErrMsg ("TEE rejected the bid: " +:+ ar_Log (Result bidResp))))
  else
    receiptVals ←? ret (Unpack_arguments bidReceiptArgs (ar_Data (Result bidResp)))
      | err => ret (Err (ErrMsg ("cannot decode bid receipt: " +:+ err_text err)));
    got ←? ret (or_panic (address_at receiptVals 2));
    if decide (got ≠ dealerAddr) then
      ret (Err (ErrMsg ("bid receipt names bidder " +:+ Address_Hex got +:+ ", want " +:+
                        Address_Hex dealerAddr)))
    else ret (or_panic (bytes32_at receiptVals 4)).

(** Step 6: wait for the deadline, then request the clear. *)
Definition request_clear (s : Support) (senderAddr : string) (auctionID bidDeadline : Z) :
    M W (result string) :=
  now ← reads now;
  let wait := clear_wait bidDeadline now in
  _ ← (if (0 <? wait)%Z then sleep wait else ret tt);
  receipt ←? sendTxRetry s "requestClear" (λ opts, RequestClear_tx senderAddr opts auctionID) (Prv s)
               (Some instructionFeeWei) 5;
  let clearInstructionID :=
    default zero_hash (first_event (ParseClearRequested senderAddr) (r_logs receipt)) in
  if decide (clearInstructionID = zero_hash) then ret (Err (ErrMsg "ClearRequested event not found"))
  else ret (Ok clearInstructionID).

(** Step 7: the signed clear result. *)
Definition fetch_clear (pf clearInstructionID dealerAddr : string) (bidPrice : Z) :
    M W (result (ClearResult * string)) :=
  clearResp ←? pollResult pf clearInstructionID;
  let r := Result clearResp in
  if decide (ar_Status r ≠ 1%Z) then ret (Err (ErrMsg ("TEE clear failed: " +:+ ar_Log r)))
  else if decide (ar_SubmissionTag r ≠ Threshold) then
    ret (Err (ErrMsg ("clear result carries submission tag " +:+ fmt_q (ar_SubmissionTag r) +:+ ", need " +:+
      fmt_q Threshold +:+ " — the contract only verifies threshold-tagged signatures")))
  else if decide (len (Signature clearResp) ≠ 65) then
    ret (Err (ErrMsg ("proxy returned " +:+ itoa (Z.of_nat (len (Signature clearResp))) +:+
                      "-byte TEE signature, want 65")))
  else
    clearVals ←? ret (Unpack_arguments clearResultArgs (ar_Data r))
      | err => ret (Err (ErrMsg ("cannot decode clear result: " +:+ err_text err)));
    result ←? ret (or_panic (clear_result clearVals));
    if bool_decide (cr_Winner result ≠ dealerAddr) || negb (cr_UnitPriceWei result =? bidPrice)%Z then
      ret (Err (ErrMsg ("unexpected clear outcome: winner " +:+ Address_Hex (cr_Winner result) +:+ " at " +:+
        itoa (cr_UnitPriceWei result) +:+ " (submitted " +:+ itoa (cr_SubmittedBidCount result) +:+
        ", eligible " +:+ itoa (cr_EligibleBidCount result) +:+ ")")))
    else ret (Ok (result, Signature clearResp)).

(** Steps 8 and 9: settle, and look at the final state; the balances are only
    logged. *)
Definition settle_auction (s : Support) (senderAddr baseAddr quoteAddr dealerAddr : string) (auctionID : Z)
    (result : ClearResult) (signature : string) : M W (Prelude.result unit) :=
  receipt ←? sendTx s "settleAuction" (λ opts, SettleAuction_tx senderAddr opts auctionID result signature)
               (Prv s) None;
  match first_event (ParseAuctionSettled senderAddr) (r_logs receipt) with
  | None => ret (Err (ErrMsg "AuctionSettled event not found"))
  | Some _ =>
    auction ←? GetAuction senderAddr auctionID;
    if decide (au_State auction ≠ auctionStateSettled) then
      ret (Err (ErrMsg ("auction state is " +:+ itoa (au_State auction) +:+ ", want Settled")))
    else
      _ ← BalanceOf baseAddr dealerAddr;
      _ ← BalanceOf quoteAddr (PubkeyToAddress (Prv s));
      ret (Ok tt)
  end.

(** The arguments are the flags, the token ones absent when not given. *)
Definition run_test_main (af cf pf instructionSenderF : string) (baseTokenF quoteTokenF : option string)
    (lotF floorF ceilingF bidPriceF : string) (bidWindowF : Z) : M W (result unit) :=
  baseEnv ← reads (getenv "BASE_TOKEN");
  quoteEnv ← reads (getenv "QUOTE_TOKEN");
  let baseTokenF := default baseEnv baseTokenF in
  let quoteTokenF := default quoteEnv quoteTokenF in
  let senderAddr := HexToAddress instructionSenderF in
  lot ←? ret (mustBig lotF "lot");
  floor ←? ret (mustBig floorF "floor");
  ceiling ←? ret (mustBig ceilingF "ceiling");
  bidPrice ←? ret (mustBig bidPriceF "bidPrice");
  if bool_decide (baseTokenF = "") || bool_decide (quoteTokenF = "") then
    ret (Err (ErrMsg ("baseToken and quoteToken are required " +:+
                      "(pre-build.sh writes them into config/extension.env)")))
  else
  let baseAddr := HexToAddress baseTokenF in
  let quoteAddr := HexToAddress quoteTokenF in
  s ←? DefaultSupport af cf;
  dealerPrv ←? dealerKey (Prv s);
  let dealerAddr := PubkeyToAddress dealerPrv in
  _ ←? ret (NewBinding "QuietFillAuction" senderAddr);
  _ ←? cache_extension_id s senderAddr;
  '(teePub, teeID) ←? live_tee pf;
  _ ←? fund_escrows s senderAddr baseAddr quoteAddr dealerPrv lot ceiling;
  '(auctionID, bidDeadline) ←? create_auction s senderAddr teeID lot floor ceiling bidWindowF;
  bidInstructionID ←? submit_bid s senderAddr teePub dealerPrv auctionID bidPrice;
  _ ←? bid_receipt pf bidInstructionID dealerAddr;
  clearInstructionID ←? request_clear s senderAddr auctionID bidDeadline;
  '(result, signature) ←? fetch_clear pf clearInstructionID dealerAddr bidPrice;
  settle_auction s senderAddr baseAddr quoteAddr dealerAddr auctionID result signature.

(** ** Lemmas *)

(** One unanswered round of [pollResult]. *)
Definition unanswered (proxyURL id : string) (w w' : W) : Prop :=
  ∃ r w1, ActionResult proxyURL id w = (r, w1) ∧ w' = snd (sleep (3 * Second) w1) ∧
    match r with Ok resp => ar_Status (Result resp) = 2%Z | Err _ => True end.

Lemma poll_pending_outcome todo url id last w :
  let '(r, w') := poll_pending todo url id last w in
  match r with
  | Ok resp => ∃ n w1, n < todo ∧ nsteps (unanswered url id) n w w1 ∧
                 ActionResult url id w1 = (Ok resp, w') ∧ ar_Status (Result resp) ≠ 2%Z
  | Err _ => nsteps (unanswered url id) todo w w'
  end.
Proof.
  revert last w. induction todo as [|todo IH]; intros last w; cbn [poll_pending].
  - destruct last; apply nsteps_O.
  - rewrite mbind_bind. destruct (ActionResult url id w) as [r w1] eqn:Hr.
    rewrite (bind_run _ _ _ _ _ Hr).
    assert (∀ b, match r with Ok resp => ar_Status (Result resp) = 2%Z | Err _ => True end →
      let '(r, w') := bind (sleep (3 * Second)) (λ _, poll_pending todo url id b) w1 in
      match r with
      | Ok resp => ∃ n w1, n < S todo ∧ nsteps (unanswered url id) n w w1 ∧
                     ActionResult url id w1 = (Ok resp, w') ∧ ar_Status (Result resp) ≠ 2%Z
      | Err _ => nsteps (unanswered url id) (S todo) w w'
      end) as Hround.
    { intros b Hb. destruct (sleep (3 * Second) w1) as [u w2] eqn:Hs. rewrite (bind_run _ _ _ _ _ Hs).
      specialize (IH b w2). assert (unanswered url id w w2) as Hu.
      { exists r, w1. by rewrite Hs. }
      destruct (poll_pending todo url id b w2) as [[resp|err] w'].
      - destruct IH as (n & w3 & Hn & Hsteps & Ha). exists (S n), w3. split; [lia|].
        split; [by eapply nsteps_l|done].
      - by eapply nsteps_l. }
    destruct r as [resp|err]; [|by apply Hround].
    case_decide as Hst; [|by apply Hround].
    cbn. exists 0, w. split; [lia|]. split; [apply nsteps_O|]. done.
Qed.

(** The response to the first round that is answered. *)
Definition polled (proxyURL id : string) (w : W) (resp : ActionResponse) (w' : W) : Prop :=
  ∃ n w1, n < 20 ∧ nsteps (unanswered proxyURL id) n w w1 ∧
    ActionResult proxyURL id w1 = (Ok resp, w') ∧ ar_Status (Result resp) ≠ 2%Z.
Lemma pollResult_ok url id w resp w' : pollResult url id w = (Ok resp, w') → polled url id w resp w'.
Proof. intros H. pose proof (poll_pending_outcome 20 url id false w) as Ho. unfold pollResult in H. by rewrite H in Ho. Qed.

(** *** Sending *)

(** The [i]-th attempt, counted from 0: all but the first come after a pause. *)
Definition paused (i : nat) (w : W) : W := if 0 <? i then snd (sleep (5 * Second) w) else w.
(** It fails, with an error, in the call or with the transaction the call sent. *)
Inductive failed_attempt (s : Support) (label : string) (call : TransactOpts PrivateKey → M W (result Tx))
    (key : PrivateKey) (value : option Z) (i : nat) (w : W) : error → W → Prop :=
  | failed_call o e w' :
      NewKeyedTransactorWithChainID key (SChainID s) = Ok o →
      call (with_value value o) (paused i w) = (Err e, w') →
      failed_attempt s label call key value i w
        (ErrMsg (if bool_decide (DecodeRevertReason (Some e) ≠ "")
                 then label +:+ " reverted: " +:+ DecodeRevertReason (Some e)
                 else label +:+ " failed: " +:+ err_text e)) w'
  | failed_tx o tx w1 e w' :
      NewKeyedTransactorWithChainID key (SChainID s) = Ok o →
      call (with_value value o) (paused i w) = (Ok tx, w1) → CheckTx tx w1 = (Err e, w') →
      failed_attempt s label call key value i w (ErrMsg (label +:+ ": " +:+ err_text e)) w'.
(** [n] failed attempts from the [i]-th on, and the error of the last. *)
Inductive failures s label call key value : nat → nat → option error → W → option error → W → Prop :=
  | failures_O i last w : failures s label call key value i 0 last w last w
  | failures_S i n last e last' w w1 w' :
      failed_attempt s label call key value i w e w1 →
      failures s label call key value (S i) n (Some e) w1 last' w' →
      failures s label call key value i (S n) last w last' w'.
(** It succeeds: the call's one transaction is mined with success. *)
Definition succeeded (s : Support) (call : TransactOpts PrivateKey → M W (result Tx)) (key : PrivateKey)
    (value : option Z) (i : nat) (w : W) (receipt : Receipt Log) (w' : W) : Prop :=
  transacted s key (λ o, call (with_value value o)) (paused i w) receipt w'.

(** From [w] to [w'] nothing happens but some failed attempts, fewer than allowed, and
    then one that succeeds. *)
Definition sent_from s label call key value (i todo : nat) (last : option error) (w : W) receipt w' : Prop :=
  ∃ n e w1, n < todo ∧ failures s label call key value i n last w e w1 ∧
    succeeded s call key value (i + n) w1 receipt w'.
Definition sent s label call key value attempts w receipt w' : Prop :=
  sent_from s label call key value 0 attempts None w receipt w'.

Definition attempts_outcome s label call key value (i todo : nat) last (w : W) (r : result (Receipt Log)) (w' : W) : Prop :=
  match r with
  | Ok receipt => sent_from s label call key value i todo last w receipt w'
  | Err err =>
    0 < todo ∧ NewKeyedTransactorWithChainID key (SChainID s) = Err err ∧ w' = paused i w ∨
    ∃ e, failures s label call key value i todo last w e w' ∧ err = default (ErrMsg "<nil>") e
  end.

Lemma failed_attempt_key s label call key value i w e w' :
  failed_attempt s label call key value i w e w' → is_ok (NewKeyedTransactorWithChainID key (SChainID s)) = true.
Proof. by intros [o ? ? ->|o ? ? ? ? ->]. Qed.
Lemma attempts_after_failure s label call key value i todo last e w w1 r w' :
  failed_attempt s label call key value i w e w1 →
  attempts_outcome s label call key value (S i) todo (Some e) w1 r w' →
  attempts_outcome s label call key value i (S todo) last w r w'.
Proof.
  intros Hf. destruct r as [receipt|err].
  - intros (n & e' & w2 & Hn & Hfs & Hm). exists (S n), e', w2. split; [lia|]. split; [by eapply failures_S|].
    by rewrite Nat.add_succ_r.
  - intros [(_ & Hk & _)|(e' & Hfs & ->)]; [by apply failed_attempt_key in Hf; rewrite Hk in Hf|right].
    exists e'. split; [by eapply failures_S|done].
Qed.

Lemma send_attempts_outcome s label call key value todo i last w :
  let '(r, w') := send_attempts todo i s label call key value last w in
  attempts_outcome s label call key value i todo last w r w'.
Proof.
  revert i last w. induction todo as [|todo IH]; intros i last w; cbn [send_attempts].
  - right. exists last. split; [apply failures_O|done].
  - rewrite mbind_bind.
    assert ((if 0 <? i then sleep (5 * Second) else ret tt) w = (tt, paused i w)) as Hs.
    { unfold paused. destruct (0 <? i); [|done]. by destruct (sleep (5 * Second) w) as [[] w1]. }
    rewrite (bind_run _ _ _ _ _ Hs), bind_ret_l.
    destruct (NewKeyedTransactorWithChainID key (SChainID s)) as [o|err] eqn:Ho; [|left; split_and!; [lia|done|done]].
    destruct (call (with_value value o) (paused i w)) as [[tx|err] w1] eqn:Hc; rewrite (bind_run _ _ _ _ _ Hc).
    + destruct (CheckTx tx w1) as [[receipt|err] w2] eqn:Hm; rewrite (bind_run _ _ _ _ _ Hm).
      * cbn. exists 0, last, w. split; [lia|]. split; [apply failures_O|]. rewrite Nat.add_0_r.
        by eapply transacted_intro.
      * pose proof (failed_tx s label call key value i w _ _ _ _ _ Ho Hc Hm) as Hf.
        specialize (IH (S i) (Some (ErrMsg (label +:+ ": " +:+ err_text err))) w2).
        destruct (send_attempts _ _ _ _ _ _ _ _ w2). by eapply attempts_after_failure.
    + pose proof (failed_call s label call key value i w _ _ _ Ho Hc) as Hf. cbn zeta.
      match type of Hf with failed_attempt _ _ _ _ _ _ _ ?e _ => specialize (IH (S i) (Some e) w1) end.
      destruct (send_attempts _ _ _ _ _ _ _ _ w1). by eapply attempts_after_failure.
Qed.

Lemma sendTxRetry_sent s label call key value n receipt (w w' : W) :
  sendTxRetry s label call key value n w = (Ok receipt, w') → sent s label call key value n w receipt w'.
Proof.
  unfold sendTxRetry. intros H. pose proof (send_attempts_outcome s label call key value n 0 None w) as Ho.
  by rewrite H in Ho.
Qed.

(** *** The steps of a run that passed *)

(** The event read from a receipt: the first of its logs that parses. *)
Definition emitted {A} (parse : Log → result A) (receipt : Receipt Log) (ev : A) : Prop :=
  ∃ i l, r_logs receipt !! i = Some l ∧ parse l = Ok ev ∧
    ∀ j l', j < i → r_logs receipt !! j = Some l' → is_ok (parse l') = false.
Lemma first_event_emitted {A} (parse : Log → result A) receipt ev :
  first_event parse (r_logs receipt) = Some ev → emitted parse receipt ev.
Proof.
  unfold emitted. induction (r_logs receipt) as [|l logs IH]; [done|]. cbn.
  destruct (parse l) as [ev'|e] eqn:Hl.
  - intros [= ->]. exists 0, l. split_and!; [done|done|lia].
  - intros (i & l' & Hi & Hp & Hb)%IH. exists (S i), l'. split_and!; [done|done|].
    intros [|k] l'' Hk; cbn; [intros [= <-]; by rewrite Hl|apply Hb; lia].
Qed.
(** An instruction id that is not found counts as the zero hash. *)
Lemma instruction_emitted (parse : Log → result string) receipt id :
  default zero_hash (first_event parse (r_logs receipt)) = id → id ≠ zero_hash → emitted parse receipt id.
Proof.
  destruct (first_event parse _) as [id'|] eqn:He; cbn; [|by intros <-]. intros <- _. by apply first_event_emitted.
Qed.

Lemma live_tee_ok pf teePub teeID (w w' : W) :
  live_tee pf w = (Ok (teePub, teeID), w') → teeID = PublicKeyToAddress teePub.
Proof.
  unfold live_tee. destruct (TeeInfo pf w) as [[info|] w1] eqn:Ht; rewrite (bind_run _ _ _ _ _ Ht); [|discriminate].
  rewrite bind_ret_l. destruct (ParsePubKey _); [|discriminate]. cbv [ret]. by intros [= -> ->].
Qed.

(** The auction is created, its event names it, and it is pinned to the TEE. *)
Definition auction_created (s : Support) (senderAddr teeID : string) (lot floor ceiling window : Z)
    (auctionID bidDeadline : Z) (w w' : W) : Prop :=
  ∃ settleDeadline receipt w1 auction,
    deadlines (now w) window = (bidDeadline, settleDeadline) ∧
    sent s "createAuction"
      (λ opts, CreateAuction_tx senderAddr opts lot floor ceiling bidDeadline settleDeadline) (Prv s) None 1
      w receipt w1 ∧
    emitted (ParseAuctionCreated senderAddr) receipt (Some auctionID) ∧
    GetAuction senderAddr auctionID w1 = (Ok auction, w') ∧ au_TeeId auction = teeID.
Lemma create_auction_ok s sender teeID lot floor ceiling window id deadline (w w' : W) :
  create_auction s sender teeID lot floor ceiling window w = (Ok (id, deadline), w') →
  auction_created s sender teeID lot floor ceiling window id deadline w w'.
Proof.
  unfold create_auction. rewrite mbind_bind, bind_reads. destruct (deadlines _ _) as [b e] eqn:Hd. intros H.
  apply bind_ok_inv in H as (receipt & w1 & Hs%sendTxRetry_sent & H).
  destruct (first_event _ _) as [[auctionID|]|] eqn:He; [|discriminate..].
  apply bind_ok_inv in H as (auction & w2 & Hg & H). case_decide as Ht; [discriminate|].
  cbv [ret] in H. injection H as <- <- <-. exists e, receipt, w1, auction.
  split_and!; [done|done|by apply first_event_emitted|done|done].
Qed.

(** A bid for the auction, encrypted to the TEE's key, is submitted with the fee. *)
Definition bid_submitted (s : Support) (senderAddr : string) (teePub : PublicKey) (dealerPrv : PrivateKey)
    (auctionID bidPrice : Z) (bidInstructionID : string) (w w' : W) : Prop :=
  ∃ salt w1 plaintext ciphertext w2 receipt,
    rand_read 32 w = (Ok salt, w1) ∧
    Pack_arguments bidTupleArgs
      (bid_args (mkBid (PubkeyToAddress dealerPrv) senderAddr auctionID 1 bidPrice salt)) = Ok plaintext ∧
    Encrypt plaintext teePub w1 = (Ok ciphertext, w2) ∧
    sent s "submitPrivateBid" (λ opts, SubmitPrivateBid_tx senderAddr opts auctionID ciphertext) dealerPrv
      (Some instructionFeeWei) 1 w2 receipt w' ∧
    emitted (ParsePrivateBidSubmitted senderAddr) receipt bidInstructionID ∧ bidInstructionID ≠ zero_hash.
Lemma submit_bid_ok s sender teePub dealer id price instr (w w' : W) :
  submit_bid s sender teePub dealer id price w = (Ok instr, w') →
  bid_submitted s sender teePub dealer id price instr w w'.
Proof.
  unfold submit_bid. intros H. apply bind_ok_inv in H as (salt & w1 & Hr & H).
  rewrite bind_ret_l in H. destruct (Pack_arguments _ _) as [plaintext|] eqn:Hp; [|discriminate].
  destruct (Encrypt plaintext teePub w1) as [[ciphertext|] w2] eqn:He; rewrite (bind_run _ _ _ _ _ He) in H;
    [|discriminate].
  apply bind_ok_inv in H as (receipt & w3 & Hs%sendTxRetry_sent & H). cbn zeta in H.
  case_decide as Hz; [discriminate|]. cbv [ret] in H. injection H as Hid <-. rewrite Hid in Hz.
  exists salt, w1, plaintext, ciphertext, w2, receipt. split_and!; try done. by eapply instruction_emitted.
Qed.

(** The proxy's answer to the bid's instruction is a receipt for the dealer. *)
Definition bid_acknowledged (pf bidInstructionID dealerAddr : string) (w w' : W) : Prop :=
  ∃ resp vals commitment, polled pf bidInstructionID w resp w' ∧ ar_Status (Result resp) = 1%Z ∧
    Unpack_arguments bidReceiptArgs (ar_Data (Result resp)) = Ok vals ∧
    vals !! 2 = Some (AAddress dealerAddr) ∧ vals !! 4 = Some (ABytes32 commitment).
Lemma bid_receipt_ok pf instr dealerAddr commitment (w w' : W) :
  bid_receipt pf instr dealerAddr w = (Ok commitment, w') → bid_acknowledged pf instr dealerAddr w w'.
Proof.
  unfold bid_receipt. intros H. apply bind_ok_inv in H as (resp & w1 & Hp%pollResult_ok & H).
  case_decide as Hst; [discriminate|].
  rewrite bind_ret_l in H. destruct (Unpack_arguments _ _) as [vals|] eqn:Hv; [|discriminate].
  rewrite bind_ret_l in H. unfold address_at, bytes32_at in H.
  destruct (vals !! 2) as [[]|] eqn:H2; try discriminate. cbn in H.
  case_decide as Hd; [discriminate|]. subst.
  destruct (vals !! 4) as [[]|] eqn:H4; try discriminate. cbv [ret or_panic] in H. injection H as -> ->.
  by exists resp, vals, commitment.
Qed.

(** The clear of the auction is requested, when its bid deadline has passed, with the
    fee. *)
Definition clear_requested (s : Support) (senderAddr : string) (auctionID bidDeadline : Z)
    (clearInstructionID : string) (w w' : W) : Prop :=
  let wait := clear_wait bidDeadline (now w) in
  ∃ receipt,
    sent s "requestClear" (λ opts, RequestClear_tx senderAddr opts auctionID) (Prv s)
      (Some instructionFeeWei) 5 (if (0 <? wait)%Z then snd (sleep wait w) else w) receipt w' ∧
    emitted (ParseClearRequested senderAddr) receipt clearInstructionID ∧ clearInstructionID ≠ zero_hash.
Lemma request_clear_ok s sender id deadline instr (w w' : W) :
  request_clear s sender id deadline w = (Ok instr, w') → clear_requested s sender id deadline instr w w'.
Proof.
  unfold request_clear, clear_requested. rewrite mbind_bind, bind_reads. cbn zeta. intros H.
  set (w0 := if (0 <? clear_wait deadline (now w))%Z then snd (sleep (clear_wait deadline (now w)) w) else w).
  assert ((if (0 <? clear_wait deadline (now w))%Z then sleep (clear_wait deadline (now w)) else ret tt) w = (tt, w0))
    as Hs.
  { unfold w0. case_match; [|done]. by destruct (sleep _ w) as [[] w1]. }
  rewrite mbind_bind, (bind_run _ _ _ _ _ Hs) in H.
  apply bind_ok_inv in H as (receipt & w3 & Hsent%sendTxRetry_sent & H).
  case_decide as Hz; [discriminate|]. cbv [ret] in H. injection H as Hid <-. rewrite Hid in Hz.
  exists receipt. split_and!; try done. by eapply instruction_emitted.
Qed.

(** The response whose result and signature are settled. *)
Definition cleared (dealerAddr : string) (bidPrice : Z) (resp : ActionResponse) (result : ClearResult) : Prop :=
  ar_Status (Result resp) = 1%Z ∧ ar_SubmissionTag (Result resp) = Threshold ∧ len (Signature resp) = 65 ∧
  (∃ vals, Unpack_arguments clearResultArgs (ar_Data (Result resp)) = Ok vals ∧ clear_result vals = Some result) ∧
  cr_Winner result = dealerAddr ∧ cr_UnitPriceWei result = bidPrice.
Lemma fetch_clear_ok pf instr dealerAddr price result signature (w w' : W) :
  fetch_clear pf instr dealerAddr price w = (Ok (result, signature), w') →
  ∃ resp, polled pf instr w resp w' ∧ signature = Signature resp ∧ cleared dealerAddr price resp result.
Proof.
  unfold fetch_clear. intros H. apply bind_ok_inv in H as (resp & w1 & Hp%pollResult_ok & H). exists resp.
  case_decide as Hst; [discriminate|]. case_decide as Htag; [discriminate|]. case_decide as Hlen; [discriminate|].
  rewrite bind_ret_l in H. destruct (Unpack_arguments _ _) as [vals|] eqn:Hv; [|discriminate].
  rewrite bind_ret_l in H. destruct (clear_result vals) as [cr|] eqn:Hc; [|discriminate]. cbn in H.
  destruct (_ || _) eqn:Hok; [discriminate|]. cbv [ret] in H. injection H as -> <- <-.
  apply orb_false_iff in Hok as [Hw Hprice].
  apply bool_decide_eq_false, dec_stable in Hw. apply negb_false_iff, Z.eqb_eq in Hprice.
  unfold cleared. eauto 10.
Qed.

(** The result is settled under the signature, and the auction is read as settled. *)
Definition settled (s : Support) (senderAddr : string) (auctionID : Z) (result : ClearResult) (signature : string)
    (w : W) : Prop :=
  ∃ receipt ev w1 auction w2,
    sent s "settleAuction" (λ opts, SettleAuction_tx senderAddr opts auctionID result signature) (Prv s) None 1
      w receipt w1 ∧
    emitted (ParseAuctionSettled senderAddr) receipt ev ∧
    GetAuction senderAddr auctionID w1 = (Ok auction, w2) ∧ au_State auction = auctionStateSettled.
Lemma settle_auction_ok s sender base quote dealerAddr id result signature (w w' : W) :
  settle_auction s sender base quote dealerAddr id result signature w = (Ok tt, w') →
  settled s sender id result signature w.
Proof.
  unfold settle_auction. intros H. apply bind_ok_inv in H as (receipt & w1 & Hs%sendTxRetry_sent & H).
  destruct (first_event _ _) as [ev|] eqn:He; [|discriminate]. apply bind_ok_inv in H as (auction & w2 & Hg & H).
  case_decide as Hst; [discriminate|]. exists receipt, ev, w1, auction, w2.
  split_and!; [done|by apply first_event_emitted|done|done].
Qed.

Lemma mustBig_positive v name n : mustBig v name = Ok n → (0 < n)%Z.
Proof.
  unfold mustBig. destruct (set_string_10 v) as [m|]; [|discriminate].
  destruct (Z.leb_spec m 0); [discriminate|]. by intros [= <-].
Qed.

(** ** Properties *)

(** [pollResult] always ends, after at most twenty rounds (of at most fifteen
    requests each).  A response it returns is not pending and is the answer to
    the first round that was not left unanswered; it fails only after twenty
    rounds in which the proxy either gave no result or a pending one. *)
Theorem pollResult_bounded (proxyURL id : string) (w : W) :
  let '(r, w') := pollResult proxyURL id w in
  match r with
  | Ok resp => ∃ n w1, n < 20 ∧ nsteps (unanswered proxyURL id) n w w1 ∧
                 ActionResult proxyURL id w1 = (Ok resp, w') ∧ ar_Status (Result resp) ≠ 2%Z
  | Err _ => nsteps (unanswered proxyURL id) 20 w w'
  end.
Proof.
  unfold pollResult. generalize 20 as rounds. intros rounds. apply poll_pending_outcome.
Qed.

(** C31: [sendTxRetry] makes at most the given number of attempts, pausing before
    each but the first, and stops at the first whose transaction is mined with
    success: it returns that transaction's receipt, and has sent nothing more and
    done nothing else since.  Otherwise every attempt has failed, in the call or
    with its transaction, and the error of the last is reported; or no transactor
    can be built for the key, and nothing was sent. *)
Theorem sendTxRetry_outcome (s : Support) (label : string) (call : TransactOpts PrivateKey → M W (result Tx))
    (key : PrivateKey) (value : option Z) (attempts : nat) (w : W) :
  let '(r, w') := sendTxRetry s label call key value attempts w in
  match r with
  | Ok receipt => ∃ n e w1, n < attempts ∧ failures s label call key value 0 n None w e w1 ∧
                    succeeded s call key value n w1 receipt w'
  | Err err =>
    0 < attempts ∧ NewKeyedTransactorWithChainID key (SChainID s) = Err err ∧ w' = w ∨
    ∃ e, failures s label call key value 0 attempts None w e w' ∧ err = default (ErrMsg "<nil>") e
  end.
Proof. unfold sendTxRetry. apply (send_attempts_outcome _ _ _ _ _ _ 0). Qed.

(** C20: what it means that run-test passed: one auction went through all its steps,
    each on what the step before it left and with what that step returned.  The
    auction was created and named by its event, and read back as pinned to the TEE
    the proxy serves; a bid at a positive price by the dealer, packed for this
    contract and this auction, was encrypted to that TEE's key and submitted with
    the fee; the answer to the instruction of that bid was a receipt for the
    dealer; after the bid deadline a clear of this auction was requested with the
    fee; the answer to the instruction of that request was a successful,
    threshold-tagged result under a 65-byte signature that names the dealer as the
    winner at the bid price; exactly this result and signature were settled for
    this auction, which was then read back as settled.  Each transaction was mined
    with success, and each answer is the first the proxy had. *)
Theorem run_test_passed (af cf pf sender : string) (base quote : option string)
    (lotF floorF ceilingF bidPriceF : string) (window : Z) (w w' : W) :
  run_test_main af cf pf sender base quote lotF floorF ceilingF bidPriceF window w = (Ok tt, w') →
  ∃ lot floor ceiling bidPrice s dealerPrv teePub auctionID bidDeadline bidInstructionID clearInstructionID
    resp result w1 w2 w3 w4 w5 w6,
    let senderAddr := HexToAddress sender in
    let dealerAddr := PubkeyToAddress dealerPrv in
    mustBig lotF "lot" = Ok lot ∧ mustBig floorF "floor" = Ok floor ∧ mustBig ceilingF "ceiling" = Ok ceiling ∧
    mustBig bidPriceF "bidPrice" = Ok bidPrice ∧ (0 < bidPrice)%Z ∧
    auction_created s senderAddr (PublicKeyToAddress teePub) lot floor ceiling window auctionID bidDeadline w1 w2 ∧
    bid_submitted s senderAddr teePub dealerPrv auctionID bidPrice bidInstructionID w2 w3 ∧
    bid_acknowledged pf bidInstructionID dealerAddr w3 w4 ∧
    clear_requested s senderAddr auctionID bidDeadline clearInstructionID w4 w5 ∧
    polled pf clearInstructionID w5 resp w6 ∧ cleared dealerAddr bidPrice resp result ∧
    settled s senderAddr auctionID result (Signature resp) w6.
Proof.
  unfold run_test_main. intros H. rewrite mbind_bind, bind_reads, mbind_bind, bind_reads in H. cbv zeta in H.
  apply bind_ok_inv in H as (lot & ? & [Hlot ->]%ret_inv & H).
  apply bind_ok_inv in H as (floor & ? & [Hfloor ->]%ret_inv & H).
  apply bind_ok_inv in H as (ceiling & ? & [Hceiling ->]%ret_inv & H).
  apply bind_ok_inv in H as (bidPrice & ? & [Hb ->]%ret_inv & H).
  destruct (_ || _); [discriminate|].
  apply bind_ok_inv in H as (s & w5 & _ & H). apply bind_ok_inv in H as (dealerPrv & w6 & _ & H).
  apply bind_ok_inv in H as (? & ? & _ & H). apply bind_ok_inv in H as (? & w7 & _ & H).
  apply bind_ok_inv in H as ([teePub teeID] & w8 & ->%live_tee_ok & H). apply bind_ok_inv in H as (? & w9 & _ & H).
  apply bind_ok_inv in H as ([auctionID deadline] & w10 & Hc%create_auction_ok & H).
  apply bind_ok_inv in H as (bid & w11 & Hbid%submit_bid_ok & H).
  apply bind_ok_inv in H as (? & w12 & Hack%bid_receipt_ok & H).
  apply bind_ok_inv in H as (clear & w13 & Hreq%request_clear_ok & H).
  apply bind_ok_inv in H as ([result signature] & w14 & Hf & H).
  apply fetch_clear_ok in Hf as (resp & Hp & -> & Hcl). apply settle_auction_ok in H.
  exists lot, floor, ceiling, bidPrice, s, dealerPrv, teePub, auctionID, deadline, bid, clear, resp, result.
  exists w9, w10, w11, w12, w13, w14. cbn zeta. split_and!; try done. by eapply mustBig_positive.
Qed.
End run_test.

(** C34: the deadlines of the created auction.  They are in the range of a uint64
    whatever the flag; for a clock before the year 287396 and a bid window of at
    most 2^33 seconds that does not reach back before 1970 nothing wraps, the
    auction can be settled for half an hour after its bid deadline, and when
    step 6 has waited, two seconds have passed since the bid deadline; a window
    that does reach back before 1970 puts the bid deadline near 2^64. *)
Theorem deadline_bounds (now_ms window : Z) :
  (0 ≤ now_ms < 2 ^ 53)%Z → (- 2 ^ 62 ≤ window < 2 ^ 33)%Z →
  let '(bid, settle) := deadlines now_ms window in
  (0 ≤ bid < 2 ^ 64)%Z ∧ (0 ≤ settle < 2 ^ 64)%Z ∧
  ((0 ≤ now_ms / 1000 + window)%Z →
     bid = (now_ms / 1000 + window)%Z ∧ settle = (bid + 1800)%Z ∧
     ((bid + 2) * 1000 ≤ now_ms + Z.max 0 (clear_wait bid now_ms))%Z) ∧
  ((now_ms / 1000 + window < 0)%Z → bid = (2 ^ 64 + (now_ms / 1000 + window))%Z).
Proof.
  intros Hn Hw. unfold deadlines. set (t := (now_ms / 1000)%Z).
  assert (0 ≤ t < 2 ^ 53)%Z as Ht by (unfold t; split; [apply Z.div_pos; lia|apply Z.div_lt_upper_bound; lia]).
  rewrite (swrap64_small (t + window)) by lia.
  split; [apply wrap64_range|]. split; [apply wrap64_range|]. split; intros Hs.
  - rewrite (wrap64_small (t + window)) by lia. rewrite wrap64_small by lia.
    split; [done|]. split; [done|]. unfold clear_wait, time_until, unix_seconds.
    rewrite (swrap64_small (t + window)), (swrap64_small (t + window + 2)), swrap64_small by lia.
    assert (t * 1000 ≤ now_ms)%Z by (unfold t; pose proof (Z.mul_div_le now_ms 1000); lia).
    assert ((2 ^ 63 - 1) / 10 ^ 6 = 9223372036854)%Z as -> by done. lia.
  - unfold wrap64. rewrite <- (Z.mod_add _ 1) by lia. rewrite Z.mod_small by lia. lia.
Qed.

(** ** Witnesses *)

Definition demo_prv : string := sim_hex "804b01a8c27a65cc694a867be76edae3ccce7a7161cda1f67a8349df696d2207".
Definition demo_price : Z := 2200000000000000000.
(** The TEE's answers: to a bid instruction a receipt, to any other the clear. *)
Definition demo_action (body : string) : result ActionResponse :=
  let receipt := contains body (Hash_Hex (fit 32 "bid")) in
  Ok (mkActionResponse (mkActionResult "" "threshold" "" "" "" (if receipt then "receipt" else "clear") 1 "ok")
        (str (replicate 65 (byte 1)))).
Definition demo_tee : TeeTypes := sim_tee (sim_info 7) demo_action.
Definition demo_codec : AuctionCodec world (H := demo_tee) :=
  Build_AuctionCodec world demo_tee
    (λ _ args, Ok "plaintext")
    (λ layout data,
       if decide (data = "receipt") then
         Ok [AAddress "auction"; AUint 1; AAddress (PubkeyToAddress demo_prv); AUint 1; ABytes32 zero_hash]
       else Ok [AAddress "auction"; AUint 1; AAddress (PubkeyToAddress demo_prv); AUint demo_price; AUint 1;
                ABytes32 zero_hash; AUint 1; AUint 1])
    (λ plaintext _, ret (Ok ("sealed " +:+ plaintext)))
    (λ n, ret (Ok (str (replicate n (byte 7)))))
    "threshold".
(** Every URL answers with itself. *)
Definition test_world : world := with_http (λ url, Ok (200%Z, url)) demo_world.
Definition demo_test : result unit * world :=
  run_test_main (Tee := demo_tee) (Codec := demo_codec) "addresses.json" "http://127.0.0.1:8545" "http://proxy"
    "0x01" (Some "0x02") (Some "0x03") "100000000" "2000000000000000000" "2500000000000000000"
    "2200000000000000000" 90 test_world.

Lemma run_test_passed_witness :
  demo_test = (Ok tt, snd demo_test) ∧
  ∃ s auctionID bidDeadline clearInstructionID resp result w4 w5 w6,
    clear_requested (W := world) s (HexToAddress "0x01") auctionID bidDeadline clearInstructionID w4 w5 ∧
    polled (Tee := demo_tee) "http://proxy" clearInstructionID w5 resp w6 ∧
    settled s (HexToAddress "0x01") auctionID result (Signature resp) w6.
Proof.
  assert (demo_test = (Ok tt, snd demo_test)) as Hrun.
  { assert (is_ok (fst demo_test) = true) as Hok by (vm_compute; reflexivity).
    destruct demo_test as [[[]|] w']; [reflexivity|discriminate Hok]. }
  split; [exact Hrun|].
  unfold demo_test at 1 in Hrun.
  destruct (run_test_passed (Tee := demo_tee) (Codec := demo_codec) "addresses.json" "http://127.0.0.1:8545"
    "http://proxy" "0x01" (Some "0x02") (Some "0x03") "100000000" "2000000000000000000" "2500000000000000000"
    "2200000000000000000" 90 test_world (snd demo_test) Hrun)
    as (lot & floor & ceiling & bidPrice & s & dealer & teePub & auctionID & bidDeadline & bid & clear & resp & result &
        w1 & w2 & w3 & w4 & w5 & w6 & _ & _ & _ & _ & _ & _ & _ & _ & Hreq & Hpoll & _ & Hset).
  exists s, auctionID, bidDeadline, clear, resp, result, w4, w5, w6. split; [exact Hreq|split; [exact Hpoll|exact Hset]].
Defined.

Lemma deadline_bounds_witness :
  let '(bid, settle) := deadlines 1700000000123 90 in
  bid = 1700000090%Z ∧ settle = 1700001890%Z ∧
  ((bid + 2) * 1000 ≤ 1700000000123 + Z.max 0 (clear_wait bid 1700000000123))%Z.
Proof.
  destruct (deadline_bounds 1700000000123 90 ltac:(lia) ltac:(lia)) as (_ & _ & H & _).
  destruct (H ltac:(vm_compute; discriminate)) as (H1 & H2 & H3). split; [exact H1|]. split; [exact H2|exact H3].
Defined.
