(* ===== verification/ServerLive.v ===== *)
(** * The extension server never gets stuck

    Every request that arrived is answered: a step is always possible while one
    is not, and without new arrivals every schedule of steps ends. *)

From S2P Require Import Prelude GoStrings GoText Json Platform Sim ExtServer.
From stdpp Require Import options.

Section live.
Context `{Geth : !GoEthereum, Txt : !GoEthereumText, JErr : !JsonErrors, Srv : !TeeServer}.

(** A step of a request that is already there. *)
Definition work (s s' : server) : Prop := step s s' ∧ dom (threads s') = dom (threads s).

(** ** The lock's holders are in their critical sections *)

Definition in_write (p : pc) : bool :=
  match p with Locked | Incremented | Numbered _ | Texted _ => true | _ => false end.
Definition in_read (p : pc) : bool :=
  match p with RLocked | Read1 _ | Read2 _ _ | Read3 _ _ _ | Read4 _ => true | _ => false end.
Definition holders (s : server) : Prop :=
  (∀ t, writer s = Some t → ∃ q p, threads s !! t = Some (q, p) ∧ in_write p = true) ∧
  (∀ t, t ∈ readers s → ∃ q p, threads s !! t = Some (q, p) ∧ in_read p = true).

Definition at_thread (s : server) (t : nat) (P : pc → bool) : Prop :=
  ∃ q p, threads s !! t = Some (q, p) ∧ P p = true.
Lemma at_thread_go s t q p t' P w r e :
  (t' = t → P p = true) → (t' ≠ t → at_thread s t' P) →
  at_thread (mkServer (go s t q p) w r e) t' P.
Proof.
  intros Heq Hne. unfold at_thread, go. cbn. destruct (decide (t' = t)) as [->|Hn].
  - exists q, p. rewrite lookup_insert_eq. auto.
  - destruct (Hne Hn) as (q' & p' & Ht' & Hp'). exists q', p'. by rewrite lookup_insert_ne.
Qed.

(** Thread [t] goes from [p] to [p'] and the lock follows. *)
Lemma holders_move s t q p p' w r e :
  holders s → threads s !! t = Some (q, p) →
  (∀ t', w = Some t' → (t' = t ∧ in_write p' = true) ∨ (writer s = Some t' ∧ (t' = t → in_write p = in_write p'))) →
  (∀ t', t' ∈ r → (t' = t ∧ in_read p' = true) ∨ (t' ∈ readers s ∧ (t' = t → in_read p = in_read p'))) →
  holders (mkServer (go s t q p') w r e).
Proof.
  intros [Hw Hr] Ht Hw' Hr'. split; intros t' Ht'; apply at_thread_go; cbn in Ht'.
  - intros ->. destruct (Hw' _ Ht') as [[_ Hp]|[Hwr Hpp]]; [done|].
    destruct (Hw _ Hwr) as (q' & p0 & Hl & Hp). simplify_eq. by rewrite <- Hpp.
  - intros Hne. destruct (Hw' _ Ht') as [[-> _]|[Hwr _]]; [done|]. by apply Hw.
  - intros ->. destruct (Hr' _ Ht') as [[_ Hp]|[Hrd Hpp]]; [done|].
    destruct (Hr _ Hrd) as (q' & p0 & Hl & Hp). simplify_eq. by rewrite <- Hpp.
  - intros Hne. destruct (Hr' _ Ht') as [[-> _]|[Hrd _]]; [done|]. by apply Hr.
Qed.

(** The locks do not change, nor does what [t] holds. *)
Lemma holders_stay s t q p p' e :
  holders s → threads s !! t = Some (q, p) → in_write p = in_write p' → in_read p = in_read p' →
  holders (mkServer (go s t q p') (writer s) (readers s) e).
Proof. intros Hh Ht Hw Hr. eapply holders_move; [done|done|..]; intros t' Ht'; by right. Qed.

Lemma holders_step s s' : holders s → step s s' → holders s'.
Proof.
  intros Hh Hstep. inversion Hstep as
    [t q Ht|t q r Ht Hq|t q c text reply Ht Hq Hw Hr|t q c text reply Ht Hq|t q c text reply Ht Hq
    |t q c text reply n Ht Hq|t q c text reply n Ht Hq|t q Ht Hq Hw|t q Ht|t q gc Ht|t q gc lg Ht
    |t q gc lg fc Ht|t q x Ht]; subst s'; try by eapply holders_stay.
  - destruct Hh as [Hw Hr]. split; intros t' Ht'; apply at_thread_go; cbn in Ht'; intros Heq;
      try (by apply Hw); try (by apply Hr); subst t'.
    + destruct (Hw _ Ht') as (q' & p' & Hl & _). congruence.
    + destruct (Hr _ Ht') as (q' & p' & Hl & _). congruence.
  - eapply holders_move; [done|done|..]; intros t' Ht'.
    + left. by injection Ht' as ->.
    + rewrite Hr in Ht'. set_solver.
  - eapply holders_move; [done|done|..]; intros t' Ht'; [done|]. right. by split.
  - eapply holders_move; [done|done|..]; intros t' Ht'.
    + right. by rewrite Hw in Ht'.
    + apply elem_of_union in Ht' as [->%elem_of_singleton|Ht']; [by left|].
      destruct (decide (t' = t)) as [->|Hne]; [by left|]. right. by split.
  - eapply holders_move; [done|done|..]; intros t' Ht'.
    + right. by split.
    + apply elem_of_difference in Ht' as [Hin Hne]. right. split; [done|]. set_solver.
Qed.

Lemma holders_reachable s : reachable s → holders s.
Proof.
  intros Hs. assert (holders start) as H0 by (split; intros t; cbn; set_solver).
  revert H0. induction Hs as [s|s1 s2 s3 Hstep _ IH]; intros H1; [done|]. apply IH. by eapply holders_step.
Qed.

(** ** Progress *)

Lemma work_go s t q p p' w r e :
  threads s !! t = Some (q, p) → step s (mkServer (go s t q p') w r e) →
  work s (mkServer (go s t q p') w r e).
Proof.
  intros Ht Hs. split; [done|]. cbn. unfold go. rewrite dom_insert_L.
  apply elem_of_dom_2 in Ht. set_solver.
Qed.

(** What the invariant says of one thread. *)
Lemma thread_ok s t q p :
  reachable s → threads s !! t = Some (q, p) → ∃ e, pc_ok s e t q p.
Proof.
  intros Hs Ht. destruct (inv_steps _ _ _ inv_start Hs) as [order (_ & Hpc & _)].
  exists (snd (serve New order)). by apply Hpc.
Qed.

(** A thread inside a critical section can go on. *)
Lemma writer_progress s t q p :
  reachable s → threads s !! t = Some (q, p) → in_write p = true → ∃ s', work s s'.
Proof.
  intros Hs Ht Hp. destruct (thread_ok _ _ _ _ Hs Ht) as [e Hok].
  destruct p as [| | |n|n| | | | | |]; try discriminate Hp;
    destruct Hok as (_ & c & text & reply & Hq & _); eexists; (eapply work_go; [exact Ht|]).
  - by eapply step_incr.
  - by eapply step_number.
  - by eapply step_text.
  - by eapply step_unlock.
Qed.
Lemma reader_progress s t q p :
  threads s !! t = Some (q, p) → in_read p = true → ∃ s', work s s'.
Proof.
  intros Ht Hp. destruct p; try discriminate Hp; eexists; (eapply work_go; [exact Ht|]).
  - by eapply step_read1.
  - by eapply step_read2.
  - by eapply step_read3.
  - by eapply step_read4.
  - by eapply step_runlock.
Qed.

Lemma progress s t q p :
  reachable s → threads s !! t = Some (q, p) → ¬ is_done p → ∃ s', work s s'.
Proof.
  intros Hs Ht Hp. destruct (holders_reachable _ Hs) as [Hw Hr].
  destruct (writer s) as [tw|] eqn:Hwr.
  { destruct (Hw _ eq_refl) as (q' & p' & Hl & Hp'). by eapply writer_progress. }
  destruct (decide (readers s = ∅)) as [Hrd|[tr Htr]%set_choose_L].
  2: { destruct (Hr _ Htr) as (q' & p' & Hl & Hp'). by eapply reader_progress. }
  destruct (inv_steps _ _ _ inv_start Hs) as [order Hinv].
  pose proof (nobody _ _ _ _ _ Hinv Hwr Hrd Ht) as Hout. destruct p; try done.
  destruct (program_of q) as [r|c text reply|] eqn:Hq; eexists; (eapply work_go; [exact Ht|]).
  - by eapply step_local.
  - by eapply step_lock.
  - by eapply step_rlock.
Qed.

(** ** Termination: the steps that are left *)

Definition remaining (p : pc) : nat :=
  match p with
  | Start => 6
  | Locked => 4 | Incremented => 3 | Numbered _ => 2 | Texted _ => 1
  | RLocked => 5 | Read1 _ => 4 | Read2 _ _ => 3 | Read3 _ _ _ => 2 | Read4 _ => 1
  | Done _ => 0
  end.
Definition total (m : gmap nat (request * pc)) : nat := map_fold (λ _ qp n, remaining (snd qp) + n) 0 m.

Lemma remaining_insert m t q p : m !! t = None → total (<[t := (q, p)]> m) = remaining p + total m.
Proof.
  intros Hm. unfold total. rewrite map_fold_insert_L; [done| |done]. intros. cbn. lia.
Qed.
Lemma total_move m t q p p' :
  m !! t = Some (q, p) → remaining p' < remaining p → total (<[t := (q, p')]> m) < total m.
Proof.
  intros Hm Hlt. rewrite <- (insert_delete_id m t (q, p)) at 2 by done.
  rewrite <- insert_delete_eq. rewrite !remaining_insert by apply lookup_delete_eq. lia.
Qed.

Lemma work_decreases s s' : work s s' → total (threads s') < total (threads s).
Proof.
  intros [Hstep Hdom]. inversion Hstep as
    [t q Ht|t q r Ht Hq|t q c text reply Ht Hq Hw Hr|t q c text reply Ht Hq|t q c text reply Ht Hq
    |t q c text reply n Ht Hq|t q c text reply n Ht Hq|t q Ht Hq Hw|t q Ht|t q gc Ht|t q gc lg Ht
    |t q gc lg fc Ht|t q x Ht]; subst s'; cbn [threads] in *; unfold at_pc in Ht;
    try (eapply total_move; [done|cbn; lia]).
  exfalso. unfold go in Hdom. rewrite dom_insert_L in Hdom. apply not_elem_of_dom in Ht. set_solver.
Qed.

Lemma work_steps n s s' : nsteps work n s s' → n + total (threads s') ≤ total (threads s).
Proof. induction 1 as [s|n s1 s2 s3 Hw _ IH]; [lia|]. apply work_decreases in Hw. lia. Qed.

(** A request stays what it is. *)
Lemma work_request s s' t q p :
  work s s' → threads s !! t = Some (q, p) → ∃ p', threads s' !! t = Some (q, p').
Proof.
  intros [Hstep _] Ht. inversion Hstep; subst s'; cbn [threads]; unfold at_pc in *; unfold go;
    match goal with |- context [<[?t' := _]> _] => destruct (decide (t = t')) as [->|Hne] end;
    try (rewrite lookup_insert_ne by done; by eexists); rewrite lookup_insert_eq; simplify_eq; by eexists.
Qed.

Lemma reachable_work n s s' :
  reachable s → nsteps work n s s' →
  reachable s' ∧ ∀ t q p, threads s !! t = Some (q, p) → ∃ p', threads s' !! t = Some (q, p').
Proof.
  intros Hs Hn. induction Hn as [s|n s1 s2 s3 Hw _ IH]; [eauto|].
  destruct IH as [H3 Hq3]; [eapply rtc_r; [done|apply Hw]|]. split; [done|].
  intros t q p Ht. destruct (work_request _ _ _ _ _ Hw Ht) as [p' Ht']. by eapply Hq3.
Qed.

Lemma total_bound m : total m ≤ 6 * size m.
Proof.
  induction m as [|t [q p] m Hm IH] using map_ind; [done|].
  rewrite remaining_insert, map_size_insert_None by done.
  assert (remaining p ≤ 6) by (destruct p; cbn; lia). lia.
Qed.

Lemma all_done_dec (m : gmap nat (request * pc)) :
  (∀ t q p, m !! t = Some (q, p) → is_done p) ∨ ∃ t q p, m !! t = Some (q, p) ∧ ¬ is_done p.
Proof.
  induction m as [|t [q p] m Hm IH] using map_ind; [by left|].
  assert (is_done p ∨ ¬ is_done p) as [Hp|Hp] by (destruct p; cbn; tauto).
  - destruct IH as [IH|(t' & q' & p' & Ht' & Hp')].
    + left. intros t' q' p'. destruct (decide (t' = t)) as [->|Hne].
      * rewrite lookup_insert_eq. by intros [= <- <-].
      * rewrite lookup_insert_ne by done. apply IH.
    + right. exists t', q', p'. rewrite lookup_insert_ne; [done|]. intros ->. congruence.
  - right. exists t, q, p. by rewrite lookup_insert_eq.
Qed.

(** ** Property *)

(** C9: the server is live.  From a reachable state, a run without new arrivals
    has at most six steps per request; whenever it has gone on for some steps,
    either every request that was there is answered or another step is possible;
    so every maximal run ends with all of them answered. *)
Theorem server_live (s : server) :
  reachable s →
  (∀ n s', nsteps work n s s' → n ≤ 6 * size (threads s)) ∧
  (∀ n s', nsteps work n s s' →
     (∀ t q p, threads s !! t = Some (q, p) → ∃ r, threads s' !! t = Some (q, Done r)) ∨ ∃ s'', work s' s'').
Proof.
  intros Hs. split.
  - intros n s' Hn. apply work_steps in Hn. pose proof (total_bound (threads s)). lia.
  - intros n s' Hn. destruct (reachable_work _ _ _ Hs Hn) as [Hs' Hq].
    destruct (all_done_dec (threads s')) as [Hall|(t & q & p & Ht & Hp)].
    + left. intros t q p Ht. destruct (Hq _ _ _ Ht) as [p' Ht']. specialize (Hall _ _ _ Ht').
      destruct p'; try done. by eexists.
    + right. by eapply progress.
Qed.
End live.

(** ** Witness: the run of [ExtServer], from its middle on *)

Lemma server_live_witness :
  reachable midway ∧ (∀ n s', nsteps work n midway s' → n ≤ 6 * size (threads midway)) ∧ size (threads midway) = 4.
Proof.
  split; [apply midway_reachable|].
  split; [exact (proj1 (server_live midway midway_reachable))|]. vm_compute. reflexivity.
Defined.
