(* ===== verification/Startup.v ===== *)
(** * Starting things: go/cmd, go/internal/config, go/pkg/server and tools/cmd/start-proxy

    Where the ports, the owner and the proxy's configuration file come from, and
    the order in which the processes are started.  Servers, signals and the proxy
    itself are parameters. *)

From S2P Require Import Prelude GoStrings GoText Json Platform GoPath Sim TeeCalls Support.
From stdpp Require Import options.

(** What the commands start.  [early_failure] is what the error channel of the
    extension's server holds when [main] first looks at it. *)
Class Launcher (W : Type) := {
  (** tee-node's server, in a goroutine *)
  StartServerExtension : Z → Z → Z → M W unit;
  (** [http.Server.ListenAndServe] on an address, in a goroutine *)
  listen_and_serve : string → M W unit;
  early_failure : W → option error;
  (** tee-proxy's [Init], and the external port of the configuration [Read] *)
  initProxy_Init : string → M W unit;
  proxyConfig_Read : string → W → result string;
}.

(** ** config.go *)

Definition default_ExtensionPort : Z := 8080.
Definition default_SignPort : Z := 9090.

Section startup.
Context {W : Type} `{OSW : !OS W, Dirs : !Directories W, Geth : !GoEthereum, Env : !Dotenv W,
  Tee : !TeeTypes, Launch : !Launcher W}.

(** [init]: a variable that is set and is a number. *)
Definition env_port (key : string) (fallback : Z) (w : W) : Z :=
  let v := getenv key w in
  if decide (v = "") then fallback else default fallback (atoi v).
Definition config_init (w : W) : Z * Z :=
  (env_port "EXTENSION_PORT" default_ExtensionPort w, env_port "SIGN_PORT" default_SignPort w).

(** ** pkg/server and the server's address *)

Definition server_addr (extensionPort : Z) : string := ":" +:+ itoa extensionPort.
(** [signPort] is not used. *)
Definition StartExtension (extensionPort signPort : Z) : M W unit :=
  listen_and_serve (server_addr extensionPort).

(** ** cmd/docker *)

Definition intEnv (key : string) (fallback : Z) (w : W) : Z := default fallback (atoi (getenv key w)).

(** Up to the point where it waits for a signal or a server error. *)
Definition docker_main : M W (result unit) :=
  configPort ← reads (intEnv "CONFIG_PORT" 5501);
  '(extensionPort, signPort) ← reads config_init;
  _ ← StartServerExtension configPort signPort extensionPort;
  _ ← StartExtension extensionPort signPort;
  _ ← sleep 100;
  failed ← reads early_failure;
  ret match failed with
      | Some err => Err (ErrMsg ("extension server failed to start: " +:+ err_text err))
      | None => Ok tt
      end.

(** ** cmd/start-tee *)

Definition ExtConfigurationPort : Z := 5501.
Definition ExtProxyInternalPort : Z := 6663.
Definition ExtensionServerPort : Z := 7701.
Definition ExtensionPort : Z := 7702.

(** [thisFile] is the source file, from [runtime.Caller]. *)
Definition start_tee_loadEnv (thisFile : string) : M W unit :=
  let rootEnv := Join [Dir thisFile; ".."; ".."; ".env"] in
  err ← godotenv_Load [rootEnv];
  match err with
  | Some _ => _ ← godotenv_Load []; ret tt
  | None => ret tt
  end.

Definition default_key_hex : string := "804b01a8c27a65cc694a867be76edae3ccce7a7161cda1f67a8349df696d2207".

(** An error ends the process. *)
Definition setOwnerAddress : M W (result string) :=
  owner ← reads (getenv "INITIAL_OWNER");
  if decide (owner = "") then
    privKeyString ← reads (getenv "DEPLOYMENT_PRIVATE_KEY");
    privKey ←? ret (if decide (privKeyString = "") then
                      match HexToECDSA default_key_hex with
                      | Ok k => Ok k
                      | Err _ => Err (ErrMsg "cannot parse default private key")
                      end
                    else match HexToECDSA (strip_0x privKeyString) with
                         | Ok k => Ok k
                         | Err err => Err (ErrMsg ("Error: " +:+ err_text err))
                         end);
    _ ← (λ w, (tt, setenv "INITIAL_OWNER" (Address_Hex (PubkeyToAddress privKey)) w));
    ret (Ok (HexToAddress owner))
  else ret (Ok (HexToAddress owner)).

(** The copy of [SetProxyUrl] that avoids the tools module. *)
Definition setProxyURL (configurationPort proxyPort : Z) : M W (option error) :=
  match marshal_proxy_url ("http://localhost:" +:+ itoa proxyPort) with
  | Err err => ret (Some err)
  | Ok body =>
    resp ←? http_post ("http://localhost:" +:+ itoa configurationPort +:+ "/proxy") body
      | err => ret (Some err);
    if (resp =? 200)%Z then ret None
    else ret (Some (ErrMsg ("unexpected status code: " +:+ itoa resp)))
  end.

Definition runExtension : M W (result unit) :=
  _ ← StartServerExtension ExtConfigurationPort ExtensionServerPort ExtensionPort;
  _ ← StartExtension ExtensionPort ExtensionServerPort;
  _ ← sleep 100;
  failed ← reads early_failure;
  match failed with
  | Some err => ret (Err (ErrMsg ("extension server failed to start: " +:+ err_text err)))
  | None =>
    _ ← sleep 150;
    err ← setProxyURL ExtConfigurationPort ExtProxyInternalPort;
    ret match err with Some err => Err (ErrMsg ("Error: " +:+ err_text err)) | None => Ok tt end
  end.

(** Up to the point where it waits for a signal. *)
Definition start_tee_main (thisFile extensionID : string) : M W (result unit) :=
  _ ← start_tee_loadEnv thisFile;
  _ ←? setOwnerAddress;
  _ ← (λ w, (tt, if bool_decide (extensionID ≠ "") then setenv "EXTENSION_ID" extensionID w else w));
  runExtension.

(** ** cmd/start-proxy *)

Definition projectRoot (thisFile : string) : string := Join [Dir thisFile; ".."; ".."; ".."].

Definition start_proxy_loadEnv (thisFile : string) : M W unit :=
  err ← godotenv_Load [Join [projectRoot thisFile; ".env"]];
  match err with
  | Some _ => _ ← godotenv_Load []; ret tt
  | None => ret tt
  end.

Definition findProxyConfig (thisFile : string) (w : W) : string :=
  let envConfig := getenv "PROXY_CONFIG" w in
  if bool_decide (envConfig ≠ "") then envConfig
  else
    let candidate := Join [projectRoot thisFile; "config"; "proxy"; "extension_proxy.toml"] in
    if stat_ok candidate w then candidate else "./config/proxy/extension_proxy.toml".

Definition logProxyAndTeeIds (configFile : string) : M W (result (string * string)) :=
  external ←? reads (proxyConfig_Read configFile)
    | err => ret (Err (ErrWrap ("failed to read proxy config: " +:+ err_text err) err));
  ids ←? GetTeeProxyID ("http://localhost:" +:+ external)
    | err => ret (Err (ErrWrap ("failed to extract teeID and proxyID: " +:+ err_text err) err));
  ret (Ok ids).

(** A failure to log the ids is only a warning. *)
Definition start_proxy_main (thisFile : string) : M W unit :=
  _ ← start_proxy_loadEnv thisFile;
  proxyConfigFile ← reads (findProxyConfig thisFile);
  _ ← initProxy_Init proxyConfigFile;
  _ ← logProxyAndTeeIds proxyConfigFile;
  ret tt.
End startup.

(** ** Properties *)

Section properties.
Context {W : Type} `{OSW : !OS W, Geth : !GoEthereum, Env : !Dotenv W}.

(** Start-tee and the deployment tools agree on the owner.  When no
    INITIAL_OWNER is given and the .env file has been loaded, [setOwnerAddress]
    fails exactly when [DefaultPrivateKey] does, and otherwise exports the address
    of the key the tools deploy with; the address it returns is that of the empty
    string, not the owner's. *)
Theorem owner_is_deployer (w : W) :
  (∀ k v w, getenv k (setenv k v w) = v) → snd (godotenv_Load [] w) = w →
  is_ok PrvWithFunds = true → getenv "INITIAL_OWNER" w = "" →
  match fst (DefaultPrivateKey w), setOwnerAddress w with
  | Ok k, (r, w') => r = Ok (HexToAddress "") ∧ getenv "INITIAL_OWNER" w' = Address_Hex (PubkeyToAddress k)
  | Err _, (r, w') => is_ok r = false ∧ w' = w
  end.
Proof.
  intros Hset Hload Hprv Hown. unfold DefaultPrivateKey, setOwnerAddress, PrvWithFunds in *.
  cbv [mbind M_bind bind reads ret]. rewrite Hown, decide_True by done.
  destruct (godotenv_Load [] w) as [e w0]. cbn in Hload. subst w0.
  destruct (decide (getenv "DEPLOYMENT_PRIVATE_KEY" w = "")) as [|].
  - unfold default_key_hex. destruct (HexToECDSA _) as [k|]; [|discriminate]. cbn. split; [done|apply Hset].
  - destruct (HexToECDSA (strip_0x _)) as [k|]; cbn; [|done]. split; [done|apply Hset].
Qed.
End properties.

Lemma owner_is_deployer_witness :
  let w := with_env [("DEPLOYMENT_PRIVATE_KEY", "0x" +:+ default_key_hex)] empty_world in
  getenv "INITIAL_OWNER" w = "" ∧
  match fst (DefaultPrivateKey w), setOwnerAddress w with
  | Ok k, (r, w') => r = Ok (HexToAddress "") ∧ getenv "INITIAL_OWNER" w' = Address_Hex (PubkeyToAddress k)
  | Err _, (r, w') => is_ok r = false ∧ w' = w
  end.
Proof.
  intros w. split; [vm_compute; reflexivity|]. apply (owner_is_deployer w).
  - intros k v w0. cbn. by rewrite lookup_insert_eq.
  - reflexivity.
  - vm_compute. reflexivity.
  - vm_compute. reflexivity.
Defined.
