(* ===== verification/Shutdown.v ===== *)
(** * Stopping: the processes of go/cmd/main.go, go/cmd/docker and go/cmd/start-tee

    Each command as a step relation over its goroutines: the HTTP server, the
    signal channel, and what [main] waits for.  [http_step] is net/http's
    [ListenAndServe] and [Shutdown], the language's library. *)

From S2P Require Import Prelude.
From stdpp Require Import options.
Set Default Proof Using "Type*".

(** ** net/http

    [ListenAndServe] binds, accepts connections, and returns an error; a connection
    carries one request after the other until it is closed, which the client can do
    at any time.  [Shutdown] sets a flag, closes the listener, waits until
    [ListenAndServe] no longer uses it, and then closes connections as they become
    idle, until none is left: a connection that is open then can still bring a
    request, and is closed when that is answered. *)

Inductive serve_error := ErrServerClosed | ServeFailed (e : error).
(** [Accepted c]: [Accept] has returned a connection the server does not track yet. *)
Inductive listener := Binding | Accepting | Accepted (c : nat) | Returned (err : serve_error).
(** [StateNew], [StateIdle], and [StateActive]: a request is being served. *)
Inductive conn_state := New | Idle | Active.
Record http := mkHttp {
  listen : listener;
  inShutdown : bool;
  listeners_closed : bool;
  conns : gmap nat conn_state;
  answered : nat;
}.
Definition http_new : http := mkHttp Binding false false ∅ 0.
Definition with_listen (l : listener) (s : http) : http :=
  mkHttp l (inShutdown s) (listeners_closed s) (conns s) (answered s).
Definition with_conns (l : listener) (cs : gmap nat conn_state) (n : nat) (s : http) : http :=
  mkHttp l (inShutdown s) (listeners_closed s) cs n.
Definition shut (s : http) : http := mkHttp (listen s) true (listeners_closed s) (conns s) (answered s).
Definition close_listeners (s : http) : http := mkHttp (listen s) (inShutdown s) true (conns s) (answered s).
Definition close_conn (c : nat) (s : http) : http := with_conns (listen s) (delete c (conns s)) (answered s) s.

Inductive http_step (s : http) : http → Prop :=
  | http_bound : listen s = Binding → inShutdown s = false → http_step s (with_listen Accepting s)
  | http_bind_failed e : listen s = Binding → http_step s (with_listen (Returned (ServeFailed e)) s)
  | http_bind_closed :
      listen s = Binding → inShutdown s = true → http_step s (with_listen (Returned ErrServerClosed) s)
  | http_accept c :
      listen s = Accepting → listeners_closed s = false → conns s !! c = None →
      http_step s (with_listen (Accepted c) s)
  | http_track c :
      listen s = Accepted c → http_step s (with_conns Accepting (<[c := New]> (conns s)) (answered s) s)
  (** the next request on a connection, and its answer *)
  | http_request c st :
      conns s !! c = Some st → st ≠ Active →
      http_step s (with_conns (listen s) (<[c := Active]> (conns s)) (answered s) s)
  | http_answer c :
      conns s !! c = Some Active →
      http_step s (with_conns (listen s) (if inShutdown s then delete c (conns s) else <[c := Idle]> (conns s))
                     (S (answered s)) s)
  | http_hangup c st : conns s !! c = Some st → http_step s (close_conn c s)
  | http_accept_failed e :
      listen s = Accepting → inShutdown s = false → http_step s (with_listen (Returned (ServeFailed e)) s)
  | http_accept_closed :
      listen s = Accepting → inShutdown s = true → http_step s (with_listen (Returned ErrServerClosed) s).

(** The connections that are open, tracked or not. *)
Definition open_conns (s : http) : gset nat :=
  dom (conns s) ∪ match listen s with Accepted c => {[c]} | _ => ∅ end.

(** How a process ended: [os.Exit], the end of [main], or [log.Fatal]; or a signal
    nobody had asked for. *)
Inductive ending := Exited (code : Z) | Killed.

(** A one-place signal channel: [signal.Notify] drops a signal that finds it full,
    so a pending signal is a flag.  Clocks are in milliseconds. *)

(** ** cmd/main.go *)

Definition TimeoutShutdown : Z := 5000.

(** The goroutine that waits for the signal: after [<-sigChan] and [WithTimeout],
    in [Shutdown] after the flag, and after the listener is closed. *)
Inductive watcher := AwaitSignal | Stopping (deadline : Z) | Closing (deadline : Z) | Draining (deadline : Z).

Record main_process := mkMain {
  server : http;
  sigChan : bool;
  stopper : watcher;
  clock : Z;
  exit : option ending;
}.
Definition main_start (now : Z) : main_process := mkMain http_new false AwaitSignal now None.

(** [Serve] has not begun, or is over. *)
Definition unused (s : http) : Prop := listen s = Binding ∨ ∃ err, listen s = Returned err.

Inductive main_step (p : main_process) : main_process → Prop :=
  | main_serves s' :
      exit p = None → http_step (server p) s' → main_step p (mkMain s' (sigChan p) (stopper p) (clock p) None)
  | main_signalled :
      exit p = None → main_step p (mkMain (server p) true (stopper p) (clock p) None)
  | main_time ms :
      exit p = None → (0 ≤ ms)%Z → main_step p (mkMain (server p) (sigChan p) (stopper p) (clock p + ms) None)
  | main_received :
      exit p = None → sigChan p = true → stopper p = AwaitSignal →
      main_step p (mkMain (server p) false (Stopping (clock p + TimeoutShutdown)) (clock p) None)
  | main_shuts deadline :
      exit p = None → stopper p = Stopping deadline →
      main_step p (mkMain (shut (server p)) (sigChan p) (Closing deadline) (clock p) None)
  | main_closes deadline :
      exit p = None → stopper p = Closing deadline →
      main_step p (mkMain (close_listeners (server p)) (sigChan p) (Draining deadline) (clock p) None)
  (** [Shutdown] closes an idle connection, or one that is new and has brought
      nothing *)
  | main_closes_conn deadline c st :
      exit p = None → stopper p = Draining deadline → unused (server p) → conns (server p) !! c = Some st → st ≠ Active →
      main_step p (mkMain (close_conn c (server p)) (sigChan p) (stopper p) (clock p) None)
  | main_drained deadline :
      exit p = None → stopper p = Draining deadline → unused (server p) → conns (server p) = ∅ →
      main_step p (mkMain (server p) (sigChan p) (stopper p) (clock p) (Some (Exited 0)))
  | main_timed_out deadline :
      exit p = None → stopper p = Draining deadline → unused (server p) → (deadline ≤ clock p)%Z →
      main_step p (mkMain (server p) (sigChan p) (stopper p) (clock p) (Some (Exited 0)))
  (** [ListenAndServe] has returned: [Fatalf], or the end of [main] *)
  | main_failed e :
      exit p = None → listen (server p) = Returned (ServeFailed e) →
      main_step p (mkMain (server p) (sigChan p) (stopper p) (clock p) (Some (Exited 1)))
  | main_returns :
      exit p = None → listen (server p) = Returned ErrServerClosed →
      main_step p (mkMain (server p) (sigChan p) (stopper p) (clock p) (Some (Exited 0))).

Definition main_reachable (p : main_process) : Prop := ∃ now, rtc main_step (main_start now) p.

(** ** cmd/docker and cmd/start-tee

    Both start the server in a goroutine that sends its error to a one-place
    channel, and look at the channel after a pause, [SleepFirst].  start-tee then
    pauses again and points the node at the proxy, [Configuring]. *)
Inductive main_pc := SleepFirst | Configuring | AwaitEnd.
Record host := mkHost {
  h_server : http;
  h_sigChan : bool;
  h_errCh : option error;
  h_main : main_pc;
  h_exit : option ending;
}.
Definition host_start : host := mkHost http_new false None SleepFirst None.

(** What goes on beside [main]: the server, and the goroutine of
    [StartExtension], which sends what [ListenAndServe] returned. *)
Inductive host_runs (p : host) : host → Prop :=
  | host_serves s' :
      http_step (h_server p) s' → host_runs p (mkHost s' (h_sigChan p) (h_errCh p) (h_main p) (h_exit p))
  | host_reports e :
      listen (h_server p) = Returned (ServeFailed e) → h_errCh p = None →
      host_runs p (mkHost (h_server p) (h_sigChan p) (Some e) (h_main p) (h_exit p)).

Definition host_ends (p : host) (e : ending) : host :=
  mkHost (h_server p) (h_sigChan p) (h_errCh p) (h_main p) (Some e).
Definition host_at (p : host) (pc : main_pc) (errCh : option error) (signal : bool) : host :=
  mkHost (h_server p) signal errCh pc (h_exit p).

(** docker asks for signals only after the pause, so an earlier one kills it. *)
Inductive docker_step (p : host) : host → Prop :=
  | docker_runs p' : h_exit p = None → host_runs p p' → docker_step p p'
  | docker_killed : h_exit p = None → h_main p = SleepFirst → docker_step p (host_ends p Killed)
  | docker_signalled :
      h_exit p = None → h_main p = AwaitEnd → docker_step p (host_at p AwaitEnd (h_errCh p) true)
  | docker_failed_early e :
      h_exit p = None → h_main p = SleepFirst → h_errCh p = Some e → docker_step p (host_ends p (Exited 1))
  | docker_started :
      h_exit p = None → h_main p = SleepFirst → h_errCh p = None → docker_step p (host_at p AwaitEnd None false)
  (** the [select] at the end of [main] *)
  | docker_stops :
      h_exit p = None → h_main p = AwaitEnd → h_sigChan p = true → docker_step p (host_ends p (Exited 0))
  | docker_failed e :
      h_exit p = None → h_main p = AwaitEnd → h_errCh p = Some e → docker_step p (host_ends p (Exited 1)).

(** start-tee asks for signals first, and at the end waits for nothing else;
    pointing the node at the proxy can fail. *)
Inductive start_tee_step (p : host) : host → Prop :=
  | start_tee_runs p' : h_exit p = None → host_runs p p' → start_tee_step p p'
  | start_tee_signalled :
      h_exit p = None → start_tee_step p (host_at p (h_main p) (h_errCh p) true)
  | start_tee_failed_early e :
      h_exit p = None → h_main p = SleepFirst → h_errCh p = Some e → start_tee_step p (host_ends p (Exited 1))
  | start_tee_bound :
      h_exit p = None → h_main p = SleepFirst → h_errCh p = None →
      start_tee_step p (host_at p Configuring None (h_sigChan p))
  | start_tee_no_proxy :
      h_exit p = None → h_main p = Configuring → start_tee_step p (host_ends p (Exited 1))
  | start_tee_started :
      h_exit p = None → h_main p = Configuring →
      start_tee_step p (host_at p AwaitEnd (h_errCh p) (h_sigChan p))
  | start_tee_stops :
      h_exit p = None → h_main p = AwaitEnd → h_sigChan p = true → start_tee_step p (host_ends p (Exited 0)).

(** ** Lemmas *)

Record main_inv (p : main_process) : Prop := {
  inv_returned : listen (server p) = Returned ErrServerClosed → inShutdown (server p) = true;
  inv_closed : listeners_closed (server p) = true → inShutdown (server p) = true;
  inv_accepted c : listen (server p) = Accepted c → conns (server p) !! c = None;
  inv_shut : inShutdown (server p) = true ↔ ∃ d, stopper p = Closing d ∨ stopper p = Draining d;
  inv_exit e : exit p = Some e →
    (e = Exited 0 ∧ inShutdown (server p) = true) ∨
    (e = Exited 1 ∧ ∃ err, listen (server p) = Returned (ServeFailed err));
}.

Lemma http_step_flags s s' :
  http_step s s' → inShutdown s' = inShutdown s ∧ listeners_closed s' = listeners_closed s.
Proof. by intros []. Qed.
(** The listener is only left by an error or after a shutdown, and for good. *)
Lemma http_step_listen s s' :
  http_step s s' → listen s' = Returned ErrServerClosed → listen s = Returned ErrServerClosed ∨ inShutdown s = true.
Proof. intros []; cbn; auto; discriminate. Qed.
Lemma http_step_returned s s' err : http_step s s' → listen s = Returned err → listen s' = Returned err.
Proof. intros []; cbn; congruence. Qed.
(** A connection that is not tracked yet is no other. *)
Lemma http_step_accepted s s' :
  http_step s s' → (∀ c, listen s = Accepted c → conns s !! c = None) →
  ∀ c, listen s' = Accepted c → conns s' !! c = None.
Proof.
  intros Hstep Hs c'. destruct Hstep; cbn; intros Hl; try discriminate; try congruence; apply Hs in Hl as Hc'.
  - rewrite lookup_insert_ne by congruence. done.
  - destruct (inShutdown s); [by rewrite lookup_delete_None; right|]. rewrite lookup_insert_ne by congruence. done.
  - by rewrite lookup_delete_None; right.
Qed.

(** What is open and what has been answered, when nothing more is accepted. *)
Definition closing_down (s s' : http) : Prop :=
  open_conns s' ⊆ open_conns s ∧ answered s' + size (open_conns s') ≤ answered s + size (open_conns s).
#[global] Instance closing_down_preorder : PreOrder closing_down.
Proof. split; [by intros s|]. intros s1 s2 s3 [? ?] [? ?]. split; [set_solver|lia]. Qed.

Lemma closing_same s s' : open_conns s' = open_conns s → answered s' = answered s → closing_down s s'.
Proof. by intros Ho Ha; split; rewrite Ho, ?Ha. Qed.
Lemma open_delete c s st :
  conns s !! c = Some st → (∀ c', listen s = Accepted c' → conns s !! c' = None) →
  open_conns (close_conn c s) ⊆ open_conns s ∧ S (size (open_conns (close_conn c s))) ≤ size (open_conns s).
Proof.
  intros Hc Ha. assert (open_conns (close_conn c s) = open_conns s ∖ {[c]}) as ->.
  { unfold open_conns, close_conn, with_conns. cbn. rewrite dom_delete_L.
    destruct (listen s) as [| |c'|] eqn:Hl; try set_solver. }
  assert (c ∈ open_conns s) as Hin by (apply elem_of_union_l; by eapply elem_of_dom_2).
  split; [set_solver|]. rewrite size_difference, size_singleton by set_solver.
  assert (size (open_conns s) ≠ 0); [|lia]. intros Hz%size_empty_iff. set_solver.
Qed.
Lemma closing_delete c s st :
  conns s !! c = Some st → (∀ c', listen s = Accepted c' → conns s !! c' = None) → closing_down s (close_conn c s).
Proof. intros Hc Ha. destruct (open_delete _ _ _ Hc Ha). split; [done|]. cbn. lia. Qed.
Lemma http_step_closing s s' :
  http_step s s' → listeners_closed s = true → inShutdown s = true →
  (∀ c, listen s = Accepted c → conns s !! c = None) → closing_down s s'.
Proof.
  intros Hstep Hc Hsh Ha. destruct Hstep; try congruence.
  - apply closing_same; [|done]. unfold open_conns. cbn. by rewrite H.
  - apply closing_same; [|done]. unfold open_conns. cbn. by rewrite H.
  - apply closing_same; [|done]. unfold open_conns. cbn. rewrite H, dom_insert_L. set_solver.
  - apply closing_same; [|done]. unfold open_conns. cbn. rewrite dom_insert_L. apply elem_of_dom_2 in H. set_solver.
  - rewrite Hsh. destruct (open_delete _ _ _ H Ha) as [Ho Hn].
    change (open_conns (with_conns _ _ _ s)) with (open_conns (close_conn c s)). split; [exact Ho|].
    change (open_conns (with_conns _ _ _ s)) with (open_conns (close_conn c s)). cbn [answered with_conns]. lia.
  - by eapply closing_delete.
  - apply closing_same; [|done]. unfold open_conns. cbn. by rewrite H.
Qed.

Lemma main_step_inv p p' : main_inv p → main_step p p' → main_inv p'.
Proof.
  intros [Hr Hc Ha Hs He] Hp.
  assert (∀ d, stopper p = Draining d → inShutdown (server p) = true) as Hdr by (intros d Hw; rewrite Hs; eauto).
  assert (∀ st, stopper p = st → (∀ d, st ≠ Closing d) → (∀ d, st ≠ Draining d) → inShutdown (server p) = false)
    as Hno.
  { intros st <- H1 H2. apply not_true_iff_false. rewrite Hs. intros [d [?|?]]; [by destruct (H1 d)|by destruct (H2 d)]. }
  destruct Hp as [s' Hx Hh|Hx|ms Hx Hms|Hx Hsig Hw|d Hx Hw|d Hx Hw|d c st Hx Hw Hl Hi Hst|d Hx Hw Hl Hi|d Hx Hw Hl Hi|e Hx Hl|Hx Hl];
    split; cbn [server stopper exit sigChan shut close_listeners close_conn with_conns inShutdown listen listeners_closed conns];
    try done.
  1: { intros Hl. destruct (http_step_flags _ _ Hh) as [-> _]. destruct (http_step_listen _ _ Hh Hl); auto. }
  1: by destruct (http_step_flags _ _ Hh) as [-> ->].
  1: by eapply http_step_accepted.
  1: by destruct (http_step_flags _ _ Hh) as [-> _].
  - rewrite (Hno _ Hw) by done. split; [done|]. intros [d [?|?]]; discriminate.
  - split; [eauto|done].
  - intros _. apply Hs. eauto.
  - rewrite Hs. split; [intros _; eauto|]. intros _. eauto.
  - intros c' Hl'. apply lookup_delete_None. right. by apply Ha.
  - intros e [= <-]. left. eauto.
  - intros e [= <-]. left. eauto.
  - intros e' [= <-]. right. eauto.
  - intros e' [= <-]. left. eauto.
Qed.
Lemma main_start_inv now : main_inv (main_start now).
Proof. split; cbn; try done. split; [done|]. intros [d [?|?]]; discriminate. Qed.
Lemma main_steps_inv p p' : rtc main_step p p' → main_inv p → main_inv p'.
Proof. induction 1 as [|p1 p2 p3 H1 _ IH]; [done|]. intros Hi. by apply IH, (main_step_inv p1). Qed.
Lemma main_reachable_inv p : main_reachable p → main_inv p.
Proof. intros [now Hp]. eapply main_steps_inv; [exact Hp|apply main_start_inv]. Qed.
Lemma main_step_running p p' : main_step p p' → exit p = None.
Proof. by intros []. Qed.

Lemma main_step_closing p p' :
  main_inv p → main_step p p' → listeners_closed (server p) = true →
  closing_down (server p) (server p') ∧ listeners_closed (server p') = true.
Proof.
  intros Hi Hstep Hc. pose proof (inv_closed _ Hi Hc) as Hsh. pose proof (inv_accepted _ Hi) as Ha.
  destruct Hstep; cbn [server]; try (split; [by apply closing_same|done]).
  - split; [by apply http_step_closing|]. by destruct (http_step_flags _ _ H0) as [_ ->].
  - split; [|done]. by eapply closing_delete.
Qed.
Lemma main_steps_closing p p' :
  rtc main_step p p' → main_inv p → listeners_closed (server p) = true → closing_down (server p) (server p').
Proof.
  induction 1 as [|p1 p2 p3 H1 _ IH]; [done|]. intros Hi Hc.
  destruct (main_step_closing _ _ Hi H1 Hc) as [Hd Hc2]. etrans; [exact Hd|]. apply IH; [|done].
  by eapply main_step_inv.
Qed.

(** A server that has failed stays as it is, but for the connections it has. *)
Lemma http_step_failed s s' err :
  http_step s s' → listen s = Returned err → listen s' = Returned err ∧ dom (conns s') ⊆ dom (conns s).
Proof.
  intros Hstep Hl. split; [by eapply http_step_returned|]. destruct Hstep; cbn; try done; try congruence.
  - rewrite dom_insert_L. apply elem_of_dom_2 in H. set_solver.
  - apply elem_of_dom_2 in H. destruct (inShutdown s); [rewrite dom_delete_L|rewrite dom_insert_L]; set_solver.
  - rewrite dom_delete_L. set_solver.
Qed.
Lemma start_tee_step_unnoticed p p' err :
  start_tee_step p p' → h_main p = AwaitEnd → listen (h_server p) = Returned err →
  (h_exit p = None ∨ h_sigChan p = true ∧ h_exit p = Some (Exited 0)) →
  h_main p' = AwaitEnd ∧ listen (h_server p') = Returned err ∧ dom (conns (h_server p')) ⊆ dom (conns (h_server p)) ∧
  (h_exit p' = None ∨ h_sigChan p' = true ∧ h_exit p' = Some (Exited 0)).
Proof.
  intros Hp Hm Hl He. destruct Hp as [p' Hx [s' Hh|e _ _]|Hx|e Hx Hm'|Hx Hm'|Hx Hm'|Hx Hm'|Hx _ Hsig];
    cbn; try congruence; try (split_and!; auto; done).
  destruct (http_step_failed _ _ _ Hh Hl). split_and!; auto.
Qed.

(** The docker process after its server has failed: it waits at its [select], or it
    has ended, with code 0 only on a signal. *)
Definition docker_failing (err : error) (p : host) : Prop :=
  h_main p = AwaitEnd ∧ listen (h_server p) = Returned (ServeFailed err) ∧
  (h_exit p = None ∨ h_exit p = Some (Exited 1) ∨ h_sigChan p = true ∧ h_exit p = Some (Exited 0)).
Lemma docker_step_failing err p p' : docker_step p p' → docker_failing err p → docker_failing err p'.
Proof.
  intros Hp (Hm & Hl & He). destruct Hp as [p' Hx [s' Hh|e _ _]|Hx Hm'|Hx Hm'|e Hx Hm'|Hx Hm'|Hx _ Hsig|e Hx _ _];
    unfold docker_failing; cbn; try congruence; try (split_and!; auto; done).
  split_and!; [done|by eapply http_step_returned|auto].
Qed.
Lemma docker_can_end err p :
  docker_failing err p → h_exit p = None → ∃ p', rtc docker_step p p' ∧ h_exit p' = Some (Exited 1).
Proof.
  intros (Hm & Hl & _) Hx. destruct (h_errCh p) as [e|] eqn:He.
  - eexists. split; [by eapply rtc_once, docker_failed|done].
  - exists (host_ends (mkHost (h_server p) (h_sigChan p) (Some err) (h_main p) (h_exit p)) (Exited 1)).
    split; [|done]. eapply rtc_l; [apply docker_runs; [done|by apply host_reports]|].
    by apply rtc_once, (docker_failed _ err).
Qed.

(** ** Properties *)


(** C38: a server that fails after the first look ends the docker process, and goes
    unnoticed in start-tee.  The docker process ends with code 1, as it can at any
    time from then on, unless a signal comes first.  start-tee runs on, with no server
    but for the connections it had, until a signal stops it, with code 0. *)
Theorem late_failures (p : host) (err : error) :
  h_main p = AwaitEnd → h_exit p = None → listen (h_server p) = Returned (ServeFailed err) →
  (∀ p', rtc docker_step p p' →
     (h_exit p' = None ∧ ∃ p'', rtc docker_step p' p'' ∧ h_exit p'' = Some (Exited 1)) ∨
     h_exit p' = Some (Exited 1) ∨ (h_sigChan p' = true ∧ h_exit p' = Some (Exited 0))) ∧
  (∀ p', rtc start_tee_step p p' →
     listen (h_server p') = Returned (ServeFailed err) ∧ dom (conns (h_server p')) ⊆ dom (conns (h_server p)) ∧
     (h_exit p' = None ∨ h_sigChan p' = true ∧ h_exit p' = Some (Exited 0))).
Proof.
  intros Hm Hx Hl. split.
  - intros p' Hp. assert (docker_failing err p) as Hf by (split_and!; auto).
    assert (docker_failing err p') as Hf'.
    { clear Hm Hx Hl. induction Hp as [|p p1 p' H1 _ IH]; [done|]. by apply IH, (docker_step_failing _ p). }
    destruct (h_exit p') as [e|] eqn:He'; [right|left; split; [done|by eapply docker_can_end]].
    destruct Hf' as (_ & _ & Hf'). rewrite He' in Hf'. naive_solver.
  - intros p' Hp. assert (h_exit p = None ∨ h_sigChan p = true ∧ h_exit p = Some (Exited 0)) as He by by left.
    clear Hx. induction Hp as [p|p p1 p' H1 _ IH]; [done|].
    destruct (start_tee_step_unnoticed _ _ _ H1 Hm Hl He) as (Hm1 & Hl1 & Hi1 & He1).
    destruct (IH Hm1 Hl1 He1) as (? & ? & ?). split_and!; [done|set_solver|done].
Qed.

(** ** Runs *)

(** A request is being served on one connection, and another is idle, when the signal
    comes; when the listeners are closed, the idle one brings a request and gets its
    answer. *)
Definition closing : main_process :=
  mkMain (mkHttp Accepting true true {[ 7%nat := Active; 8%nat := Idle ]} 1) false (Draining 5000) 0 None.
Definition after_closing : main_process :=
  mkMain (mkHttp Accepting true true {[ 7%nat := Active ]} 2) false (Draining 5000) 0 None.

Ltac by_vm := vm_compute; first [reflexivity|discriminate].
Lemma main_run p p1 p2 p3 : main_step p p1 → p1 = p2 → rtc main_step p2 p3 → rtc main_step p p3.
Proof. intros H1 <-. by apply rtc_l. Qed.
(** One step, and the state it leads to computed. *)
Ltac run_step tac := eapply main_run; [tac; by_vm|vm_compute; reflexivity|].
Ltac run_http tac := eapply main_run; [apply main_serves; [by_vm|tac; by_vm]|vm_compute; reflexivity|].
Ltac by_map := apply reflexive_eq; vm_compute; reflexivity.
Lemma closing_reachable : main_reachable closing.
Proof.
  exists 0%Z.
  run_http ltac:(apply http_bound).
  run_http ltac:(apply (http_accept _ 8)).
  run_http ltac:(apply (http_track _ 8)).
  run_http ltac:(apply (http_request _ 8 New)).
  run_http ltac:(apply (http_answer _ 8)).
  run_http ltac:(apply (http_accept _ 7)).
  run_http ltac:(apply (http_track _ 7)).
  run_http ltac:(apply (http_request _ 7 New)).
  run_step ltac:(apply main_signalled).
  run_step ltac:(apply main_received).
  run_step ltac:(apply (main_shuts _ 5000)).
  run_step ltac:(apply (main_closes _ 5000)).
  by_map.
Qed.
Lemma late_request : rtc main_step closing after_closing.
Proof.
  run_http ltac:(apply (http_request _ 8 Idle)).
  run_http ltac:(apply (http_answer _ 8)).
  by_map.
Qed.


Lemma late_failures_witness :
  let p := mkHost (with_listen (Returned (ServeFailed (ErrMsg "accept: too many open files"))) http_new)
             false None AwaitEnd None in
  ∃ p', rtc docker_step p p' ∧ h_exit p' = Some (Exited 1).
Proof.
  intros p. destruct (late_failures p (ErrMsg "accept: too many open files") eq_refl eq_refl eq_refl) as [Hd _].
  destruct (Hd p (rtc_refl _ _)) as [[_ H]|[H|[H _]]]; [exact H|discriminate H|discriminate H].
Defined.
