(* ===== verification/Evm.v ===== *)
(** * The machine the auction contract runs on

    The parts of Solidity and of the EVM contracts/InstructionSender.sol uses:
    transactions that revert, checked 256-bit arithmetic, the ABI encoding of
    words and byte strings, and calls to other contracts, which may call back
    before they return.  This is the language, not the repository's code: no
    definition here has a map entry. *)

From S2P Require Import Prelude GoStrings.
From stdpp Require Import options.

(** ** Words and their encoding *)

Definition address : Type := Z.
Definition is_address (a : address) : Prop := (0 ≤ a < 2 ^ 160)%Z.
Definition is_uint (bits z : Z) : Prop := (0 ≤ z < 2 ^ bits)%Z.
#[export] Instance is_address_dec a : Decision (is_address a).
Proof. unfold is_address. apply _. Defined.
#[export] Instance is_uint_dec bits z : Decision (is_uint bits z).
Proof. unfold is_uint. apply _. Defined.
Lemma is_uint_mono a b z : (a ≤ b)%Z → is_uint a z → is_uint b z.
Proof. intros Hab [? ?]. split; [done|]. apply Z.lt_le_trans with (2 ^ a)%Z; [done|]. by apply Z.pow_le_mono_r. Qed.
Lemma address_uint a : is_address a → is_uint 256 a.
Proof. intros Ha. by apply (is_uint_mono 160 256). Qed.

(** The [n] low bytes of [z], the most significant first. *)
Fixpoint be_bytes (n : nat) (z : Z) : list ascii :=
  match n with
  | O => []
  | S n => be_bytes n (z / 256) ++ [byte (Z.to_nat (z mod 256))]
  end.
Definition word (z : Z) : string := str (be_bytes 32 z).
Definition big_endian (s : string) : Z :=
  foldl (λ a c, a * 256 + Z.of_nat (nat_of_ascii c))%Z 0%Z (bytes s).
(** [abi.encode] of a byte string: its length, then the bytes padded with zeros
    to whole words. *)
Definition abi_bytes (s : string) : string :=
  word (Z.of_nat (len s)) +:+ s +:+ str (replicate (Z.to_nat (- Z.of_nat (len s) mod 32)) (byte 0)).
(** [bytes32("...")]: a literal, padded with zeros on the right. *)
Definition bytes32_literal (s : string) : string := s +:+ str (replicate (32 - len s) (byte 0)).
Definition zero32 : string := str (replicate 32 (byte 0)).

Lemma be_bytes_length n z : length (be_bytes n z) = n.
Proof. revert z. induction n; intros z; cbn; [done|]. rewrite length_app, IHn. cbn. lia. Qed.
Lemma word_len z : len (word z) = 32.
Proof. unfold word. rewrite len_bytes, bytes_str. apply be_bytes_length. Qed.
Lemma be_bytes_value n z :
  foldl (λ a c, a * 256 + Z.of_nat (nat_of_ascii c))%Z 0%Z (be_bytes n z) = (z mod 256 ^ Z.of_nat n)%Z.
Proof.
  revert z. induction n as [|n IH]; intros z; [by rewrite Z.mod_1_r|].
  cbn [be_bytes]. rewrite foldl_app, IH. cbn [foldl]. unfold byte.
  pose proof (Z.mod_pos_bound z 256) as Hb.
  rewrite nat_ascii_embedding, Z2Nat.id by lia.
  rewrite Nat2Z.inj_succ, Z.pow_succ_r, (Z.mul_comm 256) by lia.
  rewrite (Z.mul_comm (256 ^ _)), Z.rem_mul_r by lia. lia.
Qed.
Lemma abi_bytes_len s : len (abi_bytes s) ≤ 32 + (len s + 31).
Proof.
  unfold abi_bytes. rewrite !len_app, word_len, (len_bytes (str _)), bytes_str, length_replicate.
  pose proof (Z.mod_pos_bound (- Z.of_nat (len s)) 32). lia.
Qed.
Lemma be_bytes_app n m z : be_bytes (n + m) z = be_bytes n (z / 256 ^ Z.of_nat m) ++ be_bytes m z.
Proof.
  revert z. induction m as [|m IH]; intros z; [by rewrite Nat.add_0_r, Z.div_1_r, app_nil_r|].
  rewrite Nat.add_succ_r, Nat2Z.inj_succ, Z.pow_succ_r, <- Z.div_div by lia. cbn [be_bytes].
  by rewrite IH, <- (assoc_L (++)).
Qed.
Lemma be_bytes_0 n : be_bytes n 0 = replicate n (byte 0).
Proof. induction n as [|n IH]; [done|]. rewrite replicate_S_end. cbn [be_bytes]. by rewrite Z.div_0_l, IH. Qed.
Lemma big_endian_word z : is_uint 256 z → big_endian (word z) = z.
Proof.
  intros Hz. unfold big_endian, word. rewrite bytes_str, be_bytes_value.
  change (256 ^ Z.of_nat 32)%Z with (2 ^ 256)%Z. by apply Z.mod_small.
Qed.

(** ** Transactions and calls *)

Section machine.
Context {Storage W Event Call E : Type}.

(** The contract's storage, everything outside it, and the events emitted. *)
Record sys := mkSys { storage : Storage; world : W; logs : list Event }.

(** A computation returns and has changed the state, or reverts with an error
    and has changed nothing. *)
Definition T (A : Type) : Type := sys → (A * sys) + E.
#[global] Instance T_ret : MRet T := λ A a s, inl (a, s).
#[global] Instance T_bind : MBind T := λ A B k m s,
  match m s with inl (a, s') => k a s' | inr e => inr e end.

Definition revert {A} (e : E) : T A := λ s, inr e.
(** [if (b) revert e;] *)
Definition revert_if (b : bool) (e : E) : T unit := if b then revert e else mret tt.
Definition read : T Storage := λ s, inl (storage s, s).
Definition observe {A} (f : W → A) : T A := λ s, inl (f (world s), s).
Definition write (f : Storage → Storage) : T unit := λ s, inl (tt, mkSys (f (storage s)) (world s) (logs s)).
Definition emit (ev : Event) : T unit := λ s, inl (tt, mkSys (storage s) (world s) (logs s ++ [ev])).

(** Checked arithmetic reverts with [panic] when the result is not a [uint256]. *)
Definition checked (panic : E) (z : Z) : T Z := if decide (is_uint 256 z) then mret z else revert panic.
Definition of_option {A} (e : E) (o : option A) : T A :=
  match o with Some a => mret a | None => revert e end.

(** What a called contract does: it returns data ([None] when it reverts) leaving
    the outside in some state, or it first has [sender] call the contract again
    and goes on from what it then sees. *)
Inductive reply (R : Type) :=
  | Returns (d : option R) (w : W)
  | Calls (sender : address) (c : Call) (k : bool → Storage → W → reply R).
Arguments Returns {R} d w.
Arguments Calls {R} sender c k.

Fixpoint run_reply {R} (reenter : address → Call → T unit) (r : reply R) (s : sys) : option R * sys :=
  match r with
  | Returns d w => (d, mkSys (storage s) w (logs s))
  | Calls sender c k =>
    match reenter sender c s with
    | inl (_, s') => run_reply reenter (k true (storage s') (world s')) s'
    | inr _ => run_reply reenter (k false (storage s) (world s)) s
    end
  end.

(** A call to a contract whose failure is [failed]. *)
Definition external {R} (reenter : address → Call → T unit) (failed : E) (callee : Storage → W → reply R) : T R :=
  λ s, match run_reply reenter (callee (storage s) (world s)) s with
       | (Some d, s') => inl (d, s')
       | (None, _) => inr failed
       end.

(** ** Reasoning about runs *)

Lemma T_bind_inv {A B} (m : T A) (k : A → T B) s b s' :
  (m ≫= k) s = inl (b, s') → ∃ a s1, m s = inl (a, s1) ∧ k a s1 = inl (b, s').
Proof. unfold mbind, T_bind. destruct (m s) as [[a s1]|]; [|discriminate]. by exists a, s1. Qed.
Lemma T_bind_run {A B} (m : T A) (k : A → T B) s a s1 :
  m s = inl (a, s1) → (m ≫= k) s = k a s1.
Proof. unfold mbind, T_bind. by intros ->. Qed.
Lemma revert_if_inv b e s u s' : revert_if b e s = inl (u, s') → b = false ∧ s' = s.
Proof. unfold revert_if. destruct b; [discriminate|]. by intros [= _ <-]. Qed.
Lemma checked_inv e z s z' s' : checked e z s = inl (z', s') → is_uint 256 z ∧ z' = z ∧ s' = s.
Proof. unfold checked. case_decide as Hz; [|discriminate]. intros H. injection H as <- <-. done. Qed.
Lemma of_option_inv {A} e (o : option A) s a s' : of_option e o s = inl (a, s') → o = Some a ∧ s' = s.
Proof. destruct o; [|discriminate]. by intros [= <- <-]. Qed.

(** A completed path of a callee whose calls back into the contract left the
    storage the same up to [same] and the outside untouched. *)
Inductive answers (same : relation Storage) {R} : reply R → Storage → W → option R → Storage → W → Prop :=
  | answers_return d w' st w : answers same (Returns d w') st w d st w'
  | answers_call sender c k ok st st1 w d st' w' :
      same st st1 → answers same (k ok st1 w) st1 w d st' w' →
      answers same (Calls sender c k) st w d st' w'.

(** A state in which every call back leaves all but [same]-equal storage alone
    turns an external call into one of the callee's paths. *)
Lemma run_reply_answers (same : relation Storage) (locked : Storage → Prop) {R} reenter (r : reply R) s :
  PreOrder same →
  (∀ sender c s1 u s2, locked (storage s1) → reenter sender c s1 = inl (u, s2) →
     same (storage s1) (storage s2) ∧ world s2 = world s1 ∧ logs s2 = logs s1) →
  (∀ st st', locked st → same st st' → locked st') →
  locked (storage s) →
  let '(d, s') := run_reply reenter r s in
  answers same r (storage s) (world s) d (storage s') (world s') ∧
  same (storage s) (storage s') ∧ logs s' = logs s.
Proof.
  intros Hp Hre Hl. revert s. induction r as [d w|sender c k IH]; intros s Hs; cbn; [by split; [constructor|]|].
  destruct (reenter sender c s) as [[u s1]|e] eqn:Hr.
  - destruct (Hre _ _ _ _ _ Hs Hr) as (H1 & H2 & H3).
    specialize (IH true (storage s1) (world s1) s1 (Hl _ _ Hs H1)).
    destruct (run_reply reenter _ s1) as [d s']. destruct IH as (Ha & Hb & Hc).
    split_and!; [|by trans (storage s1)|congruence].
    rewrite <- H2. eapply answers_call; [done|exact Ha].
  - specialize (IH false (storage s) (world s) s Hs).
    destruct (run_reply reenter _ s) as [d s']. destruct IH as (Ha & Hb & Hc).
    split_and!; try done. eapply answers_call; [reflexivity|exact Ha].
Qed.

End machine.

Arguments sys : clear implicits.
Arguments mkSys {Storage W Event}.
Arguments T : clear implicits.
Arguments reply : clear implicits.
Arguments Returns {Storage W Call R} d w.
Arguments Calls {Storage W Call R} sender c k.
