(* ===== verification/Abi.v ===== *)
(** * The ABI's encoding of parameters

    The types the auction's messages are made of: [address], [uintN], [bytes32],
    [bytes], and tuples of static types.  [abi_encode] is [abi.encode] of the Solidity
    ABI: a head of words, in which a dynamic value is the offset of its place in the
    tail.  [abi_decode] reads it back.  This is the format the Go tools, the enclave
    and the contract share; no definition here has a map entry. *)

From S2P Require Import Prelude GoStrings Evm.
From stdpp Require Import options.

(** ** Types and values *)

Inductive static_type := TAddress | TUint (bits : Z) | TBytes32.
Inductive abi_type := TStatic (t : static_type) | TBytes | TTuple (fields : list (string * static_type)).
(** The parameters of a message, with their names. *)
Definition abi_params : Type := list (string * abi_type).

Inductive static_value := VAddress (a : address) | VUint (n : Z) | VBytes32 (b : string).
Inductive abi_value := VStatic (v : static_value) | VBytes (b : string) | VTuple (fields : list static_value).

(** A value of a type. *)
Definition static_typed (t : static_type) (v : static_value) : bool :=
  match t, v with
  | TAddress, VAddress a => bool_decide (is_address a)
  | TUint bits, VUint n => bool_decide (is_uint bits n ∧ bits ≤ 256)%Z
  | TBytes32, VBytes32 b => bool_decide (len b = 32)
  | _, _ => false
  end.
(** What fits the words of a type: nothing smaller than a word is checked. *)
Definition static_shaped (t : static_type) (v : static_value) : bool :=
  match t, v with
  | TAddress, VAddress a => bool_decide (is_address a)
  | TUint _, VUint n => bool_decide (is_uint 256 n)
  | TBytes32, VBytes32 b => bool_decide (len b = 32)
  | _, _ => false
  end.
Fixpoint all2 {A B} (f : A → B → bool) (l : list A) (k : list B) : bool :=
  match l, k with
  | [], [] => true
  | x :: l, y :: k => f x y && all2 f l k
  | _, _ => false
  end.
Definition value_fits (fits : static_type → static_value → bool) (t : abi_type) (v : abi_value) : bool :=
  match t, v with
  | TStatic t, VStatic v => fits t v
  | TBytes, VBytes b => bool_decide (is_uint 256 (Z.of_nat (len b)))
  | TTuple fields, VTuple vals => all2 fits fields.*2 vals
  | _, _ => false
  end.
Definition typed (params : abi_params) (vals : list abi_value) : bool := all2 (value_fits static_typed) params.*2 vals.
Definition shaped (params : abi_params) (vals : list abi_value) : bool := all2 (value_fits static_shaped) params.*2 vals.

(** ** Encoding *)

Definition static_word (v : static_value) : string :=
  match v with VAddress a => word a | VUint n => word n | VBytes32 b => b end.
Definition static_words (vals : list static_value) : string := foldr (λ v s, static_word v +:+ s) "" vals.
(** The words of the head, and the bytes of the tail. *)
Definition head_words (v : abi_value) : nat := match v with VTuple vals => length vals | _ => 1 end.
Definition tail (v : abi_value) : string := match v with VBytes b => abi_bytes b | _ => "" end.
Fixpoint heads (offset : nat) (vals : list abi_value) : string :=
  match vals with
  | [] => ""
  | v :: vals =>
    match v with
    | VStatic v => static_word v
    | VTuple fields => static_words fields
    | VBytes _ => word (Z.of_nat offset)
    end +:+ heads (offset + len (tail v)) vals
  end.
Definition tails (vals : list abi_value) : string := foldr (λ v s, tail v +:+ s) "" vals.
Definition abi_encode (vals : list abi_value) : string :=
  heads (32 * list_sum (head_words <$> vals)) vals +:+ tails vals.

(** ** Decoding *)

Definition read_static (t : static_type) (s : string) : option static_value :=
  let v := match t with
           | TAddress => VAddress (big_endian s `mod` 2 ^ 160)%Z
           | TUint _ => VUint (big_endian s)
           | TBytes32 => VBytes32 s
           end in
  if static_shaped t v then Some v else None.
Fixpoint read_statics (ts : list static_type) (s : string) : option (list static_value) :=
  match ts with
  | [] => Some []
  | t :: ts => v ← read_static t (str_take 32 s); vals ← read_statics ts (str_drop 32 s); Some (v :: vals)
  end.
(** Reading [head], with offsets into [whole]. *)
Fixpoint read_params (ts : list abi_type) (head whole : string) : option (list abi_value) :=
  match ts with
  | [] => Some []
  | t :: ts =>
    match t with
    | TStatic t =>
      v ← read_static t (str_take 32 head);
      vals ← read_params ts (str_drop 32 head) whole; Some (VStatic v :: vals)
    | TTuple fields =>
      v ← read_statics fields.*2 head;
      vals ← read_params ts (str_drop (32 * length fields) head) whole; Some (VTuple v :: vals)
    | TBytes =>
      let place := str_drop (Z.to_nat (big_endian (str_take 32 head))) whole in
      let b := str_take (Z.to_nat (big_endian (str_take 32 place))) (str_drop 32 place) in
      vals ← read_params ts (str_drop 32 head) whole; Some (VBytes b :: vals)
    end
  end.
Definition abi_decode (params : abi_params) (s : string) : option (list abi_value) :=
  vals ← read_params params.*2 s s; if shaped params vals then Some vals else None.

(** ** Lemmas *)

Lemma all2_Forall2 {A B} (f : A → B → bool) l k : all2 f l k = true ↔ Forall2 (λ x y, f x y = true) l k.
Proof.
  revert k. induction l as [|x l IH]; intros [|y k]; cbn [all2].
  - done.
  - split; [done|by inversion 1].
  - split; [done|by inversion 1].
  - rewrite andb_true_iff, IH. split; [by intros []; constructor|by inversion 1].
Qed.
Lemma all2_impl {A B} (f g : A → B → bool) l k :
  (∀ x y, f x y = true → g x y = true) → all2 f l k = true → all2 g l k = true.
Proof. rewrite !all2_Forall2. intros Hfg Hl. eapply Forall2_impl; [exact Hl|exact Hfg]. Qed.

Lemma static_typed_shaped t v : static_typed t v = true → static_shaped t v = true.
Proof.
  destruct t, v; cbn; try done. intros [H Hb]%bool_decide_eq_true. apply bool_decide_eq_true.
  by apply (is_uint_mono bits).
Qed.
Lemma typed_shaped params vals : typed params vals = true → shaped params vals = true.
Proof.
  apply all2_impl. intros [t| |fields] [v|b|vs]; cbn [value_fits]; try done; [apply static_typed_shaped|].
  apply all2_impl, static_typed_shaped.
Qed.

Lemma static_word_len t v : static_shaped t v = true → len (static_word v) = 32.
Proof.
  destruct t, v; cbn [static_shaped static_word]; try done. by intros ?%bool_decide_eq_true.
Qed.
Lemma str_take_app_len s t : str_take (len s) (s +:+ t) = s.
Proof. unfold str_take. by rewrite bytes_app, len_bytes, take_app_length, str_bytes. Qed.
Lemma str_drop_app_len s t : str_drop (len s) (s +:+ t) = t.
Proof. unfold str_drop. by rewrite bytes_app, len_bytes, drop_app_length, str_bytes. Qed.
Lemma str_take_word v s n : len v = n → str_take n (v +:+ s) = v.
Proof. intros <-. apply str_take_app_len. Qed.
Lemma str_drop_word v s n : len v = n → str_drop n (v +:+ s) = s.
Proof. intros <-. apply str_drop_app_len. Qed.

Lemma read_static_word t v : static_shaped t v = true → read_static t (static_word v) = Some v.
Proof.
  unfold read_static. destruct t, v as [a|n|b]; cbn [static_shaped static_word]; try done; intros H; pose proof H as H'.
  - apply bool_decide_eq_true in H'. rewrite big_endian_word by by apply address_uint.
    rewrite Z.mod_small by exact H'. cbv zeta. by rewrite H.
  - apply bool_decide_eq_true in H'. rewrite big_endian_word by done. by rewrite H.
  - by rewrite H.
Qed.
Lemma read_static_words ts vals s :
  all2 static_shaped ts vals = true → read_statics ts (static_words vals +:+ s) = Some vals ∧
    len (static_words vals) = 32 * length ts.
Proof.
  rewrite all2_Forall2. induction 1 as [|t v ts vals Hv _ [IH IHl]]; [done|]. cbn [read_statics static_words foldr].
  fold (static_words vals). pose proof (static_word_len _ _ Hv) as Hl. rewrite <- str_app_assoc.
  rewrite str_take_word, str_drop_word, read_static_word by done. cbn [mbind option_bind]. rewrite IH.
  split; [done|]. rewrite len_app, Hl, IHl. cbn [length]. lia.
Qed.
Lemma tails_cons v vals : tails (v :: vals) = tail v +:+ tails vals.
Proof. done. Qed.

Lemma read_bytes b s :
  is_uint 256 (Z.of_nat (len b)) →
  str_take (Z.to_nat (big_endian (str_take 32 (abi_bytes b +:+ s)))) (str_drop 32 (abi_bytes b +:+ s)) = b.
Proof.
  intros Hb. unfold abi_bytes. rewrite <- !str_app_assoc. rewrite str_take_word, str_drop_word by apply word_len.
  by rewrite big_endian_word, Nat2Z.id, str_take_app_len.
Qed.

(** Decoding inverts encoding. *)
Lemma read_params_encode ts vals before after :
  all2 (value_fits static_shaped) ts vals = true →
  (Z.of_nat (len before + len (tails vals)) < 2 ^ 256)%Z →
  read_params ts (heads (len before) vals +:+ after) (before +:+ tails vals) = Some vals.
Proof.
  rewrite all2_Forall2. intros Hf. revert before. induction Hf as [|t v ts vals Hv _ IH]; intros before Hlen; [done|].
  rewrite tails_cons in Hlen |- *. rewrite len_app in Hlen.
  assert (before +:+ (tail v +:+ tails vals) = (before +:+ tail v) +:+ tails vals) as -> by by rewrite str_app_assoc.
  assert (read_params ts (heads (len (before +:+ tail v)) vals +:+ after) ((before +:+ tail v) +:+ tails vals) = Some vals) as Hrest
    by (apply IH; rewrite len_app; lia).
  rewrite len_app in Hrest. destruct t as [t| |fields], v as [v|b|vs]; cbn [value_fits] in Hv; try done;
    cbn [read_params heads]; rewrite <- str_app_assoc.
  - pose proof (static_word_len _ _ Hv) as Hl. rewrite str_take_word, str_drop_word, read_static_word by done.
    cbn [mbind option_bind]. by rewrite Hrest.
  - apply bool_decide_eq_true in Hv. set (off := word (Z.of_nat (len before))) in *.
    assert (len off = 32) as Hoff by apply word_len. rewrite (str_take_word off), (str_drop_word off) by done.
    assert (big_endian off = Z.of_nat (len before)) as -> by (apply big_endian_word; unfold is_uint; lia).
    change (tail (VBytes b)) with (abi_bytes b) in *. rewrite Nat2Z.id, <- (str_app_assoc before), str_drop_app_len, read_bytes by done.
    cbv zeta. rewrite str_app_assoc. by rewrite Hrest.
  - destruct (read_static_words fields.*2 vs (heads (len before + len (tail (VTuple vs))) vals +:+ after) Hv) as [-> Hl].
    cbn [mbind option_bind]. rewrite length_fmap in Hl. rewrite str_drop_word by done. by rewrite Hrest.
Qed.
Lemma heads_len ts vals offset :
  all2 (value_fits static_shaped) ts vals = true → len (heads offset vals) = 32 * list_sum (head_words <$> vals).
Proof.
  rewrite all2_Forall2. intros Hf. revert offset. induction Hf as [|t v ts vals Hv _ IH]; intros offset; [done|].
  cbn [heads]. rewrite len_app, IH. cbn [fmap list_fmap list_sum foldr]. fold (list_sum (head_words <$> vals)).
  destruct t as [t| |fields], v as [v|b|vs]; cbn [value_fits head_words] in *; try done.
  - rewrite (static_word_len _ _ Hv). lia.
  - rewrite word_len. lia.
  - destruct (read_static_words fields.*2 vs "" Hv) as [_ ->]. apply all2_Forall2, Forall2_length in Hv. rewrite Hv. lia.
Qed.
Theorem abi_decode_encode params vals :
  shaped params vals = true → (Z.of_nat (len (abi_encode vals)) < 2 ^ 256)%Z →
  abi_decode params (abi_encode vals) = Some vals.
Proof.
  intros Hs Hlen. unfold abi_decode, abi_encode in *. pose proof (heads_len _ _ (32 * list_sum (head_words <$> vals)) Hs) as Hh.
  rewrite len_app in Hlen. rewrite <- Hh at 1.
  rewrite read_params_encode; [cbn [mbind option_bind]; by rewrite Hs|done|lia].
Qed.
