(* ===== verification/AuctionContract.v ===== *)
(** * contracts/InstructionSender.sol: the QuietFillAuction contract

    Storage, every external function with its guards in order, and the dispatch
    of a call.  The token contracts, the two registries, [keccak256] and
    [ecrecover] are parameters; a called contract may call back. *)

From S2P Require Import Prelude GoStrings Evm.
From stdpp Require Import options.

(** ** Data *)

Inductive AuctionState := StateNone | Open | ClearRequested | Settled | NoFill | Cancelled.
#[export] Instance AuctionState_dec : EqDecision AuctionState.
Proof. solve_decision. Defined.

Record Auction := mkAuction {
  seller : address;
  teeId : address;
  baseAmount : Z;
  floorPriceWei : Z;
  ceilingPriceWei : Z;
  maxQuoteAmount : Z;
  bidDeadline : Z;
  settleDeadline : Z;
  clearInstructionId : string;
  winner : address;
  clearingPriceWei : Z;
  quotePaid : Z;
  submittedBidCount : Z;
  eligibleBidCount : Z;
  state : AuctionState;
}.

(** What the mapping holds for an id never written. *)
Definition zero_auction : Auction := (mkAuction 0 0 0 0 0 0 0 0 zero32 0 0 0 0 0 StateNone)%Z.

Record ClearResult := mkClear {
  r_contractAddr : address;
  r_auctionId : Z;
  r_winner : address;
  r_unitPriceWei : Z;
  r_winningNonce : Z;
  r_winningCommitment : string;
  r_submittedBidCount : Z;
  r_eligibleBidCount : Z;
}.

Inductive contract_error :=
  | AuctionNotOpen | AuctionNotClearable | AuctionNotSettleable | AuctionNotTerminal | BidWindowClosed
  | BidWindowOpen | ComponentTooLarge | EncryptedBidInvalid | ExtensionIdAlreadySet | ExtensionIdNotFound
  | ExtensionIdNotSet | NoActiveTee | InvalidAddress | InvalidAuction | InvalidCollar | InvalidDeadline
  | InvalidResult | InvalidSignature | NoRefund | ReentrantCall | SafeTransferFailed
  | SettlementWindowClosed | SettlementWindowOpen | WinnerNotEscrowed
  (** the language's: overflow, malformed data, a callee's revert, no gas left *)
  | Panic | MalformedData | CalleeReverted | OutOfGas.

Inductive event :=
  | EvAuctionCreated (auctionId : Z) (by_ : address) (base floor ceiling maxQuote bidDl settleDl : Z)
  | EvPrivateBidSubmitted (auctionId : Z) (bidder : address) (instructionId : string) (escrowCreated : bool)
  | EvClearRequested (auctionId : Z) (instructionId : string)
  | EvAuctionSettled (auctionId : Z) (to : address) (price paid : Z) (commitment : string) (nonce : Z)
  | EvAuctionNoFill (auctionId submitted : Z)
  | EvAuctionCancelled (auctionId : Z)
  | EvQuoteRefunded (auctionId : Z) (bidder : address) (amount : Z).

(** The external functions that change state, with their arguments. *)
Inductive call :=
  | CallSetExtensionId
  | CallCreateAuction (base floor ceiling bidDl settleDl : Z)
  | CallSubmitPrivateBid (value auctionId : Z) (encryptedBid : string)
  | CallRequestClear (value auctionId : Z)
  | CallSettleAuction (auctionId : Z) (result : ClearResult) (signature : string)
  | CallCancelTimedOutAuction (auctionId : Z)
  | CallWithdrawQuote (auctionId : Z).

Record Storage := mkStorage {
  nextAuctionId : Z;
  extensionId : Z;
  entered : Z;
  auctions : gmap Z Auction;
  quoteEscrow : gmap (Z * address) Z;
}.

Definition auction_at (id : Z) (st : Storage) : Auction := default zero_auction (auctions st !! id).
Definition escrow_at (id : Z) (bidder : address) (st : Storage) : Z := default 0%Z (quoteEscrow st !! (id, bidder)).

Definition set_next (n : Z) (st : Storage) : Storage :=
  mkStorage n (extensionId st) (entered st) (auctions st) (quoteEscrow st).
Definition set_extension (id : Z) (st : Storage) : Storage :=
  mkStorage (nextAuctionId st) id (entered st) (auctions st) (quoteEscrow st).
Definition set_entered (n : Z) (st : Storage) : Storage :=
  mkStorage (nextAuctionId st) (extensionId st) n (auctions st) (quoteEscrow st).
Definition set_auction (id : Z) (a : Auction) (st : Storage) : Storage :=
  mkStorage (nextAuctionId st) (extensionId st) (entered st) (<[id := a]> (auctions st)) (quoteEscrow st).
Definition set_escrow (id : Z) (bidder : address) (x : Z) (st : Storage) : Storage :=
  mkStorage (nextAuctionId st) (extensionId st) (entered st) (auctions st) (<[(id, bidder) := x]> (quoteEscrow st)).

(** Assignments to fields of an [Auction storage]. *)
Definition with_clear (instr : string) (s : AuctionState) (a : Auction) : Auction :=
  mkAuction (seller a) (teeId a) (baseAmount a) (floorPriceWei a) (ceilingPriceWei a) (maxQuoteAmount a)
    (bidDeadline a) (settleDeadline a) instr (winner a) (clearingPriceWei a) (quotePaid a)
    (submittedBidCount a) (eligibleBidCount a) s.
Definition with_state (s : AuctionState) (a : Auction) : Auction := with_clear (clearInstructionId a) s a.
Definition with_counts (submitted eligible : Z) (a : Auction) : Auction :=
  mkAuction (seller a) (teeId a) (baseAmount a) (floorPriceWei a) (ceilingPriceWei a) (maxQuoteAmount a)
    (bidDeadline a) (settleDeadline a) (clearInstructionId a) (winner a) (clearingPriceWei a) (quotePaid a)
    submitted eligible (state a).
Definition with_fill (w : address) (price paid : Z) (a : Auction) : Auction :=
  mkAuction (seller a) (teeId a) (baseAmount a) (floorPriceWei a) (ceilingPriceWei a) (maxQuoteAmount a)
    (bidDeadline a) (settleDeadline a) (clearInstructionId a) w price paid
    (submittedBidCount a) (eligibleBidCount a) (state a).

Record TeeInstructionParams := mkParams {
  p_opType : string;
  p_opCommand : string;
  p_message : string;
  p_cosigners : list address;
  p_cosignersThreshold : Z;
  p_claimBackAddress : address;
}.

Inductive token_op :=
  | Transfer (to : address) (amount : Z)
  | TransferFrom (from to : address) (amount : Z).

(** ** Constants *)

Definition OP_TYPE_QUIETFILL : string := bytes32_literal "QUIETFILL".
Definition OP_COMMAND_PRIVATE_BID : string := bytes32_literal "QF_PRIVATE_BID".
Definition OP_COMMAND_CLEAR : string := bytes32_literal "QF_CLEAR".
Definition TEE_ACTION_RESULT : string := bytes32_literal "TEE_ACTION_RESULT".
Definition FIRST_PUBLIC_EXTENSION_ID : Z := 0x10000.
Definition SECP256K1_HALF_ORDER : Z := 0x7fffffffffffffffffffffffffffffff5d576e7357a4501ddfe92f46681b20a0.
Definition PRICE_SCALE : Z := 10 ^ 18.
Definition MAX_COMPONENT : Z := 10 ^ 36.
Definition MAX_ENCRYPTED_BID_BYTES : Z := 4096.

(** ** What the contract is deployed among *)

Class Deployment (W : Type) := {
  this : address;
  BASE_TOKEN : address;
  QUOTE_TOKEN : address;
  chainid : Z;
  (** the EVM's hash and signature recovery *)
  keccak256 : string → string;
  ecrecover : string → Z → Z → Z → address;
  (** read-only calls; [None] when they revert *)
  nextPublicExtensionId : W → option Z;
  getTeeExtensionInstructionsSender : Z → W → option address;
  getRandomTeeIds : Z → Z → W → option (list address);
  (** calls that run other code *)
  sendInstructions : Z → list address → TeeInstructionParams → Storage → W → reply Storage W call string;
  token_call : address → token_op → Storage → W → reply Storage W call string;
}.

Section contract.
Context {W : Type} `{Dep : !Deployment W}.
Local Abbreviation T := (T Storage W event contract_error).
Local Abbreviation sys := (sys Storage W event).

(** The quote for a lot at a price, rounded up; the product is checked. *)
Definition _quoteFor (base price : Z) : T Z :=
  product ← checked Panic (base * price);
  mret (if decide (product = 0)%Z then 0%Z else ((product - 1) / PRICE_SCALE + 1)%Z).

Definition quoteAmount (base price : Z) : T Z :=
  _ ← revert_if (bool_decide (MAX_COMPONENT < base)%Z || bool_decide (MAX_COMPONENT < price)%Z) ComponentTooLarge;
  _quoteFor base price.

Definition _getExtensionId : T Z :=
  st ← read;
  _ ← revert_if (bool_decide (extensionId st = 0)%Z) ExtensionIdNotSet;
  mret (extensionId st).

Definition _selectTee : T address :=
  ext ← _getExtensionId;
  ids ← observe (getRandomTeeIds ext 1);
  ids ← of_option CalleeReverted ids;
  match ids with
  | [tee] => _ ← revert_if (bool_decide (tee = 0)%Z) NoActiveTee; mret tee
  | _ => revert NoActiveTee
  end.

(** The calldata words of a 65-byte signature; a [v] below 27 is raised. *)
Definition _recover (digest signature : string) : T address :=
  _ ← revert_if (bool_decide (len signature ≠ 65)) InvalidSignature;
  let r := big_endian (str_take 32 signature) in
  let s := big_endian (str_take 32 (str_drop 32 signature)) in
  let v := big_endian (str_drop 64 signature) in
  _ ← revert_if (bool_decide (SECP256K1_HALF_ORDER < s)%Z) InvalidSignature;
  let v := if decide (v < 27)%Z then (v + 27)%Z else v in
  _ ← revert_if (bool_decide (v ≠ 27 ∧ v ≠ 28)%Z) InvalidSignature;
  let signer := ecrecover digest v r s in
  _ ← revert_if (bool_decide (signer = 0)%Z) InvalidSignature;
  mret signer.

Definition abi_clear_result (r : ClearResult) : string :=
  word (r_contractAddr r) +:+ word (r_auctionId r) +:+ word (r_winner r) +:+ word (r_unitPriceWei r) +:+
  word (r_winningNonce r) +:+ r_winningCommitment r +:+ word (r_submittedBidCount r) +:+
  word (r_eligibleBidCount r).

(** The digest the TEE signs for data it returns under an instruction. *)
Definition action_digest (data instructionId : string) : string :=
  let actionResultHash :=
    keccak256 (keccak256 data +:+ instructionId +:+ keccak256 "threshold" +:+ str [byte 1]) in
  let payloadHash := keccak256 (TEE_ACTION_RESULT +:+ word chainid +:+ actionResultHash) in
  keccak256 (str [byte 25] +:+ "Ethereum Signed Message:" +:+ str [byte 10] +:+ "32" +:+ payloadHash).

Definition teeClearDigest (id : Z) (r : ClearResult) : T string :=
  st ← read;
  let auction := auction_at id st in
  _ ← revert_if (bool_decide (clearInstructionId auction = zero32)) InvalidResult;
  mret (action_digest (abi_clear_result r) (clearInstructionId auction)).

(** [abi.decode(data, (bool))] *)
Definition decode_bool (data : string) : option bool :=
  let x := big_endian (str_take 32 data) in
  if decide (len data < 32) then None
  else if decide (x = 0)%Z then Some false else if decide (x = 1)%Z then Some true else None.

(** *** The messages of the instructions *)

Definition bid_message (id : Z) (bidder : address) (encryptedBid : string) : string :=
  word id +:+ word bidder +:+ word 96 +:+ abi_bytes encryptedBid.
Definition clear_message (id : Z) (a : Auction) : string :=
  word id +:+ word this +:+ word (floorPriceWei a) +:+ word (ceilingPriceWei a).

(** *** External functions *)

Section functions.
(** How a call back into the contract runs, and the block's time. *)
Context (reenter : address → call → T unit) (now : Z).

Definition _safe_call (token : address) (op : token_op) : T unit :=
  returnData ← external reenter SafeTransferFailed (token_call token op);
  if decide (len returnData = 0) then mret tt
  else
    ok ← of_option MalformedData (decode_bool returnData);
    revert_if (negb ok) SafeTransferFailed.
Definition _safeTransfer (token to : address) (amount : Z) : T unit := _safe_call token (Transfer to amount).
Definition _safeTransferFrom (token from to : address) (amount : Z) : T unit :=
  _safe_call token (TransferFrom from to amount).

Definition _sendInstruction (value : Z) (tee : address) (command message : string) (claimant : address) : T string :=
  external reenter CalleeReverted
    (sendInstructions value [tee] (mkParams OP_TYPE_QUIETFILL command message [] 0 claimant)).

Definition nonReentrant (body : T unit) : T unit :=
  st ← read;
  _ ← revert_if (bool_decide (entered st ≠ 1%Z)) ReentrantCall;
  _ ← write (set_entered 2);
  _ ← body;
  write (set_entered 1).

(** The loop of [setExtensionId]: [todo] ids are left, the next is [id]. *)
Fixpoint find_extension (todo : nat) (id : Z) : T unit :=
  match todo with
  | O => revert ExtensionIdNotFound
  | S todo =>
    sender ← observe (getTeeExtensionInstructionsSender id);
    sender ← of_option CalleeReverted sender;
    if decide (sender = this) then write (set_extension id) else find_extension todo (id + 1)
  end.
Definition setExtensionId : T unit :=
  st ← read;
  _ ← revert_if (bool_decide (extensionId st ≠ 0%Z)) ExtensionIdAlreadySet;
  nextId ← observe nextPublicExtensionId;
  nextId ← of_option CalleeReverted nextId;
  find_extension (Z.to_nat (nextId - FIRST_PUBLIC_EXTENSION_ID)) FIRST_PUBLIC_EXTENSION_ID.

Definition createAuction (sender base floor ceiling bidDl settleDl : Z) : T unit :=
  nonReentrant (
    _ ← revert_if (bool_decide (base = 0)%Z) InvalidAuction;
    _ ← revert_if (bool_decide (floor = 0)%Z || bool_decide (ceiling < floor)%Z) InvalidCollar;
    _ ← revert_if (bool_decide (MAX_COMPONENT < base)%Z || bool_decide (MAX_COMPONENT < floor)%Z ||
                   bool_decide (MAX_COMPONENT < ceiling)%Z) ComponentTooLarge;
    _ ← revert_if (bool_decide (bidDl ≤ now)%Z || bool_decide (settleDl ≤ bidDl)%Z) InvalidDeadline;
    maxQuote ← _quoteFor base ceiling;
    tee ← _selectTee;
    st ← read;
    let id := nextAuctionId st in
    next ← checked Panic (id + 1);
    _ ← write (set_next next);
    _ ← write (set_auction id (mkAuction sender tee base floor ceiling maxQuote bidDl settleDl zero32 0 0 0 0 0 Open)%Z);
    _ ← _safeTransferFrom BASE_TOKEN sender this base;
    emit (EvAuctionCreated id sender base floor ceiling maxQuote bidDl settleDl)).

Definition submitPrivateBid (sender value id : Z) (encryptedBid : string) : T unit :=
  nonReentrant (
    st ← read;
    let auction := auction_at id st in
    _ ← revert_if (bool_decide (state auction ≠ Open)) AuctionNotOpen;
    _ ← revert_if (bool_decide (bidDeadline auction ≤ now)%Z) BidWindowClosed;
    _ ← revert_if (bool_decide (len encryptedBid = 0) ||
                   bool_decide (MAX_ENCRYPTED_BID_BYTES < Z.of_nat (len encryptedBid))%Z) EncryptedBidInvalid;
    let escrowCreated := bool_decide (escrow_at id sender st = 0%Z) in
    _ ← (if escrowCreated then
           _ ← write (set_escrow id sender (maxQuoteAmount auction));
           _safeTransferFrom QUOTE_TOKEN sender this (maxQuoteAmount auction)
         else mret tt);
    st ← read;
    instructionId ← _sendInstruction value (teeId (auction_at id st)) OP_COMMAND_PRIVATE_BID
                      (bid_message id sender encryptedBid) sender;
    emit (EvPrivateBidSubmitted id sender instructionId escrowCreated)).

Definition requestClear (sender value id : Z) : T unit :=
  nonReentrant (
    st ← read;
    let auction := auction_at id st in
    _ ← revert_if (bool_decide (state auction ≠ Open)) AuctionNotClearable;
    _ ← revert_if (bool_decide (now < bidDeadline auction)%Z) BidWindowOpen;
    _ ← revert_if (bool_decide (settleDeadline auction < now)%Z) SettlementWindowClosed;
    instructionId ← _sendInstruction value (teeId auction) OP_COMMAND_CLEAR (clear_message id auction) sender;
    st ← read;
    _ ← write (set_auction id (with_clear instructionId ClearRequested (auction_at id st)));
    emit (EvClearRequested id instructionId)).

(** The rest of [settleAuction] once the result is authenticated and counted in
    [auction]; [st] is the storage before. *)
Definition settleResult (id : Z) (result : ClearResult) (auction : Auction) (st : Storage) : T unit :=
  if decide (r_winner result = 0%Z) then
    _ ← revert_if (bool_decide (r_unitPriceWei result ≠ 0%Z) || bool_decide (r_winningNonce result ≠ 0%Z) ||
                   bool_decide (r_winningCommitment result ≠ zero32) ||
                   bool_decide (r_eligibleBidCount result ≠ 0%Z)) InvalidResult;
    _ ← write (set_auction id (with_state NoFill auction));
    _ ← _safeTransfer BASE_TOKEN (seller auction) (baseAmount auction);
    emit (EvAuctionNoFill id (r_submittedBidCount result))
  else
    _ ← revert_if (bool_decide (r_unitPriceWei result < floorPriceWei auction)%Z ||
                   bool_decide (ceilingPriceWei auction < r_unitPriceWei result)%Z ||
                   bool_decide (r_winningNonce result = 0%Z) ||
                   bool_decide (r_winningCommitment result = zero32) ||
                   bool_decide (r_eligibleBidCount result = 0%Z)) InvalidResult;
    _ ← revert_if (bool_decide (escrow_at id (r_winner result) st ≠ maxQuoteAmount auction)) WinnerNotEscrowed;
    paid ← _quoteFor (baseAmount auction) (r_unitPriceWei result);
    winnerRefund ← checked Panic (maxQuoteAmount auction - paid);
    _ ← write (set_escrow id (r_winner result) 0);
    _ ← write (set_auction id (with_state Settled (with_fill (r_winner result) (r_unitPriceWei result) paid auction)));
    _ ← _safeTransfer BASE_TOKEN (r_winner result) (baseAmount auction);
    st ← read;
    _ ← _safeTransfer QUOTE_TOKEN (seller (auction_at id st)) paid;
    _ ← (if decide (winnerRefund ≠ 0%Z) then _safeTransfer QUOTE_TOKEN (r_winner result) winnerRefund
         else mret tt);
    emit (EvAuctionSettled id (r_winner result) (r_unitPriceWei result) paid (r_winningCommitment result)
            (r_winningNonce result)).
Definition settleAuction (id : Z) (result : ClearResult) (signature : string) : T unit :=
  nonReentrant (
    st ← read;
    let auction := auction_at id st in
    _ ← revert_if (bool_decide (state auction ≠ ClearRequested)) AuctionNotSettleable;
    _ ← revert_if (bool_decide (settleDeadline auction < now)%Z) SettlementWindowClosed;
    _ ← revert_if (bool_decide (r_contractAddr result ≠ this) || bool_decide (r_auctionId result ≠ id) ||
                   bool_decide (r_submittedBidCount result < r_eligibleBidCount result)%Z) InvalidResult;
    digest ← teeClearDigest id result;
    signer ← _recover digest signature;
    _ ← revert_if (bool_decide (signer ≠ teeId auction)) InvalidSignature;
    let auction := with_counts (r_submittedBidCount result) (r_eligibleBidCount result) auction in
    _ ← write (set_auction id auction);
    settleResult id result auction st).

Definition cancelTimedOutAuction (id : Z) : T unit :=
  nonReentrant (
    st ← read;
    let auction := auction_at id st in
    _ ← revert_if (bool_decide (state auction ≠ Open ∧ state auction ≠ ClearRequested)) AuctionNotClearable;
    _ ← revert_if (bool_decide (now ≤ settleDeadline auction)%Z) SettlementWindowOpen;
    _ ← write (set_auction id (with_state Cancelled auction));
    _ ← _safeTransfer BASE_TOKEN (seller auction) (baseAmount auction);
    emit (EvAuctionCancelled id)).

Definition withdrawQuote (sender id : Z) : T unit :=
  nonReentrant (
    st ← read;
    let s := state (auction_at id st) in
    _ ← revert_if (bool_decide (s ≠ Settled ∧ s ≠ NoFill ∧ s ≠ Cancelled)) AuctionNotTerminal;
    let amount := escrow_at id sender st in
    _ ← revert_if (bool_decide (amount = 0)%Z) NoRefund;
    _ ← write (set_escrow id sender 0);
    _ ← _safeTransfer QUOTE_TOKEN sender amount;
    emit (EvQuoteRefunded id sender amount)).

End functions.

(** *** Dispatch *)

(** The ABI decoder refuses arguments outside their types. *)
Definition well_typed (c : call) : bool :=
  match c with
  | CallSetExtensionId => true
  | CallCreateAuction base floor ceiling bidDl settleDl =>
    bool_decide (is_uint 256 base ∧ is_uint 256 floor ∧ is_uint 256 ceiling ∧ is_uint 64 bidDl ∧ is_uint 64 settleDl)
  | CallSubmitPrivateBid value id _ => bool_decide (is_uint 256 value ∧ is_uint 256 id)
  | CallRequestClear value id => bool_decide (is_uint 256 value ∧ is_uint 256 id)
  | CallSettleAuction id r _ =>
    bool_decide (is_uint 256 id ∧ is_address (r_contractAddr r) ∧ is_uint 256 (r_auctionId r) ∧
      is_address (r_winner r) ∧ is_uint 256 (r_unitPriceWei r) ∧ is_uint 64 (r_winningNonce r) ∧
      len (r_winningCommitment r) = 32 ∧ is_uint 256 (r_submittedBidCount r) ∧ is_uint 256 (r_eligibleBidCount r))
  | CallCancelTimedOutAuction id => bool_decide (is_uint 256 id)
  | CallWithdrawQuote id => bool_decide (is_uint 256 id)
  end.

(** A call at a remaining call depth; calls back run one level deeper. *)
Fixpoint execute (depth : nat) (now : Z) (sender : address) (c : call) : T unit :=
  match depth with
  | O => revert OutOfGas
  | S depth =>
    _ ← revert_if (negb (well_typed c)) MalformedData;
    let reenter := execute depth now in
    match c with
    | CallSetExtensionId => setExtensionId
    | CallCreateAuction base floor ceiling bidDl settleDl =>
      createAuction reenter now sender base floor ceiling bidDl settleDl
    | CallSubmitPrivateBid value id encryptedBid => submitPrivateBid reenter now sender value id encryptedBid
    | CallRequestClear value id => requestClear reenter now sender value id
    | CallSettleAuction id result signature => settleAuction reenter now id result signature
    | CallCancelTimedOutAuction id => cancelTimedOutAuction reenter now id
    | CallWithdrawQuote id => withdrawQuote reenter sender id
    end
  end.

(** The constructor: [code] is the length of the code at an address. *)
Definition constructor (code : address → Z) (extensionRegistry machineRegistry : address) : Storage + contract_error :=
  if bool_decide (extensionRegistry = 0)%Z || bool_decide (machineRegistry = 0)%Z ||
     bool_decide (BASE_TOKEN = 0)%Z || bool_decide (QUOTE_TOKEN = 0)%Z then inr InvalidAddress
  else if bool_decide (code extensionRegistry = 0)%Z || bool_decide (code machineRegistry = 0)%Z ||
          bool_decide (code BASE_TOKEN = 0)%Z || bool_decide (code QUOTE_TOKEN = 0)%Z then inr InvalidAddress
  else inl (mkStorage 1 0 1 ∅ ∅).

End contract.
