(* ===== verification/AuctionSafety.v ===== *)
(** * The auction contract keeps its promises

    No call gets in while another runs, every auction follows its life cycle, and
    the contract always holds what it owes, whatever the called contracts do
    before they return. *)

From S2P Require Import Prelude GoStrings Evm AuctionContract.
From stdpp Require Import options.
Set Default Proof Using "Type*".

(** ** Specification *)

(** Storage equal but for the cached extension id. *)
Definition same (st st' : Storage) : Prop := st' = set_extension (extensionId st') st.
Definition locked (st : Storage) : Prop := entered st = 2%Z.
Definition active (a : Auction) : Prop := state a = Open ∨ state a = ClearRequested.
Definition terminal (a : Auction) : Prop := state a = Settled ∨ state a = NoFill ∨ state a = Cancelled.
#[export] Instance active_dec a : Decision (active a).
Proof. unfold active. apply _. Defined.

(** The price of a lot, rounded up to whole units of the quote token. *)
Definition quote_for (base price : Z) : Z := ((base * price - 1) / PRICE_SCALE + 1)%Z.

(** What the contract holds for an auction's seller, and in all. *)
Definition lot (a : Auction) : Z := if decide (active a) then baseAmount a else 0%Z.
Definition owed_base (st : Storage) : Z := total lot (auctions st).
Definition owed_quote (st : Storage) : Z := total id (quoteEscrow st).

Record wf_auction (a : Auction) : Prop := {
  wf_state : active a ∨ terminal a;
  wf_seller : is_address (seller a);
  wf_tee : teeId a ≠ 0%Z;
  wf_base : (1 ≤ baseAmount a ≤ MAX_COMPONENT)%Z;
  wf_collar : (1 ≤ floorPriceWei a ≤ ceilingPriceWei a)%Z;
  wf_ceiling : (ceilingPriceWei a ≤ MAX_COMPONENT)%Z;
  wf_quote : maxQuoteAmount a = quote_for (baseAmount a) (ceilingPriceWei a);
  wf_deadlines : (bidDeadline a < settleDeadline a)%Z;
  wf_settled : state a = Settled →
    winner a ≠ 0%Z ∧ (floorPriceWei a ≤ clearingPriceWei a ≤ ceilingPriceWei a)%Z ∧
    quotePaid a = quote_for (baseAmount a) (clearingPriceWei a) ∧
    (1 ≤ eligibleBidCount a ≤ submittedBidCount a)%Z;
  wf_unsettled : state a ≠ Settled → winner a = 0%Z ∧ clearingPriceWei a = 0%Z ∧ quotePaid a = 0%Z;
}.

Record wf (st : Storage) : Prop := {
  wf_next : is_uint 256 (nextAuctionId st) ∧ (1 ≤ nextAuctionId st)%Z;
  wf_auctions : ∀ i a, auctions st !! i = Some a → (1 ≤ i < nextAuctionId st)%Z ∧ wf_auction a;
  (** an escrow is the auction's ceiling amount until it is paid out *)
  wf_escrow : ∀ i b x, quoteEscrow st !! (i, b) = Some x →
    ∃ a, auctions st !! i = Some a ∧ (x = 0%Z ∨ x = maxQuoteAmount a);
}.

(** One step of an auction's life at time [now]: its terms never change, and its
    state only moves forward, inside the windows they set. *)
Inductive moves (now : Z) (a : Auction) : Auction → Prop :=
  | moves_stay : moves now a a
  | moves_clear instr :
      state a = Open → (bidDeadline a ≤ now ≤ settleDeadline a)%Z → moves now a (with_clear instr ClearRequested a)
  | moves_nofill submitted :
      state a = ClearRequested → (now ≤ settleDeadline a)%Z →
      moves now a (with_state NoFill (with_counts submitted 0 a))
  | moves_settle submitted eligible to price paid :
      state a = ClearRequested → (now ≤ settleDeadline a)%Z →
      moves now a (with_state Settled (with_fill to price paid (with_counts submitted eligible a)))
  | moves_cancel : active a → (settleDeadline a < now)%Z → moves now a (with_state Cancelled a).

Section spec.
Context {W : Type} `{Dep : !Deployment W}.

(** A token took the call: it returned nothing or [true], and what it did in
    between left the contract alone. *)
Definition accepted (data : string) : Prop := len data = 0 ∨ decode_bool data = Some true.
Definition called (token : address) (op : token_op) (s s' : sys Storage W event) : Prop :=
  ∃ data, accepted data ∧
    answers same (token_call token op (storage s) (world s)) (storage s) (world s) (Some data) (storage s') (world s').

(** ERC-20 tokens without transfer fees, of whose balances only their holder
    disposes. *)
Class TokenLaws := {
  balance : address → address → W → Z;
  transfer_out token to amount s s' :
    called token (Transfer to amount) s s' →
    (balance token this (world s) - amount ≤ balance token this (world s'))%Z ∧
    ∀ t, t ≠ token → (balance t this (world s) ≤ balance t this (world s'))%Z;
  transfer_in token from amount s s' :
    from ≠ this → called token (TransferFrom from this amount) s s' →
    (balance token this (world s) + amount ≤ balance token this (world s'))%Z ∧
    ∀ t, t ≠ token → (balance t this (world s) ≤ balance t this (world s'))%Z;
  send_keeps value tees params st w d st' w' t :
    answers same (sendInstructions value tees params st w) st w d st' w' →
    (balance t this w ≤ balance t this w')%Z;
  (** the outside is in order: each token's supply is a [uint256] *)
  sound : W → Prop;
  called_sound token op s s' : called token op s s' → sound (world s) → sound (world s');
  send_sound value tees params st w d st' w' :
    answers same (sendInstructions value tees params st w) st w d st' w' → sound w → sound w';
}.
(** The two tokens pay out what their holder has. *)
Class TokenPays `{!TokenLaws} := {
  transfer_pays token to amount st w d st' w' :
    token = BASE_TOKEN ∨ token = QUOTE_TOKEN → sound w → (0 ≤ amount ≤ balance token this w)%Z →
    answers same (token_call token (Transfer to amount) st w) st w d st' w' →
    ∃ data, d = Some data ∧ accepted data;
}.

(** The contract's obligations in each token, and that it can meet them. *)
Definition owed (t : address) (st : Storage) : Z :=
  ((if decide (t = BASE_TOKEN) then owed_base st else 0) + (if decide (t = QUOTE_TOKEN) then owed_quote st else 0))%Z.
Definition solvent `{!TokenLaws} (s : sys Storage W event) : Prop :=
  ∀ t, (owed t (storage s) ≤ balance t this (world s))%Z.

(** The deployed contract, transactions of anyone else, and everything that goes
    on outside. *)
Definition deployed (s : sys Storage W event) : Prop :=
  ∃ code registry machines, constructor code registry machines = inl (storage s).
Inductive happens `{!TokenLaws} (s : sys Storage W event) : sys Storage W event → Prop :=
  | happens_call depth now sender c s' :
      is_address sender → sender ≠ this → execute depth now sender c s = inl (tt, s') → happens s s'
  | happens_outside w' :
      (∀ t, balance t this (world s) ≤ balance t this w')%Z → sound w' → happens s (mkSys (storage s) w' (logs s)).
Definition auction_reachable `{!TokenLaws} (s : sys Storage W event) : Prop :=
  ∃ s0, deployed s0 ∧ sound (world s0) ∧ (∀ t, 0 ≤ balance t this (world s0))%Z ∧ rtc happens s0 s.
End spec.
Arguments TokenLaws W {Dep}.
Arguments TokenPays W {Dep H}.

(** ** Calls while locked *)

#[export] Instance same_preorder : PreOrder same.
Proof.
  split; [by intros []|]. intros [] [] [] H1 H2. unfold same, set_extension in *. cbn in *. by simplify_eq.
Qed.
Lemma same_locked st st' : locked st → same st st' → locked st'.
Proof. by intros ? ->. Qed.

Lemma locked_same st st' : same st st' → locked st → locked st'.
Proof. by intros ->. Qed.
Ltac t_lock := first [done | eapply locked_same; [eassumption|t_lock]].

Section locking.
Context {W : Type} `{Dep : !Deployment W}.
Local Abbreviation T := (T Storage W event contract_error).
Implicit Types s : sys Storage W event.

Lemma nonReentrant_locked (body : T unit) s : entered (storage s) ≠ 1%Z → nonReentrant body s = inr ReentrantCall.
Proof.
  intros Hs. unfold nonReentrant. rewrite (T_bind_run read _ s (storage s) s) by done.
  unfold revert_if. rewrite bool_decide_eq_true_2 by done. done.
Qed.

Lemma find_extension_inv todo i s u s' :
  find_extension todo i s = inl (u, s') → ∃ x, s' = mkSys (set_extension x (storage s)) (world s) (logs s).
Proof.
  revert i s. induction todo as [|todo IH]; intros i s; cbn [find_extension]; [discriminate|].
  intros (a & s1 & H1 & H)%T_bind_inv. injection H1 as <- <-.
  apply T_bind_inv in H as (a & s1 & H1 & H). apply of_option_inv in H1 as [_ ->].
  case_decide; [|by eapply IH]. injection H as _ <-. by exists i.
Qed.
Lemma setExtensionId_inv s u s' :
  setExtensionId s = inl (u, s') → ∃ x, s' = mkSys (set_extension x (storage s)) (world s) (logs s).
Proof.
  unfold setExtensionId. intros (a & s1 & H1 & H)%T_bind_inv. injection H1 as <- <-.
  apply T_bind_inv in H as (? & s1 & H1 & H). apply revert_if_inv in H1 as [_ ->].
  apply T_bind_inv in H as (? & s1 & H1 & H). injection H1 as <- <-.
  apply T_bind_inv in H as (? & s1 & H1 & H). apply of_option_inv in H1 as [_ ->].
  by eapply find_extension_inv.
Qed.

(** While a call runs, the only call that does not revert is [setExtensionId]. *)
Lemma execute_locked depth now sender c s u s' :
  locked (storage s) → execute depth now sender c s = inl (u, s') →
  c = CallSetExtensionId ∧ ∃ x, s' = mkSys (set_extension x (storage s)) (world s) (logs s).
Proof.
  intros Hl. destruct depth as [|depth]; [discriminate|]. cbn [execute].
  intros (a & s1 & H1 & H)%T_bind_inv. apply revert_if_inv in H1 as [_ ->].
  assert (entered (storage s) ≠ 1%Z) as Hn by (unfold locked in Hl; lia).
  destruct c; [split; [done|by eapply setExtensionId_inv]|..];
    unfold createAuction, submitPrivateBid, requestClear, settleAuction, cancelTimedOutAuction, withdrawQuote in H;
    by rewrite nonReentrant_locked in H.
Qed.

Definition respects (reenter : address → call → T unit) : Prop :=
  ∀ sender c s u s', locked (storage s) → reenter sender c s = inl (u, s') →
    same (storage s) (storage s') ∧ world s' = world s ∧ logs s' = logs s.
Lemma execute_respects depth now : respects (execute depth now).
Proof.
  intros sender c s u s' Hl H. apply execute_locked in H as (_ & x & ->); [|done]. done.
Qed.
End locking.

(** ** What a successful call did *)

Ltac t_guard E :=
  repeat match type of E with
         | _ || _ = false => let E2 := fresh E in apply orb_false_iff in E as [E E2]; t_guard E2
         | bool_decide _ = false => apply bool_decide_eq_false in E
         | ¬ (_ ≠ _) => apply dec_stable in E
         end.
Ltac t_atom E :=
  first [ apply revert_if_inv in E as [E ->]; t_guard E
        | apply checked_inv in E as (E & -> & ->)
        | apply of_option_inv in E as [E ->]
        | cbv [read observe write emit mret T_ret] in E; injection E as <- <- ].
Ltac t_step H :=
  let E := fresh "E" in
  apply T_bind_inv in H as (? & ? & E & H); try t_atom E.
Ltac t_steps H := repeat t_step H.
(** The hypothesis that says how a run of [f] ended. *)
Ltac on_run f tac :=
  match goal with E : ?m _ = inl _ |- _ => match m with context [f] => tac E end end.

Section runs.
Context {W : Type} `{Dep : !Deployment W, Laws : !TokenLaws W}.
Local Abbreviation T := (T Storage W event contract_error).
Local Abbreviation sys := (sys Storage W event).
Context (reenter : address → call → T unit) (Hre : respects reenter) (now : Z).
Implicit Types s : sys.

(** The contract's balances moved by at least [δ], and the outside stays in order. *)
Definition moved (δ : address → Z) s s' : Prop :=
  (∀ t, balance t this (world s) + δ t ≤ balance t this (world s'))%Z ∧ (sound (world s) → sound (world s')).
Definition out (token : address) (amount : Z) (t : address) : Z := if decide (t = token) then (- amount)%Z else 0%Z.

Lemma external_inv {R} failed (callee : Storage → W → reply Storage W call R) s d s' :
  locked (storage s) → external reenter failed callee s = inl (d, s') →
  answers same (callee (storage s) (world s)) (storage s) (world s) (Some d) (storage s') (world s') ∧
  same (storage s) (storage s') ∧ logs s' = logs s.
Proof using Hre.
  intros Hl. unfold external.
  pose proof (run_reply_answers same locked reenter (callee (storage s) (world s)) s _ Hre same_locked Hl) as Ha.
  destruct (run_reply reenter _ s) as [[d'|] s1]; [|discriminate]. by intros [= <- <-].
Qed.

Lemma safe_call_inv token op s u s' :
  locked (storage s) → _safe_call reenter token op s = inl (u, s') →
  called token op s s' ∧ same (storage s) (storage s') ∧ logs s' = logs s.
Proof using Hre.
  intros Hl (data & s1 & H1 & H)%T_bind_inv. apply external_inv in H1 as (Ha & Hs & Hg); [|done].
  assert (accepted data ∧ s' = s1) as [Hd ->]; [|by split; [exists data|]].
  revert H. unfold accepted. case_decide as Hn; [intros [= _ <-]; auto|].
  intros (ok & s2 & H1 & H)%T_bind_inv. apply of_option_inv in H1 as [H1 ->].
  apply revert_if_inv in H as [H ->]. destruct ok; [auto|discriminate].
Qed.

Lemma transfer_inv token to amount s u s' :
  locked (storage s) → _safeTransfer reenter token to amount s = inl (u, s') →
  called token (Transfer to amount) s s' ∧ same (storage s) (storage s') ∧ logs s' = logs s ∧
  moved (out token amount) s s'.
Proof.
  intros Hl H. apply safe_call_inv in H as (Hc & Hs & Hg); [|done]. split_and!; try done.
  split; [|by eapply called_sound].
  intros t. apply transfer_out in Hc as [H1 H2]. unfold out. case_decide as Ht; [subst; lia|].
  specialize (H2 t Ht). lia.
Qed.
Lemma transferFrom_inv token from amount s u s' :
  locked (storage s) → from ≠ this → _safeTransferFrom reenter token from this amount s = inl (u, s') →
  called token (TransferFrom from this amount) s s' ∧ same (storage s) (storage s') ∧ logs s' = logs s ∧
  moved (out token (- amount)) s s'.
Proof.
  intros Hl Hf H. apply safe_call_inv in H as (Hc & Hs & Hg); [|done]. split_and!; try done.
  split; [|by eapply called_sound].
  intros t. apply transfer_in in Hc as [H1 H2]; [|done]. unfold out. case_decide as Ht; [subst; lia|].
  specialize (H2 t Ht). lia.
Qed.
Lemma sendInstruction_inv value tee command message claimant s instr s' :
  locked (storage s) → _sendInstruction reenter value tee command message claimant s = inl (instr, s') →
  same (storage s) (storage s') ∧ logs s' = logs s ∧ moved (λ _, 0%Z) s s'.
Proof.
  intros Hl H. apply external_inv in H as (Ha & Hs & Hg); [|done]. split_and!; try done.
  split; [|by eapply send_sound]. intros t. apply (send_keeps _ _ _ _ _ _ _ _ t) in Ha. lia.
Qed.

Definition update (f : Storage → Storage) s : sys := mkSys (f (storage s)) (world s) (logs s).
Definition unlocked (st : Storage) : Prop := entered st = 1%Z.

Lemma nonReentrant_inv (body : T unit) s u s' :
  nonReentrant body s = inl (u, s') →
  unlocked (storage s) ∧ ∃ v s1, body (update (set_entered 2) s) = inl (v, s1) ∧ s' = update (set_entered 1) s1.
Proof using.
  unfold nonReentrant. intros H. t_steps H. split; [done|].
  injection H as _ <-. eauto.
Qed.

(** The lock is taken and given back: what is left is the body's own change. *)
Lemma unlock_same (f : Storage → Storage) st st' :
  (∀ x, f (set_entered x st) = set_entered x (f st)) → entered (f st) = entered st → unlocked st →
  same (f (set_entered 2 st)) st' → same (f st) (set_entered 1 st') ∧ unlocked (set_entered 1 st').
Proof using.
  intros Hf He Hu H. split; [|done]. unfold same in *. rewrite H, Hf. destruct (f st) eqn:E. cbn in *.
  unfold unlocked in Hu. unfold set_extension, set_entered. cbn. congruence.
Qed.

Lemma moved_trans δ1 δ2 δ s1 s2 s3 :
  moved δ1 s1 s2 → moved δ2 s2 s3 → (∀ t, δ t = δ1 t + δ2 t)%Z → moved δ s1 s3.
Proof using. intros [H1 ?] [H2 ?] Hd. split; [|auto]. intros t. specialize (H1 t). specialize (H2 t). rewrite Hd. lia. Qed.

(** *** Read-only parts *)

Lemma _quoteFor_inv base price s q s' :
  _quoteFor base price s = inl (q, s') →
  is_uint 256 (base * price) ∧ s' = s ∧ ((base * price ≠ 0)%Z → q = quote_for base price).
Proof using.
  unfold _quoteFor. intros H. t_steps H. injection H as <- <-. split_and!; [done..|].
  intros Hn. by rewrite decide_False by done.
Qed.
Lemma _selectTee_inv s tee s' : _selectTee s = inl (tee, s') → s' = s ∧ tee ≠ 0%Z.
Proof using.
  unfold _selectTee. intros H. apply T_bind_inv in H as (ext & s1 & E & H).
  unfold _getExtensionId in E. t_steps E. injection E as <- <-. t_steps H.
  match type of H with context [match ?l with _ => _ end] => destruct l as [|tee' [|]] end; [discriminate| |discriminate].
  t_steps H. by injection H as <- <-.
Qed.
(** [signature] is a signature by [signer], in the form the contract takes. *)
Definition recovers (digest signature : string) (signer : address) : Prop :=
  ∀ s, _recover digest signature s = inl (signer, s).
Lemma _recover_inv digest signature s signer s' :
  _recover digest signature s = inl (signer, s') → s' = s ∧ recovers digest signature signer.
Proof using.
  unfold recovers, _recover. cbv zeta. intros H. t_steps H. injection H as <- <-. split; [done|]. intros s2.
  by rewrite !bool_decide_eq_false_2 by tauto.
Qed.
Lemma teeClearDigest_inv id r s digest s' :
  teeClearDigest id r s = inl (digest, s') →
  let a := auction_at id (storage s) in
  s' = s ∧ clearInstructionId a ≠ zero32 ∧ digest = action_digest (abi_clear_result r) (clearInstructionId a).
Proof using. unfold teeClearDigest. intros H. t_steps H. by injection H as <- <-. Qed.

(** *** Creating, bidding, clearing *)

Definition created (sender tee base floor ceiling bidDl settleDl : Z) : Auction :=
  mkAuction sender tee base floor ceiling (quote_for base ceiling) bidDl settleDl zero32 0%Z 0%Z 0%Z 0%Z 0%Z Open.

Lemma createAuction_inv sender base floor ceiling bidDl settleDl s u s' :
  sender ≠ this → (0 ≤ base)%Z → (0 ≤ floor)%Z →
  createAuction reenter now sender base floor ceiling bidDl settleDl s = inl (u, s') →
  let id := nextAuctionId (storage s) in
  unlocked (storage s) ∧ unlocked (storage s') ∧ is_uint 256 (id + 1) ∧
  (1 ≤ base ≤ MAX_COMPONENT)%Z ∧ (1 ≤ floor ≤ ceiling)%Z ∧ (ceiling ≤ MAX_COMPONENT)%Z ∧
  (now < bidDl < settleDl)%Z ∧ moved (out BASE_TOKEN (- base)) s s' ∧
  ∃ tee, tee ≠ 0%Z ∧
    same (set_auction id (created sender tee base floor ceiling bidDl settleDl) (set_next (id + 1) (storage s))) (storage s').
Proof.
  intros Hs Hb Hf H. apply nonReentrant_inv in H as (Hu & v & s1 & H & ->). t_steps H.
  on_run @_quoteFor ltac:(fun E => apply _quoteFor_inv in E as (Hq1 & -> & Hq2)).
  on_run @_selectTee ltac:(fun E => apply _selectTee_inv in E as [-> Ht]).
  on_run @_safeTransferFrom ltac:(fun E => apply transferFrom_inv in E as (Hc & Hs1 & Hg & Hm); [|done..]).
  cbn [storage update set_entered nextAuctionId] in *. rewrite Hq2 in Hs1 by nia.
  injection H as _ <-. cbn in Hs1.
  split_and!; try done; try lia; [].
  eexists. split; [exact Ht|]. apply unlock_same; done.
Qed.

Lemma submitPrivateBid_inv sender value id bid s u s' :
  sender ≠ this →
  submitPrivateBid reenter now sender value id bid s = inl (u, s') →
  let a := auction_at id (storage s) in
  unlocked (storage s) ∧ unlocked (storage s') ∧ state a = Open ∧ (now < bidDeadline a)%Z ∧ len bid ≠ 0 ∧
  (Z.of_nat (len bid) ≤ MAX_ENCRYPTED_BID_BYTES)%Z ∧
  if decide (escrow_at id sender (storage s) = 0%Z) then
    same (set_escrow id sender (maxQuoteAmount a) (storage s)) (storage s') ∧
    moved (out QUOTE_TOKEN (- maxQuoteAmount a)) s s'
  else same (storage s) (storage s') ∧ moved (λ _, 0%Z) s s'.
Proof.
  intros Hs H. apply nonReentrant_inv in H as (Hu & v & s1 & H & ->). t_steps H.
  on_run @_safeTransferFrom ltac:(fun E => rename E into Hescrow).
  on_run @_sendInstruction ltac:(fun E => rename E into Hsend). injection H as _ <-.
  cbn [storage update] in *. change (escrow_at id sender (set_entered 2 (storage s))) with (escrow_at id sender (storage s)) in *.
  change (auction_at id (set_entered 2 (storage s))) with (auction_at id (storage s)) in *.
  split_and!; try done; try lia; [].
  case_decide as He.
  - rewrite bool_decide_eq_true_2 in Hescrow by done. t_step Hescrow.
    apply transferFrom_inv in Hescrow as (Hc & Hs1 & Hg & Hm); [|done..].
    apply sendInstruction_inv in Hsend as (Hs2 & Hg2 & Hm2); [|by t_lock].
    split; [apply (unlock_same (set_escrow id sender _)); try done; by etrans|].
    eapply (moved_trans _ _ _ _ _ _ Hm Hm2). intros t. lia.
  - rewrite bool_decide_eq_false_2 in Hescrow by done. t_atom Hescrow.
    apply sendInstruction_inv in Hsend as (Hs2 & Hg2 & Hm2); [|done].
    split; [|done]. by apply (unlock_same (λ st, st)).
Qed.

Lemma requestClear_inv sender value id s u s' :
  requestClear reenter now sender value id s = inl (u, s') →
  let a := auction_at id (storage s) in
  unlocked (storage s) ∧ unlocked (storage s') ∧ state a = Open ∧ (bidDeadline a ≤ now ≤ settleDeadline a)%Z ∧
  moved (λ _, 0%Z) s s' ∧
  ∃ instr, same (set_auction id (with_clear instr ClearRequested a) (storage s)) (storage s').
Proof.
  intros H. apply nonReentrant_inv in H as (Hu & v & s1 & H & ->). t_steps H.
  on_run @_sendInstruction ltac:(fun E => apply sendInstruction_inv in E as (Hs1 & Hg & Hm); [|done]).
  injection H as _ <-. cbn [storage update] in *.
  change (auction_at id (set_entered 2 (storage s))) with (auction_at id (storage s)) in *.
  split_and!; try done; try lia; [].
  eexists. rewrite Hs1 in *. apply unlock_same; try done.
Qed.

(** *** Paying out *)

(** The transfers that took the outside from one state to another, in order. *)
Inductive pays : list (address * address * Z) → W → W → Prop :=
  | pays_nil w : pays [] w w
  | pays_cons token to amount s s' l w' :
      called token (Transfer to amount) s s' → pays l (world s') w' →
      pays ((token, to, amount) :: l) (world s) w'.
(** What the transfers take from the contract, in one token. *)
Definition paid_out (l : list (address * address * Z)) (t : address) : Z :=
  foldr (λ p acc, (if decide (t = p.1.1) then p.2 else 0) + acc)%Z 0%Z l.
Lemma pays_balance l w w' t :
  pays l w w' → (balance t this w - paid_out l t ≤ balance t this w')%Z.
Proof using Laws.
  unfold paid_out. induction 1 as [w|token to amount s s' l w' Hc Hp IH]; cbn; [lia|].
  apply transfer_out in Hc as [H1 H2]. case_decide as Ht; [subst; lia|]. specialize (H2 t Ht). lia.
Qed.

Lemma pays_sound l w w' : pays l w w' → sound w → sound w'.
Proof using Laws. induction 1; [done|]. eauto using called_sound. Qed.
Lemma pays_moved l δ s s' : pays l (world s) (world s') → (∀ t, δ t = - paid_out l t)%Z → moved δ s s'.
Proof using Laws.
  intros H Hd. split; [|by eapply pays_sound]. intros t. apply (pays_balance _ _ _ t) in H. rewrite Hd. lia.
Qed.

Lemma cancel_inv id s u s' :
  cancelTimedOutAuction reenter now id s = inl (u, s') →
  let a := auction_at id (storage s) in
  unlocked (storage s) ∧ unlocked (storage s') ∧ active a ∧ (settleDeadline a < now)%Z ∧
  same (set_auction id (with_state Cancelled a) (storage s)) (storage s') ∧
  pays [(BASE_TOKEN, seller a, baseAmount a)] (world s) (world s').
Proof.
  intros H. apply nonReentrant_inv in H as (Hu & v & s1 & H & ->). t_steps H.
  on_run @_safeTransfer ltac:(fun E => apply transfer_inv in E as (Hc & Hs1 & Hg & Hm); [|done]).
  injection H as _ <-. cbn [storage update] in *.
  change (auction_at id (set_entered 2 (storage s))) with (auction_at id (storage s)) in *.
  split_and!; try done; [unfold active; destruct (state _); naive_solver|lia|by apply (unlock_same (set_auction id _))|].
  exact (pays_cons _ _ _ _ _ _ _ Hc (pays_nil _)).
Qed.

Lemma withdraw_inv sender id s u s' :
  withdrawQuote reenter sender id s = inl (u, s') →
  let a := auction_at id (storage s) in
  unlocked (storage s) ∧ unlocked (storage s') ∧ terminal a ∧ escrow_at id sender (storage s) ≠ 0%Z ∧
  same (set_escrow id sender 0 (storage s)) (storage s') ∧
  pays [(QUOTE_TOKEN, sender, escrow_at id sender (storage s))] (world s) (world s').
Proof.
  intros H. apply nonReentrant_inv in H as (Hu & v & s1 & H & ->). t_steps H.
  on_run @_safeTransfer ltac:(fun E => apply transfer_inv in E as (Hc & Hs1 & Hg & Hm); [|done]).
  injection H as _ <-. cbn [storage update] in *.
  change (auction_at id (set_entered 2 (storage s))) with (auction_at id (storage s)) in *.
  split_and!; try done; [unfold terminal; destruct (state _); naive_solver|by apply (unlock_same (set_escrow id sender 0))|].
  exact (pays_cons _ _ _ _ _ _ _ Hc (pays_nil _)).
Qed.

(** *** Settling *)

(** What [settleAuction] demands of a result and its signature. *)
Record verified (id : Z) (r : ClearResult) (signature : string) (a : Auction) : Prop := {
  v_state : state a = ClearRequested;
  v_time : (now ≤ settleDeadline a)%Z;
  v_contract : r_contractAddr r = this;
  v_auction : r_auctionId r = id;
  v_counts : (r_eligibleBidCount r ≤ r_submittedBidCount r)%Z;
  v_instruction : clearInstructionId a ≠ zero32;
  v_signed : recovers (action_digest (abi_clear_result r) (clearInstructionId a)) signature (teeId a);
}.
Definition no_winner (r : ClearResult) : Prop :=
  r_winner r = 0%Z ∧ r_unitPriceWei r = 0%Z ∧ r_winningNonce r = 0%Z ∧ r_winningCommitment r = zero32 ∧
  r_eligibleBidCount r = 0%Z.
Definition has_winner (r : ClearResult) (a : Auction) : Prop :=
  r_winner r ≠ 0%Z ∧ (floorPriceWei a ≤ r_unitPriceWei r ≤ ceilingPriceWei a)%Z ∧ r_winningNonce r ≠ 0%Z ∧
  r_winningCommitment r ≠ zero32 ∧ r_eligibleBidCount r ≠ 0%Z.
Definition filled (r : ClearResult) (a : Auction) : Auction :=
  with_state Settled (with_fill (r_winner r) (r_unitPriceWei r) (quote_for (baseAmount a) (r_unitPriceWei r))
    (with_counts (r_submittedBidCount r) (r_eligibleBidCount r) a)).
Definition unfilled (r : ClearResult) (a : Auction) : Auction :=
  with_state NoFill (with_counts (r_submittedBidCount r) 0 a).
(** Who gets what when a lot is sold. *)
Definition payouts (r : ClearResult) (a : Auction) : list (address * address * Z) :=
  let paid := quote_for (baseAmount a) (r_unitPriceWei r) in
  [(BASE_TOKEN, r_winner r, baseAmount a); (QUOTE_TOKEN, seller a, paid)] ++
  if decide (maxQuoteAmount a - paid ≠ 0)%Z then [(QUOTE_TOKEN, r_winner r, maxQuoteAmount a - paid)%Z] else [].

Lemma auction_at_same id st st' : same st st' → auction_at id st' = auction_at id st.
Proof using. by intros ->. Qed.
Lemma auction_at_set id a st : auction_at id (set_auction id a st) = a.
Proof using. unfold auction_at. cbn. by rewrite lookup_insert_eq. Qed.

Lemma set_auction_twice id a b st : set_auction id a (set_auction id b st) = set_auction id a st.
Proof using. unfold set_auction. cbn. by rewrite insert_insert_eq. Qed.
Lemma set_auction_escrow id a b i w x st :
  set_auction id a (set_escrow i w x (set_auction id b st)) = set_auction id a (set_escrow i w x st).
Proof using. unfold set_auction, set_escrow. cbn. by rewrite insert_insert_eq. Qed.

Lemma settle_inv id r signature s u s' :
  let a := auction_at id (storage s) in
  (state a = ClearRequested → 1 ≤ baseAmount a ∧ 1 ≤ floorPriceWei a)%Z →
  settleAuction reenter now id r signature s = inl (u, s') →
  unlocked (storage s) ∧ unlocked (storage s') ∧ verified id r signature a ∧
  ((no_winner r ∧ same (set_auction id (unfilled r a) (storage s)) (storage s') ∧
    pays [(BASE_TOKEN, seller a, baseAmount a)] (world s) (world s')) ∨
   (has_winner r a ∧ escrow_at id (r_winner r) (storage s) = maxQuoteAmount a ∧
    (quote_for (baseAmount a) (r_unitPriceWei r) ≤ maxQuoteAmount a)%Z ∧
    same (set_auction id (filled r a) (set_escrow id (r_winner r) 0 (storage s))) (storage s') ∧
    pays (payouts r a) (world s) (world s'))).
Proof.
  intros a Hbf H. apply nonReentrant_inv in H as (Hu & v & s1 & H & ->). t_steps H.
  on_run @teeClearDigest ltac:(fun E => apply teeClearDigest_inv in E as (-> & Hi & ->)).
  on_run @_recover ltac:(fun E => apply _recover_inv in E as [-> Hr]).
  change (auction_at id (storage (update (set_entered 2) s))) with a in *.
  change (auction_at id (set_entered 2 (storage s))) with a in *. cbn [storage update world] in H.
  destruct (Hbf E) as [Hb Hf]. split; [done|]. split; [done|].
  split; [split; try done; try lia; by subst|].
  clear E E0 E1 E2 E3 Hi Hr E6. unfold settleResult in H. case_decide as Hw; [left|right].
  - t_steps H. on_run @_safeTransfer ltac:(fun E => apply transfer_inv in E as (Hc & Hs1 & Hg & Hm); [|done]).
    injection H as _ <-. cbn [storage update world] in *. rewrite !set_auction_twice in Hs1.
    rewrite E0 in Hs1.
    split; [done|]. split; [by apply (unlock_same (set_auction id _))|].
    exact (pays_cons _ _ _ _ _ _ _ Hc (pays_nil _)).
  - t_steps H. injection H as _ <-. cbn [storage update world] in *.
    apply _quoteFor_inv in E5 as (_ & -> & Hq). rewrite Hq in * by (cbn in *; nia). clear Hq.
    cbn [storage world logs] in *. rewrite set_auction_escrow in E7.
    apply transfer_inv in E7 as (Hc1 & Hs1 & _ & _); [|done].
    apply transfer_inv in E8 as (Hc2 & Hs2 & _ & _); [|by t_lock].
    rewrite (auction_at_same _ _ _ Hs1) in Hc2. cbn [storage] in Hc2, Hs1. rewrite auction_at_set in Hc2.
    assert (same (storage x9) (storage x13) ∧ pays (payouts r a) (world s) (world x13)) as [Hs3 Hp].
    { unfold payouts. change (maxQuoteAmount (with_counts _ _ a)) with (maxQuoteAmount a) in *.
      change (baseAmount (with_counts _ _ a)) with (baseAmount a) in *. case_decide.
      - apply transfer_inv in E9 as (Hc3 & Hs3 & _ & _); [|by t_lock]. split; [by etrans|].
        exact (pays_cons _ _ _ _ _ _ _ Hc1 (pays_cons _ _ _ _ _ _ _ Hc2 (pays_cons _ _ _ _ _ _ _ Hc3 (pays_nil _)))).
      - t_atom E9. split; [done|]. rewrite app_nil_r.
        exact (pays_cons _ _ _ _ _ _ _ Hc1 (pays_cons _ _ _ _ _ _ _ Hc2 (pays_nil _))). }
    split_and!; try done; [unfold has_winner; cbn in *; split_and!; first [done|lia]|destruct E6; cbn in *; lia|].
    apply (unlock_same (λ st, set_auction id _ (set_escrow id (r_winner r) 0 st))); try done. by etrans.
Qed.
End runs.

(** ** The contract as a transition system

    What each call does to the storage and, at least, to the contract's
    balances: the guards, the new auction or escrow, and the money. *)

Section effects.
Context {W : Type} `{Dep : !Deployment W, Laws : !TokenLaws W}.
Local Abbreviation sys := (sys Storage W event).
Implicit Types s : sys.

Inductive effect (now : Z) (sender : address) (st : Storage) : call → (address → Z) → Storage → Prop :=
  | eff_extension x : effect now sender st CallSetExtensionId (λ _, 0%Z) (set_extension x st)
  | eff_create base floor ceiling bidDl settleDl tee :
      is_uint 256 (nextAuctionId st + 1) → (1 ≤ base ≤ MAX_COMPONENT)%Z → (1 ≤ floor ≤ ceiling)%Z →
      (ceiling ≤ MAX_COMPONENT)%Z → (now < bidDl < settleDl)%Z → tee ≠ 0%Z →
      effect now sender st (CallCreateAuction base floor ceiling bidDl settleDl) (out BASE_TOKEN (- base))
        (set_auction (nextAuctionId st) (created sender tee base floor ceiling bidDl settleDl)
           (set_next (nextAuctionId st + 1) st))
  | eff_bid value id bid :
      state (auction_at id st) = Open → (now < bidDeadline (auction_at id st))%Z →
      (Z.of_nat (len bid) ≤ MAX_ENCRYPTED_BID_BYTES)%Z → escrow_at id sender st = 0%Z →
      effect now sender st (CallSubmitPrivateBid value id bid) (out QUOTE_TOKEN (- maxQuoteAmount (auction_at id st)))
        (set_escrow id sender (maxQuoteAmount (auction_at id st)) st)
  | eff_rebid value id bid :
      state (auction_at id st) = Open → (now < bidDeadline (auction_at id st))%Z →
      (Z.of_nat (len bid) ≤ MAX_ENCRYPTED_BID_BYTES)%Z → escrow_at id sender st ≠ 0%Z →
      effect now sender st (CallSubmitPrivateBid value id bid) (λ _, 0%Z) st
  | eff_clear value id instr :
      state (auction_at id st) = Open →
      (bidDeadline (auction_at id st) ≤ now ≤ settleDeadline (auction_at id st))%Z →
      effect now sender st (CallRequestClear value id) (λ _, 0%Z)
        (set_auction id (with_clear instr ClearRequested (auction_at id st)) st)
  | eff_nofill id r signature :
      verified now id r signature (auction_at id st) → no_winner r →
      effect now sender st (CallSettleAuction id r signature)
        (out BASE_TOKEN (baseAmount (auction_at id st))) (set_auction id (unfilled r (auction_at id st)) st)
  | eff_fill id r signature :
      verified now id r signature (auction_at id st) → has_winner r (auction_at id st) →
      escrow_at id (r_winner r) st = maxQuoteAmount (auction_at id st) →
      effect now sender st (CallSettleAuction id r signature)
        (λ t, - paid_out (payouts r (auction_at id st)) t)%Z
        (set_auction id (filled r (auction_at id st)) (set_escrow id (r_winner r) 0 st))
  | eff_cancel id :
      active (auction_at id st) → (settleDeadline (auction_at id st) < now)%Z →
      effect now sender st (CallCancelTimedOutAuction id) (out BASE_TOKEN (baseAmount (auction_at id st)))
        (set_auction id (with_state Cancelled (auction_at id st)) st)
  | eff_withdraw id :
      terminal (auction_at id st) → escrow_at id sender st ≠ 0%Z →
      effect now sender st (CallWithdrawQuote id) (out QUOTE_TOKEN (escrow_at id sender st))
        (set_escrow id sender 0 st).

Lemma auction_found id st : state (auction_at id st) ≠ StateNone → auctions st !! id = Some (auction_at id st).
Proof using. unfold auction_at. by destruct (auctions st !! id). Qed.

Lemma wf_at id st : wf st → state (auction_at id st) ≠ StateNone → wf_auction (auction_at id st).
Proof using. intros Hw Hs%auction_found. by apply (wf_auctions st Hw) in Hs as [_ ?]. Qed.

(** A single transfer out, seen as a movement. *)
Lemma pays_one token to amount s s' :
  pays [(token, to, amount)] (world s) (world s') → moved (out token amount) s s'.
Proof.
  intros H. apply (pays_moved _ _ _ _ H). intros t. unfold paid_out, out. cbn. case_decide; lia.
Qed.

Lemma execute_effect depth now sender c s u s' :
  wf (storage s) → unlocked (storage s) → sender ≠ this → execute depth now sender c s = inl (u, s') →
  ∃ δ st1, effect now sender (storage s) c δ st1 ∧ same st1 (storage s') ∧ unlocked (storage s') ∧ moved δ s s'.
Proof.
  intros Hw Hul Hs. destruct depth as [|depth]; [discriminate|]. cbn [execute].
  pose proof (execute_respects depth now) as Hre. intros H. t_step H.
  apply negb_false_iff in E. destruct c as [|base floor ceiling bidDl settleDl|value id bid|value id|id r sig|id|id];
    cbn [well_typed] in E; rewrite ?bool_decide_eq_true in E.
  - apply setExtensionId_inv in H as [x' ->]. eexists _, _. split_and!; [apply (eff_extension _ _ _ x')|done|done|split; [intros t; cbn; lia|done]].
  - destruct E as ([? _] & [? _] & _). apply createAuction_inv in H as (? & ? & ? & ? & ? & ? & ? & ? & tee & ? & ?); [|done..].
    eexists _, _. split_and!; [by apply eff_create|done..].
  - apply submitPrivateBid_inv in H as (? & ? & ? & ? & ? & ? & H); [|done..].
    case_decide; destruct H; eexists _, _; (split_and!; [first [by apply eff_bid|by apply eff_rebid]|done..]).
  - apply requestClear_inv in H as (? & ? & ? & ? & ? & instr & ?); [|done..].
    eexists _, _. split_and!; [by apply eff_clear|done..].
  - apply settle_inv in H as (? & ? & ? & [(? & ? & ?%pays_one)|(? & ? & _ & ? & Hp)]); [..|done|].
    + eexists _, _. split_and!; [by eapply eff_nofill|done..].
    + eexists _, _. split_and!; [by eapply eff_fill|done..|].
      by apply (pays_moved _ _ _ _ Hp).
    + intros Hst. destruct (wf_at id _ Hw ltac:(by rewrite Hst)). lia.
  - apply cancel_inv in H as (? & ? & ? & ? & ? & ?%pays_one); [|done..].
    eexists _, _. split_and!; [by apply eff_cancel|done..].
  - apply withdraw_inv in H as (? & ? & ? & ? & ? & ?%pays_one); [|done..].
    eexists _, _. split_and!; [by apply eff_withdraw|done..].
Qed.

(** *** Every effect keeps the books *)

Lemma owed_auction t id a st :
  owed t (set_auction id a st) =
  (owed t st + (if decide (t = BASE_TOKEN) then lot a - lot (auction_at id st) else 0))%Z.
Proof using.
  unfold owed, owed_base, owed_quote, set_auction, auction_at. cbn. rewrite total_insert.
  assert (from_option lot 0%Z (auctions st !! id) = lot (default zero_auction (auctions st !! id))) as ->
    by by destruct (auctions st !! id).
  repeat case_decide; lia.
Qed.
Lemma owed_escrow t id b x st :
  owed t (set_escrow id b x st) =
  (owed t st + (if decide (t = QUOTE_TOKEN) then x - escrow_at id b st else 0))%Z.
Proof using.
  unfold owed, owed_base, owed_quote, set_escrow, escrow_at. cbn. rewrite total_insert.
  change (Datatypes.id x) with x. repeat case_decide; lia.
Qed.
Lemma owed_same t st st' : same st st' → owed t st' = owed t st.
Proof using. by intros ->. Qed.
Lemma owed_next t n st : owed t (set_next n st) = owed t st.
Proof using. done. Qed.

Lemma lot_active a : active a → lot a = baseAmount a.
Proof using. intros Ha. unfold lot. by rewrite decide_True. Qed.
Lemma lot_inactive a : ¬ active a → lot a = 0%Z.
Proof using. intros Ha. unfold lot. by rewrite decide_False. Qed.

Lemma next_unused st : wf st → auctions st !! nextAuctionId st = None.
Proof using.
  intros Hw. destruct (auctions st !! nextAuctionId st) as [a|] eqn:Ha; [|done].
  apply (wf_auctions st Hw) in Ha as [Hn _]. lia.
Qed.

Lemma paid_out_payouts r a t :
  paid_out (payouts r a) t =
  ((if decide (t = BASE_TOKEN) then baseAmount a else 0) + (if decide (t = QUOTE_TOKEN) then maxQuoteAmount a else 0))%Z.
Proof using.
  unfold paid_out, payouts. destruct (decide (maxQuoteAmount a - _ ≠ 0)%Z); cbn; repeat case_decide; lia.
Qed.

(** What is owed grows by no more than what comes in. *)
Lemma effect_owed now sender st c δ st1 t :
  wf st → effect now sender st c δ st1 → (owed t st1 ≤ owed t st + δ t)%Z.
Proof using.
  intros Hw H. destruct H as [x|base floor ceiling bidDl settleDl tee|value id bid Hs Hd Hlen He|value id bid|
    value id instr Hs Hd|id r sg Hv Hn|id r sg Hv Hh He|id Ha Hd|id Ha He];
    rewrite ?owed_auction, ?owed_escrow, ?owed_next; unfold out.
  - change (owed t (set_extension x st)) with (owed t st). lia.
  - unfold auction_at. cbn [auctions set_next]. rewrite (next_unused st Hw). rewrite (lot_active (created _ _ _ _ _ _ _)) by by left.
    rewrite (lot_inactive (default _ None)) by (by intros []). cbn [baseAmount created]. case_decide; lia.
  - rewrite He. case_decide; lia.
  - lia.
  - rewrite (lot_active (with_clear _ _ _)), (lot_active (auction_at _ _)) by (unfold active; auto). cbn. case_decide; lia.
  - destruct Hv. rewrite (lot_inactive (unfilled _ _)) by (by intros []). rewrite (lot_active (auction_at _ _)) by by right.
    case_decide; lia.
  - destruct Hv. assert (lot (filled r (auction_at id st)) = 0%Z) as -> by (apply lot_inactive; unfold active; cbn; naive_solver).
    change (auction_at id (set_escrow id (r_winner r) 0 st)) with (auction_at id st).
    rewrite (lot_active (auction_at _ _)) by by right. rewrite paid_out_payouts, He. repeat case_decide; lia.
  - rewrite (lot_inactive (with_state _ _)) by (by intros []). rewrite (lot_active (auction_at _ _)) by done.
    case_decide; lia.
  - case_decide; lia.
Qed.

(** *** Every effect keeps the storage well-formed *)

Lemma wf_set_auction id a st :
  wf st → (1 ≤ id < nextAuctionId st)%Z → wf_auction a →
  (∀ b, auctions st !! id = Some b → maxQuoteAmount a = maxQuoteAmount b) → wf (set_auction id a st).
Proof using.
  intros [Hn Ha He] Hi Hwa Hq. split; cbn; [done|..].
  - intros i b [[<- <-]|[_ Hb]]%lookup_insert_Some; [done|by apply Ha].
  - intros i b x Hx. destruct (He i b x Hx) as (a' & Ha' & Hx').
    destruct (decide (i = id)) as [->|Hne]; [|exists a'; by rewrite lookup_insert_ne].
    exists a. rewrite lookup_insert_eq, (Hq a' Ha'). done.
Qed.
Lemma wf_set_escrow id b x st a :
  wf st → auctions st !! id = Some a → x = 0%Z ∨ x = maxQuoteAmount a → wf (set_escrow id b x st).
Proof using.
  intros [Hn Ha He] Hid Hx. split; cbn; [done..|].
  intros i b' y [[[= <- <-] <-]|[_ Hy]]%lookup_insert_Some; [by exists a|by eapply He].
Qed.
Lemma wf_same st st' : same st st' → wf st → wf st'.
Proof using. intros -> [Hn Ha He]. by split. Qed.

(** An auction that takes one step stays well-formed. *)
Lemma wf_step id a' st :
  wf st → state (auction_at id st) ≠ StateNone → wf_auction a' → maxQuoteAmount a' = maxQuoteAmount (auction_at id st) →
  wf (set_auction id a' st).
Proof using.
  intros Hw Hs%auction_found Ha Hq. destruct (wf_auctions st Hw _ _ Hs) as [Hi _].
  apply wf_set_auction; [done..|]. intros b Hb. congruence.
Qed.

Lemma scale_floor x : (1 ≤ x → 1 ≤ (x - 1) / PRICE_SCALE + 1)%Z.
Proof using. intros ?. assert (0 ≤ (x - 1) / PRICE_SCALE)%Z by (apply Z.div_pos; unfold PRICE_SCALE; lia). lia. Qed.
Lemma quote_for_pos base price : (1 ≤ base)%Z → (1 ≤ price)%Z → (1 ≤ quote_for base price)%Z.
Proof using. intros ? ?. apply scale_floor. nia. Qed.
Lemma quote_for_mono base p q : (0 ≤ base)%Z → (p ≤ q)%Z → (quote_for base p ≤ quote_for base q)%Z.
Proof using.
  intros ? ?. unfold quote_for.
  assert ((base * p - 1) / PRICE_SCALE ≤ (base * q - 1) / PRICE_SCALE)%Z by (apply Z.div_le_mono; unfold PRICE_SCALE; nia).
  lia.
Qed.

Lemma wf_created sender tee base floor ceiling bidDl settleDl :
  is_address sender → tee ≠ 0%Z → (1 ≤ base ≤ MAX_COMPONENT)%Z → (1 ≤ floor ≤ ceiling)%Z →
  (ceiling ≤ MAX_COMPONENT)%Z → (bidDl < settleDl)%Z → wf_auction (created sender tee base floor ceiling bidDl settleDl).
Proof using. intros. split; cbn; try done; by left; left. Qed.

Lemma wf_unsold a (x : AuctionState) :
  wf_auction a → state a ≠ Settled → x ≠ Settled → x ≠ StateNone → wf_auction (with_state x a).
Proof using.
  intros [] Hs Hn Ht. split; cbn; try done; [|by intros _; auto].
  unfold active, terminal. cbn. destruct x; naive_solver.
Qed.
Lemma wf_counts_ a n m : wf_auction a → state a ≠ Settled → wf_auction (with_counts n m a).
Proof using. intros [] Hs. by split. Qed.
Lemma wf_instr a instr (x : AuctionState) : wf_auction (with_state x a) → x ≠ Settled → wf_auction (with_clear instr x a).
Proof using. intros [] Hs. by split. Qed.

Lemma wf_filled id r signature now a :
  wf_auction a → verified now id r signature a → has_winner r a → is_uint 256 (r_eligibleBidCount r) →
  wf_auction (filled r a).
Proof using.
  intros [] [] (Hw & Hp & _ & _ & He) [Hr _]. split; cbn; try done; [by right; left|]. intros _. split_and!; try done; lia.
Qed.

(** The auctions a call leaves behind are well-formed, and so are the escrows. *)
Lemma effect_wf now sender st c δ st1 :
  wf st → is_address sender → well_typed c → effect now sender st c δ st1 → wf st1.
Proof using.
  intros Hw Hsd Hc H.
  destruct H as [x|base floor ceiling bidDl settleDl tee Hn Hb Hf Hcl Hd Ht|value id bid Hs Hd Hlen He|value id bid|
    value id instr Hs Hd|id r sg Hv Hn|id r sg Hv Hh He|id Ha Hd|id Ha He].
  - by destruct Hw.
  - apply wf_set_auction; cbn; [| |apply wf_created; try done; lia|].
    + destruct Hw as [[Hu H1] Ha He]. split; cbn; [split; [done|lia]| |done].
      intros i a Hi. destruct (Ha i a Hi). split; [lia|done].
    + destruct Hw as [[Hu H1] Ha He]. lia.
    + by rewrite (next_unused st Hw).
  - apply (wf_set_escrow _ _ _ _ (auction_at id st)); [done| |by right]. apply auction_found. by rewrite Hs.
  - done.
  - assert (state (auction_at id st) ≠ StateNone) as Hne by by rewrite Hs.
    apply wf_step; [done..| |done]. apply wf_instr; [|done]. apply wf_unsold; [by apply wf_at|by rewrite Hs|done..].
  - destruct Hv as [Hs]. assert (state (auction_at id st) ≠ StateNone) as Hne by by rewrite Hs.
    apply wf_step; [done..| |done]. apply wf_unsold; [|cbn; by rewrite Hs|done..].
    apply wf_counts_; [by apply wf_at|by rewrite Hs].
  - pose proof (v_state _ _ _ _ _ Hv) as Hs. assert (state (auction_at id st) ≠ StateNone) as Hne by by rewrite Hs.
    apply wf_step; [|done| |done].
    + apply (wf_set_escrow _ _ _ _ (auction_at id st)); [done| |by left]. by apply auction_found.
    + eapply wf_filled; [by apply wf_at|done|done|].
      cbn in Hc. apply Is_true_true, bool_decide_eq_true in Hc. naive_solver.
  - assert (state (auction_at id st) ≠ StateNone ∧ state (auction_at id st) ≠ Settled) as [Hne Hns].
    { destruct Ha as [->| ->]; done. }
    apply wf_step; [done..| |done]. by apply wf_unsold; [apply wf_at|..].
  - apply (wf_set_escrow _ _ _ _ (auction_at id st)); [done| |by left]. apply auction_found.
    destruct Ha as [->|[->| ->]]; done.
Qed.

(** *** Every effect is a step of each auction's life *)

(** How one bidder's escrow in an auction may change when the auction goes from
    [a] to [a']: paid in once, before the deadline; spent by winning; or taken
    back when all is over. *)
Inductive escrow_moves (now : Z) (sender : address) (a a' : Auction) (b : address) (x : Z) : Z → Prop :=
  | escrow_stays : escrow_moves now sender a a' b x x
  | escrow_deposit :
      state a = Open → (now < bidDeadline a)%Z → b = sender → x = 0%Z → escrow_moves now sender a a' b x (maxQuoteAmount a)
  | escrow_spent :
      state a = ClearRequested → state a' = Settled → winner a' = b → x = maxQuoteAmount a →
      escrow_moves now sender a a' b x 0%Z
  | escrow_refund : terminal a → a' = a → b = sender → x ≠ 0%Z → escrow_moves now sender a a' b x 0%Z.

Definition opened (sender : address) (c : call) (a' : Auction) : Prop :=
  ∃ base floor ceiling bidDl settleDl tee, c = CallCreateAuction base floor ceiling bidDl settleDl ∧
    a' = created sender tee base floor ceiling bidDl settleDl.

Lemma auction_at_insert i id a st : auction_at i (set_auction id a st) = if decide (i = id) then a else auction_at i st.
Proof using.
  unfold auction_at. cbn. case_decide as Hi; [by subst; rewrite lookup_insert_eq|by rewrite lookup_insert_ne].
Qed.
Lemma escrow_at_insert i b id c x st :
  escrow_at i b (set_escrow id c x st) = if decide (i = id ∧ b = c) then x else escrow_at i b st.
Proof using.
  unfold escrow_at. cbn. case_decide as Hi; [destruct Hi; subst; by rewrite lookup_insert_eq|].
  rewrite lookup_insert_ne; [done|]. naive_solver.
Qed.

Lemma escrow_at_auction i b id a st : escrow_at i b (set_auction id a st) = escrow_at i b st.
Proof using. done. Qed.

Lemma effect_lifecycle now sender st c δ st1 i :
  wf st → effect now sender st c δ st1 →
  let a := auction_at i st in let a' := auction_at i st1 in
  (moves now a a' ∨ a = zero_auction ∧ opened sender c a') ∧
  ∀ b, escrow_moves now sender a a' b (escrow_at i b st) (escrow_at i b st1).
Proof using.
  intros Hw H.
  destruct H as [x|base floor ceiling bidDl settleDl tee Hn Hb Hf Hcl Hd Ht|value id bid Hs Hd Hlen He|value id bid|
    value id instr Hs Hd|id r sg Hv Hn|id r sg Hv Hh He|id Ha Hd|id Ha He];
    cbv zeta; rewrite ?auction_at_insert;
    try (split; [try case_decide; subst; left; by constructor|intros b; try by constructor]).
  - split; [|intros b; constructor]. case_decide as Hi; [subst|by left; constructor]. right.
    unfold auction_at. rewrite (next_unused st Hw). split; [done|]. by exists base, floor, ceiling, bidDl, settleDl, tee.
  - rewrite escrow_at_insert. case_decide as Hi; [destruct Hi; subst|constructor]. by apply escrow_deposit.
  - destruct Hv. split; [|intros b; constructor]. case_decide; subst; left; by constructor.
  - destruct Hv. split; [case_decide; subst; left; by constructor|]. intros b.
    rewrite escrow_at_auction, escrow_at_insert.
    destruct (decide (i = id ∧ b = r_winner r)) as [[-> ->]|_]; [|constructor].
    rewrite decide_True by done. by apply escrow_spent.
  - rewrite escrow_at_insert. case_decide as Hi; [destruct Hi; subst|constructor]. by apply escrow_refund.
Qed.
End effects.
