(* ===== verification/AuctionProps.v ===== *)
(** * What the auction contract guarantees

    Solvency, the auctions' life cycle, what a settlement is, and that money can
    always be taken out, from every state the contract can reach. *)

From S2P Require Import Prelude GoStrings Evm AuctionContract AuctionSafety.
From stdpp Require Import options.
Set Default Proof Using "Type*".

Section props.
Context {W : Type} `{Dep : !Deployment W, Laws : !TokenLaws W}.
Local Abbreviation T := (T Storage W event contract_error).
Local Abbreviation sys := (sys Storage W event).
Implicit Types s : sys.

(** ** The invariant *)

Record auction_inv s : Prop := {
  inv_unlocked : unlocked (storage s);
  inv_wf : wf (storage s);
  inv_solvent : solvent s;
  inv_sound : sound (world s);
}.

Lemma effect_inv now sender c δ st1 s s' :
  auction_inv s → is_address sender → well_typed c → effect now sender (storage s) c δ st1 →
  same st1 (storage s') → unlocked (storage s') → moved δ s s' → auction_inv s'.
Proof using.
  intros [Hu Hw Hv Hso] Hsd Hc He Hsame Hu' [Hm Hs]. split; [done|..|auto].
  - apply (wf_same _ _ Hsame). by eapply effect_wf.
  - intros t. rewrite (owed_same _ _ _ Hsame). pose proof (effect_owed _ _ _ _ _ _ t Hw He).
    specialize (Hv t). specialize (Hm t). lia.
Qed.

Lemma execute_typed depth now sender c s u s' : execute depth now sender c s = inl (u, s') → well_typed c.
Proof using.
  destruct depth; [discriminate|]. cbn [execute]. intros H. t_step H. apply negb_false_iff in E. by apply Is_true_true.
Qed.

Lemma call_inv depth now sender c s u s' :
  auction_inv s → is_address sender → sender ≠ this → execute depth now sender c s = inl (u, s') → auction_inv s'.
Proof.
  intros Hi Hsd Hs H. destruct (execute_effect _ _ _ _ _ _ _ (inv_wf _ Hi) (inv_unlocked _ Hi) Hs H)
    as (δ & st1 & He & Hsame & Hu & Hm). eapply effect_inv; try done. by eapply execute_typed.
Qed.

Lemma deployed_inv s : deployed s → sound (world s) → (∀ t, 0 ≤ balance t this (world s))%Z → auction_inv s.
Proof using.
  intros (code & reg & mach & H) Hso Hb. unfold constructor in H. repeat case_match; try discriminate.
  injection H as Hst. split; rewrite <- ?Hst; [done| |intros t|done].
  - by split; cbn; [|intros i a; rewrite lookup_empty|intros i b x; rewrite lookup_empty].
  - rewrite <- Hst. specialize (Hb t). unfold owed, owed_base, owed_quote. cbn. rewrite !total_empty.
    repeat case_decide; lia.
Qed.

Lemma reachable_inv s : auction_reachable s → auction_inv s.
Proof.
  intros (s0 & Hd & Hso & Hb & Hs). apply deployed_inv in Hd; [|done..]. clear Hb Hso.
  induction Hs as [s|s s1 s' Hstep Hs IH]; [done|]. apply IH. destruct Hstep as [depth now sender c s1 Hsd Hn H|w' Hb Hso].
  - by eapply call_inv.
  - destruct Hd as [Hu Hw Hv _]. split; [done..| |done]. intros t. specialize (Hv t). specialize (Hb t). cbn in *. lia.
Qed.

Lemma reachable_call depth now sender c s s' :
  auction_reachable s → is_address sender → sender ≠ this → execute depth now sender c s = inl (tt, s') →
  auction_reachable s'.
Proof using.
  intros (s0 & Hd & Hso & Hb & Hs) Hsd Hn H. exists s0. split_and!; try done. eapply rtc_r; [done|by eapply happens_call].
Qed.

(** ** Calls that go through *)

Lemma nonReentrant_run (body : T unit) s v s1 :
  unlocked (storage s) → body (update (set_entered 2) s) = inl (v, s1) →
  nonReentrant body s = inl (tt, update (set_entered 1) s1).
Proof using.
  intros Hu Hb. unfold nonReentrant. unfold mbind, T_bind. cbn. unfold revert_if. rewrite bool_decide_eq_false_2 by tauto.
  unfold update in Hb. cbn. by rewrite Hb.
Qed.

Lemma external_run {R} depth now failed (callee : Storage → W → reply Storage W call R) s :
  locked (storage s) →
  (∀ d st' w', answers same (callee (storage s) (world s)) (storage s) (world s) d st' w' → is_Some d) →
  ∃ d s', external (execute depth now) failed callee s = inl (d, s') ∧
    answers same (callee (storage s) (world s)) (storage s) (world s) (Some d) (storage s') (world s').
Proof using.
  intros Hl Hd. unfold external.
  pose proof (run_reply_answers same locked (execute depth now) (callee (storage s) (world s)) s _
    (execute_respects depth now) same_locked Hl) as Ha.
  destruct (run_reply _ _ s) as [d s1]. destruct Ha as (Ha & _ & _). destruct (Hd _ _ _ Ha) as [d' ->].
  by exists d', s1.
Qed.

Lemma transfer_run `{!TokenPays W} depth now token to amount s :
  token = BASE_TOKEN ∨ token = QUOTE_TOKEN →
  locked (storage s) → sound (world s) → (0 ≤ amount ≤ balance token this (world s))%Z →
  ∃ s', _safeTransfer (execute depth now) token to amount s = inl (tt, s') ∧
    called token (Transfer to amount) s s' ∧ same (storage s) (storage s').
Proof.
  intros Ht Hl Hso Ha. unfold _safeTransfer, _safe_call.
  destruct (external_run depth now SafeTransferFailed (token_call token (Transfer to amount)) s Hl) as (d & s' & Hr & Hans).
  { intros d st' w' Hans. destruct (transfer_pays _ _ _ _ _ _ _ _ Ht Hso Ha Hans) as (data & -> & _). done. }
  destruct (transfer_pays _ _ _ _ _ _ _ _ Ht Hso Ha Hans) as (data & [= <-] & Hacc).
  exists s'. rewrite (T_bind_run _ _ _ _ _ Hr). split; [|split; [by exists d|]].
  - case_decide as Hlen; [done|]. destruct Hacc as [|Hdec]; [done|]. by rewrite Hdec.
  - by apply external_inv in Hr as (_ & ? & _); [|apply execute_respects|].
Qed.

Lemma wf_quote_pos a : wf_auction a → (1 ≤ maxQuoteAmount a)%Z.
Proof using. intros Ha. rewrite (wf_quote a Ha). destruct Ha. apply quote_for_pos; lia. Qed.
Lemma escrow_nonneg st k x : wf st → quoteEscrow st !! k = Some x → (0 ≤ x)%Z.
Proof using.
  intros Hw Hx. destruct k as [i b]. apply (wf_escrow st Hw) in Hx as (a & Ha & Hx).
  apply (wf_auctions st Hw) in Ha as [_ Ha%wf_quote_pos]. lia.
Qed.
Lemma lot_nonneg st i a : wf st → auctions st !! i = Some a → (0 ≤ lot a)%Z.
Proof using. intros Hw Ha. apply (wf_auctions st Hw) in Ha as [_ []]. unfold lot. case_decide; lia. Qed.
Lemma owed_nonneg st : wf st → (0 ≤ owed_base st)%Z ∧ (0 ≤ owed_quote st)%Z.
Proof using.
  intros Hw. split; apply total_nonneg.
  - intros i a. by apply lot_nonneg.
  - intros k x. by apply escrow_nonneg.
Qed.
Lemma owed_covers_lot s i :
  auction_inv s → active (auction_at i (storage s)) →
  (0 ≤ baseAmount (auction_at i (storage s)) ≤ balance BASE_TOKEN this (world s))%Z.
Proof using.
  intros [_ Hw Hv _] Ha. destruct (owed_nonneg _ Hw) as [_ Hq].
  assert (auctions (storage s) !! i = Some (auction_at i (storage s))) as Hi.
  { apply auction_found. destruct Ha as [->| ->]; done. }
  destruct (wf_auctions _ Hw _ _ Hi) as [_ []]. split; [lia|].
  specialize (Hv BASE_TOKEN). unfold owed in Hv. rewrite decide_True in Hv by done.
  assert (lot (auction_at i (storage s)) ≤ owed_base (storage s))%Z as Hl.
  { apply (total_at_least lot _ i); [|done]. intros k a. by apply lot_nonneg. }
  rewrite lot_active in Hl by done. case_decide; lia.
Qed.
Lemma owed_covers_escrow s i b :
  auction_inv s → (escrow_at i b (storage s) ≠ 0)%Z →
  (1 ≤ escrow_at i b (storage s) ≤ balance QUOTE_TOKEN this (world s))%Z ∧
  auctions (storage s) !! i = Some (auction_at i (storage s)) ∧
  escrow_at i b (storage s) = maxQuoteAmount (auction_at i (storage s)).
Proof using.
  intros [_ Hw Hv _] Hx. destruct (owed_nonneg _ Hw) as [Hb _]. unfold escrow_at in *.
  destruct (quoteEscrow (storage s) !! (i, b)) as [x|] eqn:Hib; [|done]. cbn in *.
  destruct (wf_escrow _ Hw _ _ _ Hib) as (a & Ha & [->|Hxa]); [done|].
  unfold auction_at. rewrite Ha. split; [|done].
  apply (wf_auctions _ Hw) in Ha as [_ Ha%wf_quote_pos]. split; [lia|]. specialize (Hv QUOTE_TOKEN). unfold owed in Hv. rewrite (decide_True (P := QUOTE_TOKEN = QUOTE_TOKEN)) in Hv by done.
  assert (x ≤ owed_quote (storage s))%Z; [|case_decide; lia].
  apply (total_at_least (@id Z) _ (i, b)); [|done]. intros k y. by apply escrow_nonneg.
Qed.

Lemma known_uint st i : wf st → state (auction_at i st) ≠ StateNone → is_uint 256 i.
Proof using.
  intros Hw Hi%auction_found. destruct (wf_auctions _ Hw _ _ Hi) as [Hi' _].
  destruct (wf_next _ Hw) as [[_ Hn] _]. unfold is_uint in *. lia.
Qed.

Lemma cancel_run `{!TokenPays W} depth now sender i s :
  auction_inv s → active (auction_at i (storage s)) → (settleDeadline (auction_at i (storage s)) < now)%Z →
  ∃ s', execute (S depth) now sender (CallCancelTimedOutAuction i) s = inl (tt, s').
Proof.
  intros Hi Ha Hd. set (a := auction_at i (storage s)) in *.
  pose proof (owed_covers_lot s i Hi Ha) as Hb. destruct Hi as [Hu Hw _ Hso].
  assert (is_uint 256 i) as Hid by (eapply known_uint; [done|]; fold a; destruct Ha as [->| ->]; done).
  destruct (transfer_run depth now BASE_TOKEN (seller a) (baseAmount a)
    (update (set_auction i (with_state Cancelled a)) (update (set_entered 2) s))) as (s1 & Hr & _); [by auto|done..|].
  cbn [execute well_typed]. rewrite bool_decide_eq_true_2 by done. cbn.
  eexists. eapply (nonReentrant_run _ _ tt); [done|].
  unfold read, revert_if, write, mbind, T_bind. cbn. fold a. change (auction_at i (set_entered 2 (storage s))) with a.
  rewrite bool_decide_eq_false_2 by (destruct Ha as [->| ->]; naive_solver).
  cbn. rewrite bool_decide_eq_false_2 by lia. unfold update in Hr. cbn in *. by rewrite Hr.
Qed.

Lemma withdraw_run `{!TokenPays W} depth now b i s :
  auction_inv s → terminal (auction_at i (storage s)) → escrow_at i b (storage s) ≠ 0%Z →
  ∃ s', execute (S depth) now b (CallWithdrawQuote i) s = inl (tt, s').
Proof.
  intros Hi Ha Hx. set (a := auction_at i (storage s)) in *.
  destruct (owed_covers_escrow s i b Hi Hx) as (Hb & _ & _). destruct Hi as [Hu Hw _ Hso].
  assert (is_uint 256 i) as Hid by (eapply known_uint; [done|]; fold a; destruct Ha as [->|[->| ->]]; done).
  destruct (transfer_run depth now QUOTE_TOKEN b (escrow_at i b (storage s))
    (update (set_escrow i b 0) (update (set_entered 2) s))) as (s1 & Hr & _); [by auto|done|done|cbn; lia|].
  cbn [execute well_typed]. rewrite bool_decide_eq_true_2 by done. cbn.
  eexists. eapply (nonReentrant_run _ _ tt); [done|].
  unfold read, revert_if, write, mbind, T_bind. cbn. change (auction_at i (set_entered 2 (storage s))) with a.
  change (escrow_at i b (set_entered 2 (storage s))) with (escrow_at i b (storage s)).
  rewrite bool_decide_eq_false_2 by (destruct Ha as [->|[->| ->]]; naive_solver).
  cbn. rewrite bool_decide_eq_false_2 by done. unfold update in Hr. cbn in *. by rewrite Hr.
Qed.

(** *** Settling goes through *)

Lemma owed_covers_both s i b :
  auction_inv s → active (auction_at i (storage s)) → escrow_at i b (storage s) ≠ 0%Z → ∀ t,
  ((if decide (t = BASE_TOKEN) then baseAmount (auction_at i (storage s)) else 0) +
   (if decide (t = QUOTE_TOKEN) then escrow_at i b (storage s) else 0) ≤ balance t this (world s))%Z.
Proof using.
  intros Hi Ha Hx t. destruct (owed_covers_escrow s i b Hi Hx) as (_ & Hai & _). destruct Hi as [_ Hw Hv _].
  specialize (Hv t). unfold owed in Hv. unfold escrow_at in *.
  destruct (quoteEscrow (storage s) !! (i, b)) as [x|] eqn:Hib; [|done]. cbn in *.
  assert (x ≤ owed_quote (storage s))%Z as Hq.
  { apply (total_at_least (@id Z) _ (i, b)); [|done]. intros k y. by apply escrow_nonneg. }
  assert (lot (auction_at i (storage s)) ≤ owed_base (storage s))%Z as Hl.
  { apply (total_at_least lot _ i); [|done]. intros k a. by apply lot_nonneg. }
  rewrite lot_active in Hl by done. repeat case_decide; lia.
Qed.

(** A balance that covers a transfer and more covers the rest afterwards. *)
Definition covers (δ : address → Z) s : Prop := ∀ t, (0 ≤ δ t ≤ balance t this (world s))%Z.
Lemma covered_transfer `{!TokenPays W} depth now token to amount δ s :
  token = BASE_TOKEN ∨ token = QUOTE_TOKEN →
  locked (storage s) → sound (world s) → (0 ≤ amount)%Z → (∀ t, 0 ≤ δ t)%Z →
  covers (λ t, (if decide (t = token) then amount else 0) + δ t)%Z s →
  ∃ s', _safeTransfer (execute depth now) token to amount s = inl (tt, s') ∧ same (storage s) (storage s') ∧
    locked (storage s') ∧ sound (world s') ∧ covers δ s'.
Proof.
  intros Htk Hl Hso Ha Hd Hc. destruct (transfer_run depth now token to amount s Htk Hl Hso) as (s' & Hr & Hcall & Hs).
  { specialize (Hc token). specialize (Hd token). cbv beta in Hc. rewrite decide_True in Hc by done. lia. }
  exists s'. split_and!; try done; [by eapply locked_same|by eapply called_sound|].
  intros t. specialize (Hc t). specialize (Hd t). cbv beta in Hc. apply transfer_out in Hcall as [H1 H2].
  case_decide as Ht; [subst; lia|]. specialize (H2 t Ht). lia.
Qed.

Lemma signed_run digest signature signer s :
  recovers digest signature signer → _recover digest signature s = inl (signer, s).
Proof using. by intros H. Qed.

Lemma quote_run base price s :
  (1 ≤ base ≤ MAX_COMPONENT)%Z → (1 ≤ price ≤ MAX_COMPONENT)%Z →
  _quoteFor base price s = inl (quote_for base price, s).
Proof using.
  intros Hb Hp. unfold _quoteFor, checked, mbind, T_bind.
  assert (is_uint 256 (base * price)) as Hu.
  { split; [nia|]. apply Z.le_lt_trans with (MAX_COMPONENT * MAX_COMPONENT)%Z; [nia|done]. }
  rewrite decide_True by done. cbn. rewrite decide_False by nia. done.
Qed.

(** Running a computation forwards, guard by guard. *)
Lemma T_bind_fwd {A B} (m : T A) (k : A → T B) s a s1 b s' :
  m s = inl (a, s1) → k a s1 = inl (b, s') → (m ≫= k) s = inl (b, s').
Proof using. intros Hm Hk. by rewrite (T_bind_run _ _ _ _ _ Hm). Qed.
Lemma revert_if_run b e s : b = false → revert_if b e s = inl (tt, s) :> (unit * sys) + contract_error.
Proof using. by intros ->. Qed.
Lemma digest_run i r s :
  clearInstructionId (auction_at i (storage s)) ≠ zero32 →
  teeClearDigest i r s = inl (action_digest (abi_clear_result r) (clearInstructionId (auction_at i (storage s))), s).
Proof using.
  intros Hi. unfold teeClearDigest. eapply T_bind_fwd; [done|]. eapply T_bind_fwd; [|done].
  apply revert_if_run. by rewrite bool_decide_eq_false_2.
Qed.
Ltac no_guard := eapply T_bind_fwd; [apply revert_if_run; rewrite ?bool_decide_eq_false_2 by (first [done|tauto|lia]); done|].
Ltac no_step := eapply T_bind_fwd; [done|].

Lemma settle_verified depth now sender i r signature s v s1 :
  let a := auction_at i (storage s) in
  let a1 := with_counts (r_submittedBidCount r) (r_eligibleBidCount r) a in
  unlocked (storage s) → well_typed (CallSettleAuction i r signature) → verified now i r signature a →
  settleResult (execute depth now) i r a1 (storage s) (update (set_auction i a1) (update (set_entered 2) s)) = inl (v, s1) →
  execute (S depth) now sender (CallSettleAuction i r signature) s = inl (tt, update (set_entered 1) s1).
Proof using.
  intros a a1 Hu Hty [Hst Hti Hco Hau Hcn Hin Hsg] Hrest. cbn [execute]. apply Is_true_true in Hty. rewrite Hty.
  eapply T_bind_fwd; [done|]. apply (nonReentrant_run _ _ v); [done|]. no_step.
  change (auction_at i (storage (update (set_entered 2) s))) with a. do 3 no_guard.
  eapply T_bind_fwd; [by apply digest_run|]. eapply T_bind_fwd; [by apply signed_run|]. no_guard. no_step. exact Hrest.
Qed.

Lemma settle_nofill_run `{!TokenPays W} depth now sender i r signature s :
  auction_inv s → well_typed (CallSettleAuction i r signature) →
  verified now i r signature (auction_at i (storage s)) → no_winner r →
  ∃ s', execute (S depth) now sender (CallSettleAuction i r signature) s = inl (tt, s').
Proof.
  intros Hi Hty Hv (Hw & Hp & Hn & Hcm & He). set (a := auction_at i (storage s)) in *.
  assert (active a) as Ha by (right; apply Hv). pose proof (owed_covers_lot s i Hi Ha) as Hb. fold a in Hb.
  set (a1 := with_counts (r_submittedBidCount r) (r_eligibleBidCount r) a).
  destruct (transfer_run depth now BASE_TOKEN (seller a) (baseAmount a)
    (update (set_auction i (with_state NoFill a1)) (update (set_auction i a1) (update (set_entered 2) s))))
    as (s1 & Hr & _); [by auto|done|apply Hi|done|].
  eexists. eapply settle_verified; [apply Hi|done|done|]. fold a a1. unfold settleResult. rewrite decide_True by done.
  no_guard. no_step. eapply T_bind_fwd; [exact Hr|]. done.
Qed.

Lemma refund_uint a paid :
  wf_auction a → (1 ≤ paid ≤ maxQuoteAmount a)%Z → is_uint 256 (maxQuoteAmount a - paid).
Proof using.
  intros Ha Hp. split; [lia|]. rewrite (wf_quote a Ha) in *. destruct Ha. unfold quote_for in *.
  assert (baseAmount a * ceilingPriceWei a ≤ MAX_COMPONENT * MAX_COMPONENT)%Z by nia.
  assert ((baseAmount a * ceilingPriceWei a - 1) / PRICE_SCALE ≤ baseAmount a * ceilingPriceWei a - 1)%Z
    by (apply Z.div_le_upper_bound; unfold PRICE_SCALE; nia).
  apply Z.lt_trans with (MAX_COMPONENT * MAX_COMPONENT + 1)%Z; [lia|done].
Qed.

Lemma settle_fill_run `{!TokenPays W} depth now sender i r signature s :
  auction_inv s → well_typed (CallSettleAuction i r signature) →
  let a := auction_at i (storage s) in
  verified now i r signature a → has_winner r a → escrow_at i (r_winner r) (storage s) = maxQuoteAmount a →
  ∃ s', execute (S depth) now sender (CallSettleAuction i r signature) s = inl (tt, s').
Proof.
  intros Hi Hty a Hv (Hw & Hp & Hn & Hcm & He) Hx.
  assert (state a = ClearRequested) as Hst by apply Hv. assert (active a) as Ha by by right.
  assert (wf_auction a) as Hwa by (apply wf_at; [apply Hi|by fold a; rewrite Hst]). pose proof (wf_quote_pos a Hwa) as Hq.
  pose proof (owed_covers_both s i (r_winner r) Hi Ha ltac:(lia)) as Hcov. fold a in Hcov. rewrite Hx in Hcov.
  set (a1 := with_counts (r_submittedBidCount r) (r_eligibleBidCount r) a).
  set (paid := quote_for (baseAmount a) (r_unitPriceWei r)).
  assert (1 ≤ paid ≤ maxQuoteAmount a)%Z as Hpaid.
  { rewrite (wf_quote a Hwa). destruct Hwa. split; [apply quote_for_pos; lia|apply quote_for_mono; lia]. }
  assert (wf_auction a) as [_ _ _ Hb Hf Hc _ _ _ _] by done.
  set (s0 := update (set_auction i (with_state Settled (with_fill (r_winner r) (r_unitPriceWei r) paid a1)))
    (update (set_escrow i (r_winner r) 0) (update (set_auction i a1) (update (set_entered 2) s)))).
  destruct (covered_transfer depth now BASE_TOKEN (r_winner r) (baseAmount a)
    (λ t, if decide (t = QUOTE_TOKEN) then maxQuoteAmount a else 0)%Z s0) as (s1 & Hr1 & Hs1 & Hl1 & Hso1 & Hc1);
    [by auto|done|apply Hi|lia|intros t; case_decide; lia|intros t; specialize (Hcov t); cbn; repeat case_decide; lia|].
  destruct (covered_transfer depth now QUOTE_TOKEN (seller (auction_at i (storage s1))) paid
    (λ t, if decide (t = QUOTE_TOKEN) then maxQuoteAmount a - paid else 0)%Z s1) as (s2 & Hr2 & Hs2 & Hl2 & Hso2 & Hc2);
    [by auto|done|done|lia|intros t; case_decide; lia|intros t; specialize (Hc1 t); cbv beta in *; repeat case_decide; lia|].
  destruct (covered_transfer depth now QUOTE_TOKEN (r_winner r) (maxQuoteAmount a - paid) (λ t, 0)%Z s2)
    as (s3 & Hr3 & _);
    [by auto|done|done|lia|done|intros t; specialize (Hc2 t); cbv beta in *; repeat case_decide; lia|].
  assert (∃ s4, settleResult (execute depth now) i r a1 (storage s) (update (set_auction i a1) (update (set_entered 2) s)) =
    inl (tt, s4)) as [s4 Hrest]; [|eexists; eapply settle_verified; [apply Hi|done|done|exact Hrest]].
  eexists. unfold settleResult. rewrite decide_False by done.
  eapply T_bind_fwd; [apply revert_if_run; cbn; rewrite !bool_decide_eq_false_2 by (first [done|lia]); done|]. no_guard.
  eapply T_bind_fwd; [apply quote_run; cbn; lia|].
  change (maxQuoteAmount a1 - quote_for (baseAmount a1) (r_unitPriceWei r))%Z with (maxQuoteAmount a - paid)%Z.
  eapply T_bind_fwd; [unfold checked; rewrite decide_True by (by apply refund_uint); done|].
  do 2 no_step. eapply T_bind_fwd; [exact Hr1|]. no_step. eapply T_bind_fwd; [exact Hr2|].
  eapply T_bind_fwd; [|done]. instantiate (1 := if decide (maxQuoteAmount a - paid ≠ 0)%Z then s3 else s2).
  instantiate (1 := tt). by case_decide.
Qed.

Lemma withdraw_pays `{!TokenPays W} depth now b i s :
  auction_inv s → terminal (auction_at i (storage s)) → escrow_at i b (storage s) ≠ 0%Z →
  ∃ s', execute (S depth) now b (CallWithdrawQuote i) s = inl (tt, s') ∧
    pays [(QUOTE_TOKEN, b, maxQuoteAmount (auction_at i (storage s)))] (world s) (world s') ∧
    escrow_at i b (storage s') = 0%Z.
Proof.
  intros Hi Ha Hx. destruct (withdraw_run depth now b i s Hi Ha Hx) as [s' H]. exists s'. split; [done|].
  cbn [execute] in H. t_step H. apply withdraw_inv in H as (_ & _ & _ & _ & Hs & Hp); [|apply execute_respects].
  destruct (owed_covers_escrow s i b Hi Hx) as (_ & _ & Heq). split; [by rewrite <- Heq|].
  rewrite Hs. change (escrow_at i b (set_escrow i b 0 (storage s)) = 0%Z). rewrite escrow_at_insert.
  by rewrite decide_True.
Qed.

(** ** Properties *)

(** C1: whatever the called contracts do before they return, and in whatever
    order anyone calls, the auction contract is never left locked, its auctions
    and escrows stay well-formed (an escrow is zero or exactly the auction's
    ceiling amount), and its balance of each token covers every lot still on
    offer and every escrow not yet paid out. *)
Theorem auction_solvent s :
  auction_reachable s → unlocked (storage s) ∧ wf (storage s) ∧ solvent s.
Proof. by intros [? ? ? ?]%reachable_inv. Qed.

(** C7: the life of an auction.  A successful call moves each auction at most one
    step forward inside the windows its deadlines set, never changing its terms,
    its seller or its pinned TEE; and it changes a bidder's escrow only by a
    deposit of the ceiling amount before the bid deadline, by winning, or by a
    refund to its owner once the auction is over. *)
Theorem auction_lifecycle depth now sender c s s' i :
  auction_reachable s → sender ≠ this → execute depth now sender c s = inl (tt, s') →
  let a := auction_at i (storage s) in let a' := auction_at i (storage s') in
  (moves now a a' ∨ a = zero_auction ∧ opened sender c a') ∧
  ∀ b, escrow_moves now sender a a' b (escrow_at i b (storage s)) (escrow_at i b (storage s')).
Proof.
  intros Hr%reachable_inv Hn H.
  destruct (execute_effect _ _ _ _ _ _ _ (inv_wf _ Hr) (inv_unlocked _ Hr) Hn H) as (δ & st1 & He & Hs & _).
  pose proof (effect_lifecycle _ _ _ _ _ _ i (inv_wf _ Hr) He) as Hl. cbv zeta in *.
  rewrite (auction_at_same _ _ _ Hs). by rewrite Hs.
Qed.

(** C5: what a settlement is.  It goes through only for a result that names this
    contract and this auction and carries a signature by the TEE pinned when the
    auction was created, over the chain, the clear instruction and the whole
    result.  Then either nobody won and the seller has the lot back, or the winner,
    who had escrowed the ceiling amount, has the lot, the seller has the price
    rounded up, and the winner has the rest of the escrow: together exactly what
    was escrowed. *)
Theorem settlement_authorised depth now sender i r signature s s' :
  auction_reachable s → sender ≠ this → execute depth now sender (CallSettleAuction i r signature) s = inl (tt, s') →
  let a := auction_at i (storage s) in let a' := auction_at i (storage s') in
  verified now i r signature a ∧
  ((no_winner r ∧ a' = unfilled r a ∧ pays [(BASE_TOKEN, seller a, baseAmount a)] (world s) (world s')) ∨
   (has_winner r a ∧ a' = filled r a ∧ pays (payouts r a) (world s) (world s') ∧
    escrow_at i (r_winner r) (storage s) = maxQuoteAmount a ∧ escrow_at i (r_winner r) (storage s') = 0%Z ∧
    (1 ≤ quotePaid a' ≤ maxQuoteAmount a)%Z ∧
    ∀ t, paid_out (payouts r a) t = (if decide (t = BASE_TOKEN) then baseAmount a else 0) +
                                    (if decide (t = QUOTE_TOKEN) then maxQuoteAmount a else 0))%Z).
Proof.
  intros Hr%reachable_inv Hn H. destruct depth as [|depth]; [discriminate|]. cbn [execute] in H. t_step H.
  assert (state (auction_at i (storage s)) = ClearRequested → wf_auction (auction_at i (storage s))) as Hw.
  { intros Hs. apply wf_at; [apply Hr|by rewrite Hs]. }
  apply settle_inv in H as (_ & _ & Hv & H); [|apply execute_respects|intros Hs; destruct (Hw Hs); lia].
  split; [done|]. specialize (Hw (v_state _ _ _ _ _ Hv)). destruct H as [(Hz & Hs & Hp)|(Hh & He & Hq & Hs & Hp)]; [left|right].
  - split_and!; try done. by rewrite (auction_at_same _ _ _ Hs), auction_at_set.
  - rewrite (auction_at_same _ _ _ Hs), auction_at_set. split_and!; try done; [| |].
    + rewrite Hs. change (escrow_at i (r_winner r) (set_escrow i (r_winner r) 0 (storage s)) = 0%Z).
      rewrite escrow_at_insert. by rewrite decide_True.
    + cbn. destruct Hw, Hh as (_ & ? & _). apply quote_for_pos; lia.
    + apply paid_out_payouts.
Qed.

(** C6: no money is ever stuck.  From any reachable state, once an auction's
    settlement deadline has passed, anyone can cancel it unless it is over
    already, which returns the lot to the seller; and after that each bidder with
    an escrow can withdraw exactly the ceiling amount paid in. *)
Theorem funds_recoverable `{!TokenPays W} depth now sender s i :
  auction_reachable s → is_address sender → sender ≠ this →
  let a := auction_at i (storage s) in
  state a ≠ StateNone → (settleDeadline a < now)%Z →
  ∃ s1, (if decide (active a) then execute (S depth) now sender (CallCancelTimedOutAuction i) s = inl (tt, s1) ∧
           pays [(BASE_TOKEN, seller a, baseAmount a)] (world s) (world s1)
         else s1 = s) ∧
    ∀ b, is_address b → b ≠ this → escrow_at i b (storage s) ≠ 0%Z →
      ∃ s2, execute (S depth) now b (CallWithdrawQuote i) s1 = inl (tt, s2) ∧
        pays [(QUOTE_TOKEN, b, maxQuoteAmount a)] (world s1) (world s2) ∧ escrow_at i b (storage s2) = 0%Z.
Proof.
  intros Hr Hsd Hn a Hst Hd. assert (auction_inv s) as Hi by by apply reachable_inv.
  case_decide as Ha.
  - destruct (cancel_run depth now sender i s Hi Ha Hd) as [s1 H]. exists s1.
    pose proof (call_inv _ _ _ _ _ _ _ Hi Hsd Hn H) as Hi1. pose proof H as H'. cbn [execute] in H'. t_step H'.
    apply cancel_inv in H' as (_ & _ & _ & _ & Hs & Hp); [|apply execute_respects].
    split; [done|]. intros b Hb Hbn Hx.
    assert (auction_at i (storage s1) = with_state Cancelled a) as Ha1.
    { rewrite (auction_at_same _ _ _ Hs). apply auction_at_set. }
    assert (escrow_at i b (storage s1) = escrow_at i b (storage s)) as Hx1 by by rewrite Hs.
    change (maxQuoteAmount a) with (maxQuoteAmount (with_state Cancelled a)). rewrite <- Ha1.
    apply withdraw_pays; [done| |congruence]. rewrite Ha1. by right; right.
  - exists s. split; [done|]. intros b Hb Hbn Hx. apply withdraw_pays; [done| |done].
    by destruct (wf_state _ (wf_at i _ (inv_wf _ Hi) Hst)).
Qed.
End props.
