(* ===== verification/EnclaveAbi.v ===== *)
(** * typescript/src/app/abi.ts: the enclave's messages

    The layouts of the messages and the functions that read and write them with
    viem's [decodeAbiParameters] and [encodeAbiParameters], which are parameters, as
    is its keccak256.  What is assumed of them is stated once, for all layouts. *)

From S2P Require Import Prelude GoStrings Evm Abi AuctionContract.
From stdpp Require Import options.
Set Default Proof Using "Type*".

(** ** viem *)

Class Viem := {
  decodeAbiParameters : abi_params → string → result (list abi_value);
  encodeAbiParameters : abi_params → list abi_value → result string;
  viem_keccak256 : string → string;
}.
(** Decoding inverts the ABI's encoding; but it reads whole words, so that a decoded
    number of a smaller type need not fit it.  Values of their types are encoded, and
    what is encoded is encoded as the ABI says. *)
Class ViemLaws `{!Viem} := {
  decode_encoded params vals :
    typed params vals = true → (Z.of_nat (len (abi_encode vals)) < 2 ^ 256)%Z →
    decodeAbiParameters params (abi_encode vals) = Ok vals;
  decode_shaped params data vals : decodeAbiParameters params data = Ok vals → shaped params vals = true;
  encode_abi params vals data : encodeAbiParameters params vals = Ok data → data = abi_encode vals;
  encode_typed params vals : typed params vals = true → is_ok (encodeAbiParameters params vals) = true;
  keccak_length x : len (viem_keccak256 x) = 32;
}.
Arguments ViemLaws {_}.
(** The encoder throws for a number that does not fit its type ([IntegerOutOfRangeError]). *)
Class ViemRangeChecks `{!Viem} := {
  encode_out_of_range params vals :
    shaped params vals = true → typed params vals = false → is_ok (encodeAbiParameters params vals) = false
}.
Arguments ViemRangeChecks {_}.

(** ** Layouts *)

Definition PRIVATE_BID_PARAMS : abi_params :=
  [("", TTuple [("bidder", TAddress); ("contractAddr", TAddress); ("auctionId", TUint 256); ("nonce", TUint 64);
                ("unitPriceWei", TUint 256); ("salt", TBytes32)])].
Definition BID_ENVELOPE_PARAMS : abi_params :=
  [("auctionId", TStatic (TUint 256)); ("bidder", TStatic TAddress); ("ciphertext", TBytes)].
Definition CLEAR_MESSAGE_PARAMS : abi_params :=
  [("", TTuple [("auctionId", TUint 256); ("contractAddr", TAddress); ("floorPriceWei", TUint 256);
                ("ceilingPriceWei", TUint 256)])].
Definition BID_RECEIPT_PARAMS : abi_params :=
  [("contractAddr", TStatic TAddress); ("auctionId", TStatic (TUint 256)); ("bidder", TStatic TAddress);
   ("nonce", TStatic (TUint 64)); ("bidCommitment", TStatic TBytes32)].
Definition CLEAR_RESULT_PARAMS : abi_params :=
  [("contractAddr", TStatic TAddress); ("auctionId", TStatic (TUint 256)); ("winner", TStatic TAddress);
   ("unitPriceWei", TStatic (TUint 256)); ("winningNonce", TStatic (TUint 64)); ("winningCommitment", TStatic TBytes32);
   ("submittedBidCount", TStatic (TUint 256)); ("eligibleBidCount", TStatic (TUint 256))].

Record PrivateBid := mkBid {
  b_bidder : address;
  b_contractAddr : address;
  b_auctionId : Z;
  b_nonce : Z;
  b_unitPriceWei : Z;
  b_salt : string;
}.
Record BidEnvelope := mkEnvelope { e_auctionId : Z; e_bidder : address; e_ciphertext : string }.
Record ClearMessage := mkClearMessage {
  m_auctionId : Z;
  m_contractAddr : address;
  m_floorPriceWei : Z;
  m_ceilingPriceWei : Z;
}.
Record BidReceipt := mkReceipt {
  rc_contractAddr : address;
  rc_auctionId : Z;
  rc_bidder : address;
  rc_nonce : Z;
  rc_bidCommitment : string;
}.

(** The values of a message, in the order of its layout. *)
Definition bid_values (b : PrivateBid) : list abi_value :=
  [VTuple [VAddress (b_bidder b); VAddress (b_contractAddr b); VUint (b_auctionId b); VUint (b_nonce b);
           VUint (b_unitPriceWei b); VBytes32 (b_salt b)]].
Definition envelope_values (e : BidEnvelope) : list abi_value :=
  [VStatic (VUint (e_auctionId e)); VStatic (VAddress (e_bidder e)); VBytes (e_ciphertext e)].
Definition message_values (m : ClearMessage) : list abi_value :=
  [VTuple [VUint (m_auctionId m); VAddress (m_contractAddr m); VUint (m_floorPriceWei m); VUint (m_ceilingPriceWei m)]].
Definition receipt_values (r : BidReceipt) : list abi_value :=
  [VStatic (VAddress (rc_contractAddr r)); VStatic (VUint (rc_auctionId r)); VStatic (VAddress (rc_bidder r));
   VStatic (VUint (rc_nonce r)); VStatic (VBytes32 (rc_bidCommitment r))].
Definition result_values (r : ClearResult) : list abi_value :=
  [VStatic (VAddress (r_contractAddr r)); VStatic (VUint (r_auctionId r)); VStatic (VAddress (r_winner r));
   VStatic (VUint (r_unitPriceWei r)); VStatic (VUint (r_winningNonce r)); VStatic (VBytes32 (r_winningCommitment r));
   VStatic (VUint (r_submittedBidCount r)); VStatic (VUint (r_eligibleBidCount r))].

Section abi.
Context `{Vie : !Viem}.

(** Values that do not have the types of the layout; the compiler relies on viem's
    types here, and no decoder returns such ([decode_shaped]). *)
Definition mistyped : error := ErrMsg "values of other types".

Definition encodePrivateBid (bid : PrivateBid) : result string := encodeAbiParameters PRIVATE_BID_PARAMS (bid_values bid).
Definition encodeBidEnvelope (envelope : BidEnvelope) : result string :=
  encodeAbiParameters BID_ENVELOPE_PARAMS (envelope_values envelope).
Definition decodeBidEnvelope (data : string) : result BidEnvelope :=
  match decodeAbiParameters BID_ENVELOPE_PARAMS data with
  | Ok [VStatic (VUint auctionId); VStatic (VAddress bidder); VBytes ciphertext] =>
    Ok (mkEnvelope auctionId bidder ciphertext)
  | Ok _ => Err mistyped
  | Err e => Err e
  end.
Definition decodePrivateBid (data : string) : result PrivateBid :=
  match decodeAbiParameters PRIVATE_BID_PARAMS data with
  | Ok [VTuple [VAddress bidder; VAddress contractAddr; VUint auctionId; VUint nonce; VUint unitPriceWei; VBytes32 salt]] =>
    Ok (mkBid bidder contractAddr auctionId nonce unitPriceWei salt)
  | Ok _ => Err mistyped
  | Err e => Err e
  end.
Definition encodeClearMessage (message : ClearMessage) : result string :=
  encodeAbiParameters CLEAR_MESSAGE_PARAMS (message_values message).
Definition decodeClearMessage (data : string) : result ClearMessage :=
  match decodeAbiParameters CLEAR_MESSAGE_PARAMS data with
  | Ok [VTuple [VUint auctionId; VAddress contractAddr; VUint floorPriceWei; VUint ceilingPriceWei]] =>
    Ok (mkClearMessage auctionId contractAddr floorPriceWei ceilingPriceWei)
  | Ok _ => Err mistyped
  | Err e => Err e
  end.
Definition encodeBidReceipt (contractAddr : address) (auctionId : Z) (bidder : address) (nonce : Z)
    (bidCommitment : string) : result string :=
  encodeAbiParameters BID_RECEIPT_PARAMS (receipt_values (mkReceipt contractAddr auctionId bidder nonce bidCommitment)).
Definition decodeBidReceipt (data : string) : result BidReceipt :=
  match decodeAbiParameters BID_RECEIPT_PARAMS data with
  | Ok [VStatic (VAddress contractAddr); VStatic (VUint auctionId); VStatic (VAddress bidder); VStatic (VUint nonce);
        VStatic (VBytes32 bidCommitment)] => Ok (mkReceipt contractAddr auctionId bidder nonce bidCommitment)
  | Ok _ => Err mistyped
  | Err e => Err e
  end.
Definition encodeClearResult (result : ClearResult) : Prelude.result string :=
  encodeAbiParameters CLEAR_RESULT_PARAMS (result_values result).
Definition decodeClearResult (data : string) : result ClearResult :=
  match decodeAbiParameters CLEAR_RESULT_PARAMS data with
  | Ok [VStatic (VAddress contractAddr); VStatic (VUint auctionId); VStatic (VAddress winner); VStatic (VUint unitPriceWei);
        VStatic (VUint winningNonce); VStatic (VBytes32 winningCommitment); VStatic (VUint submittedBidCount);
        VStatic (VUint eligibleBidCount)] =>
    Ok (mkClear contractAddr auctionId winner unitPriceWei winningNonce winningCommitment submittedBidCount eligibleBidCount)
  | Ok _ => Err mistyped
  | Err e => Err e
  end.

(** ** The layouts and the contract's words *)

Lemma bid_words b :
  abi_encode (bid_values b) = word (b_bidder b) +:+ word (b_contractAddr b) +:+ word (b_auctionId b) +:+
    word (b_nonce b) +:+ word (b_unitPriceWei b) +:+ b_salt b.
Proof using.
  unfold abi_encode, bid_values. cbn [heads tails tail foldr static_words static_word]. by rewrite !str_app_nil_r.
Qed.
Lemma envelope_words e : abi_encode (envelope_values e) = bid_message (e_auctionId e) (e_bidder e) (e_ciphertext e).
Proof using.
  unfold abi_encode, envelope_values, bid_message. cbn [heads tails tail foldr static_word].
  rewrite !str_app_nil_r, <- !str_app_assoc. done.
Qed.
Lemma message_words m :
  abi_encode (message_values m) =
    word (m_auctionId m) +:+ word (m_contractAddr m) +:+ word (m_floorPriceWei m) +:+ word (m_ceilingPriceWei m).
Proof using.
  unfold abi_encode, message_values. cbn [heads tails tail foldr static_words static_word]. by rewrite !str_app_nil_r.
Qed.
Lemma receipt_words r :
  abi_encode (receipt_values r) = word (rc_contractAddr r) +:+ word (rc_auctionId r) +:+ word (rc_bidder r) +:+
    word (rc_nonce r) +:+ rc_bidCommitment r.
Proof using.
  unfold abi_encode, receipt_values. cbn [heads tails tail foldr static_word]. by rewrite !str_app_nil_r.
Qed.
Lemma result_words r : abi_encode (result_values r) = abi_clear_result r.
Proof using.
  unfold abi_encode, result_values. cbn [heads tails tail foldr static_word]. by rewrite !str_app_nil_r.
Qed.

(** A bid whose fields have their types. *)
Record typed_bid (b : PrivateBid) : Prop := {
  tb_bidder : is_address (b_bidder b);
  tb_contract : is_address (b_contractAddr b);
  tb_auction : is_uint 256 (b_auctionId b);
  tb_nonce : is_uint 64 (b_nonce b);
  tb_price : is_uint 256 (b_unitPriceWei b);
  tb_salt : len (b_salt b) = 32;
}.

(** The boolean checks of a layout, by parts. *)
Ltac parts :=
  cbn [typed shaped bid_values PRIVATE_BID_PARAMS envelope_values BID_ENVELOPE_PARAMS message_values CLEAR_MESSAGE_PARAMS
       receipt_values BID_RECEIPT_PARAMS result_values CLEAR_RESULT_PARAMS all2 value_fits static_typed static_shaped
       snd fmap list_fmap];
  rewrite ?andb_true_iff, ?bool_decide_eq_true.
Ltac by_parts := parts; split_and?; first [done|lia].

Lemma bid_typed b : typed_bid b → typed PRIVATE_BID_PARAMS (bid_values b) = true.
Proof using. intros []. by_parts. Qed.
Lemma envelope_typed e :
  is_uint 256 (e_auctionId e) → is_address (e_bidder e) → is_uint 256 (Z.of_nat (len (e_ciphertext e))) →
  typed BID_ENVELOPE_PARAMS (envelope_values e) = true.
Proof using. intros. by_parts. Qed.
Lemma message_typed m :
  is_uint 256 (m_auctionId m) → is_address (m_contractAddr m) → is_uint 256 (m_floorPriceWei m) →
  is_uint 256 (m_ceilingPriceWei m) → typed CLEAR_MESSAGE_PARAMS (message_values m) = true.
Proof using. intros. by_parts. Qed.
Lemma receipt_typed r :
  is_address (rc_contractAddr r) → is_uint 256 (rc_auctionId r) → is_address (rc_bidder r) → len (rc_bidCommitment r) = 32 →
  typed BID_RECEIPT_PARAMS (receipt_values r) = bool_decide (is_uint 64 (rc_nonce r)).
Proof using.
  intros. apply eq_true_iff_eq. rewrite bool_decide_eq_true. split; [|intros; by_parts].
  parts. by intros (_ & _ & _ & [? _] & _).
Qed.
Lemma result_typed r signature :
  well_typed (CallSettleAuction (r_auctionId r) r signature) → typed CLEAR_RESULT_PARAMS (result_values r) = true.
Proof using.
  intros Hty%Is_true_true%bool_decide_eq_true. destruct Hty as (? & ? & ? & ? & ? & ? & ? & ? & ?). by_parts.
Qed.

(** ** What the functions promise *)

Section laws.
Context `{VLaws : !ViemLaws}.

Lemma short_message vals : (Z.of_nat (len (abi_encode vals)) ≤ 10000 → Z.of_nat (len (abi_encode vals)) < 2 ^ 256)%Z.
Proof using. intros Hn. by apply Z.le_lt_trans with 10000%Z. Qed.
Lemma static_message params vals :
  typed params vals = true → tails vals = "" → list_sum (head_words <$> vals) ≤ 100 →
  (Z.of_nat (len (abi_encode vals)) < 2 ^ 256)%Z.
Proof using.
  intros Ht Htl Hs. apply short_message. unfold abi_encode.
  rewrite Htl, str_app_nil_r, (heads_len params.*2) by by apply typed_shaped. lia.
Qed.

Lemma ciphertext_uint s : (Z.of_nat (len s) ≤ MAX_ENCRYPTED_BID_BYTES)%Z → is_uint 256 (Z.of_nat (len s)).
Proof using. intros Hl. split; [lia|]. by apply Z.le_lt_trans with MAX_ENCRYPTED_BID_BYTES. Qed.
Lemma decode_typed_bid b : typed_bid b → decodePrivateBid (abi_encode (bid_values b)) = Ok b.
Proof.
  intros Hb%bid_typed. unfold decodePrivateBid. rewrite decode_encoded; [by destruct b|done|].
  apply (static_message PRIVATE_BID_PARAMS); [done|done|cbn; lia].
Qed.
Lemma decode_envelope i b enc :
  is_uint 256 i → is_address b → (Z.of_nat (len enc) ≤ MAX_ENCRYPTED_BID_BYTES)%Z →
  decodeBidEnvelope (bid_message i b enc) = Ok (mkEnvelope i b enc).
Proof.
  intros Hi Hb Hl. change (bid_message i b enc) with (let e := mkEnvelope i b enc in bid_message (e_auctionId e) (e_bidder e) (e_ciphertext e)).
  cbv zeta. rewrite <- envelope_words.
  assert (typed BID_ENVELOPE_PARAMS (envelope_values (mkEnvelope i b enc)) = true) as Ht.
  { apply envelope_typed; [done|done|]. by apply ciphertext_uint. }
  unfold decodeBidEnvelope. rewrite decode_encoded; [done|done|].
  apply short_message. unfold MAX_ENCRYPTED_BID_BYTES in Hl. unfold abi_encode. rewrite len_app, (heads_len BID_ENVELOPE_PARAMS.*2) by by apply typed_shaped.
  change (list_sum _) with 3. cbn [envelope_values tails tail foldr e_ciphertext]. rewrite str_app_nil_r.
  change ("" +:+ "" +:+ abi_bytes enc) with (abi_bytes enc). pose proof (abi_bytes_len enc). lia.
Qed.
Lemma decode_clear i c f p :
  is_uint 256 i → is_address c → is_uint 256 f → is_uint 256 p →
  decodeClearMessage (word i +:+ word c +:+ word f +:+ word p) = Ok (mkClearMessage i c f p).
Proof.
  intros Hi Hc Hf Hp. pose proof (message_words (mkClearMessage i c f p)) as Hw. cbn [m_auctionId m_contractAddr m_floorPriceWei m_ceilingPriceWei] in Hw.
  rewrite <- Hw. pose proof (message_typed (mkClearMessage i c f p) Hi Hc Hf Hp) as Ht. unfold decodeClearMessage.
  rewrite decode_encoded; [done|done|]. apply (static_message CLEAR_MESSAGE_PARAMS); [done|done|cbn; lia].
Qed.

(** A decoded bid fits words; nothing says that its nonce is a [uint64]. *)
Lemma decode_bid plaintext b :
  decodePrivateBid plaintext = Ok b →
  is_address (b_bidder b) ∧ is_address (b_contractAddr b) ∧ is_uint 256 (b_auctionId b) ∧
  is_uint 256 (b_nonce b) ∧ is_uint 256 (b_unitPriceWei b).
Proof.
  unfold decodePrivateBid. destruct (decodeAbiParameters _ _) as [vals|] eqn:Hd; [|done].
  apply decode_shaped in Hd. revert Hd. repeat (case_match; try done). intros Hs [= <-]. cbn [b_bidder b_contractAddr b_auctionId b_nonce b_unitPriceWei].
  revert Hs. parts. tauto.
Qed.

Lemma encode_receipt r data :
  encodeBidReceipt (rc_contractAddr r) (rc_auctionId r) (rc_bidder r) (rc_nonce r) (rc_bidCommitment r) = Ok data →
  data = abi_encode (receipt_values r).
Proof. destruct r. apply encode_abi. Qed.
Lemma encode_clear r data : encodeClearResult r = Ok data → data = abi_clear_result r.
Proof. intros H%encode_abi. by rewrite <- result_words. Qed.
Lemma encode_clear_typed r signature :
  well_typed (CallSettleAuction (r_auctionId r) r signature) → is_ok (encodeClearResult r) = true.
Proof. intros Ht. by apply encode_typed, (result_typed r signature). Qed.
(** A receipt can be encoded exactly when the nonce is a [uint64]. *)
Lemma receipt_in_range `{!ViemRangeChecks} c i b n k :
  is_address c → is_uint 256 i → is_address b → is_uint 256 n → len k = 32 →
  is_ok (encodeBidReceipt c i b n k) = bool_decide (is_uint 64 n).
Proof.
  intros Hc Hi Hb Hn Hk. pose proof (receipt_typed (mkReceipt c i b n k) Hc Hi Hb Hk) as Ht. cbn [rc_nonce] in Ht.
  unfold encodeBidReceipt. destruct (bool_decide (is_uint 64 n)) eqn:H64; [by apply encode_typed|].
  apply encode_out_of_range; [|done]. by_parts.
Qed.

(** What one function writes, its counterpart reads: every message of abi.ts. *)
Theorem messages_roundtrip :
  (∀ b, typed_bid b → ∃ data, encodePrivateBid b = Ok data ∧ decodePrivateBid data = Ok b) ∧
  (∀ e, is_uint 256 (e_auctionId e) → is_address (e_bidder e) →
     (Z.of_nat (len (e_ciphertext e)) ≤ MAX_ENCRYPTED_BID_BYTES)%Z →
     ∃ data, encodeBidEnvelope e = Ok data ∧ decodeBidEnvelope data = Ok e) ∧
  (∀ m, is_uint 256 (m_auctionId m) → is_address (m_contractAddr m) → is_uint 256 (m_floorPriceWei m) →
     is_uint 256 (m_ceilingPriceWei m) → ∃ data, encodeClearMessage m = Ok data ∧ decodeClearMessage data = Ok m) ∧
  (∀ c i b n k, is_address c → is_uint 256 i → is_address b → is_uint 64 n → len k = 32 →
     ∃ data, encodeBidReceipt c i b n k = Ok data ∧ decodeBidReceipt data = Ok (mkReceipt c i b n k)) ∧
  (∀ r signature, well_typed (CallSettleAuction (r_auctionId r) r signature) →
     ∃ data, encodeClearResult r = Ok data ∧ decodeClearResult data = Ok r).
Proof.
  assert (∀ params vals, typed params vals = true →
    ∃ data, encodeAbiParameters params vals = Ok data ∧ data = abi_encode vals) as Henc.
  { intros params vals Ht. pose proof (encode_typed _ _ Ht) as Hok. destruct (encodeAbiParameters params vals) as [data|] eqn:He; [|done].
    exists data. split; [done|by eapply encode_abi]. }
  split_and!.
  - intros b Hb. destruct (Henc _ _ (bid_typed b Hb)) as (data & He & ->). eexists. split; [done|by apply decode_typed_bid].
  - intros e Hi Hb Hl. destruct (Henc BID_ENVELOPE_PARAMS (envelope_values e)) as (data & He & ->).
    { apply envelope_typed; [done|done|]. by apply ciphertext_uint. }
    eexists. split; [done|]. rewrite envelope_words, decode_envelope by done. by destruct e.
  - intros m Hi Hc Hf Hp. destruct (Henc _ _ (message_typed m Hi Hc Hf Hp)) as (data & He & ->). eexists. split; [done|].
    rewrite message_words, decode_clear by done. by destruct m.
  - intros c i b n k Hc Hi Hb Hn Hk. assert (typed BID_RECEIPT_PARAMS (receipt_values (mkReceipt c i b n k)) = true) as Ht
      by (rewrite receipt_typed by done; by apply bool_decide_eq_true).
    destruct (Henc _ _ Ht) as (data & He & ->). eexists. split; [done|]. unfold decodeBidReceipt.
    rewrite decode_encoded; [done|done|]. apply (static_message BID_RECEIPT_PARAMS); [done|done|cbn; lia].
  - intros r sg Ht%result_typed. destruct (Henc _ _ Ht) as (data & He & ->). eexists. split; [done|]. unfold decodeClearResult.
    rewrite decode_encoded; [by destruct r|done|]. apply (static_message CLEAR_RESULT_PARAMS); [done|done|cbn; lia].
Qed.
End laws.
End abi.
