(* ===== verification/Enclave.v ===== *)
(** * typescript/src/app/handlers.ts: clearing sealed bids inside the TEE

    The two handlers of the auction extension as functions of its memory.  viem's
    codecs and hash and the node's decryption are parameters; messages are bytes
    (their hex text is the framework's concern), addresses are numbers, whose
    order is the order of their lower-case hex texts.  A handler returns a
    [HandlerResult], or, when the encoder of its answer throws, an [Err]; what it did
    to the memory until then stays done. *)

From S2P Require Import Prelude GoStrings Evm AuctionContract EnclaveAbi.
From stdpp Require Import options sorting.
Set Default Proof Using "Type*".

(** ** Data *)

Record StoredBid := mkStored { bid : PrivateBid; commitment : string }.
Record ClearedAuction := mkCleared { c_result : string; c_expiresAt : Z }.

(** [keyForAuction]: the text of the contract's address and the auction's id. *)
Definition auction_key : Type := address * Z.
Definition keyForAuction (contractAddr : address) (auctionId : Z) : auction_key := (contractAddr, auctionId).

(** The module's two maps.  A JavaScript [Map] keeps its entries in the order
    of their first insertion: the bids of an auction are a list. *)
Record enclave := mkEnclave {
  bids_of : gmap auction_key (list StoredBid);
  cleared_of : gmap auction_key ClearedAuction;
}.
Definition resetState : enclave := mkEnclave ∅ ∅.

(** [[data, status, error]] *)
Inductive HandlerResult := Success (data : string) | Failure (message : string).
(** [success(encode(...))] *)
Definition success (encoded : result string) : result HandlerResult :=
  match encoded with Ok data => Ok (Success data) | Err e => Err e end.
Definition failure (message : string) : result HandlerResult := Ok (Failure message).

Definition bid_key (b : StoredBid) : address := b_bidder (bid b).
(** [bids.get] and [bids.set] *)
Definition map_get (bidder : address) (bids : list StoredBid) : option StoredBid :=
  list_find (λ b, bid_key b = bidder) bids ≫= λ p, Some p.2.
Fixpoint map_set (b : StoredBid) (bids : list StoredBid) : list StoredBid :=
  match bids with
  | [] => [b]
  | b' :: bids => if decide (bid_key b' = bid_key b) then b :: bids else b' :: map_set b bids
  end.

Section handlers.
Context `{Vie : !Viem} (clearRetentionMs : Z).

Definition pruneCleared (now : Z) (s : enclave) : enclave :=
  mkEnclave (bids_of s) (filter (λ e, ¬ (c_expiresAt e.2 ≤ now)%Z) (cleared_of s)).

Definition validateBid (b : PrivateBid) : option string :=
  if decide (b_bidder b = 0%Z) then Some "bidder must not be zero"
  else if decide (b_contractAddr b = 0%Z) then Some "contractAddr must not be zero"
  else if decide (b_auctionId b ≤ 0)%Z then Some "auctionId must be positive"
  else if decide (b_nonce b ≤ 0)%Z then Some "nonce must be positive"
  else if decide (b_unitPriceWei b ≤ 0)%Z then Some "unit price must be positive"
  else if decide (b_salt b = zero32) then Some "salt must not be zero"
  else None.

(** [decrypt] is the node's answer to this request, [now] the clock after it. *)
Definition handlePrivateBid (decrypt : string → result string) (now : Z) (message : string) (s : enclave) :
    result HandlerResult * enclave :=
  match decodeBidEnvelope message with
  | Err e => (failure ("decoding bid envelope: " +:+ err_text e), s)
  | Ok envelope =>
    if decide (len (e_ciphertext envelope) = 0) then (failure "ciphertext must not be empty", s)
    else match decrypt (e_ciphertext envelope) with
    | Err e => (failure ("decryption failed: " +:+ err_text e), s)
    | Ok plaintext =>
      match decodePrivateBid plaintext with
      | Err e => (failure ("decoding private bid: " +:+ err_text e), s)
      | Ok b =>
        match validateBid b with
        | Some msg => (failure msg, s)
        | None =>
          if decide (b_bidder b ≠ e_bidder envelope) then
            (failure "bid bidder does not match the on-chain sender", s)
          else if decide (b_auctionId b ≠ e_auctionId envelope) then
            (failure "bid auctionId does not match the escrowed auction", s)
          else
            let auctionKey := keyForAuction (b_contractAddr b) (b_auctionId b) in
            let s := pruneCleared now s in
            if decide (is_Some (cleared_of s !! auctionKey)) then (failure "auction already cleared", s)
            else
              let bids := default [] (bids_of s !! auctionKey) in
              if from_option (λ p, bool_decide (b_nonce b ≤ b_nonce (bid p))%Z) false (map_get (b_bidder b) bids) then
                (failure "bid nonce must increase", s)
              else
                let commitment := viem_keccak256 plaintext in
                (success (encodeBidReceipt (b_contractAddr b) (b_auctionId b) (b_bidder b) (b_nonce b) commitment),
                 mkEnclave (<[auctionKey := map_set (mkStored b commitment) bids]> (bids_of s)) (cleared_of s))
        end
      end
    end
  end.

(** The comparator of [eligible.sort]: higher price first, then lower address. *)
Definition before (left right : StoredBid) : Prop :=
  (b_unitPriceWei (bid right) < b_unitPriceWei (bid left))%Z ∨
  (b_unitPriceWei (bid left) = b_unitPriceWei (bid right) ∧ bid_key left ≤ bid_key right)%Z.
#[global] Instance before_dec : RelDecision before.
Proof using. intros x y. unfold before. apply _. Defined.
Definition eligible (floor ceiling : Z) (b : StoredBid) : Prop :=
  (floor ≤ b_unitPriceWei (bid b) ≤ ceiling)%Z.
#[global] Instance eligible_dec floor ceiling b : Decision (eligible floor ceiling b).
Proof using. unfold eligible. apply _. Defined.

(** The result for an auction's bids. *)
Definition clear_bids (m : ClearMessage) (bids : list StoredBid) : ClearResult :=
  let sorted := merge_sort before (filter (eligible (m_floorPriceWei m) (m_ceilingPriceWei m)) bids) in
  let winner := head sorted in
  mkClear (m_contractAddr m) (m_auctionId m)
    (from_option bid_key 0%Z winner) (from_option (b_unitPriceWei ∘ bid) 0%Z winner)
    (from_option (b_nonce ∘ bid) 0%Z winner) (from_option commitment zero32 winner)
    (Z.of_nat (length bids)) (Z.of_nat (length sorted)).

Definition handleClear (now : Z) (message : string) (s : enclave) : result HandlerResult * enclave :=
  match decodeClearMessage message with
  | Err e => (failure ("decoding clear request: " +:+ err_text e), s)
  | Ok m =>
    if decide (m_auctionId m ≤ 0)%Z then (failure "auctionId must be positive", s)
    else if decide (m_contractAddr m = 0%Z) then (failure "contractAddr must not be zero", s)
    else if decide (m_floorPriceWei m ≤ 0)%Z then (failure "floor price must be positive", s)
    else if decide (m_ceilingPriceWei m < m_floorPriceWei m)%Z then
      (failure "ceiling price must be at least floor price", s)
    else
      let auctionKey := keyForAuction (m_contractAddr m) (m_auctionId m) in
      let s := pruneCleared now s in
      match cleared_of s !! auctionKey with
      | Some already => (Ok (Success (c_result already)), s)
      | None =>
        match encodeClearResult (clear_bids m (default [] (bids_of s !! auctionKey))) with
        | Err e => (Err e, s)
        | Ok result =>
          (Ok (Success result),
           mkEnclave (delete auctionKey (bids_of s))
             (<[auctionKey := mkCleared result (now + clearRetentionMs)]> (cleared_of s)))
        end
      end
  end.
End handlers.

(** ** Lemmas *)

#[export] Instance before_total : Total before.
Proof. intros x y. unfold before. lia. Qed.
#[export] Instance before_trans : Transitive before.
Proof. intros x y z. unfold before. lia. Qed.

Lemma map_get_Some k bids b : map_get k bids = Some b → b ∈ bids ∧ bid_key b = k.
Proof.
  unfold map_get. destruct (list_find _ bids) as [[i b']|] eqn:Hf; [|discriminate].
  intros [= <-]. apply list_find_Some in Hf as (Hl & Hk & _). split; [by eapply list_elem_of_lookup_2|done].
Qed.
Lemma map_get_None k bids : map_get k bids = None → ∀ b, b ∈ bids → bid_key b ≠ k.
Proof.
  unfold map_get. destruct (list_find _ bids) as [|] eqn:Hf; [discriminate|]. intros _ b Hb Hk.
  apply list_find_None in Hf. rewrite Forall_forall in Hf. by apply (Hf b).
Qed.
(** [set] leaves one entry per bidder: the new one, and the others as they were. *)
Lemma map_set_elem b bids b' :
  NoDup (bid_key <$> bids) → b' ∈ map_set b bids ↔ b' = b ∨ (b' ∈ bids ∧ bid_key b' ≠ bid_key b).
Proof.
  induction bids as [|c bids IH]; cbn; [set_solver|]. rewrite NoDup_cons. intros [Hc Hn]. case_decide as Hk.
  - rewrite !elem_of_cons. split; [|naive_solver]. intros [->|Hb]; [by left|]. right. split; [by right|].
    intros Hk'. apply Hc. rewrite Hk, <- Hk'. by apply list_elem_of_fmap_2.
  - rewrite !elem_of_cons, IH by done. naive_solver.
Qed.
Lemma map_set_keys b bids k : k ∈ bid_key <$> map_set b bids ↔ k = bid_key b ∨ k ∈ bid_key <$> bids.
Proof.
  induction bids as [|c bids IH]; cbn; [set_solver|]. case_decide as Hk; cbn; rewrite ?elem_of_cons.
  - rewrite Hk. naive_solver.
  - rewrite IH. naive_solver.
Qed.
Lemma map_set_NoDup b bids : NoDup (bid_key <$> bids) → NoDup (bid_key <$> map_set b bids).
Proof.
  induction bids as [|c bids IH]; cbn; [intros _; apply NoDup_singleton|]. rewrite NoDup_cons. intros [Hc Hn].
  case_decide as Hk; cbn; rewrite NoDup_cons; [by rewrite <- Hk|]. rewrite map_set_keys. split; [naive_solver|auto].
Qed.
Lemma key_unique bids b b' :
  NoDup (bid_key <$> bids) → b ∈ bids → b' ∈ bids → bid_key b = bid_key b' → b = b'.
Proof.
  induction bids as [|c bids IH]; cbn; [set_solver|]. rewrite NoDup_cons, !elem_of_cons. intros [Hc Hn] Hb Hb' Hk.
  destruct Hb as [->|Hb], Hb' as [->|Hb']; [done|..|by auto].
  - destruct Hc. rewrite Hk. by apply list_elem_of_fmap_2.
  - destruct Hc. rewrite <- Hk. by apply list_elem_of_fmap_2.
Qed.
Lemma map_set_nonempty b bids : map_set b bids ≠ [].
Proof. destruct bids; cbn; [done|]. by case_decide. Qed.

(** The first entry after sorting comes before all others. *)
Lemma sorted_head l w :
  head (merge_sort before l) = Some w → w ∈ l ∧ ∀ b, b ∈ l → before w b.
Proof.
  pose proof (Sorted_merge_sort before l) as Hs. pose proof (merge_sort_Permutation before l) as Hp.
  destruct (merge_sort before l) as [|w' rest] eqn:Hm; [discriminate|]. cbn. intros [= ->].
  apply Sorted_StronglySorted in Hs; [|exact before_trans]. apply StronglySorted_inv in Hs as [_ Hall].
  rewrite Forall_forall in Hall. split; [rewrite <- Hp; by left|]. intros b Hb. rewrite <- Hp in Hb.
  apply elem_of_cons in Hb as [->|Hb]; [|by apply Hall]. unfold before. lia.
Qed.
Lemma sorted_none l : head (merge_sort before l) = None → l = [].
Proof.
  pose proof (merge_sort_Permutation before l) as Hp. destruct (merge_sort before l); [|discriminate].
  intros _. by apply Permutation_nil_l in Hp.
Qed.

Lemma pruned_lookup s now key e :
  cleared_of (pruneCleared now s) !! key = Some e ↔ cleared_of s !! key = Some e ∧ (now < c_expiresAt e)%Z.
Proof. cbn. rewrite map_lookup_filter_Some. cbn. split; intros [? ?]; (split; [done|lia]). Qed.

(** ** Properties *)

Section props.
Context `{Vie : !Viem} (clearRetentionMs : Z).

(** What the memory holds: at most one bid per bidder, each valid and filed under
    the contract and auction it names, and none for an auction still remembered as
    cleared. *)
Definition filed (key : auction_key) (b : StoredBid) : Prop :=
  validateBid (bid b) = None ∧ keyForAuction (b_contractAddr (bid b)) (b_auctionId (bid b)) = key.
Record wf_enclave (s : enclave) : Prop := {
  wf_bids : ∀ key bids, bids_of s !! key = Some bids →
    bids ≠ [] ∧ NoDup (bid_key <$> bids) ∧ Forall (filed key) bids ∧ cleared_of s !! key = None;
}.
Definition bids_at (key : auction_key) (s : enclave) : list StoredBid := default [] (bids_of s !! key).

Lemma wf_prune now s : wf_enclave s → wf_enclave (pruneCleared now s).
Proof using.
  intros [Hs]. split. intros key bids Hb. destruct (Hs key bids Hb) as (? & ? & ? & Hc). split_and!; try done.
  destruct (cleared_of (pruneCleared now s) !! key) eqn:He; [|done]. apply pruned_lookup in He as [He _]. congruence.
Qed.
Lemma bids_at_wf key s :
  wf_enclave s → NoDup (bid_key <$> bids_at key s) ∧ Forall (filed key) (bids_at key s).
Proof using.
  intros [Hs]. unfold bids_at. destruct (bids_of s !! key) as [bids|] eqn:Hb; cbn.
  - by destruct (Hs key bids Hb) as (_ & ? & ? & _).
  - split; [apply NoDup_nil_2|done].
Qed.

(** *** The bid handler *)

(** What an accepted bid [b] did, and what it needed; [answer] is its receipt, or the
    encoder's refusal to write one. *)
Definition bid_accepted (decrypt : string → result string) (now : Z) (message : string) (b : PrivateBid)
    (answer : result HandlerResult) (s s' : enclave) : Prop :=
  ∃ envelope plaintext, let key := keyForAuction (b_contractAddr b) (b_auctionId b) in
    let new := mkStored b (viem_keccak256 plaintext) in
    decodeBidEnvelope message = Ok envelope ∧ len (e_ciphertext envelope) ≠ 0 ∧
    decrypt (e_ciphertext envelope) = Ok plaintext ∧ decodePrivateBid plaintext = Ok b ∧ validateBid b = None ∧
    b_bidder b = e_bidder envelope ∧ b_auctionId b = e_auctionId envelope ∧
    cleared_of (pruneCleared now s) !! key = None ∧
    (∀ old, old ∈ bids_at key s → bid_key old = b_bidder b → (b_nonce (bid old) < b_nonce b)%Z) ∧
    answer = success (encodeBidReceipt (b_contractAddr b) (b_auctionId b) (b_bidder b) (b_nonce b) (commitment new)) ∧
    s' = mkEnclave (<[key := map_set new (bids_at key s)]> (bids_of s)) (cleared_of (pruneCleared now s)).
(** The bid was refused. *)
Definition is_failure (r : result HandlerResult) : bool := match r with Ok (Failure _) => true | _ => false end.
Lemma success_not_failure encoded : is_failure (success encoded) = false.
Proof using. by destruct encoded. Qed.

(** Refutes an acceptance: its parts are what the handler computed. *)
Ltac not_accepted :=
  intros (b' & ? & ? & env' & pt' & He' & Hl' & Hd' & Hb' & Hv' & Hbd & Hid & Hc' & Hn' & _);
  simplify_eq; repeat match goal with H : ?x = Ok _, H' : ?x = _ |- _ => rewrite H in H'; simplify_eq end;
  try done; try congruence.

Lemma handlePrivateBid_spec decrypt now message s :
  wf_enclave s →
  let '(r, s') := handlePrivateBid decrypt now message s in
  if is_failure r then (s' = s ∨ s' = pruneCleared now s) ∧ ¬ ∃ b r' s'', bid_accepted decrypt now message b r' s s''
  else ∃ b, bid_accepted decrypt now message b r s s'.
Proof using.
  intros Hw. unfold handlePrivateBid.
  destruct (decodeBidEnvelope message) as [env|] eqn:He; [|split; [by left|not_accepted]].
  case_decide as Hlen; [split; [by left|not_accepted]|].
  destruct (decrypt _) as [pt|] eqn:Hd; [|split; [by left|not_accepted]].
  destruct (decodePrivateBid pt) as [b|] eqn:Hb; [|split; [by left|not_accepted]].
  destruct (validateBid b) eqn:Hv; [split; [by left|not_accepted]|].
  do 2 (case_decide; [split; [by left|not_accepted]|]).
  cbv zeta. set (key := keyForAuction _ _).
  case_decide as Hc; [split; [by right|not_accepted; destruct Hc as [e Hc]; unfold key in Hc; congruence]|].
  apply eq_None_not_Some in Hc.
  change (default [] (bids_of (pruneCleared now s) !! key)) with (bids_at key s).
  destruct (bids_at_wf key s Hw) as [Hnd _].
  destruct (map_get (b_bidder b) (bids_at key s)) as [p|] eqn:Hg; cbn [from_option].
  - apply map_get_Some in Hg as [Hp Hpk]. case_bool_decide as Hn.
    + split; [by right|]. not_accepted. specialize (Hn' p Hp Hpk). lia.
    + rewrite success_not_failure. exists b, env, pt. cbv zeta. fold key. split_and!; try done. intros old Ho Hk.
      rewrite (key_unique _ old p Hnd Ho Hp) by (rewrite Hk; done). lia.
  - rewrite success_not_failure. exists b, env, pt. cbv zeta. fold key. split_and!; try done. intros old Ho Hk.
    by destruct (map_get_None _ _ Hg old Ho).
Qed.

(** What was accepted is what the handler did. *)
Lemma accepted_run decrypt now message b r s s' :
  wf_enclave s → bid_accepted decrypt now message b r s s' → handlePrivateBid decrypt now message s = (r, s').
Proof using.
  intros Hw Ha. pose proof (handlePrivateBid_spec decrypt now message s Hw) as H.
  destruct (handlePrivateBid _ _ _ _) as [r1 s1]. destruct (is_failure r1); [by destruct H as [_ []]; eauto|].
  destruct H as (b1 & env1 & pt1 & He1 & _ & Hd1 & Hb1 & _ & _ & _ & _ & _ & -> & ->).
  destruct Ha as (env2 & pt2 & He2 & _ & Hd2 & Hb2 & _ & _ & _ & _ & _ & -> & ->). congruence.
Qed.

Lemma bid_accepted_wf decrypt now message b r s s' :
  wf_enclave s → bid_accepted decrypt now message b r s s' → wf_enclave s'.
Proof using.
  intros Hw (env & pt & _ & _ & _ & _ & Hv & _ & _ & Hc & _ & _ & ->).
  destruct (bids_at_wf (keyForAuction (b_contractAddr b) (b_auctionId b)) s Hw) as [Hnd Hf].
  apply (wf_prune now) in Hw. destruct Hw as [Hw]. split. cbn [bids_of cleared_of]. intros key' bids Hbids.
  apply lookup_insert_Some in Hbids as [[<- <-]|[Hne Hbids]]; [|by apply Hw].
  split_and!; [apply map_set_nonempty|by apply map_set_NoDup| |done].
  apply Forall_forall. intros b' [->|[Hb' _]]%map_set_elem; [by split| |done].
  by eapply Forall_forall in Hf.
Qed.
Lemma handlePrivateBid_wf decrypt now message s : wf_enclave s → wf_enclave (snd (handlePrivateBid decrypt now message s)).
Proof using.
  intros Hw. pose proof (handlePrivateBid_spec decrypt now message s Hw) as H.
  destruct (handlePrivateBid _ _ _ _) as [r s']; cbn. destruct (is_failure r); [|destruct H as [b H]; by eapply bid_accepted_wf].
  destruct H as [[->| ->] _]; [done|by apply wf_prune].
Qed.

(** C23: every branch of the bid handler.  A bid is accepted exactly when it decrypts
    to a valid bid of the bidder and the auction the contract put on the envelope,
    its auction has not been cleared lately, and its nonce is above the one stored;
    then it replaces only that bidder's bid, and the answer carries its commitment
    and no price, or, when no receipt can be encoded, is an exception.  Otherwise
    the answer is a failure and the bids are untouched. *)
Theorem private_bid_outcome (decrypt : string → result string) (now : Z) (message : string) (s : enclave) :
  wf_enclave s →
  let '(r, s') := handlePrivateBid decrypt now message s in
  wf_enclave s' ∧
  if is_failure r then bids_of s' = bids_of s ∧ ¬ ∃ b r' s'', bid_accepted decrypt now message b r' s s''
  else
    ∃ b c, bid_accepted decrypt now message b r s s' ∧ let key := keyForAuction (b_contractAddr b) (b_auctionId b) in
      r = success (encodeBidReceipt (b_contractAddr b) (b_auctionId b) (b_bidder b) (b_nonce b) c) ∧
      (∀ b', b' ∈ bids_at key s' ↔ b' = mkStored b c ∨ (b' ∈ bids_at key s ∧ bid_key b' ≠ b_bidder b)) ∧
      (∀ key', key' ≠ key → bids_of s' !! key' = bids_of s !! key').
Proof using.
  intros Hw. pose proof (handlePrivateBid_spec decrypt now message s Hw) as H.
  pose proof (handlePrivateBid_wf decrypt now message s Hw) as Hwf.
  destruct (handlePrivateBid _ _ _ _) as [r s']; (split; [done|]).
  destruct (is_failure r); [by destruct H as [[->| ->] Hn]|].
  destruct H as [b H]. pose proof H as (env & pt & _ & _ & _ & _ & _ & _ & _ & _ & _ & Hr & ->).
  exists b, (viem_keccak256 pt). split; [exact H|]. set (key := keyForAuction _ _). split; [exact Hr|split].
  - intros b'. unfold bids_at at 1. cbn [bids_of]. rewrite lookup_insert_eq. apply map_set_elem.
    by apply bids_at_wf.
  - intros key' Hne. cbn [bids_of]. by rewrite lookup_insert_ne.
Qed.

(** *** The clear handler *)

(** The two ways a valid request is answered. *)
Lemma handleClear_valid now message s m :
  decodeClearMessage message = Ok m → (1 ≤ m_auctionId m)%Z → m_contractAddr m ≠ 0%Z →
  (1 ≤ m_floorPriceWei m ≤ m_ceilingPriceWei m)%Z →
  let key := keyForAuction (m_contractAddr m) (m_auctionId m) in
  (∀ already, cleared_of (pruneCleared now s) !! key = Some already →
     handleClear clearRetentionMs now message s = (Ok (Success (c_result already)), pruneCleared now s)) ∧
  (cleared_of (pruneCleared now s) !! key = None →
     handleClear clearRetentionMs now message s =
     match encodeClearResult (clear_bids m (bids_at key s)) with
     | Err e => (Err e, pruneCleared now s)
     | Ok result =>
       (Ok (Success result), mkEnclave (delete key (bids_of s))
          (<[key := mkCleared result (now + clearRetentionMs)%Z]> (cleared_of (pruneCleared now s))))
     end).
Proof using.
  intros Hm Hid Hca Hcol key. unfold handleClear. rewrite Hm.
  rewrite !decide_False by (first [done|lia]). cbv zeta. fold key. split; [by intros already ->|by intros ->].
Qed.

Lemma wf_cleared now key e s :
  wf_enclave s → wf_enclave (mkEnclave (delete key (bids_of s)) (<[key := e]> (cleared_of (pruneCleared now s)))).
Proof using.
  intros Hw. apply (wf_prune now) in Hw. destruct Hw as [Hw]. split. cbn [bids_of cleared_of].
  intros key' bids [Hne Hb]%lookup_delete_Some. rewrite lookup_insert_ne by done. by apply Hw.
Qed.

(** The winner is the best eligible bid. *)
Lemma clear_bids_winner m key bids :
  NoDup (bid_key <$> bids) → Forall (filed key) bids →
  let in_collar := eligible (m_floorPriceWei m) (m_ceilingPriceWei m) in
  let result := clear_bids m bids in
  ((∀ b, b ∈ bids → ¬ in_collar b) ∧ r_winner result = 0%Z ∧ r_unitPriceWei result = 0%Z ∧
     r_winningNonce result = 0%Z ∧ r_winningCommitment result = zero32 ∨
   ∃ w, w ∈ bids ∧ in_collar w ∧ r_winner result = b_bidder (bid w) ∧ r_winner result ≠ 0%Z ∧
     r_unitPriceWei result = b_unitPriceWei (bid w) ∧ r_winningNonce result = b_nonce (bid w) ∧
     r_winningCommitment result = commitment w ∧
     ∀ b, b ∈ bids → in_collar b → b ≠ w →
       (b_unitPriceWei (bid b) < b_unitPriceWei (bid w))%Z ∨
       b_unitPriceWei (bid b) = b_unitPriceWei (bid w) ∧ (b_bidder (bid w) < b_bidder (bid b))%Z).
Proof using.
  intros Hnd Hf in_collar result. subst result. unfold clear_bids. fold in_collar.
  destruct (head (merge_sort before (filter in_collar bids))) as [w|] eqn:Hh; cbn.
  - right. apply sorted_head in Hh as [Hw Hall]. apply list_elem_of_filter in Hw as [Hc Hw].
    exists w. split_and!; try done.
    + apply (Forall_forall _ bids) with w in Hf as [Hv _]; [|done]. revert Hv. unfold validateBid, bid_key. by case_decide.
    + intros b Hb Hbc Hne. assert (before w b) as [?|[Hp Hk]] by (apply Hall, list_elem_of_filter; done); [by left|right].
      split; [done|]. assert (bid_key w ≠ bid_key b) as Hkne by (intros Hkk; apply Hne; by eapply key_unique).
      unfold bid_key in *. lia.
  - left. split; [|done]. apply sorted_none in Hh. intros b Hb Hc.
    assert (b ∈ filter in_collar bids) as Hin by by apply list_elem_of_filter. rewrite Hh in Hin. by apply not_elem_of_nil in Hin.
Qed.

(** C8: clearing picks the best bid.  For a valid request about an auction not
    cleared lately, the result names the eligible bid with the highest price, the
    lowest address among equals, or no winner when no bid lies in the collar; it
    counts the bids and the eligible ones.  If it can be encoded, the answer is its
    encoding, the auction's bids are gone from memory afterwards, and until the
    retention ends the same request gets the same answer; if not, the handler throws
    and keeps every bid. *)
Theorem clear_outcome (now : Z) (message : string) (s : enclave) (m : ClearMessage) :
  wf_enclave s → decodeClearMessage message = Ok m →
  (1 ≤ m_auctionId m)%Z → m_contractAddr m ≠ 0%Z → (1 ≤ m_floorPriceWei m ≤ m_ceilingPriceWei m)%Z →
  let key := keyForAuction (m_contractAddr m) (m_auctionId m) in
  let in_collar := eligible (m_floorPriceWei m) (m_ceilingPriceWei m) in
  cleared_of (pruneCleared now s) !! key = None →
  let '(r, s') := handleClear clearRetentionMs now message s in
  wf_enclave s' ∧ ∃ result, r = success (encodeClearResult result) ∧
    r_contractAddr result = m_contractAddr m ∧ r_auctionId result = m_auctionId m ∧
    r_submittedBidCount result = Z.of_nat (length (bids_at key s)) ∧
    r_eligibleBidCount result = Z.of_nat (length (filter in_collar (bids_at key s))) ∧
    ((∀ b, b ∈ bids_at key s → ¬ in_collar b) ∧ r_winner result = 0%Z ∧ r_unitPriceWei result = 0%Z ∧
       r_winningNonce result = 0%Z ∧ r_winningCommitment result = zero32 ∨
     ∃ w, w ∈ bids_at key s ∧ in_collar w ∧ r_winner result = b_bidder (bid w) ∧ r_winner result ≠ 0%Z ∧
       r_unitPriceWei result = b_unitPriceWei (bid w) ∧ r_winningNonce result = b_nonce (bid w) ∧
       r_winningCommitment result = commitment w ∧
       ∀ b, b ∈ bids_at key s → in_collar b → b ≠ w →
         (b_unitPriceWei (bid b) < b_unitPriceWei (bid w))%Z ∨
         b_unitPriceWei (bid b) = b_unitPriceWei (bid w) ∧ (b_bidder (bid w) < b_bidder (bid b))%Z) ∧
    match r with
    | Err _ => bids_of s' = bids_of s
    | Ok _ => bids_of s' = delete key (bids_of s) ∧
        ∀ later, (now ≤ later < now + clearRetentionMs)%Z → fst (handleClear clearRetentionMs later message s') = r
    end.
Proof using.
  intros Hw Hm Hid Hca Hcol key in_collar Hc.
  destruct (handleClear_valid now message s m Hm Hid Hca Hcol) as [_ Hrun]. rewrite Hrun by done. fold key.
  destruct (bids_at_wf key s Hw) as [Hnd Hf]. set (result := clear_bids m (bids_at key s)).
  destruct (encodeClearResult result) as [data|e] eqn:Henc.
  - split; [by apply wf_cleared|]. exists result. rewrite Henc. split_and!; try done.
    + subst result. unfold clear_bids. cbn. by rewrite merge_sort_Permutation.
    + by eapply clear_bids_winner.
    + intros later Hl. set (s1 := mkEnclave _ _). destruct (handleClear_valid later message s1 m Hm Hid Hca Hcol) as [Hagain _].
      rewrite (Hagain (mkCleared data (now + clearRetentionMs)%Z)); [done|].
      apply pruned_lookup. unfold s1. cbn [cleared_of]. rewrite lookup_insert_eq. split; [done|cbn; lia].
  - split; [by apply wf_prune|]. exists result. rewrite Henc. split_and!; try done.
    + subst result. unfold clear_bids. cbn. by rewrite merge_sort_Permutation.
    + by eapply clear_bids_winner.
Qed.
End props.
