(* ===== verification/Secrecy.v ===== *)
(** * Sealed bids stay sealed

    What the enclave answers, to any requests in any order, is determined by who bid
    with which nonce, and by the results it has given out: two memories that differ
    in the prices of stored bids cannot be told apart before a result tells. *)

From S2P Require Import Prelude GoStrings Evm AuctionContract EnclaveAbi Enclave.
From stdpp Require Import options sorting.
Set Default Proof Using "Type*".

Section secrecy.
Context `{Vie : !Viem} (clearRetentionMs : Z).

(** What may be known of the stored bids: who bid, in which order, and each nonce. *)
Definition view (bids : list StoredBid) : list (address * Z) := (λ b, (bid_key b, b_nonce (bid b))) <$> bids.
Definition same_view (s1 s2 : enclave) : Prop :=
  cleared_of s1 = cleared_of s2 ∧ view <$> bids_of s1 = view <$> bids_of s2.

(** A request to the enclave, with the node's decryption and the clock; and a
    restart. *)
Inductive enclave_event :=
  | Bid (decrypt : string → result string) (now : Z) (message : string)
  | Clear (now : Z) (message : string)
  | RestartEnclave.
Definition respond (e : enclave_event) (s : enclave) : option (result HandlerResult) * enclave :=
  match e with
  | Bid decrypt now message => let '(r, s) := handlePrivateBid decrypt now message s in (Some r, s)
  | Clear now message => let '(r, s) := handleClear clearRetentionMs now message s in (Some r, s)
  | RestartEnclave => (None, resetState)
  end.
(** The result an event computes, to make it public for the first time. *)
Definition release (e : enclave_event) (s : enclave) : option ClearResult :=
  match e with
  | Clear now message =>
    match decodeClearMessage message with
    | Err _ => None
    | Ok m =>
      let key := keyForAuction (m_contractAddr m) (m_auctionId m) in
      if decide (m_auctionId m ≤ 0)%Z then None
      else if decide (m_contractAddr m = 0%Z) then None
      else if decide (m_floorPriceWei m ≤ 0)%Z then None
      else if decide (m_ceilingPriceWei m < m_floorPriceWei m)%Z then None
      else match cleared_of (pruneCleared now s) !! key with
           | Some _ => None
           | None => Some (clear_bids m (bids_at key s))
           end
    end
  | _ => None
  end.

Fixpoint answers_to (l : list enclave_event) (s : enclave) : list (option (result HandlerResult)) :=
  match l with [] => [] | e :: l => let '(r, s') := respond e s in r :: answers_to l s' end.
Fixpoint releases (l : list enclave_event) (s : enclave) : list (option ClearResult) :=
  match l with [] => [] | e :: l => release e s :: releases l (snd (respond e s)) end.

(** ** Lemmas *)

Lemma map_get_cons k b bids : map_get k (b :: bids) = if decide (bid_key b = k) then Some b else map_get k bids.
Proof. unfold map_get. cbn. case_decide; [done|]. by destruct (list_find _ bids) as [[]|]. Qed.
Lemma view_get k bids1 bids2 :
  view bids1 = view bids2 → (b_nonce ∘ bid) <$> map_get k bids1 = (b_nonce ∘ bid) <$> map_get k bids2.
Proof.
  revert bids2. induction bids1 as [|b1 bids1 IH]; intros [|b2 bids2]; try discriminate; [done|].
  intros Hv. cbn in Hv. injection Hv as Hk Hn Hv. rewrite !map_get_cons, <- Hk. case_decide; [cbn; by rewrite Hn|by apply IH].
Qed.
Lemma view_set b bids1 bids2 : view bids1 = view bids2 → view (map_set b bids1) = view (map_set b bids2).
Proof.
  revert bids2. induction bids1 as [|b1 bids1 IH]; intros [|b2 bids2]; try discriminate; [done|].
  cbn. intros [= Hk Hn Hv]. rewrite <- Hk. case_decide; cbn.
  - f_equal. exact Hv.
  - rewrite Hk, Hn. f_equal. by apply IH.
Qed.
Lemma same_view_bids key s1 s2 : same_view s1 s2 → view (bids_at key s1) = view (bids_at key s2).
Proof.
  intros [_ Hb]. unfold bids_at. pose proof (f_equal (lookup key) Hb) as Hk. rewrite !lookup_fmap in Hk.
  destruct (bids_of s1 !! key) as [l1|], (bids_of s2 !! key) as [l2|]; [|discriminate|discriminate|done].
  by injection Hk.
Qed.
Lemma same_view_prune now s1 s2 : same_view s1 s2 → same_view (pruneCleared now s1) (pruneCleared now s2).
Proof. intros [Hc Hb]. split; cbn; [by rewrite Hc|done]. Qed.
Lemma nonce_seen k n bids1 bids2 :
  view bids1 = view bids2 →
  from_option (λ p, bool_decide (n ≤ b_nonce (bid p))%Z) false (map_get k bids1) =
  from_option (λ p, bool_decide (n ≤ b_nonce (bid p))%Z) false (map_get k bids2).
Proof.
  intros Hv%(view_get k). destruct (map_get k bids1) as [p1|], (map_get k bids2) as [p2|];
    [|discriminate|discriminate|done]. injection Hv as Hv. cbn in *. by rewrite Hv.
Qed.

(** A bid gets the same answer, and leaves what can be known the same. *)
Lemma bid_same_view decrypt now message s1 s2 :
  same_view s1 s2 →
  fst (handlePrivateBid decrypt now message s1) = fst (handlePrivateBid decrypt now message s2) ∧
  same_view (snd (handlePrivateBid decrypt now message s1)) (snd (handlePrivateBid decrypt now message s2)).
Proof.
  intros Hs. unfold handlePrivateBid.
  destruct (decodeBidEnvelope message) as [env|]; [|done]. case_decide; [done|].
  destruct (decrypt _) as [pt|]; [|done]. destruct (decodePrivateBid pt) as [b|]; [|done].
  destruct (validateBid b); [done|]. do 2 (case_decide; [done|]). cbv zeta.
  pose proof (same_view_prune now _ _ Hs) as [Hc Hb]. rewrite Hc.
  set (key := keyForAuction _ _). case_decide; [done|].
  change (default [] (bids_of (pruneCleared now s1) !! key)) with (bids_at key s1).
  change (default [] (bids_of (pruneCleared now s2) !! key)) with (bids_at key s2).
  pose proof (same_view_bids key _ _ Hs) as Hv. rewrite (nonce_seen _ _ _ _ Hv). case_match; [done|].
  split; [done|]. split; [done|]. cbn [snd bids_of]. rewrite !fmap_insert, Hb. f_equal. by apply view_set.
Qed.

Lemma clear_same_view now message s1 s2 :
  same_view s1 s2 → release (Clear now message) s1 = release (Clear now message) s2 →
  fst (handleClear clearRetentionMs now message s1) = fst (handleClear clearRetentionMs now message s2) ∧
  same_view (snd (handleClear clearRetentionMs now message s1)) (snd (handleClear clearRetentionMs now message s2)).
Proof.
  intros Hs. unfold release, handleClear. destruct (decodeClearMessage message) as [m|]; [|done].
  cbv zeta. do 4 (case_decide; [done|]).
  pose proof (same_view_prune now _ _ Hs) as [Hc Hb]. rewrite Hc.
  set (key := keyForAuction _ _). destruct (cleared_of (pruneCleared now s2) !! key) as [e|]; [done|].
  intros Hr%(inj Some). unfold bids_at in Hr. cbn [bids_of pruneCleared] in *. rewrite Hr.
  destruct (encodeClearResult _) as [data|e]; [|done]. split; [done|].
  split; [done|]. cbn [snd bids_of]. rewrite !fmap_delete. by rewrite Hb.
Qed.

(** ** Property *)

(** C14: sealed bids stay sealed.  Take two memories with the same bidders and nonces
    but any prices.  Whatever requests come, as long as the same results are
    released, every answer is the same; in particular no answer before the first
    result depends on a price, and afterwards only through the results, each of
    which names one price. *)
Theorem bids_sealed (l : list enclave_event) (s1 s2 : enclave) :
  same_view s1 s2 → releases l s1 = releases l s2 → answers_to l s1 = answers_to l s2.
Proof.
  revert s1 s2. induction l as [|e l IH]; intros s1 s2 Hs; cbn; [done|]. intros [= Hr Hrs].
  assert (fst (respond e s1) = fst (respond e s2) ∧ same_view (snd (respond e s1)) (snd (respond e s2))) as [Ha Hs'].
  { destruct e as [decrypt now message|now message|]; [..|by split; [|done]].
    - cbn [respond]. destruct (bid_same_view decrypt now message _ _ Hs) as [Ha Hv].
      destruct (handlePrivateBid _ _ _ s1), (handlePrivateBid _ _ _ s2). cbn [fst snd] in *. split; [by rewrite Ha|done].
    - cbn [respond]. destruct (clear_same_view now message _ _ Hs Hr) as [Ha Hv].
      destruct (handleClear _ _ _ s1), (handleClear _ _ _ s2). cbn [fst snd] in *. split; [by rewrite Ha|done]. }
  specialize (IH _ _ Hs' Hrs). destruct (respond e s1), (respond e s2). cbn [fst snd] in *. by rewrite Ha, IH.
Qed.

(** The price of a losing bid is in no result: if the same bid is the best eligible one
    and as many bids are eligible, the results agree. *)
Lemma losing_prices_unseen m bids1 bids2 w :
  let in_collar := eligible (m_floorPriceWei m) (m_ceilingPriceWei m) in
  let best bids := w ∈ bids ∧ ∀ b, b ∈ bids → in_collar b → b = w ∨ ¬ before b w in
  view bids1 = view bids2 → in_collar w → best bids1 → best bids2 →
  length (filter in_collar bids1) = length (filter in_collar bids2) →
  clear_bids m bids1 = clear_bids m bids2.
Proof.
  cbv zeta. intros Hv Hw Hb1 Hb2 Hn.
  assert (∀ bids, w ∈ bids ∧ (∀ b, b ∈ bids → eligible (m_floorPriceWei m) (m_ceilingPriceWei m) b → b = w ∨ ¬ before b w) →
    head (merge_sort before (filter (eligible (m_floorPriceWei m) (m_ceilingPriceWei m)) bids)) = Some w) as Hh.
  { intros bids [Hin Hbest]. assert (w ∈ filter (eligible (m_floorPriceWei m) (m_ceilingPriceWei m)) bids) as Hf
      by by apply list_elem_of_filter.
    destruct (head _) as [w'|] eqn:Hh; [|apply sorted_none in Hh; rewrite Hh in Hf; by apply elem_of_nil in Hf].
    apply sorted_head in Hh as [[He' Hin']%list_elem_of_filter Hall].
    destruct (Hbest w' Hin' He') as [->|Hnb]; [done|]. by destruct Hnb; apply Hall. }
  unfold clear_bids. rewrite (Hh _ Hb1), (Hh _ Hb2), !merge_sort_Permutation, Hn. f_equal.
  apply (f_equal length) in Hv. unfold view in Hv. rewrite !length_fmap in Hv. by rewrite Hv.
Qed.
End secrecy.
