(* ===== verification/Settlement.v ===== *)
(** * The auction contract and the enclave together

    Bids and clear requests reach the enclave only as messages of the contract,
    in any order, any number of times, or not at all, and the enclave may restart
    at any moment.  Whatever it answers to a clear request, the contract can
    settle, provided the winner's nonce is one an ABI uint64 holds. *)

From S2P Require Import Prelude GoStrings Evm AuctionContract AuctionSafety AuctionProps EnclaveAbi Enclave.
From stdpp Require Import options sorting.
Set Default Proof Using "Type*".

Section market.
Context {W : Type} `{Dep : !Deployment W, Laws : !TokenLaws W, Vie : !Viem, VLaws : !ViemLaws}.
Context (clearRetentionMs : Z) (Hthis : is_address this ∧ this ≠ 0%Z).
Local Abbreviation sys := (sys Storage W event).

(** The contract, the enclave's memory, and the messages the contract has sent. *)
Record market := mkMarket {
  chain : sys;
  memory : enclave;
  bid_messages : list string;
  clear_messages : list string;
}.

Definition sent_bids (sender : address) (c : call) : list string :=
  match c with CallSubmitPrivateBid _ i enc => [bid_message i sender enc] | _ => [] end.
Definition sent_clears (st : Storage) (c : call) : list string :=
  match c with CallRequestClear _ i => [clear_message i (auction_at i st)] | _ => [] end.

Inductive market_step (m : market) : market → Prop :=
  | market_call depth now sender c s' :
      is_address sender → sender ≠ this → execute depth now sender c (chain m) = inl (tt, s') →
      market_step m (mkMarket s' (memory m) (sent_bids sender c ++ bid_messages m)
                       (sent_clears (storage (chain m)) c ++ clear_messages m))
  | market_outside w' :
      (∀ t, balance t this (world (chain m)) ≤ balance t this w')%Z → sound w' →
      market_step m (mkMarket (mkSys (storage (chain m)) w' (logs (chain m))) (memory m)
                       (bid_messages m) (clear_messages m))
  | market_bid decrypt now msg :
      msg ∈ bid_messages m →
      market_step m (mkMarket (chain m) (snd (handlePrivateBid decrypt now msg (memory m)))
                       (bid_messages m) (clear_messages m))
  | market_clear now msg :
      msg ∈ clear_messages m →
      market_step m (mkMarket (chain m) (snd (handleClear clearRetentionMs now msg (memory m)))
                       (bid_messages m) (clear_messages m))
  | market_restart : market_step m (mkMarket (chain m) resetState (bid_messages m) (clear_messages m)).

Definition market_reachable (m : market) : Prop :=
  ∃ s0, deployed s0 ∧ sound (world s0) ∧ (∀ t, 0 ≤ balance t this (world s0))%Z ∧
    rtc market_step (mkMarket s0 resetState [] []) m.

(** ** The invariant *)

(** A bidder's ceiling amount is in escrow for as long as the auction runs. *)
Definition backed (i : Z) (b : address) (st : Storage) : Prop :=
  state (auction_at i st) ≠ StateNone ∧
  (active (auction_at i st) → escrow_at i b st = maxQuoteAmount (auction_at i st)).
Definition cleared_auction (i : Z) (st : Storage) : Prop :=
  state (auction_at i st) ≠ StateNone ∧ state (auction_at i st) ≠ Open.

(** A stored bid the contract could pay for. *)
Definition bid_ok (i : Z) (st : Storage) (b : StoredBid) : Prop :=
  is_address (bid_key b) ∧ is_uint 256 (b_nonce (bid b)) ∧ is_uint 256 (b_unitPriceWei (bid b)) ∧
  len (commitment b) = 32 ∧ backed i (bid_key b) st.
(** A result the contract could settle, given its signature, if the winning nonce is
    a [uint64]. *)
Definition result_ok (i : Z) (st : Storage) (r : ClearResult) : Prop :=
  let a := auction_at i st in
  state a ≠ StateNone ∧ r_contractAddr r = this ∧ r_auctionId r = i ∧
  is_uint 256 (r_winningNonce r) ∧
  (is_uint 64 (r_winningNonce r) → ∀ signature, well_typed (CallSettleAuction i r signature)) ∧
  (r_eligibleBidCount r ≤ r_submittedBidCount r)%Z ∧
  (no_winner r ∨
   (r_winningCommitment r ≠ zero32 → has_winner r a) ∧ r_winner r ≠ 0%Z ∧ backed i (r_winner r) st).

Record market_inv (m : market) : Prop := {
  mi_chain : auction_inv (chain m);
  mi_bids : ∀ msg, msg ∈ bid_messages m → ∃ i b enc,
    msg = bid_message i b enc ∧ is_uint 256 i ∧ is_address b ∧ (Z.of_nat (len enc) ≤ MAX_ENCRYPTED_BID_BYTES)%Z ∧
    backed i b (storage (chain m));
  mi_clears : ∀ msg, msg ∈ clear_messages m → ∃ i,
    msg = clear_message i (auction_at i (storage (chain m))) ∧ cleared_auction i (storage (chain m));
  mi_wf : wf_enclave (memory m);
  mi_memory : ∀ i b, b ∈ bids_at (keyForAuction this i) (memory m) → bid_ok i (storage (chain m)) b;
  mi_cleared : ∀ i e, cleared_of (memory m) !! keyForAuction this i = Some e → ∃ r,
    c_result e = abi_clear_result r ∧ result_ok i (storage (chain m)) r;
}.

(** *** Calls keep what the enclave relies on *)

Lemma moves_terms now a a' :
  moves now a a' →
  (state a ≠ StateNone → state a' ≠ StateNone) ∧ (active a' → active a) ∧ (state a ≠ Open → state a' ≠ Open) ∧
  floorPriceWei a' = floorPriceWei a ∧ ceilingPriceWei a' = ceilingPriceWei a ∧ maxQuoteAmount a' = maxQuoteAmount a.
Proof using.
  intros [|instr Hs _|n Hs _|n k to p q Hs _|Ha _]; cbn; split_and!; try done; try (by intros []).
  by intros _; left.
Qed.
Lemma escrow_kept now sender a a' b x y :
  escrow_moves now sender a a' b x y → x = maxQuoteAmount a → active a' → y = maxQuoteAmount a.
Proof using.
  intros [|? ? ? ?|? Hs ? ?|Ht -> ? ?]; try done.
  - intros _ [|]; congruence.
  - intros _ Ha. exfalso. destruct Ht as [|[|]], Ha as [|]; congruence.
Qed.

(** An auction that exists keeps its terms, never reopens, and keeps its escrows
    while it runs. *)
Lemma call_keeps depth now sender c s s' i :
  auction_inv s → sender ≠ this → execute depth now sender c s = inl (tt, s') →
  let a := auction_at i (storage s) in let a' := auction_at i (storage s') in
  state a ≠ StateNone →
  state a' ≠ StateNone ∧ (active a' → active a) ∧ (state a ≠ Open → state a' ≠ Open) ∧
  floorPriceWei a' = floorPriceWei a ∧ ceilingPriceWei a' = ceilingPriceWei a ∧
  ∀ b, backed i b (storage s) → backed i b (storage s').
Proof.
  intros Hi Hn H a a' Hst.
  destruct (execute_effect _ _ _ _ _ _ _ (inv_wf _ Hi) (inv_unlocked _ Hi) Hn H) as (δ & st1 & He & Hs & _).
  destruct (effect_lifecycle _ _ _ _ _ _ i (inv_wf _ Hi) He) as [[Hm|[Hz _]] Hx]; [|by destruct Hst; unfold a; rewrite Hz].
  rewrite <- (auction_at_same i _ _ Hs) in Hm, Hx. fold a a' in Hm, Hx.
  destruct (moves_terms _ _ _ Hm) as (Hst' & Ha & Ho & Hf & Hc & Hq). split_and!; try done; [by apply Hst'|].
  intros b [_ Hb]. split; [by apply Hst'|]. intros Ha'. fold a' in Ha' |- *. rewrite Hq.
  assert (escrow_at i b (storage s') = escrow_at i b st1) as -> by by rewrite Hs.
  apply (escrow_kept _ _ _ _ _ _ _ (Hx b)); [|done]. by apply Hb, Ha.
Qed.

Lemma sent_backed depth now sender c s s' msg :
  auction_inv s → is_address sender → sender ≠ this → execute depth now sender c s = inl (tt, s') →
  msg ∈ sent_bids sender c →
  ∃ i b enc, msg = bid_message i b enc ∧ is_uint 256 i ∧ is_address b ∧
    (Z.of_nat (len enc) ≤ MAX_ENCRYPTED_BID_BYTES)%Z ∧ backed i b (storage s').
Proof.
  intros Hi Hsd Hn H. destruct c as [| |value i enc| | | |]; cbn [sent_bids]; try (by intros []%elem_of_nil).
  intros ->%list_elem_of_singleton. exists i, sender, enc.
  pose proof (execute_typed _ _ _ _ _ _ _ H) as Ht. apply Is_true_true, bool_decide_eq_true in Ht as [_ Hu].
  destruct (execute_effect _ _ _ _ _ _ _ (inv_wf _ Hi) (inv_unlocked _ Hi) Hn H) as (δ & st1 & He & Hs & _).
  unfold backed. rewrite (auction_at_same i _ _ Hs). assert (escrow_at i sender (storage s') = escrow_at i sender st1) as -> by by rewrite Hs.
  inversion He as [| |? ? ? Hst _ Hlen _|? ? ? Hst _ Hlen Hx| | | | |]; subst; clear He; (split_and!; [done..| |]).
  - change (auction_at i (set_escrow _ _ _ _)) with (auction_at i (storage s)). by rewrite Hst.
  - intros _. rewrite escrow_at_insert. by rewrite decide_True.
  - by rewrite Hst.
  - intros _. by destruct (owed_covers_escrow s i sender Hi Hx) as (_ & _ & ?).
Qed.

Lemma sent_cleared depth now sender c s s' msg :
  auction_inv s → sender ≠ this → execute depth now sender c s = inl (tt, s') →
  msg ∈ sent_clears (storage s) c →
  ∃ i, msg = clear_message i (auction_at i (storage s')) ∧ cleared_auction i (storage s').
Proof.
  intros Hi Hn H. destruct c as [| | |value i| | |]; cbn [sent_clears]; try (by intros []%elem_of_nil).
  intros ->%list_elem_of_singleton. exists i.
  destruct (execute_effect _ _ _ _ _ _ _ (inv_wf _ Hi) (inv_unlocked _ Hi) Hn H) as (δ & st1 & He & Hs & _).
  unfold cleared_auction. rewrite (auction_at_same i _ _ Hs). inversion He; subst; clear He.
  by rewrite auction_at_set.
Qed.

Lemma result_kept depth now sender c s s' i r :
  auction_inv s → sender ≠ this → execute depth now sender c s = inl (tt, s') →
  result_ok i (storage s) r → result_ok i (storage s') r.
Proof.
  intros Hi Hn H (Hst & Hc & Ha & Hu & Ht & Hcn & Hw).
  destruct (call_keeps _ _ _ _ _ _ i Hi Hn H Hst) as (Hst' & _ & _ & Hf & Hcl & Hb).
  split_and!; try done. destruct Hw as [Hw|(Hw & Hne & Hbk)]; [by left|right]. split_and!; [|done|by apply Hb].
  intros Hcm. unfold has_winner. rewrite Hf, Hcl. by apply Hw.
Qed.

Lemma market_call_inv m depth now sender c s' :
  market_inv m → is_address sender → sender ≠ this → execute depth now sender c (chain m) = inl (tt, s') →
  market_inv (mkMarket s' (memory m) (sent_bids sender c ++ bid_messages m)
    (sent_clears (storage (chain m)) c ++ clear_messages m)).
Proof.
  intros [Hi Hb Hc Hw Hm Hcl] Hsd Hn H. assert (∀ i, state (auction_at i (storage (chain m))) ≠ StateNone → _) as Hk
    by exact (λ i, call_keeps _ _ _ _ _ _ i Hi Hn H).
  split; cbn [chain memory bid_messages clear_messages]; try done.
  - by eapply call_inv.
  - intros msg [Hmsg|Hmsg]%elem_of_app; [by eapply sent_backed|].
    destruct (Hb msg Hmsg) as (i & b & enc & ? & ? & ? & ? & Hbk). exists i, b, enc. split_and!; try done.
    apply (Hk i); [by destruct Hbk|done].
  - intros msg [Hmsg|Hmsg]%elem_of_app; [by eapply sent_cleared|].
    destruct (Hc msg Hmsg) as (i & -> & Hst & Ho). exists i. destruct (Hk i Hst) as (Hst' & _ & Ho' & Hf & Hcc & _).
    unfold clear_message. rewrite Hf, Hcc. split; [done|]. split; [done|auto].
  - intros i b Hin. destruct (Hm i b Hin) as (? & ? & ? & ? & Hbk). split_and!; try done.
    apply (Hk i); [by destruct Hbk|done].
  - intros i e He. destruct (Hcl i e He) as (r & ? & Hr). exists r. split; [done|]. by eapply result_kept.
Qed.

(** *** The enclave's steps *)

Lemma bids_at_prune now key s : bids_at key (pruneCleared now s) = bids_at key s.
Proof using. done. Qed.

Lemma market_bid_inv m decrypt now msg :
  market_inv m → msg ∈ bid_messages m →
  market_inv (mkMarket (chain m) (snd (handlePrivateBid decrypt now msg (memory m))) (bid_messages m) (clear_messages m)).
Proof.
  intros [Hi Hb Hc Hw Hm Hcl] Hin. split; cbn [chain memory bid_messages clear_messages]; try done.
  - by apply handlePrivateBid_wf.
  - intros i b. pose proof (handlePrivateBid_spec decrypt now msg _ Hw) as Hs.
    destruct (handlePrivateBid _ _ _ _) as [r s']; cbn. destruct (is_failure r); [destruct Hs as [[->| ->] _]; auto|].
    destruct Hs as (b0 & env & pt & He & _ & Hd & Hdec & _ & Hbd & Hid & _ & _ & _ & ->). intros Hbin.
    destruct (Hb msg Hin) as (i0 & bdr & enc & -> & Hu & Ha & Hlen & Hbk). rewrite decode_envelope in He by done.
    injection He as <-. cbn in Hbd, Hid. unfold bids_at in Hbin. cbn [bids_of] in Hbin.
    destruct (decide (keyForAuction (b_contractAddr b0) (b_auctionId b0) = keyForAuction this i)) as [Hk|Hk];
      [|rewrite lookup_insert_ne in Hbin by done; by apply Hm].
    rewrite Hk, lookup_insert_eq in Hbin. cbn [default] in Hbin.
    apply map_set_elem in Hbin as [->|[Hbin _]]; [| |by apply bids_at_wf]; [|by apply Hm].
    injection Hk as _ Hi0. destruct (decode_bid _ _ Hdec) as (_ & _ & _ & ? & ?).
    unfold bid_ok, bid_key. cbn. rewrite Hbd. split_and!; try done; [apply keccak_length|]. congruence.
  - intros i e. pose proof (handlePrivateBid_spec decrypt now msg _ Hw) as Hs.
    destruct (handlePrivateBid _ _ _ _) as [r s']; cbn. destruct (is_failure r).
    + destruct Hs as [[->| ->] _]; [apply Hcl|]. intros [He _]%pruned_lookup. by apply Hcl.
    + destruct Hs as (b0 & env & pt & _ & _ & _ & _ & _ & _ & _ & _ & _ & _ & ->).
      intros [He _]%pruned_lookup. by apply Hcl.
Qed.

Lemma to_nat_le l n : (0 ≤ n)%Z → l ≤ Z.to_nat n → (Z.of_nat l ≤ n)%Z.
Proof using. lia. Qed.

(** Distinct bidders are no more than there are addresses. *)
Lemma bidders_bounded (bids : list StoredBid) :
  NoDup (bid_key <$> bids) → (∀ b, b ∈ bids → is_address (bid_key b)) → is_uint 256 (Z.of_nat (length bids)).
Proof using.
  intros Hn Ha. split; [lia|]. rewrite <- (length_fmap bid_key).
  assert ((bid_key <$> bids) ⊆+ seqZ 0 (2 ^ 160)) as Hsub.
  { apply NoDup_submseteq; [done|]. intros k (b & -> & Hb)%list_elem_of_fmap. apply elem_of_seqZ.
    specialize (Ha b Hb). unfold is_address in Ha. lia. }
  apply submseteq_length in Hsub. rewrite length_seqZ in Hsub.
  apply to_nat_le in Hsub; [|done]. by apply Z.le_lt_trans with (2 ^ 160)%Z.
Qed.

Lemma filter_nil_all (P : StoredBid → Prop) `{!∀ b, Decision (P b)} bids :
  (∀ b, b ∈ bids → ¬ P b) → filter P bids = [].
Proof using.
  intros Hno. destruct (filter P bids) as [|b l] eqn:Hf; [done|]. exfalso.
  assert (b ∈ filter P bids) as Hb by (rewrite Hf; by left). apply list_elem_of_filter in Hb as [Hp Hb]. by eapply Hno.
Qed.

(** The result of clearing backed bids is one the contract takes. *)
Lemma clear_bids_ok i (s : sys) bids f p :
  state (auction_at i (storage s)) ≠ StateNone → is_uint 256 i →
  f = floorPriceWei (auction_at i (storage s)) → p = ceilingPriceWei (auction_at i (storage s)) →
  NoDup (bid_key <$> bids) → Forall (filed (keyForAuction this i)) bids →
  (∀ b, b ∈ bids → bid_ok i (storage s) b) →
  result_ok i (storage s) (clear_bids (mkClearMessage i this f p) bids).
Proof.
  intros Hst Hu -> -> Hnd Hf Hok.
  assert (∀ b, b ∈ bids → is_address (bid_key b)) as Hadr by (intros b Hb; by apply Hok).
  pose proof (bidders_bounded bids Hnd Hadr) as Hlen.
  set (msg := mkClearMessage _ _ _ _). set (r := clear_bids msg bids).
  assert (r_eligibleBidCount r = Z.of_nat (length (filter (eligible (m_floorPriceWei msg) (m_ceilingPriceWei msg)) bids))) as He.
  { unfold r, clear_bids. cbn. by rewrite merge_sort_Permutation. }
  assert (r_eligibleBidCount r ≤ r_submittedBidCount r)%Z as Hle 
    by (rewrite He; apply inj_le, length_filter).
  pose proof (clear_bids_winner msg _ bids Hnd Hf) as Hwin. cbv zeta in Hwin. fold r in Hwin.
  assert (0 ≤ r_eligibleBidCount r)%Z as He0 by (rewrite He; lia).
  assert (is_uint 256 (r_eligibleBidCount r) ∧ is_uint 256 (r_submittedBidCount r)) as [Hu1 Hu2].
  { unfold is_uint in *. cbn in *. lia. }
  assert (∀ signature, is_address (r_winner r) → is_uint 256 (r_unitPriceWei r) → is_uint 64 (r_winningNonce r) →
    len (r_winningCommitment r) = 32 → well_typed (CallSettleAuction i r signature)) as Hty.
  { intros sg ? ? ? ?. apply Is_true_true, bool_decide_eq_true. by destruct Hthis. }
  split; [done|]. split; [done|]. split; [done|].
  destruct Hwin as [(Hno & Hw & Hp & Hn & Hc)|(w & Hin & Hcol & Hw & Hw0 & Hp & Hn & Hc & _)].
  - split; [by rewrite Hn|]. split; [intros ? sg; apply Hty; by rewrite ?Hw, ?Hp, ?Hn, ?Hc|split; [done|left]].
    split_and!; try done. rewrite He. rewrite (filter_nil_all _ bids); [done|exact Hno].
  - destruct (Hok w Hin) as (? & ? & ? & ? & Hbk).
    split; [by rewrite Hn|]. split; [intros ? sg; apply Hty; by rewrite ?Hw, ?Hp, ?Hc|split; [done|right]].
    split_and!; [|done|by rewrite Hw]. intros Hcm. split_and!; try done; rewrite ?Hp, ?Hn; [apply Hcol..| |].
    + apply (Forall_forall _ bids) with w in Hf as [Hv _]; [|done]. revert Hv. unfold validateBid.
      repeat (case_decide; [done|]). lia.
    + intros Hz. rewrite He in Hz. assert (w ∈ filter (eligible (m_floorPriceWei msg) (m_ceilingPriceWei msg)) bids) as Hwin
        by by apply list_elem_of_filter.
      apply length_zero_iff_nil in Hz as Hnil || (assert (length (filter (eligible (m_floorPriceWei msg) (m_ceilingPriceWei msg)) bids) = 0) as Hnil%length_zero_iff_nil by lia).
      rewrite Hnil in Hwin. by apply not_elem_of_nil in Hwin.
Qed.

(** How the enclave reads the contract's clear request. *)
Lemma clear_request_read m i :
  market_inv m → let a := auction_at i (storage (chain m)) in state a ≠ StateNone →
  let msg := mkClearMessage i this (floorPriceWei a) (ceilingPriceWei a) in
  decodeClearMessage (clear_message i a) = Ok msg ∧ is_uint 256 i ∧ (1 ≤ i)%Z ∧
  (1 ≤ m_floorPriceWei msg ≤ m_ceilingPriceWei msg)%Z.
Proof.
  intros [Hi _ _ _ _ _] a Hst msg. pose proof (inv_wf _ Hi) as Hw.
  assert (is_uint 256 i) as Hu by by eapply known_uint. pose proof (wf_at i _ Hw Hst) as [_ _ _ _ Hcol Hmax _ _ _ _]. fold a in Hcol, Hmax.
  apply auction_found in Hst. destruct (wf_auctions _ Hw _ _ Hst) as [Hi1 _].
  assert (MAX_COMPONENT < 2 ^ 256)%Z by done.
  split_and!; [apply decode_clear; [done|apply Hthis|unfold is_uint; lia..]|apply Hu..|lia|cbn; lia|cbn; lia].
Qed.

(** The result it answers with: the one it remembers, or that of the bids it has. *)
Definition result_of (m : market) (i : Z) (r : ClearResult) : Prop :=
  let a := auction_at i (storage (chain m)) in let key := keyForAuction this i in
  (∃ e, cleared_of (memory m) !! key = Some e ∧ c_result e = abi_clear_result r) ∨
  r = clear_bids (mkClearMessage i this (floorPriceWei a) (ceilingPriceWei a)) (bids_at key (memory m)).

(** What it answers, and what it remembers then. *)
Lemma clear_request_answered m i now :
  market_inv m → let a := auction_at i (storage (chain m)) in state a ≠ StateNone →
  ∃ r, result_ok i (storage (chain m)) r ∧ result_of m i r ∧
    let '(answer, s') := handleClear clearRetentionMs now (clear_message i a) (memory m) in
    (answer = Ok (Success (abi_clear_result r)) ∨ is_ok (encodeClearResult r) = false ∧ is_ok answer = false) ∧
    wf_enclave s' ∧ (∀ key b, b ∈ bids_at key s' → b ∈ bids_at key (memory m)) ∧
    (∀ key e, cleared_of s' !! key = Some e →
       cleared_of (memory m) !! key = Some e ∨ key = keyForAuction this i ∧ c_result e = abi_clear_result r).
Proof.
  intros Hm a Hst. destruct (clear_request_read m i Hm Hst) as (Hdec & Hu & Hi1 & Hcol). fold a in Hdec, Hcol.
  destruct Hm as [Hi _ _ Hw Hmem Hcl].
  destruct (handleClear_valid clearRetentionMs now _ (memory m) _ Hdec Hi1 (proj2 Hthis) Hcol) as [Hold Hnew].
  cbn [m_contractAddr m_auctionId] in *.
  assert (∀ key e, cleared_of (pruneCleared now (memory m)) !! key = Some e → cleared_of (memory m) !! key = Some e) as Hpr
    by (intros key e; by intros [He _]%pruned_lookup).
  destruct (cleared_of (pruneCleared now (memory m)) !! keyForAuction this i) as [e|] eqn:He.
  { apply Hpr in He. destruct (Hcl i e He) as (r & Hre & Hr). exists r. rewrite (Hold e eq_refl), Hre.
    split_and!; try done; [left; by exists e|by left|by apply wf_prune|by eauto]. }
  destruct (bids_at_wf (keyForAuction this i) _ Hw) as [Hnd Hf].
  eexists. split; [apply (clear_bids_ok i (chain m)); try done; apply Hmem|]. split; [by right|].
  rewrite (Hnew eq_refl). destruct (encodeClearResult _) as [data|err] eqn:Henc.
  - apply encode_clear in Henc as ->. split_and!; [by left|by apply wf_cleared|..].
    + intros key b. unfold bids_at. cbn [bids_of]. destruct (decide (keyForAuction this i = key)) as [<-|Hne].
      * rewrite lookup_delete_eq. by intros []%elem_of_nil.
      * by rewrite lookup_delete_ne.
    + intros key e. cbn [cleared_of]. intros [[<- <-]|[_ Hl]]%lookup_insert_Some; [by right|by eauto].
  - split_and!; [by right|by apply wf_prune|done|by eauto].
Qed.

Lemma market_clear_inv m now msg :
  market_inv m → msg ∈ clear_messages m →
  market_inv (mkMarket (chain m) (snd (handleClear clearRetentionMs now msg (memory m))) (bid_messages m) (clear_messages m)).
Proof.
  intros Hm Hin. destruct (mi_clears _ Hm msg Hin) as (i & -> & Hst & _).
  destruct (clear_request_answered m i now Hm Hst) as (r & Hr & _ & H).
  destruct (handleClear _ _ _ _) as [answer s']. destruct H as (_ & Hw' & Hb' & Hc').
  destruct Hm as [Hi Hb Hc Hw Hmem Hcl]. split; cbn [chain memory bid_messages clear_messages snd]; try done.
  - intros j b Hin'. by apply Hmem, Hb'.
  - intros j e [He|[[= ->] He]]%Hc'; [by apply Hcl|]. by exists r.
Qed.

Lemma market_reachable_inv m : market_reachable m → market_inv m.
Proof.
  intros (s0 & Hd & Hso & Hb & Hs). remember (mkMarket s0 resetState [] []) as m0 eqn:Hm0.
  assert (market_inv m0) as Hi.
  { subst. split; cbn; try (by intros ? []%elem_of_nil).
    - by apply deployed_inv.
    - split. intros key bids. cbn. by rewrite lookup_empty.
    - intros i b. unfold bids_at. cbn. by intros []%elem_of_nil.
    - intros i e. by rewrite lookup_empty. }
  clear Hm0 Hd Hso Hb. induction Hs as [m|m m1 m' Hstep Hs IH]; [done|]. apply IH. clear IH Hs.
  destruct Hstep as [depth now sender c s' ? ? ?|w' Hb Hso|decrypt now msg ?|now msg ?|].
  - by eapply market_call_inv.
  - destruct Hi as [[Hu Hw Hv _] ? ? ? ? ?]. split; try done. split; [done..| |done].
    intros t. specialize (Hv t). specialize (Hb t). cbn in *. lia.
  - by apply market_bid_inv.
  - by apply market_clear_inv.
  - destruct Hi as [? ? ? ? ? ?]. split; cbn [chain memory bid_messages clear_messages]; try done.
    intros i b. unfold bids_at. cbn. by intros []%elem_of_nil.
Qed.

(** Words that differ make results that differ. *)
Lemma abi_result_nonce r r' :
  abi_clear_result r = abi_clear_result r' → is_uint 256 (r_winningNonce r) → is_uint 256 (r_winningNonce r') →
  r_winningNonce r = r_winningNonce r'.
Proof using.
  intros Heq Hr Hr'. apply (f_equal (str_take 32 ∘ str_drop 128)) in Heq.
  rewrite <- (big_endian_word _ Hr), <- (big_endian_word _ Hr'). by apply (f_equal big_endian) in Heq.
Qed.

(** The answer to a clear request, and what the contract does with it. *)
Definition settles_with (m : market) (i : Z) (r : ClearResult) : Prop :=
  let a := auction_at i (storage (chain m)) in
  ∀ depth now relayer signature,
    recovers (action_digest (abi_clear_result r) (clearInstructionId a)) signature (teeId a) →
    (now ≤ settleDeadline a)%Z → (r_winner r = 0%Z ∨ r_winningCommitment r ≠ zero32) →
    ∃ s', execute (S depth) now relayer (CallSettleAuction i r signature) (chain m) = inl (tt, s').
Lemma answer_settles `{!TokenPays W} (m : market) (i clock : Z) :
  market_inv m →
  let a := auction_at i (storage (chain m)) in
  state a = ClearRequested → clearInstructionId a ≠ zero32 →
  let answer := fst (handleClear clearRetentionMs clock (clear_message i a) (memory m)) in
  ∃ r, result_of m i r ∧ (r_winner r ≠ 0%Z → escrow_at i (r_winner r) (storage (chain m)) = maxQuoteAmount a) ∧
    (is_uint 64 (r_winningNonce r) → answer = Ok (Success (abi_clear_result r)) ∧ settles_with m i r) ∧
    (¬ is_uint 64 (r_winningNonce r) → ∀ data, answer = Ok (Success data) →
       ∀ r' signature, well_typed (CallSettleAuction i r' signature) → data ≠ abi_clear_result r').
Proof.
  intros Hm a Hst Hinstr. assert (state a ≠ StateNone) as Hne by by rewrite Hst.
  destruct (clear_request_answered m i clock Hm Hne) as (r & (_ & Hc & Ha & Hu & Hty & Hle & Hw) & Hof & Hans).
  fold a in Hans. destruct (handleClear _ _ _ _) as [answer s']. destruct Hans as (Hans & _). cbn [fst].
  exists r. assert (active a) as Hact by by right. split_and!; [done| | |].
  - intros Hz. destruct Hw as [[? _]|(_ & _ & Hb)]; [done|by apply Hb].
  - intros H64. split.
    { destruct Hans as [Hans|[He _]]; [done|]. by rewrite (encode_clear_typed r "") in He by (rewrite Ha; by apply Hty). }
    intros depth now relayer signature Hsig Hnow Hcm.
    assert (verified now i r signature a) as Hv by (split; eauto).
    pose proof (mi_chain _ Hm) as Hi. destruct Hw as [Hw|(Hw & Hz & _ & Hb)].
    + eapply settle_nofill_run; eauto.
    + eapply settle_fill_run; [done|by apply Hty|exact Hv|apply Hw; tauto|by apply Hb].
  - intros H64 data Hd r' signature Hty' Hr'. apply H64.
    destruct Hans as [Hans|[_ Hans]]; [|by rewrite Hd in Hans].
    assert (abi_clear_result r = abi_clear_result r') as Heq by congruence.
    apply Is_true_true, bool_decide_eq_true in Hty' as (_ & _ & _ & _ & _ & Hn & _).
    rewrite (abi_result_nonce r r' Heq Hu); [done|]. by apply (is_uint_mono 64 256).
Qed.

(** ** Properties *)

(** C2: the enclave's answer settles the auction.  Whatever bids were sent,
    delivered, dropped or delivered twice, and however often the enclave restarted:
    for an auction whose clear was requested, the enclave's result is the one it
    remembers or the one of the bids it has, and its winner always has the ceiling
    amount in escrow, since a bid only gets in under its bidder's own name.  If the
    winning bid's nonce is a uint64, the enclave answers the contract's clear
    request with the encoding of that result, and the contract, handed it by anyone
    with the pinned TEE's signature over it before the settlement deadline,
    settles.  If it is not, no answer of the enclave is one the contract can read. *)
Theorem cleared_result_settles `{!TokenPays W} (m : market) (i clock : Z) :
  market_reachable m →
  let a := auction_at i (storage (chain m)) in
  state a = ClearRequested → clearInstructionId a ≠ zero32 →
  let answer := fst (handleClear clearRetentionMs clock (clear_message i a) (memory m)) in
  ∃ r, result_of m i r ∧ (r_winner r ≠ 0%Z → escrow_at i (r_winner r) (storage (chain m)) = maxQuoteAmount a) ∧
    (is_uint 64 (r_winningNonce r) → answer = Ok (Success (abi_clear_result r)) ∧ settles_with m i r) ∧
    (¬ is_uint 64 (r_winningNonce r) → ∀ data, answer = Ok (Success data) →
       ∀ r' signature, well_typed (CallSettleAuction i r' signature) → data ≠ abi_clear_result r').
Proof. intros Hm%market_reachable_inv. by apply answer_settles. Qed.
End market.
