(* ===== verification/EnclaveServer.v ===== *)
(** * The auction enclave as it runs: typescript/src/main.ts and app/handlers.ts on the server

    The handlers of [Enclave] registered with the server of [TsServer] and queued as in
    [TsQueue]; and the way from an instruction of the contract through the wire format
    and the queue to the result the contract settles. *)

From S2P Require Import Prelude GoStrings GoText Json Js Evm AuctionContract AuctionSafety AuctionProps EnclaveAbi Enclave Settlement.
From S2P Require Import Base64 TsServer NodeClient TsQueue.
From stdpp Require Import options.
Set Default Proof Using "Type*".

(** ** app/config.ts *)

Definition VERSION : string := "0.1.0".
Definition QF_TYPE_TEXT : string := "QUIETFILL".
Definition QF_PRIVATE_BID_TEXT : string := "QF_PRIVATE_BID".
Definition QF_CLEAR_TEXT : string := "QF_CLEAR".

(** ** app/handlers.ts *)

(** What a handler call sees of the outside: the node's answer to its decryption, and
    the clock. *)
Record call_env := mkEnv { node_decrypt : string → result string; Date_now : Z }.

(** The node's client, and what a handler call sees when one of its requests comes to
    [fetch]. *)
Definition decryptor `{!NodeEngine} (SIGN_PORT : option string) : NodeClient :=
  new_NodeClient (default "9090" SIGN_PORT) None.
Definition env_of `{!JsEngine, !NodeEngine} (SIGN_PORT : option string) (f : fetch) (now : Z) : call_env :=
  mkEnv (decrypt (decryptor SIGN_PORT) f) now.

(** viem reads a message from what the JSON held. *)
Class ViemInput := { viem_bytes : json → result string }.
Class ViemInputLaws `{!ViemInput} := { viem_bytes_hex b : viem_bytes (JStr (bytesToHex b)) = Ok b }.

Section enclave_server.
Context `{Eng : !JsEngine, Vie : !Viem, In : !ViemInput} (clearRetentionMs : Z).

(** The triple [[data, status, error]] *)
Definition handler_result (r : Enclave.HandlerResult) : TsServer.HandlerResult :=
  match r with
  | Success data => mkHandlerResult (Some (bytesToHex data)) 1 None
  | Failure message => mkHandlerResult None 0 (Some message)
  end.
Definition handler_promise (r : result Enclave.HandlerResult) : result TsServer.HandlerResult :=
  match r with Ok r => Ok (handler_result r) | Err e => Err e end.
Definition private_bid_handler : HandlerFunc call_env enclave := λ env msg s,
  match viem_bytes msg with
  | Err e => (handler_promise (failure ("decoding bid envelope: " +:+ err_text e)), s)
  | Ok m => let '(r, s') := handlePrivateBid (node_decrypt env) (Date_now env) m s in (handler_promise r, s')
  end.
Definition clear_handler : HandlerFunc call_env enclave := λ env msg s,
  match viem_bytes msg with
  | Err e => (handler_promise (failure ("decoding clear request: " +:+ err_text e)), s)
  | Ok m => let '(r, s') := handleClear clearRetentionMs (Date_now env) m s in (handler_promise r, s')
  end.

Definition register (f : Framework call_env enclave) : result (Framework call_env enclave) :=
  match register_handler f QF_TYPE_TEXT QF_PRIVATE_BID_TEXT private_bid_handler with
  | Err e => Err e
  | Ok f => register_handler f QF_TYPE_TEXT QF_CLEAR_TEXT clear_handler
  end.
Definition report_state (s : enclave) : json := JObj [("pricesExposed", JBool false); ("bidsExposed", JBool false)].

(** main.ts: the server, which the constructor cannot fail to make. *)
Definition main_server : result (Server call_env enclave) := new_Server VERSION register report_state.
Definition enclave_srv : Server call_env enclave :=
  mkServer VERSION (bytesToHex (bytes32_literal VERSION))
    [(bytesToHex OP_TYPE_QUIETFILL, bytesToHex OP_COMMAND_PRIVATE_BID, private_bid_handler);
     (bytesToHex OP_TYPE_QUIETFILL, bytesToHex OP_COMMAND_CLEAR, clear_handler)] report_state.
Lemma main_server_ok : main_server = Ok enclave_srv.
Proof using.
  assert (stringToBytes32Hex VERSION = Ok (bytesToHex (bytes32_literal VERSION))) as Hv by (vm_compute; reflexivity).
  assert (stringToBytes32Hex QF_TYPE_TEXT = Ok (bytesToHex OP_TYPE_QUIETFILL)) as Ht by (vm_compute; reflexivity).
  assert (stringToBytes32Hex QF_PRIVATE_BID_TEXT = Ok (bytesToHex OP_COMMAND_PRIVATE_BID)) as Hb by (vm_compute; reflexivity).
  assert (stringToBytes32Hex QF_CLEAR_TEXT = Ok (bytesToHex OP_COMMAND_CLEAR)) as Hc by (vm_compute; reflexivity).
  unfold main_server, new_Server, register, register_handler. by rewrite Hv, Ht, Hb, Hc.
Qed.

(** ** An instruction on the wire *)

(** The body is an action whose message is the instruction: its identifier, the tag of
    the submission, and the three fields the contract gave it. *)
Definition carries (body id tag opType opCommand message : string) : Prop :=
  ∃ data df, decoded body data df ∧
    prop "id" data = Some (JStr id) ∧ prop "submissionTag" data = Some (JStr tag) ∧
    prop "opType" df = Some (JStr (bytesToHex opType)) ∧ prop "opCommand" df = Some (JStr (bytesToHex opCommand)) ∧
    prop "originalMessage" df = Some (JStr (bytesToHex message)).

(** The answer to it. *)
Definition instruction_result (id tag opType opCommand : string) (r : Enclave.HandlerResult) : json :=
  JObj [("id", JStr id); ("submissionTag", JStr tag);
        ("status", JInt (match r with Success _ => 1 | Failure _ => 0 end));
        ("log", JStr (match r with Success _ => "ok" | Failure "" => "error: unknown" | Failure m => "error: " +:+ m end));
        ("opType", JStr (bytesToHex opType)); ("opCommand", JStr (bytesToHex opCommand));
        ("additionalResultStatus", JStr "0x"); ("version", JStr VERSION);
        ("data", JStr (match r with Success data => bytesToHex data | Failure _ => "0x" end))].

Lemma carries_plan body id tag opType opCommand message h :
  carries body id tag opType opCommand message →
  lookup_handler (framework enclave_srv) (Some (JStr (bytesToHex opType))) (Some (JStr (bytesToHex opCommand))) = Ok h →
  processAction enclave_srv body =
    match h with
    | None => Answer (501%Z, Text "unsupported op type")
    | Some h => CallHandler h (JStr (bytesToHex message)) (λ r, Ok (200%Z, Json
        (JObj [("id", JStr id); ("submissionTag", JStr tag); ("status", JInt (h_status r)); ("log", JStr (action_log r));
               ("opType", JStr (bytesToHex opType)); ("opCommand", JStr (bytesToHex opCommand));
               ("additionalResultStatus", JStr "0x"); ("version", JStr VERSION);
               ("data", JStr (default "0x" (h_data r)))])))
    end.
Proof using.
  intros (data & df & (action & m & Ha & Hl & -> & Hm & Hdf & Hld) & Hid & Htag & Ht & Hc & Ho) Hh.
  unfold processAction. rewrite Ha, Hl, Hm, Hdf, Hld, Ht, Hc. cbn [nullish]. rewrite Hh. destruct h as [h|]; [|done].
  rewrite Ho. cbn [nullish]. unfold log_and_answer, action_result. by rewrite Hid, Htag, Ht, Hc.
Qed.

Lemma normalize_hex b : normalize (Some (JStr (bytesToHex b))) = Ok (bytesToHex b).
Proof using.
  unfold normalize. cbn [truthy]. rewrite bool_decide_true by done. unfold bytesToHex. rewrite toLowerCase_hex.
  by rewrite (proj2 (has_prefix_true _ "0x")) by by exists (hex_encode b).
Qed.
#[local] Instance bytesToHex_inj : Inj (=) (=) bytesToHex.
Proof using. exact hex_0x_inj. Qed.

(** The handler an instruction reaches. *)
Definition route (opType opCommand : string) : option (HandlerFunc call_env enclave) :=
  if decide (opType = OP_TYPE_QUIETFILL ∧ opCommand = OP_COMMAND_PRIVATE_BID) then Some private_bid_handler
  else if decide (opType = OP_TYPE_QUIETFILL ∧ opCommand = OP_COMMAND_CLEAR) then Some clear_handler
  else None.
Lemma first_match_cons t c t1 c1 h (f : Framework call_env enclave) :
  first_match t c ((t1, c1, h) :: f) = if decide (t1 = t ∧ c1 = c) then Some h else first_match t c f.
Proof using.
  unfold first_match. cbn [list_find fst snd]. repeat case_decide; try done; try tauto.
  by destruct (list_find _ f) as [[]|].
Qed.
Lemma lookup_route opType opCommand :
  lookup_handler (framework enclave_srv) (Some (JStr (bytesToHex opType))) (Some (JStr (bytesToHex opCommand))) =
  Ok (route opType opCommand).
Proof using.
  unfold lookup_handler. rewrite !normalize_hex. f_equal. cbn [framework enclave_srv]. rewrite !first_match_cons.
  assert (bytesToHex OP_COMMAND_PRIVATE_BID ≠ EMPTY_BYTES32 ∧ bytesToHex OP_COMMAND_CLEAR ≠ EMPTY_BYTES32) as [Hb Hc]
    by by_decide.
  assert (∀ c, bytesToHex OP_TYPE_QUIETFILL = bytesToHex opType ∧ bytesToHex c = bytesToHex opCommand ↔
    opType = OP_TYPE_QUIETFILL ∧ opCommand = c) as Hi.
  { intros c. split; [intros [?%(inj bytesToHex) ?%(inj bytesToHex)]; done|intros [-> ->]; done]. }
  rewrite !(decide_ext _ _ _ _ (Hi _)). unfold route. repeat case_decide; try done; tauto.
Qed.
Lemma plan_route raw id tag opType opCommand message :
  carries (utf8_decode raw) id tag opType opCommand message →
  serve_plan enclave_srv "POST" "/action" (Some raw) =
    match route opType opCommand with
    | None => Answer (501%Z, Text "unsupported op type")
    | Some h => CallHandler h (JStr (bytesToHex message)) (λ r, Ok (200%Z, Json
        (JObj [("id", JStr id); ("submissionTag", JStr tag); ("status", JInt (h_status r)); ("log", JStr (action_log r));
               ("opType", JStr (bytesToHex opType)); ("opCommand", JStr (bytesToHex opCommand));
               ("additionalResultStatus", JStr "0x"); ("version", JStr VERSION);
               ("data", JStr (default "0x" (h_data r)))])))
    end.
Proof using. intros Hc. by apply (carries_plan _ _ _ _ _ _ _ Hc (lookup_route _ _)). Qed.

(** The bytes of the answer to an instruction. *)
Definition instruction_response (id tag opType opCommand : string) (r : Enclave.HandlerResult) : http_response :=
  mkHttpResponse 200 "application/json" (JSON_stringify (instruction_result id tag opType opCommand r)).
(** An exception of the handler has no answer. *)
Definition respond_with (id tag opType opCommand : string) (r : result Enclave.HandlerResult) : result http_response :=
  match r with Ok r => Ok (instruction_response id tag opType opCommand r) | Err e => Err e end.
(** The handler of [Enclave] that an instruction runs. *)
Definition run_instruction (opCommand : string) (env : call_env) (message : string) (s : enclave) :
    option (result Enclave.HandlerResult * enclave) :=
  if decide (opCommand = OP_COMMAND_PRIVATE_BID) then Some (handlePrivateBid (node_decrypt env) (Date_now env) message s)
  else if decide (opCommand = OP_COMMAND_CLEAR) then Some (handleClear clearRetentionMs (Date_now env) message s)
  else None.

Lemma result_json id tag opType opCommand r :
  JObj [("id", JStr id); ("submissionTag", JStr tag); ("status", JInt (h_status (handler_result r)));
        ("log", JStr (action_log (handler_result r))); ("opType", JStr (bytesToHex opType));
        ("opCommand", JStr (bytesToHex opCommand)); ("additionalResultStatus", JStr "0x"); ("version", JStr VERSION);
        ("data", JStr (default "0x" (h_data (handler_result r))))] = instruction_result id tag opType opCommand r.
Proof using. by destruct r as [data|[|c m]]. Qed.

Context `{InL : !ViemInputLaws}.
Lemma serve_instruction raw id tag opType opCommand message env s :
  carries (utf8_decode raw) id tag opType opCommand message →
  serve enclave_srv "POST" "/action" (Some raw) env s =
  match (if decide (opType = OP_TYPE_QUIETFILL) then run_instruction opCommand env message s else None) with
  | Some (r, s') => (respond_with id tag opType opCommand r, s')
  | None => (Ok (mkHttpResponse 501 "text/plain" "unsupported op type"), s)
  end.
Proof.
  intros Hc. unfold serve. rewrite (plan_route _ _ _ _ _ _ Hc). unfold route, run_instruction.
  repeat case_decide; try done; try tauto.
  - cbn [run_plan]. unfold private_bid_handler. rewrite viem_bytes_hex.
    destruct (handlePrivateBid _ _ _ _) as [[r|e] s']; [|done]. unfold respond_with, instruction_response. by rewrite <- result_json.
  - cbn [run_plan]. unfold clear_handler. rewrite viem_bytes_hex.
    destruct (handleClear _ _ _ _) as [[r|e] s']; [|done]. unfold respond_with, instruction_response. by rewrite <- result_json.
Qed.
End enclave_server.

(** ** From the contract to the queue and back *)

Section wire.
Context {W : Type} `{Dep : !Deployment W, Laws : !TokenLaws W, Vie : !Viem, VLaws : !ViemLaws}.
Context `{Eng : !JsEngine, In : !ViemInput, InL : !ViemInputLaws}.
Context (clearRetentionMs : Z) (Hthis : is_address this ∧ this ≠ 0%Z).
Local Abbreviation srv := (enclave_srv clearRetentionMs).
Local Abbreviation market := (@Settlement.market W).

(** A queued call that came with a message of the contract, or a read of the state. *)
Definition delivers (m : market) (p : plan call_env enclave) : Prop :=
  match p with
  | ReportState _ => True
  | CallHandler h msg _ => ∃ x, msg = JStr (bytesToHex x) ∧
      (h = private_bid_handler ∧ x ∈ bid_messages m ∨ h = clear_handler clearRetentionMs ∧ x ∈ clear_messages m)
  | _ => False
  end.
Definition with_memory (m : market) (s : enclave) : market :=
  mkMarket (chain m) s (bid_messages m) (clear_messages m).

(** The instructions the contract sent are such calls. *)
Lemma contract_delivers m raw id tag opCommand message :
  carries (utf8_decode raw) id tag OP_TYPE_QUIETFILL opCommand message →
  (opCommand = OP_COMMAND_PRIVATE_BID ∧ message ∈ bid_messages m) ∨
  (opCommand = OP_COMMAND_CLEAR ∧ message ∈ clear_messages m) →
  delivers m (serve_plan srv "POST" "/action" (Some raw)).
Proof using.
  intros Hc Hm. rewrite (plan_route _ _ _ _ _ _ _ Hc). unfold route.
  destruct Hm as [[-> Hm]|[-> Hm]].
  - rewrite decide_True by done. cbn. eauto.
  - rewrite decide_False by (by intros [_ ?]). rewrite decide_True by done. cbn. eauto.
Qed.

(** One call is one step of the market. *)
Lemma delivers_step m p env s :
  delivers m p →
  rtc (market_step clearRetentionMs) (with_memory m s) (with_memory m (run_plan srv p env s).2).
Proof using InL.
  destruct p as [a|e|h msg fin|fin]; cbn [delivers]; [done|done| |done]. intros (x & -> & Hx). cbn [run_plan].
  destruct Hx as [[-> Hx]|[-> Hx]].
  - unfold private_bid_handler. rewrite viem_bytes_hex.
    pose proof (market_bid clearRetentionMs (with_memory m s) (node_decrypt env) (Date_now env) x Hx) as Hstep.
    cbn [with_memory Settlement.memory] in Hstep. destruct (handlePrivateBid _ _ _ _) as [[r|e] s']; cbn [handler_promise].
    all: by apply rtc_once.
  - unfold clear_handler. rewrite viem_bytes_hex.
    pose proof (market_clear clearRetentionMs (with_memory m s) (Date_now env) x Hx) as Hstep.
    cbn [with_memory Settlement.memory] in Hstep. destruct (handleClear _ _ _ _) as [[r|e] s']; cbn [handler_promise].
    all: by apply rtc_once.
Qed.
Lemma replay_market m calls s :
  Forall (λ c, delivers m c.1.2) calls →
  rtc (market_step clearRetentionMs) (with_memory m s) (with_memory m (replay srv s calls).2).
Proof using InL.
  intros Hc. revert s. induction Hc as [|[[t p] env] calls Hp _ IH]; intros s; [done|]. cbn [replay].
  pose proof (delivers_step m p env s Hp) as Hstep. destruct (run_plan srv p env s) as [r s1]. cbn [snd] in Hstep.
  specialize (IH s1). destruct (replay srv s1 calls) as [rs s2]. cbn [snd] in *. by etrans.
Qed.

(** The memory between calls is that of the calls so far, one after the other. *)
Lemma idle_replay m l :
  rtc (loop_step srv) (loop_start resetState) l →
  (∀ t r, runs l !! t = Some r → delivers m (todo r) ∧ ∀ env s, progress r ≠ Invoked env s) →
  ∃ calls, TsQueue.memory l = (replay srv resetState calls).2 ∧ Forall (λ c, delivers m c.1.2) calls.
Proof using.
  intros Hl Hruns. destruct (serialized_steps _ _ _ _ _ _ _ (serialized_start srv resetState) Hl)
    as (order & calls & current & Hs). cbn [app] in Hs. exists calls. split.
  - pose proof (ser_current _ _ _ _ _ _ Hs) as Hc. destruct current as [|t [|]]; [done| |done].
    destruct Hc as (r & env & Hr & Hp). by destruct (proj2 (Hruns t r Hr) _ _ Hp).
  - apply Forall_forall. intros [[t p] env] [j Hj]%list_elem_of_lookup. cbn [fst snd].
    assert (is_Some ((replay srv resetState calls).1 !! j)) as [res Hres].
    { apply lookup_lt_is_Some. rewrite replay_length. by eapply lookup_lt_Some. }
    destruct (ser_settled _ _ _ _ _ _ Hs _ _ _ _ _ Hj Hres) as (r & Hr & <- & _). by apply (Hruns t r).
Qed.

(** The calls so far are steps of the market. *)
Lemma replay_reachable m calls :
  market_reachable clearRetentionMs m → Forall (λ c, delivers m c.1.2) calls →
  market_reachable clearRetentionMs (with_memory m (replay srv resetState calls).2).
Proof using InL.
  intros (s0 & Hdep & Hso & Hb & Hrun) Hd. exists s0. split_and!; [done|done|done|].
  etrans; [exact Hrun|]. eapply rtc_l; [apply market_restart|]. by apply (replay_market m calls resetState).
Qed.

(** *** Bids whose receipt cannot be written *)

(** viem checks the range of what it encodes. *)
Lemma accepted_range `{!ViemRangeChecks} decrypt now message b r s s' :
  bid_accepted decrypt now message b r s s' → is_ok r = true ↔ is_uint 64 (b_nonce b).
Proof.
  intros (env & pt & _ & _ & _ & Hb & _ & _ & _ & _ & _ & -> & _).
  destruct (decode_bid _ _ Hb) as (? & ? & ? & ? & _).
  rewrite <- (bool_decide_eq_true (is_uint 64 (b_nonce b))), <- (receipt_in_range (b_contractAddr b) (b_auctionId b) (b_bidder b) (b_nonce b) (viem_keccak256 pt)) by (first [done|apply keccak_length]).
  cbn [commitment]. by destruct (encodeBidReceipt _ _ _ _ _).
Qed.
Lemma accepted_served `{!ViemRangeChecks} raw id tag message env b r s s' :
  carries (utf8_decode raw) id tag OP_TYPE_QUIETFILL OP_COMMAND_PRIVATE_BID message → wf_enclave s →
  bid_accepted (node_decrypt env) (Date_now env) message b r s s' →
  is_ok (serve srv "POST" "/action" (Some raw) env s).1 = is_ok r ∧ (is_ok r = true ↔ is_uint 64 (b_nonce b)).
Proof.
  intros Hc Hw Ha. split; [|by eapply accepted_range].
  rewrite (serve_instruction _ _ _ _ _ _ _ _ _ Hc), decide_True by done. unfold run_instruction.
  rewrite decide_True, (accepted_run _ _ _ _ _ _ _ Hw Ha) by done. by destruct r.
Qed.

(** ** Properties *)

(** C15: the enclave over HTTP.  A request that carries an instruction is answered with
    status 200 and the ActionResult of what its handler computed, which is also
    what it does to the memory; a handler's exception passes through; an instruction
    with another type or command is answered 501 and changes nothing.  A read of the
    state always has the same answer, whatever bids are stored. *)
Theorem enclave_over_http (raw id tag opType opCommand message : string) (env : call_env) (s : enclave) :
  carries (utf8_decode raw) id tag opType opCommand message →
  serve srv "POST" "/action" (Some raw) env s =
    match (if decide (opType = OP_TYPE_QUIETFILL) then run_instruction clearRetentionMs opCommand env message s else None) with
    | Some (r, s') => (respond_with id tag opType opCommand r, s')
    | None => (Ok (mkHttpResponse 501 "text/plain" "unsupported op type"), s)
    end ∧
  ∀ env1 s1 env2 s2,
    (serve srv "GET" "/state" (Some "") env1 s1).1 = (serve srv "GET" "/state" (Some "") env2 s2).1 ∧
    (serve srv "GET" "/state" (Some "") env1 s1).2 = s1.
Proof using InL. intros Hc. split; [by apply serve_instruction|done]. Qed.

(** The answer to the contract's clear instruction. *)
Lemma clear_served `{!TokenPays W} (m : market) (i : Z) raw tag env :
  market_inv m →
  let a := auction_at i (storage (chain m)) in
  let id := bytesToHex (clearInstructionId a) in
  state a = ClearRequested → clearInstructionId a ≠ zero32 →
  carries (utf8_decode raw) id tag OP_TYPE_QUIETFILL OP_COMMAND_CLEAR (clear_message i a) →
  ∃ r, result_of m i r ∧
    (is_uint 64 (r_winningNonce r) →
     (serve srv "POST" "/action" (Some raw) env (Settlement.memory m)).1 =
       Ok (instruction_response id tag OP_TYPE_QUIETFILL OP_COMMAND_CLEAR (Success (abi_clear_result r))) ∧
     settles_with m i r).
Proof.
  intros Hm a id Hst Hinstr Hc.
  destruct (answer_settles clearRetentionMs Hthis m i (Date_now env) Hm Hst Hinstr) as (r & Hof & _ & Hset & _).
  exists r. split; [done|]. intros H64. destruct (Hset H64) as [Hr Hs]. split; [|done].
  rewrite (serve_instruction _ _ _ _ _ _ _ _ _ Hc), decide_True by done. unfold run_instruction.
  rewrite decide_False, decide_True by done. fold a in Hr.
  destruct (handleClear _ _ _ _) as [h s']. cbn [fst] in *. by subst h.
Qed.

(** C10: from the contract over the wire and back.  The server started empty and has
    since handled, in whatever order they came and however they overlapped, nothing
    but messages of the contract and reads of the state; nothing runs at the
    moment.  When it then gets the contract's clear instruction, its result is the one
    it remembers or the one of the bids it has; and if the winning nonce is a uint64,
    it answers with an ActionResult that has the instruction's id and tag, status 1,
    and as data the encoding of that result, which the contract, given the pinned
    TEE's signature over it, settles before the settlement deadline. *)
Theorem wire_settles `{!TokenPays W} (m : market) (l : loop) (i : Z) raw tag env :
  market_reachable clearRetentionMs m →
  rtc (loop_step srv) (loop_start resetState) l →
  (∀ t r, runs l !! t = Some r → delivers m (todo r) ∧ ∀ env s, progress r ≠ Invoked env s) →
  let a := auction_at i (storage (chain m)) in
  let id := bytesToHex (clearInstructionId a) in
  state a = ClearRequested → clearInstructionId a ≠ zero32 →
  carries (utf8_decode raw) id tag OP_TYPE_QUIETFILL OP_COMMAND_CLEAR (clear_message i a) →
  ∃ r, result_of (with_memory m (TsQueue.memory l)) i r ∧
    (is_uint 64 (r_winningNonce r) →
     (serve srv "POST" "/action" (Some raw) env (TsQueue.memory l)).1 =
       Ok (instruction_response id tag OP_TYPE_QUIETFILL OP_COMMAND_CLEAR (Success (abi_clear_result r))) ∧
     settles_with m i r).
Proof.
  intros Hm Hl Hruns a id Hst Hinstr Hc. destruct (idle_replay m l Hl Hruns) as (calls & Hmem & Hd).
  assert (market_reachable clearRetentionMs (with_memory m (TsQueue.memory l))) as Hm'.
  { rewrite Hmem. by apply replay_reachable. }
  apply market_reachable_inv in Hm'; [|done].
  by apply (clear_served (with_memory m (TsQueue.memory l)) i raw tag env).
Qed.

(** C11: one bid can void an auction.  [validateBid] bounds a nonce from below only, and
    a receipt is encoded after its bid is stored.  So an accepted bid is answered
    exactly when its nonce is a uint64; one with a greater nonce, which any dealer in
    the auction can send, sealed, throws in the handler, nothing catches that, and
    the process can end without an answer.  Then every bid is lost: after a restart
    the enclave answers the contract's clear instruction with no winner and no bids,
    and the contract settles the auction as unfilled. *)
Theorem one_bid_voids_auction `{Range : !ViemRangeChecks, !TokenPays W} :
  (∀ (l : loop) t raw id tag message env b r s',
     carries (utf8_decode raw) id tag OP_TYPE_QUIETFILL OP_COMMAND_PRIVATE_BID message →
     wf_enclave (TsQueue.memory l) →
     bid_accepted (node_decrypt env) (Date_now env) message b r (TsQueue.memory l) s' →
     (is_ok (serve srv "POST" "/action" (Some raw) env (TsQueue.memory l)).1 = true ↔ is_uint 64 (b_nonce b)) ∧
     (¬ is_uint 64 (b_nonce b) → crashed l = false → tail_settled l (TsQueue.queue l) → fresh_request t l →
      ∃ l', rtc (loop_step srv) l l' ∧ crashed l' = true ∧ replies l' = replies l)) ∧
  (∀ (m : market) (i : Z) raw tag env,
     market_reachable clearRetentionMs m →
     let a := auction_at i (storage (chain m)) in
     let id := bytesToHex (clearInstructionId a) in
     let r := clear_bids (mkClearMessage i this (floorPriceWei a) (ceilingPriceWei a)) [] in
     state a = ClearRequested → clearInstructionId a ≠ zero32 →
     carries (utf8_decode raw) id tag OP_TYPE_QUIETFILL OP_COMMAND_CLEAR (clear_message i a) →
     (serve srv "POST" "/action" (Some raw) env resetState).1 =
       Ok (instruction_response id tag OP_TYPE_QUIETFILL OP_COMMAND_CLEAR (Success (abi_clear_result r))) ∧
     r_winner r = 0%Z ∧ r_submittedBidCount r = 0%Z ∧ settles_with m i r).
Proof.
  split.
  - intros l t raw id tag message env b r s' Hc Hw Ha.
    pose proof (accepted_served _ _ _ _ _ _ _ _ _ Hc Hw Ha) as [Hs Hiff]. split; [by rewrite Hs|].
    intros Hn Hcr Hq Hf. destruct r as [r|e]; [by destruct Hn; apply Hiff|].
    eapply (handler_failure_crashes srv l t "POST" "/action" (Some raw)); [done..| |].
    + rewrite (plan_route _ _ _ _ _ _ _ Hc). done.
    + unfold private_bid_handler. rewrite viem_bytes_hex. by rewrite (accepted_run _ _ _ _ _ _ _ Hw Ha).
  - intros m i raw tag env Hm a id r Hst Hinstr Hc.
    assert (market_reachable clearRetentionMs (with_memory m resetState)) as Hm' by by apply (replay_reachable m []).
    apply market_reachable_inv in Hm'; [|done].
    destruct (clear_served (with_memory m resetState) i raw tag env Hm' Hst Hinstr Hc) as (r' & [(e & He & _)| ->] & Hans);
      [by cbn in He; rewrite lookup_empty in He|].
    destruct Hans as [Hans Hset]; [done|]. by split_and!.
Qed.
End wire.
