(* ===== verification/TestToken.v ===== *)
(** * contracts/test/TestToken.sol, and a world to run the auction in

    The repository's own ERC-20 token, the proof that it is a token of the kind
    the auction contract relies on, and the world of two such tokens. *)

From S2P Require Import Prelude GoStrings Evm AuctionContract AuctionSafety AuctionProps Enclave Settlement.
From stdpp Require Import options.

(** ** The token *)

(** The balances, allowances and supply; name, symbol and decimals never change
    and no operation reads them. *)
Record TestToken := mkToken {
  balanceOf : gmap address Z;
  allowance : gmap (address * address) Z;
  totalSupply : Z;
}.
Definition balance_at (a : address) (t : TestToken) : Z := default 0%Z (balanceOf t !! a).
Definition allowance_at (from spender : address) (t : TestToken) : Z := default 0%Z (allowance t !! (from, spender)).
Definition set_balance (a : address) (x : Z) (t : TestToken) : TestToken :=
  mkToken (<[a := x]> (balanceOf t)) (allowance t) (totalSupply t).
Definition set_allowance (from spender : address) (x : Z) (t : TestToken) : TestToken :=
  mkToken (balanceOf t) (<[(from, spender) := x]> (allowance t)) (totalSupply t).

(** Checked arithmetic on [uint256]; [None] is a revert. *)
Definition uint (z : Z) : option Z := if decide (is_uint 256 z) then Some z else None.

Definition mint (to : address) (amount : Z) (t : TestToken) : option TestToken :=
  b ← uint (balance_at to t + amount);
  supply ← uint (totalSupply t + amount);
  Some (mkToken (<[to := b]> (balanceOf t)) (allowance t) supply).
Definition approve (sender spender : address) (amount : Z) (t : TestToken) : TestToken :=
  set_allowance sender spender amount t.
Definition _move (from to : address) (amount : Z) (t : TestToken) : option TestToken :=
  if decide (balance_at from t < amount)%Z then None
  else
    b ← uint (balance_at from t - amount);
    let t := set_balance from b t in
    b ← uint (balance_at to t + amount);
    Some (set_balance to b t).
Definition transfer (sender to : address) (amount : Z) (t : TestToken) : option TestToken := _move sender to amount t.
Definition transferFrom (sender from to : address) (amount : Z) (t : TestToken) : option TestToken :=
  let approved := allowance_at from sender t in
  if decide (approved < amount)%Z then None
  else
    t ← (if decide (approved ≠ 2 ^ 256 - 1)%Z
         then x ← uint (approved - amount); Some (set_allowance from sender x t) else Some t);
    _move from to amount t.

(** *** A transfer moves exactly the amount *)

Definition supply_ok (t : TestToken) : Prop :=
  (∀ a x, balanceOf t !! a = Some x → 0 ≤ x)%Z ∧ total id (balanceOf t) = totalSupply t ∧ is_uint 256 (totalSupply t).

Lemma uint_inv z z' : uint z = Some z' → z' = z ∧ is_uint 256 z.
Proof. unfold uint. case_decide; [|done]. by intros [= <-]. Qed.
Lemma balance_at_set a b x t : balance_at a (set_balance b x t) = if decide (a = b) then x else balance_at a t.
Proof.
  unfold balance_at. cbn. case_decide as H; [by subst; rewrite lookup_insert_eq|by rewrite lookup_insert_ne].
Qed.
Lemma total_set a x t : total id (balanceOf (set_balance a x t)) = (total id (balanceOf t) - balance_at a t + x)%Z.
Proof. cbn. by rewrite total_insert. Qed.

Lemma _move_spec from to amount t t' :
  _move from to amount t = Some t' →
  (∀ a, balance_at a t' = balance_at a t - (if decide (a = from) then amount else 0) +
                          (if decide (a = to) then amount else 0))%Z ∧
  (supply_ok t → supply_ok t').
Proof.
  unfold _move. case_decide as Hb; [done|]. intros H.
  apply bind_Some in H as (b1 & [-> Hu1]%uint_inv & H). apply bind_Some in H as (b2 & [-> Hu2]%uint_inv & [= <-]).
  split.
  - intros a. rewrite !balance_at_set. repeat case_decide; subst; try done; lia.
  - intros (Hn & Ht & Hs). split_and!; [|rewrite !total_set, balance_at_set; case_decide; subst; cbn; unfold id in *; lia|done].
    intros a x. cbn. intros [[<- <-]|[_ [[<- <-]|[_ Hx]]%lookup_insert_Some]]%lookup_insert_Some;
      [apply Hu2|apply Hu1|by eapply Hn].
Qed.

Lemma balance_bounds t a :
  (∀ a x, balanceOf t !! a = Some x → 0 ≤ x)%Z → (0 ≤ balance_at a t ≤ total id (balanceOf t))%Z.
Proof.
  intros Hn. unfold balance_at. destruct (balanceOf t !! a) as [x|] eqn:Hx; cbn.
  - split; [by eapply Hn|]. by apply (total_at_least id (balanceOf t) a).
  - split; [done|]. by apply total_nonneg.
Qed.

(** A transfer of what the holder has does not revert. *)
Lemma _move_runs from to amount t :
  supply_ok t → (0 ≤ amount ≤ balance_at from t)%Z → is_Some (_move from to amount t).
Proof.
  intros (Hn & Ht & Hs) Ha. unfold _move. rewrite decide_False by lia.
  pose proof (balance_bounds t from Hn) as Hbf. unfold is_uint in Hs.
  set (t1 := set_balance from (balance_at from t - amount) t).
  assert (0 ≤ balance_at to t1 ≤ total id (balanceOf t1))%Z as Hbt.
  { apply balance_bounds. intros a x. cbn. intros [[<- <-]|[_ Hx]]%lookup_insert_Some; [lia|by eapply Hn]. }
  assert (total id (balanceOf t1) = totalSupply t - amount)%Z as Ht1 by (unfold t1; rewrite total_set; lia).
  unfold uint. rewrite decide_True by (split; lia). cbn. fold t1. rewrite decide_True by (split; lia). done.
Qed.

(** ** A world of two tokens

    The registries are simple: one extension, one active TEE, and numbered
    instructions.  The hash keeps the head of its input, and a signature carries
    its signer as [r]. *)

Record world2 := mkWorld { base_token : TestToken; quote_token : TestToken; sent : Z }.
Definition demo_this : address := 1000%Z.
Definition demo_base : address := 1%Z.
Definition demo_quote : address := 2%Z.
Definition demo_tee_id : address := 77%Z.
Definition pad (s : string) : string := str (take 32 (bytes s ++ replicate 32 (byte 7))).

(** A call to a token of this world; anything else reverts. *)
Definition run_token (op : token_op) (t : TestToken) : option TestToken :=
  match op with
  | Transfer to amount => if decide (is_uint 256 amount) then transfer demo_this to amount t else None
  | TransferFrom from to amount => if decide (is_uint 256 amount) then transferFrom demo_this from to amount t else None
  end.
Definition on_token (token : address) (f : TestToken → option TestToken) (w : world2) : option world2 :=
  if decide (token = demo_base) then t ← f (base_token w); Some (mkWorld t (quote_token w) (sent w))
  else if decide (token = demo_quote) then t ← f (quote_token w); Some (mkWorld (base_token w) t (sent w))
  else None.

#[export] Instance world2_deployment : Deployment world2 := {
  this := demo_this; BASE_TOKEN := demo_base; QUOTE_TOKEN := demo_quote; chainid := 114%Z;
  keccak256 := pad; ecrecover := λ _ _ r _, r;
  nextPublicExtensionId := λ _, Some (FIRST_PUBLIC_EXTENSION_ID + 1)%Z;
  getTeeExtensionInstructionsSender := λ _ _, Some demo_this;
  getRandomTeeIds := λ _ _ _, Some [demo_tee_id];
  sendInstructions := λ _ _ _ _ w,
    Returns (Some (word (sent w + 1))) (mkWorld (base_token w) (quote_token w) (sent w + 1));
  token_call := λ token op _ w,
    match on_token token (run_token op) w with
    | Some w' => Returns (Some (word 1)) w'
    | None => Returns None w
    end;
}.

Definition balance2 (token a : address) (w : world2) : Z :=
  if decide (token = demo_base) then balance_at a (base_token w)
  else if decide (token = demo_quote) then balance_at a (quote_token w) else 0%Z.
Definition sound2 (w : world2) : Prop := supply_ok (base_token w) ∧ supply_ok (quote_token w).

Lemma token_call_answers token op st w d st' w' :
  answers same (token_call token op st w) st w d st' w' →
  match on_token token (run_token op) w with
  | Some w1 => d = Some (word 1) ∧ w' = w1
  | None => d = None ∧ w' = w
  end.
Proof. cbn. destruct (on_token _ _ w); inversion 1; by subst. Qed.

Lemma on_token_spec token f w w' :
  on_token token f w = Some w' →
  ∃ t t', f t = Some t' ∧ (∀ a, balance2 token a w = balance_at a t) ∧ (∀ a, balance2 token a w' = balance_at a t') ∧
    (∀ u a, u ≠ token → balance2 u a w' = balance2 u a w) ∧
    ((supply_ok t → supply_ok t') → sound2 w → sound2 w').
Proof.
  unfold on_token, balance2, sound2. intros H. repeat case_decide; try done; subst;
    apply bind_Some in H as (t' & Hf & [= <-]); cbn; eexists _, t'; (split_and!; [exact Hf|done|done| |]).
  - intros u a Hu. by rewrite !(decide_False (P := u = demo_base)).
  - intros Hs [? ?]. split; [by apply Hs|done].
  - intros u a Hu. repeat case_decide; done.
  - intros Hs [? ?]. split; [done|by apply Hs].
Qed.

Lemma transferFrom_spec sender from to amount t t' :
  transferFrom sender from to amount t = Some t' →
  (∀ a, balance_at a t' = balance_at a t - (if decide (a = from) then amount else 0) +
                          (if decide (a = to) then amount else 0))%Z ∧
  (supply_ok t → supply_ok t').
Proof.
  unfold transferFrom. case_decide as Hal; [done|]. intros (t1 & H1 & H)%bind_Some.
  assert ((∀ a, balance_at a t1 = balance_at a t) ∧ (supply_ok t → supply_ok t1)) as [Hb Hs].
  { case_decide; [|by injection H1 as <-]. by apply bind_Some in H1 as (x & _ & [= <-]). }
  apply _move_spec in H as [Hm Hok]. split; [|auto]. intros a. by rewrite Hm, Hb.
Qed.

Lemma demo_called token op s s' :
  called token op s s' →
  ∃ t t', run_token op t = Some t' ∧ (∀ a, balance2 token a (world s) = balance_at a t) ∧
    (∀ a, balance2 token a (world s') = balance_at a t') ∧
    (∀ u a, u ≠ token → balance2 u a (world s') = balance2 u a (world s)) ∧
    ((supply_ok t → supply_ok t') → sound2 (world s) → sound2 (world s')).
Proof.
  intros (data & _ & H%token_call_answers). destruct (on_token _ _ _) as [w1|] eqn:Ho; [|by destruct H].
  destruct H as [_ Hw]. rewrite Hw. by apply on_token_spec in Ho.
Qed.

Lemma run_token_sound op t t' : run_token op t = Some t' → supply_ok t → supply_ok t'.
Proof.
  destruct op as [to amount|from to amount]; cbn; case_decide as Hu; try done; intros H.
  - by apply _move_spec in H as [_ ?].
  - by apply transferFrom_spec in H as [_ ?].
Qed.

(** The token is one the auction contract can rely on. *)
#[export] Instance world2_laws : TokenLaws world2.
Proof.
  refine {| balance := balance2; sound := sound2 |}.
  - intros token to amount s s' (t & t' & Hr & Hb & Hb' & Ho & _)%demo_called. cbn in Hr. case_decide as Hu; [|done].
    apply _move_spec in Hr as [Hm _]. split; [|intros u Hne; by rewrite Ho].
    rewrite Hb, Hb', Hm. destruct Hu. repeat case_decide; lia.
  - intros token from amount s s' Hf (t & t' & Hr & Hb & Hb' & Ho & _)%demo_called. cbn in Hr. case_decide as Hu; [|done].
    apply transferFrom_spec in Hr as [Hm _]. split; [|intros u Hne; by rewrite Ho].
    rewrite Hb, Hb', Hm. rewrite (decide_False (P := this = from)) by done. rewrite decide_True by done. lia.
  - intros value tees params st w d st' w' t H. inversion H; subst. done.
  - intros token op s s' (t & t' & Hr & _ & _ & _ & Hs)%demo_called. apply Hs. by eapply run_token_sound.
  - intros value tees params st w d st' w' H. inversion H; subst. done.
Defined.

#[export] Instance world2_pays : TokenPays world2.
Proof.
  constructor. intros token to amount st w d st' w' Ht [Hs1 Hs2] Ha H%token_call_answers.
  assert (is_Some (on_token token (run_token (Transfer to amount)) w)) as [w1 Hw].
  { assert (∀ t, supply_ok t → balance2 token demo_this w = balance_at demo_this t →
      is_Some (run_token (Transfer to amount) t)) as Hrun.
    { intros t Hs Hb. cbn [balance world2_laws this world2_deployment] in Ha. rewrite Hb in Ha.
      destruct (_move_runs demo_this to amount t) as [t' Ht']; [done|done|]. cbn. rewrite decide_True; [by exists t'|].
      destruct Hs as (Hn & Htot & Hu). pose proof (balance_bounds _ demo_this Hn). unfold is_uint in *. lia. }
    destruct Ht as [->| ->]; unfold on_token; cbn [BASE_TOKEN QUOTE_TOKEN world2_deployment] in *.
    - rewrite decide_True by done. by destruct (Hrun (base_token w)) as [t' ->].
    - rewrite decide_False, decide_True by done. by destruct (Hrun (quote_token w)) as [t' ->]. }
  rewrite Hw in H. destruct H as [-> _]. exists (word 1). split; [done|]. right. vm_compute. done.
Qed.
