(* ===== verification/AuctionRun.v ===== *)
(** * One auction, run

    The contract, the enclave and the test token executed together from
    deployment to withdrawal, with concrete codecs, as evidence that the
    hypotheses of the theorems can hold. *)

From S2P Require Import Prelude GoStrings Evm Abi AuctionContract AuctionSafety AuctionProps EnclaveAbi Enclave Settlement TestToken.
From stdpp Require Import options.

(** ** Codecs that follow the ABI *)

Definition demo_out_of_range : error := ErrMsg "IntegerOutOfRangeError".
#[export] Instance demo_viem : Viem := {
  decodeAbiParameters := λ params s,
    match abi_decode params s with Some vals => Ok vals | None => Err (ErrMsg "AbiDecodingDataSizeTooSmallError") end;
  encodeAbiParameters := λ params vals, if typed params vals then Ok (abi_encode vals) else Err demo_out_of_range;
  viem_keccak256 := pad;
}.
Lemma demo_viem_laws : ViemLaws.
Proof.
  split.
  - intros params vals Ht Hl. cbn [decodeAbiParameters demo_viem]. by rewrite abi_decode_encode by (first [done|by apply typed_shaped]).
  - intros params data vals. cbn [decodeAbiParameters demo_viem]. unfold abi_decode.
    destruct (read_params _ _ _) as [vals'|]; cbn [mbind option_bind]; [|done].
    destruct (shaped params vals') eqn:Hs; [|done]. congruence.
  - intros params vals data. cbn [encodeAbiParameters demo_viem]. destruct (typed params vals); [|done]. congruence.
  - intros params vals Ht. cbn [encodeAbiParameters demo_viem]. by rewrite Ht.
  - intros x. cbn. unfold pad. rewrite len_bytes, bytes_str, length_take, length_app, length_replicate. lia.
Qed.
Lemma demo_viem_range : ViemRangeChecks.
Proof. split. intros params vals _ Ht. cbn [encodeAbiParameters demo_viem]. by rewrite Ht. Qed.

(** ** The run *)

Definition demo_seller : address := 5100%Z.
Definition demo_bidder : address := 1001%Z.
Definition demo_rival : address := 1002%Z.
Definition demo_lot : Z := 1000000000.
Definition demo_floor : Z := 2 * 10 ^ 18.
Definition demo_ceiling : Z := 5 * 10 ^ 17 * 5.

Definition funded (holder : address) (amount : Z) (t : TestToken) : TestToken :=
  default t (approve holder demo_this amount <$> mint holder amount t).
Definition no_token : TestToken := mkToken ∅ ∅ 0.
Definition demo_start : sys Storage world2 event :=
  mkSys (mkStorage 1 0 1 ∅ ∅)
    (mkWorld (funded demo_seller demo_lot no_token)
             (funded demo_rival (10 ^ 10) (funded demo_bidder (10 ^ 10) no_token)) 0) [].

(** A plaintext bid; the ciphertext is the plaintext, for a key nobody lost. *)
Definition demo_plain (bidder : address) (nonce price : Z) : string :=
  word bidder +:+ word demo_this +:+ word 1 +:+ word nonce +:+ word price +:+ word 9.

Definition demo_calls : list (Z * address * call) := [
  (10, demo_seller, CallSetExtensionId);
  (10, demo_seller, CallCreateAuction demo_lot demo_floor demo_ceiling 100 200);
  (20, demo_bidder, CallSubmitPrivateBid 0 1 (demo_plain demo_bidder 1 (22 * 10 ^ 17)));
  (30, demo_rival, CallSubmitPrivateBid 0 1 (demo_plain demo_rival 1 (21 * 10 ^ 17)));
  (100, demo_rival, CallRequestClear 0 1)]%Z.

Definition run_calls (l : list (Z * address * call)) (s : sys Storage world2 event) :
    option (sys Storage world2 event) :=
  foldl (λ s p, s ← s; match execute 3 p.1.1 p.1.2 p.2 s with inl (_, s') => Some s' | inr _ => None end) (Some s) l.

Definition demo_cleared : sys Storage world2 event := default demo_start (run_calls demo_calls demo_start).

Lemma run_calls_cons p l s :
  run_calls (p :: l) s =
  match execute 3 p.1.1 p.1.2 p.2 s with inl (_, s') => run_calls l s' | inr _ => None end.
Proof.
  unfold run_calls. cbn [foldl]. cbn [mbind option_bind]. destruct (execute 3 _ _ _ s) as [[[] s']|]; [done|].
  induction l as [|q l IHl]; [done|]. cbn [foldl]. exact IHl.
Qed.

(** Senders are people. *)
Definition honest (p : Z * address * call) : Prop := is_address p.1.2 ∧ p.1.2 ≠ demo_this.
#[export] Instance honest_dec p : Decision (honest p).
Proof. unfold honest. apply _. Defined.

Lemma run_calls_reachable l s s' :
  Forall honest l → run_calls l s = Some s' → rtc happens s s'.
Proof.
  revert s. induction l as [|[[now sender] c] l IH]; intros s Hl; [by intros [= <-]|].
  apply Forall_cons in Hl as [[Ha Hn] Hl]. cbn [fst snd] in Ha, Hn. rewrite run_calls_cons. cbn [fst snd].
  destruct (execute 3 now sender c s) as [[[] s1]|] eqn:He; [|done].
  intros Hr. eapply rtc_l; [by eapply happens_call|by apply IH].
Qed.

Lemma supply_ok_check t :
  map_Forall (λ _ x, 0 ≤ x)%Z (balanceOf t) → total id (balanceOf t) = totalSupply t → is_uint 256 (totalSupply t) →
  supply_ok t.
Proof. intros Hm Ht Hu. by split; [exact Hm|split]. Qed.
Lemma demo_deployed : deployed demo_start ∧ sound (world demo_start) ∧ (∀ t, 0 ≤ balance t this (world demo_start))%Z.
Proof.
  assert (sound (world demo_start)) as Hs by (split; apply supply_ok_check; by_decide).
  split; [by exists (λ _, 1%Z), 3%Z, 4%Z|]. split; [done|]. intros t. destruct Hs as [[Hb _] [Hq _]].
  cbn [balance world2_laws]. unfold balance2.
  repeat case_decide; [by apply (balance_bounds (base_token (world demo_start)))|
    by apply (balance_bounds (quote_token (world demo_start)))|done].
Qed.

Lemma demo_run : run_calls demo_calls demo_start = Some demo_cleared.
Proof. vm_compute. reflexivity. Qed.
Lemma demo_reachable : auction_reachable demo_cleared.
Proof.
  destruct demo_deployed as (? & ? & ?). exists demo_start. split_and!; try done.
  apply (run_calls_reachable demo_calls); [by_decide|apply demo_run].
Qed.

(** *** The enclave's part *)

Definition demo_retention : Z := 600000.
Definition demo_decrypt (ciphertext : string) : result string := Ok ciphertext.
Definition demo_memory : enclave :=
  foldl (λ s m, snd (handlePrivateBid demo_decrypt 1000 m s)) resetState
    [bid_message 1 demo_bidder (demo_plain demo_bidder 1 (22 * 10 ^ 17));
     bid_message 1 demo_rival (demo_plain demo_rival 1 (21 * 10 ^ 17))]%Z.
Definition demo_auction : Auction := auction_at 1 (storage demo_cleared).
Definition demo_result : ClearResult :=
  clear_bids (mkClearMessage 1 demo_this demo_floor demo_ceiling) (bids_at (keyForAuction demo_this 1) demo_memory).
Definition demo_signature : string := word demo_tee_id +:+ word 1 +:+ str [byte 27].

(** The higher bid wins. *)
Example demo_winner : r_winner demo_result = demo_bidder ∧ r_unitPriceWei demo_result = (22 * 10 ^ 17)%Z ∧
  r_submittedBidCount demo_result = 2%Z ∧ r_eligibleBidCount demo_result = 2%Z.
Proof. vm_compute. done. Qed.

Definition demo_settled : sys Storage world2 event :=
  match execute 3 150 demo_rival (CallSettleAuction 1 demo_result demo_signature) demo_cleared with
  | inl (_, s) => s
  | inr _ => demo_start
  end.
Lemma demo_settles :
  execute 3 150 demo_rival (CallSettleAuction 1 demo_result demo_signature) demo_cleared = inl (tt, demo_settled).
Proof. vm_compute. reflexivity. Qed.
(** The winner has the lot and the seller the price. *)
Example demo_balances :
  balance2 demo_base demo_bidder (world demo_settled) = demo_lot ∧
  balance2 demo_quote demo_seller (world demo_settled) = 2200000000%Z ∧
  balance2 demo_quote demo_bidder (world demo_settled) = (10 ^ 10 - 2200000000)%Z ∧
  balance2 demo_quote demo_this (world demo_settled) = 2500000000%Z.
Proof. vm_compute. done. Qed.

(** ** The market of the run *)

Inductive market_event :=
  | MCall (now : Z) (sender : address) (c : call)
  | MBid (now : Z) (n : nat)
  | MRestart.
Abbreviation demo_market_type := (@market world2).
Definition market_do (e : market_event) (m : demo_market_type) : option demo_market_type :=
  match e with
  | MCall now sender c =>
    if decide (honest (now, sender, c)) then
      match execute 3 now sender c (chain m) with
      | inl (_, s') => Some (mkMarket s' (memory m) (sent_bids sender c ++ bid_messages m)
                               (sent_clears (storage (chain m)) c ++ clear_messages m))
      | inr _ => None
      end
    else None
  | MBid now n =>
    msg ← bid_messages m !! n;
    Some (mkMarket (chain m) (snd (handlePrivateBid demo_decrypt now msg (memory m))) (bid_messages m) (clear_messages m))
  | MRestart => Some (mkMarket (chain m) resetState (bid_messages m) (clear_messages m))
  end.
Fixpoint market_run (l : list market_event) (m : demo_market_type) : option demo_market_type :=
  match l with [] => Some m | e :: l => m ← market_do e m; market_run l m end.

Lemma market_run_steps l m m' : market_run l m = Some m' → rtc (market_step demo_retention) m m'.
Proof.
  revert m. induction l as [|e l IH]; intros m; cbn [market_run]; [by intros [= <-]|].
  intros (m1 & Hd & Hr)%bind_Some. eapply rtc_l; [|by apply IH]. clear IH Hr.
  destruct e as [now sender c|now n|]; cbn [market_do] in Hd.
  - case_decide as Hh; [|done]. destruct (execute 3 now sender c (chain m)) as [[[] s']|] eqn:He; [|done].
    injection Hd as <-. destruct Hh. by eapply market_call.
  - apply bind_Some in Hd as (msg & Hm & [= <-]). apply market_bid. by eapply list_elem_of_lookup_2.
  - injection Hd as <-. apply market_restart.
Qed.

(** The enclave restarts once, and the later bid is delivered first. *)
Definition demo_events : list market_event :=
  ((λ p, MCall p.1.1 p.1.2 p.2) <$> take 4 demo_calls) ++ [MBid 1000 0; MRestart; MBid 2000 0; MBid 2000 1] ++
  ((λ p, MCall p.1.1 p.1.2 p.2) <$> drop 4 demo_calls).
Definition demo_empty : demo_market_type := mkMarket demo_start resetState [] [].
Definition demo_market : demo_market_type := default demo_empty (market_run demo_events demo_empty).
Lemma demo_market_reachable : market_reachable demo_retention demo_market.
Proof.
  destruct demo_deployed as (? & ? & ?). exists demo_start. split_and!; try done.
  apply (market_run_steps demo_events). vm_compute. reflexivity.
Qed.

Lemma demo_this_ok : is_address (@this world2 _) ∧ (@this world2 _) ≠ 0%Z.
Proof. by_decide. Qed.

(** ** Witnesses *)

Lemma auction_solvent_witness :
  unlocked (storage demo_cleared) ∧ wf (storage demo_cleared) ∧ solvent demo_cleared.
Proof. apply auction_solvent, demo_reachable. Defined.

Lemma auction_lifecycle_witness :
  moves 150 demo_auction (auction_at 1 (storage demo_settled)) ∨
  demo_auction = zero_auction ∧
    opened demo_rival (CallSettleAuction 1 demo_result demo_signature) (auction_at 1 (storage demo_settled)).
Proof.
  assert (demo_rival ≠ this) as Hn by done.
  exact (proj1 (auction_lifecycle 3 150 demo_rival _ demo_cleared demo_settled 1 demo_reachable Hn demo_settles)).
Defined.

Lemma settlement_authorised_witness : verified 150 1 demo_result demo_signature demo_auction.
Proof.
  assert (demo_rival ≠ this) as Hn by done.
  exact (proj1 (settlement_authorised 3 150 demo_rival 1 _ _ demo_cleared demo_settled demo_reachable Hn demo_settles)).
Defined.

Lemma funds_recoverable_witness :
  ∃ s1, execute 3 300 demo_rival (CallCancelTimedOutAuction 1) demo_cleared = inl (tt, s1) ∧
    ∃ s2, execute 3 300 demo_bidder (CallWithdrawQuote 1) s1 = inl (tt, s2) ∧ escrow_at 1 demo_bidder (storage s2) = 0%Z.
Proof.
  destruct (funds_recoverable 2 300 demo_rival demo_cleared 1 demo_reachable) as (s1 & Hc & Hw);
    [by_decide|done|vm_compute; discriminate|vm_compute; reflexivity|].
  rewrite decide_True in Hc by (right; vm_compute; reflexivity). exists s1. split; [exact (proj1 Hc)|].
  destruct (Hw demo_bidder) as (s2 & Hr & _ & Hx); [by_decide|done|vm_compute; discriminate|]. exists s2.
  split; [exact Hr|exact Hx].
Defined.

Lemma empty_wf : wf_enclave resetState.
Proof. split. intros key bids. cbn. by rewrite lookup_empty. Qed.

Lemma private_bid_outcome_witness :
  wf_enclave (snd (handlePrivateBid demo_decrypt 1000 (bid_message 1 demo_bidder (demo_plain demo_bidder 1 5)) resetState)).
Proof.
  pose proof (private_bid_outcome demo_decrypt 1000 (bid_message 1 demo_bidder (demo_plain demo_bidder 1 5)) resetState empty_wf) as H.
  destruct (handlePrivateBid _ _ _ _) as [r s]. exact (proj1 H).
Defined.

Lemma cleared_result_settles_witness :
  ∃ r, r_winner r = demo_bidder ∧
    fst (handleClear demo_retention 3000 (clear_message 1 (auction_at 1 (storage (chain demo_market)))) (memory demo_market)) =
      Ok (Success (abi_clear_result r)) ∧
    (r_winner r = 0%Z ∨ r_winningCommitment r ≠ zero32 →
     ∃ s', execute 3 150 demo_seller (CallSettleAuction 1 r demo_signature) (chain demo_market) = inl (tt, s')).
Proof.
  destruct (cleared_result_settles (VLaws := demo_viem_laws) demo_retention demo_this_ok
    demo_market 1 3000 demo_market_reachable) as (r & Hof & _ & Hr & _); [vm_compute; reflexivity|vm_compute; discriminate|].
  exists r. destruct Hof as [(e & He & _)|Hof]; [exfalso; vm_compute in He; discriminate He|].
  assert (r_winner r = demo_bidder ∧ r_winningNonce r = 1%Z) as [Hw Hn] by (rewrite Hof; vm_compute; done).
  destruct Hr as [Hr Hs]; [rewrite Hn; by_decide|]. split; [exact Hw|split; [exact Hr|]].
  intros Hc. apply (Hs 2); [|vm_compute; discriminate|exact Hc]. intros s. vm_compute. reflexivity.
Defined.

Lemma demo_memory_wf : wf_enclave demo_memory.
Proof. unfold demo_memory. cbn [foldl]. do 2 apply handlePrivateBid_wf. apply empty_wf. Qed.

Definition demo_request : string := clear_message (W := world2) 1 demo_auction.
Lemma clear_outcome_witness :
  ∃ result, fst (handleClear demo_retention 3000 demo_request demo_memory) = success (encodeClearResult result) ∧
    r_submittedBidCount result = Z.of_nat (length (bids_at (keyForAuction demo_this 1) demo_memory)).
Proof.
  assert (decodeClearMessage demo_request = Ok (mkClearMessage 1 demo_this demo_floor demo_ceiling)) as Hd
    by (vm_compute; reflexivity).
  assert (cleared_of (pruneCleared 3000 demo_memory) !! keyForAuction demo_this 1 = None) as Hc by (vm_compute; reflexivity).
  pose proof (clear_outcome demo_retention 3000 demo_request demo_memory _ demo_memory_wf Hd) as H.
  specialize (H ltac:(by_decide) ltac:(by_decide) ltac:(by_decide) Hc).
  cbn [m_contractAddr m_auctionId] in H. destruct (handleClear _ _ _ _) as [r s].
  destruct H as (_ & result & Hr & _ & _ & Hn & _). exists result. split; [exact Hr|exact Hn].
Defined.
