(* ===== verification/EndToEnd.v ===== *)
(** * run-test and the enclave

    tools/cmd/run-test packs a bid, and later reads the receipt and the result, with
    go-ethereum's ABI package; the enclave reads the bid and writes both with viem.
    Here the two meet: with a correct node between them, the enclave takes the bid
    of run-test, and every check run-test makes of the answers passes. *)

From S2P Require Import Prelude GoStrings GoText Json Platform Evm Abi Report Revert Support TeeCalls Deploy RunTest.
From S2P Require Import AuctionContract AuctionSafety AuctionProps EnclaveAbi Enclave Settlement TestToken AuctionRun Sim.
From stdpp Require Import options sorting.
Set Default Proof Using "Type*".

(** ** go-ethereum's ABI package

    Its types are named by texts, its addresses are their twenty bytes. *)

Definition addr (a : address) : string := str (be_bytes 20 a).
Definition go_type (t : static_type) : string :=
  match t with TAddress => "address" | TUint bits => "uint" +:+ itoa bits | TBytes32 => "bytes32" end.
Definition go_value (v : static_value) : abi_arg :=
  match v with VAddress a => AAddress (addr a) | VUint n => AUint n | VBytes32 b => ABytes32 b end.
Definition go_fields (fields : list (string * static_type)) : list (string * string) := prod_map id go_type <$> fields.

(** [abi.Arguments], for one tuple of static values, and for static values. *)
Class GoAbiLaws {W : Type} `{Tee : !TeeTypes, Codec : !AuctionCodec W} := {
  pack_tuple fields vals :
    all2 static_typed fields.*2 vals = true →
    Pack_arguments (go_fields fields) [ATuple (go_value <$> vals)] = Ok (abi_encode [VTuple vals]);
  unpack_static fields vals :
    all2 static_typed fields.*2 vals = true → (Z.of_nat (len (abi_encode (VStatic <$> vals))) < 2 ^ 256)%Z →
    Unpack_arguments (go_fields fields) (abi_encode (VStatic <$> vals)) = Ok (go_value <$> vals);
}.
Arguments GoAbiLaws W {Tee Codec}.

(** ** The layouts are the same *)

Definition static_fields (params : abi_params) : list (string * static_type) :=
  omap (λ p, match p.2 with TStatic t => Some (p.1, t) | _ => None end) params.
Definition tuple_fields (params : abi_params) : list (string * static_type) :=
  match params with [(_, TTuple fields)] => fields | _ => [] end.
Lemma bid_layout : bidTupleArgs = go_fields (tuple_fields PRIVATE_BID_PARAMS).
Proof. reflexivity. Qed.
Lemma receipt_layout : bidReceiptArgs = go_fields (static_fields BID_RECEIPT_PARAMS).
Proof. reflexivity. Qed.
Lemma result_layout : clearResultArgs = go_fields (static_fields CLEAR_RESULT_PARAMS).
Proof. reflexivity. Qed.

Section end_to_end.
Context {W : Type} `{OSW : !OS W, Uni : !Unicode, Geth : !GoEthereum, Txt : !GoEthereumText,
  JErr : !JsonErrors, Eth : !Ethclient W, Tee : !TeeTypes, Codec : !AuctionCodec W, GoAbi : !GoAbiLaws W}.
Context {V : Type} `{Dep : !Deployment V, Laws : !TokenLaws V, Vie : !Viem, VLaws : !ViemLaws}.
Context (clearRetentionMs : Z).

(** ** Lemmas *)

Lemma unpack_receipt r :
  typed BID_RECEIPT_PARAMS (receipt_values r) = true →
  Unpack_arguments bidReceiptArgs (abi_encode (receipt_values r)) =
    Ok [AAddress (addr (rc_contractAddr r)); AUint (rc_auctionId r); AAddress (addr (rc_bidder r)); AUint (rc_nonce r);
        ABytes32 (rc_bidCommitment r)].
Proof using GoAbi.
  intros Ht. rewrite receipt_layout. exact (unpack_static (static_fields BID_RECEIPT_PARAMS)
    [VAddress (rc_contractAddr r); VUint (rc_auctionId r); VAddress (rc_bidder r); VUint (rc_nonce r);
     VBytes32 (rc_bidCommitment r)] Ht (static_message BID_RECEIPT_PARAMS _ Ht eq_refl ltac:(cbn; lia))).
Qed.
Lemma unpack_result r :
  typed CLEAR_RESULT_PARAMS (result_values r) = true →
  Unpack_arguments clearResultArgs (abi_encode (result_values r)) =
    Ok [AAddress (addr (r_contractAddr r)); AUint (r_auctionId r); AAddress (addr (r_winner r)); AUint (r_unitPriceWei r);
        AUint (r_winningNonce r); ABytes32 (r_winningCommitment r); AUint (r_submittedBidCount r);
        AUint (r_eligibleBidCount r)].
Proof using GoAbi.
  intros Ht. rewrite result_layout. exact (unpack_static (static_fields CLEAR_RESULT_PARAMS)
    [VAddress (r_contractAddr r); VUint (r_auctionId r); VAddress (r_winner r); VUint (r_unitPriceWei r);
     VUint (r_winningNonce r); VBytes32 (r_winningCommitment r); VUint (r_submittedBidCount r);
     VUint (r_eligibleBidCount r)] Ht (static_message CLEAR_RESULT_PARAMS _ Ht eq_refl ltac:(cbn; lia))).
Qed.
(** run-test packs the bid the enclave reads. *)
Lemma pack_bid b :
  typed_bid b →
  Pack_arguments bidTupleArgs (bid_args (RunTest.mkBid (addr (b_bidder b)) (addr (b_contractAddr b)) (b_auctionId b)
    (b_nonce b) (b_unitPriceWei b) (b_salt b))) = Ok (abi_encode (bid_values b)).
Proof using GoAbi.
  intros Ht%bid_typed. rewrite bid_layout. apply (pack_tuple (tuple_fields PRIVATE_BID_PARAMS)
    [VAddress (b_bidder b); VAddress (b_contractAddr b); VUint (b_auctionId b); VUint (b_nonce b);
     VUint (b_unitPriceWei b); VBytes32 (b_salt b)]).
  unfold typed in Ht. cbn [all2 bid_values PRIVATE_BID_PARAMS snd fmap list_fmap value_fits] in Ht.
  by rewrite andb_true_r in Ht.
Qed.

(** What run-test's steps do with answers that are what they should be. *)
Lemma receipt_checks pf id receipt resp (w w' : W) :
  pollResult pf id w = (Ok resp, w') → ar_Status (Result resp) = 1%Z →
  typed BID_RECEIPT_PARAMS (receipt_values receipt) = true →
  ar_Data (Result resp) = abi_encode (receipt_values receipt) →
  bid_receipt pf id (addr (rc_bidder receipt)) w = (Ok (rc_bidCommitment receipt), w').
Proof.
  intros Hp Hst Ht Hd. unfold bid_receipt. rewrite (bind_ok _ _ _ _ _ Hp).
  rewrite decide_False by (intros H; by apply H). rewrite Hd, unpack_receipt by done.
  rewrite bind_ret_l. cbn [address_at lookup list_lookup or_panic]. rewrite bind_ret_l.
  by rewrite decide_False by (intros H; by apply H).
Qed.
Definition go_result (r : AuctionContract.ClearResult) : Platform.ClearResult :=
  mkClearResult (addr (r_contractAddr r)) (r_auctionId r) (addr (r_winner r)) (r_unitPriceWei r) (r_winningNonce r)
    (r_winningCommitment r) (r_submittedBidCount r) (r_eligibleBidCount r).
Lemma result_checks pf id r signature resp (w w' : W) :
  pollResult pf id w = (Ok resp, w') → ar_Status (Result resp) = 1%Z → ar_SubmissionTag (Result resp) = Threshold →
  len (Signature resp) = 65 → well_typed (CallSettleAuction (r_auctionId r) r signature) →
  ar_Data (Result resp) = abi_clear_result r →
  fetch_clear pf id (addr (r_winner r)) (r_unitPriceWei r) w = (Ok (go_result r, Signature resp), w').
Proof.
  intros Hp Hst Htag Hsig Hty Hd. unfold fetch_clear. rewrite (bind_ok _ _ _ _ _ Hp). cbv zeta.
  rewrite !decide_False by (rewrite ?Hst, ?Htag, ?Hsig; intros H; by apply H).
  rewrite Hd, <- result_words, unpack_result by by apply (result_typed r signature). rewrite bind_ret_l.
  change (clear_result _) with (Some (go_result r)). cbn [or_panic]. rewrite bind_ret_l.
  cbn [go_result cr_Winner cr_UnitPriceWei]. by rewrite bool_decide_eq_false_2, Z.eqb_refl by (intros H; by apply H).
Qed.

(** *** The enclave *)

(** The bid beats the others the enclave has. *)
Definition beats (b : PrivateBid) (a : Auction) (others : list StoredBid) : Prop :=
  Forall (λ old, is_address (bid_key old) ∧ bid_key old ≠ b_bidder b ∧
    (¬ eligible (floorPriceWei a) (ceilingPriceWei a) old ∨
     (b_unitPriceWei (bid old) < b_unitPriceWei b)%Z ∨
     b_unitPriceWei (bid old) = b_unitPriceWei b ∧ (b_bidder b < bid_key old)%Z)) others.
#[global] Instance beats_dec b a others : Decision (beats b a others).
Proof using. unfold beats. apply _. Defined.

Lemma map_set_new b bids : (∀ b', b' ∈ bids → bid_key b' ≠ bid_key b) → map_set b bids = bids ++ [b].
Proof using.
  induction bids as [|c bids IH]; intros Hk; [done|]. cbn. rewrite decide_False by (apply Hk; left).
  f_equal. apply IH. intros b' Hb'. apply Hk. by right.
Qed.

(** A valid bid of a dealer of whom nothing is stored is taken. *)
Lemma bid_taken decrypt now ciphertext plaintext b s :
  wf_enclave s → typed_bid b → validateBid b = None → decodePrivateBid plaintext = Ok b →
  decrypt ciphertext = Ok plaintext → 0 < len ciphertext → (Z.of_nat (len ciphertext) ≤ MAX_ENCRYPTED_BID_BYTES)%Z →
  let key := keyForAuction (b_contractAddr b) (b_auctionId b) in
  cleared_of (pruneCleared now s) !! key = None →
  (∀ old, old ∈ bids_at key s → bid_key old ≠ b_bidder b) →
  handlePrivateBid decrypt now (bid_message (b_auctionId b) (b_bidder b) ciphertext) s =
    (Ok (Success (abi_encode (receipt_values (mkReceipt (b_contractAddr b) (b_auctionId b) (b_bidder b) (b_nonce b)
       (viem_keccak256 plaintext))))),
     mkEnclave (<[key := bids_at key s ++ [mkStored b (viem_keccak256 plaintext)]]> (bids_of s)) (cleared_of (pruneCleared now s))).
Proof.
  intros Hw [Hb Hc Hi Hn Hp Hs] Hv Hdec Hdecr Hl0 Hl key Hcl Hold. apply accepted_run with b; [done|].
  exists (mkEnvelope (b_auctionId b) (b_bidder b) ciphertext), plaintext. cbv zeta. fold key. cbn [e_ciphertext e_bidder e_auctionId].
  split_and!; [by apply decode_envelope|lia|done..| | |].
  - intros old Ho Hk. by destruct (Hold old Ho).
  - cbn [commitment]. set (receipt := mkReceipt _ _ _ _ _).
    assert (typed BID_RECEIPT_PARAMS (receipt_values receipt) = true) as Ht
      by (rewrite receipt_typed by (first [done|apply keccak_length]); by apply bool_decide_eq_true).
    apply encode_typed in Ht. change (encodeBidReceipt _ _ _ _ _) with (encodeAbiParameters BID_RECEIPT_PARAMS (receipt_values receipt)).
    destruct (encodeAbiParameters _ _) as [data|e] eqn:He; [|done]. apply encode_abi in He as ->. done.
  - by rewrite map_set_new.
Qed.

(** The best bid wins, and its result is encoded. *)
Lemma bid_wins now b k a s :
  is_address this → this ≠ 0%Z → b_contractAddr b = this → typed_bid b → validateBid b = None → len k = 32 →
  (1 ≤ floorPriceWei a ≤ b_unitPriceWei b ≤ ceilingPriceWei a)%Z → is_uint 256 (ceilingPriceWei a) →
  wf_enclave s → let key := keyForAuction this (b_auctionId b) in
  cleared_of (pruneCleared now s) !! key = None → ∀ others, bids_at key s = others ++ [mkStored b k] → beats b a others →
  ∃ r signature, fst (handleClear clearRetentionMs now (clear_message (b_auctionId b) a) s) = Ok (Success (abi_clear_result r)) ∧
    well_typed (CallSettleAuction (r_auctionId r) r signature) ∧ r_winner r = b_bidder b ∧
    r_unitPriceWei r = b_unitPriceWei b ∧ r_winningCommitment r = k ∧ r_submittedBidCount r = Z.of_nat (S (length others)).
Proof.
  intros Hth Hth0 Hcb Hty Hv Hk Hcol Hcu Hw key Hcl others Hat Hbeats. unfold beats in Hbeats.
  rewrite Forall_forall in Hbeats. pose proof Hty as [Hb Hc Hi Hn Hp Hs].
  assert (1 ≤ b_auctionId b)%Z as Hi1 by (revert Hv; unfold validateBid; repeat (case_decide; [done|]); lia).
  set (m := mkClearMessage (b_auctionId b) this (floorPriceWei a) (ceilingPriceWei a)).
  destruct (bids_at_wf key s Hw) as [Hnd Hf].
  destruct (handleClear_valid clearRetentionMs now (clear_message (b_auctionId b) a) s m) as [_ Hrun];
    [apply decode_clear; unfold is_uint in *; first [done|lia]|done|done|cbn; lia|].
  cbn [m m_contractAddr m_auctionId] in Hrun. rewrite (Hrun Hcl). fold key.
  pose proof (clear_bids_winner m key _ Hnd Hf) as Hwin. cbv zeta in Hwin. set (r := clear_bids m (bids_at key s)) in *.
  assert (mkStored b k ∈ bids_at key s ∧ eligible (m_floorPriceWei m) (m_ceilingPriceWei m) (mkStored b k)) as [Hin Hel].
  { split; [rewrite Hat; apply elem_of_app; right; by left|]. unfold eligible. cbn. lia. }
  destruct Hwin as [(Hno & _)|(w & Hwin & Hwel & Hwn & _ & Hwp & Hwc & Hwk & Hbest)]; [by destruct (Hno _ Hin)|].
  assert (w = mkStored b k) as ->.
  { rewrite Hat in Hwin. apply elem_of_app in Hwin as [Hwo|Hwo%list_elem_of_singleton]; [|done].
    destruct (Hbeats w Hwo) as (_ & Hne & Hb'). destruct Hb' as [?|Hb']; [done|]. specialize (Hbest _ Hin Hel). cbn in Hbest.
    destruct Hbest as [?|[? ?]]; [intros <-; by apply Hne|..]; unfold bid_key in *; lia. }
  assert (∀ b', b' ∈ bids_at key s → is_address (bid_key b')) as Hadr.
  { intros b'. rewrite Hat, elem_of_app, list_elem_of_singleton. intros [Ho| ->]; [by apply Hbeats|done]. }
  pose proof (bidders_bounded _ Hnd Hadr) as Hlen.
  assert (r_eligibleBidCount r ≤ r_submittedBidCount r ∧ 0 ≤ r_eligibleBidCount r)%Z as Hle.
  { unfold r, clear_bids. cbn. rewrite merge_sort_Permutation. split; [|lia]. apply inj_le, length_filter. }
  assert (well_typed (CallSettleAuction (r_auctionId r) r "")) as Hwt.
  { apply Is_true_true, bool_decide_eq_true. rewrite Hwn, Hwp, Hwc, Hwk. cbn [bid commitment].
    split_and!; try done. unfold is_uint in *. cbn in Hle, Hlen |- *. lia. }
  exists r, "". pose proof (encode_clear_typed r "" Hwt) as Henc.
  destruct (encodeClearResult r) as [data|] eqn:He; [|done]. rewrite (encode_clear _ _ He).
  split_and!; [done|done|by rewrite Hwn|by rewrite Hwp|by rewrite Hwk|].
  unfold r, clear_bids. cbn [r_submittedBidCount]. rewrite Hat, length_app. cbn. lia.
Qed.

(** ** Property *)

(** C12: run-test and the enclave agree on every format.  Let a dealer's bid have a
    salt, and a price in the collar that beats the bids the enclave has, none of
    them the dealer's.  Then run-test can pack it; when the contract sends any
    ciphertext of that plaintext on, the enclave takes the bid, and run-test, given
    the receipt, accepts it and reads the commitment to the plaintext; and when the
    contract's clear request comes, run-test, given the signed result, accepts it:
    the dealer wins at the price of the bid, with that commitment. *)
Theorem run_test_accepts (dealer : address) (i price : Z) (salt : string) (a : Auction) (s : enclave) (now : Z) :
  let b := EnclaveAbi.mkBid dealer this i 1 price salt in
  let key := keyForAuction this i in
  is_address this → this ≠ 0%Z → typed_bid b → validateBid b = None →
  (1 ≤ floorPriceWei a ≤ price ≤ ceilingPriceWei a)%Z → is_uint 256 (ceilingPriceWei a) →
  wf_enclave s → cleared_of (pruneCleared now s) !! key = None → beats b a (bids_at key s) →
  ∃ plaintext,
    Pack_arguments bidTupleArgs (bid_args (RunTest.mkBid (addr dealer) (addr this) i 1 price salt)) = Ok plaintext ∧
    ∀ decrypt ciphertext, decrypt ciphertext = Ok plaintext →
    0 < len ciphertext → (Z.of_nat (len ciphertext) ≤ MAX_ENCRYPTED_BID_BYTES)%Z →
    ∃ receipt s', handlePrivateBid decrypt now (bid_message i dealer ciphertext) s = (Ok (Success receipt), s') ∧
      (∀ pf id resp (w w' : W), pollResult pf id w = (Ok resp, w') →
         ar_Status (Result resp) = 1%Z → ar_Data (Result resp) = receipt →
         bid_receipt pf id (addr dealer) w = (Ok (viem_keccak256 plaintext), w')) ∧
      ∀ later, ∃ data, fst (handleClear clearRetentionMs later (clear_message i a) s') = Ok (Success data) ∧
        ∀ pf id resp (w w' : W), pollResult pf id w = (Ok resp, w') →
          ar_Status (Result resp) = 1%Z → ar_SubmissionTag (Result resp) = Threshold → len (Signature resp) = 65 →
          ar_Data (Result resp) = data →
          ∃ result, fetch_clear pf id (addr dealer) price w = (Ok (result, Signature resp), w') ∧
            cr_WinningCommitment result = viem_keccak256 plaintext ∧
            cr_SubmittedBidCount result = Z.of_nat (S (length (bids_at key s))).
Proof.
  intros b key Hth Hth0 Hty Hv Hcol Hcu Hw Hcl Hbeats. exists (abi_encode (bid_values b)).
  split; [exact (pack_bid b Hty)|]. intros decrypt ciphertext Hd Hl0 Hl.
  set (plaintext := abi_encode (bid_values b)) in *. pose proof (keccak_length plaintext) as Hk.
  assert (∀ old, old ∈ bids_at key s → bid_key old ≠ b_bidder b) as Hnew
    by (intros old Ho; by apply (Forall_forall _ (bids_at key s)) with (x := old) in Hbeats as (_ & ? & _)).
  pose proof (bid_taken decrypt now ciphertext plaintext b s Hw Hty Hv (decode_typed_bid b Hty) Hd Hl0 Hl Hcl Hnew) as Hrun.
  pose proof (handlePrivateBid_wf decrypt now (bid_message i dealer ciphertext) s Hw) as Hw'.
  cbn [b b_auctionId b_bidder b_contractAddr b_nonce] in Hrun. rewrite Hrun in Hw'. cbn [snd] in Hw'.
  eexists _, _. split; [exact Hrun|]. split.
  - intros pf id resp w w' Hp Hst Hdata.
    apply (receipt_checks pf id (mkReceipt this i dealer 1 (viem_keccak256 plaintext)) resp w w' Hp Hst); [|exact Hdata].
    destruct Hty. rewrite receipt_typed by done. by_decide.
  - intros later. fold key in Hw', Hrun |- *. set (s' := mkEnclave _ _) in *.
    assert (cleared_of (pruneCleared later s') !! key = None) as Hcl'.
    { destruct (cleared_of (pruneCleared later s') !! key) eqn:He; [|done]. apply pruned_lookup in He as [He _].
      cbn [s' cleared_of] in He. congruence. }
    destruct (bid_wins later b (viem_keccak256 plaintext) a s' Hth Hth0 eq_refl Hty Hv Hk Hcol Hcu Hw' Hcl' (bids_at key s))
      as (r & sg & Hr & Hwt & Hwin & Hprice & Hcm & Hn); [|done|].
    { unfold bids_at at 1. cbn [s' bids_of b b_auctionId]. by rewrite lookup_insert_eq. }
    exists (abi_clear_result r). split; [exact Hr|]. intros pf id resp w w' Hp Hst Htag Hsig Hdata.
    exists (go_result r). split; [|done].
    change dealer with (b_bidder b). change price with (b_unitPriceWei b). rewrite <- Hwin, <- Hprice.
    by apply result_checks with sg.
Qed.
End end_to_end.

(** ** Witness

    An ABI package that does what the laws say, and the codecs of [AuctionRun]. *)

Definition static_of (ty : string) : static_type :=
  if decide (ty = "address") then TAddress
  else if decide (ty = "bytes32") then TBytes32
  else TUint (Z.of_N (default 0 (parse_digits 10 (drop 4 (bytes ty)))))%N.
Definition sim_static (v : abi_arg) : option static_value :=
  match v with
  | AAddress a => Some (VAddress (big_endian a))
  | AUint n => Some (VUint n)
  | ABytes32 b => Some (VBytes32 b)
  | _ => None
  end.
Definition static_of_value (v : abi_value) : option static_value := match v with VStatic v => Some v | _ => None end.
Definition cannot_use : error := ErrMsg "abi: cannot use".
Definition sim_pack (tys : list (string * string)) (args : list abi_arg) : result string :=
  match args with
  | [ATuple args] =>
    match mapM sim_static args with
    | Some vals => if all2 static_typed (static_of <$> tys.*2) vals then Ok (abi_encode [VTuple vals]) else Err cannot_use
    | None => Err cannot_use
    end
  | _ => Err cannot_use
  end.
Definition sim_unpack (tys : list (string * string)) (data : string) : result (list abi_arg) :=
  match abi_decode (prod_map id (TStatic ∘ static_of) <$> tys) data ≫= mapM static_of_value with
  | Some vals => if all2 static_typed (static_of <$> tys.*2) vals then Ok (go_value <$> vals) else Err cannot_use
  | None => Err cannot_use
  end.
Definition abi_codec : AuctionCodec world (H := demo_tee) :=
  Build_AuctionCodec world demo_tee sim_pack sim_unpack
    (λ plaintext _, ret (Ok plaintext)) (λ n, ret (Ok (str (replicate n (byte 7))))) "threshold".

Lemma static_of_uint bits : (0 ≤ bits ≤ 256)%Z → static_of (go_type (TUint bits)) = TUint bits.
Proof.
  intros Hb. assert (forallb (λ b, match static_of (go_type (TUint (Z.of_nat b))) with
    TUint b' => (b' =? Z.of_nat b)%Z | _ => false end) (seq 0 257) = true) as H by (vm_compute; reflexivity).
  rewrite forallb_forall in H. specialize (H (Z.to_nat bits)). rewrite Z2Nat.id in H by lia.
  assert (In (Z.to_nat bits) (seq 0 257)) as Hin by (apply in_seq; lia). specialize (H Hin).
  destruct (static_of _); [done| |done]. by apply Z.eqb_eq in H as ->.
Qed.
Lemma typed_type t v : static_typed t v = true → static_of (go_type t) = t.
Proof.
  destruct t as [|bits|], v; cbn [static_typed]; try done. intros [Hn Hb]%bool_decide_eq_true.
  apply static_of_uint. destruct (Z_lt_le_dec bits 0) as [Hneg|]; [|lia]. unfold is_uint in Hn.
  rewrite (Z.pow_neg_r 2 bits) in Hn by done. lia.
Qed.
Lemma typed_types ts vals : all2 static_typed ts vals = true → static_of <$> (go_type <$> ts) = ts.
Proof.
  rewrite all2_Forall2. induction 1 as [|t v ts vals Hv _ IH]; [done|]. cbn [fmap list_fmap] in *.
  by rewrite (typed_type t v Hv), IH.
Qed.
Lemma go_fields_types fields : (go_fields fields).*2 = go_type <$> fields.*2.
Proof. unfold go_fields. rewrite <- !list_fmap_compose. by apply list_fmap_ext. Qed.
Lemma addr_big_endian a : is_address a → big_endian (addr a) = a.
Proof. intros Ha. unfold big_endian, addr. rewrite bytes_str, be_bytes_value. by apply Z.mod_small. Qed.
Lemma sim_static_go ts vals : all2 static_typed ts vals = true → mapM sim_static (go_value <$> vals) = Some vals.
Proof.
  rewrite all2_Forall2. induction 1 as [|t v ts vals Hv _ IH]; [done|]. cbn [fmap list_fmap mapM] in *. rewrite IH.
  destruct t, v; cbn [static_typed go_value sim_static] in *; try done.
  apply bool_decide_eq_true in Hv. by rewrite addr_big_endian.
Qed.
Lemma static_values vals : mapM static_of_value (VStatic <$> vals) = Some vals.
Proof. induction vals as [|v vals IH]; [done|]. cbn [fmap list_fmap mapM static_of_value] in *. by rewrite IH. Qed.
Lemma static_params_shaped ts vals :
  all2 static_typed ts vals = true → all2 (value_fits static_shaped) (TStatic <$> ts) (VStatic <$> vals) = true.
Proof.
  rewrite !all2_Forall2, Forall2_fmap. intros Hf. eapply Forall2_impl; [exact Hf|]. intros t v. apply static_typed_shaped.
Qed.
Lemma abi_codec_laws : GoAbiLaws world (Tee := demo_tee) (Codec := abi_codec).
Proof.
  split; intros fields vals Ht; cbn [Pack_arguments Unpack_arguments abi_codec].
  - unfold sim_pack. by rewrite (sim_static_go _ _ Ht), go_fields_types, (typed_types _ _ Ht), Ht.
  - intros Hl. unfold sim_unpack. rewrite go_fields_types, (typed_types _ _ Ht).
    rewrite abi_decode_encode; [cbn [mbind option_bind]; by rewrite static_values, Ht| |done].
    unfold shaped. assert ((prod_map id (TStatic ∘ static_of) <$> go_fields fields).*2 = TStatic <$> fields.*2) as ->.
    { transitivity (TStatic <$> (static_of <$> (go_fields fields).*2)).
      - rewrite <- !list_fmap_compose. by apply list_fmap_ext.
      - by rewrite go_fields_types, (typed_types _ _ Ht). }
    by apply static_params_shaped.
Qed.

(** The enclave has the rival's bid when run-test's arrives. *)
Definition rival_memory : enclave :=
  snd (handlePrivateBid demo_decrypt 1000 (bid_message 1 demo_rival (demo_plain demo_rival 1 (21 * 10 ^ 17))) resetState).
Definition run_test_bid : PrivateBid := EnclaveAbi.mkBid demo_bidder demo_this 1 1 (22 * 10 ^ 17) (word 9).
Definition run_test_plain : string := abi_encode (bid_values run_test_bid).
Lemma run_test_bid_typed : typed_bid run_test_bid.
Proof. split; by_decide. Qed.
Lemma demo_collar :
  (1 ≤ floorPriceWei demo_auction ≤ 22 * 10 ^ 17)%Z ∧ (22 * 10 ^ 17 ≤ ceilingPriceWei demo_auction)%Z ∧
  is_uint 256 (ceilingPriceWei demo_auction).
Proof.
  assert (floorPriceWei demo_auction = demo_floor) as -> by (vm_compute; reflexivity).
  assert (ceilingPriceWei demo_auction = demo_ceiling) as -> by (vm_compute; reflexivity).
  by_decide.
Qed.
Lemma rival_beaten : beats run_test_bid demo_auction (bids_at (keyForAuction demo_this 1) rival_memory).
Proof. by_decide. Qed.
Lemma rival_not_cleared : cleared_of (pruneCleared 1500 rival_memory) !! keyForAuction demo_this 1 = None.
Proof. vm_compute. reflexivity. Qed.
Lemma run_test_packed :
  @Pack_arguments world _ abi_codec bidTupleArgs (bid_args (RunTest.mkBid (addr demo_bidder) (addr demo_this) 1 1 (22 * 10 ^ 17) (word 9))) =
    Ok run_test_plain.
Proof. vm_compute. reflexivity. Qed.
Lemma run_test_accepts_witness :
  ∃ receipt s', handlePrivateBid demo_decrypt 1500 (bid_message 1 demo_bidder run_test_plain) rival_memory = (Ok (Success receipt), s') ∧
    ∃ data, fst (handleClear demo_retention 2000 (clear_message (W := world2) 1 demo_auction) s') = Ok (Success data).
Proof.
  assert (wf_enclave rival_memory) as Hw by (apply handlePrivateBid_wf, empty_wf).
  destruct (run_test_accepts (Codec := abi_codec) (GoAbi := abi_codec_laws) (VLaws := demo_viem_laws)
    demo_retention demo_bidder 1 (22 * 10 ^ 17) (word 9) demo_auction rival_memory 1500)
    as (plaintext & Hp & Hrun);
    [by_decide|by_decide|exact run_test_bid_typed|vm_compute; reflexivity
    |destruct demo_collar as ([? ?] & ? & _); split; [assumption|split; assumption]|apply demo_collar|exact Hw
    |exact rival_not_cleared|exact rival_beaten|].
  pose proof (eq_trans (eq_sym run_test_packed) Hp) as Hq. assert (run_test_plain = plaintext) as <- by congruence.
  destruct (Hrun demo_decrypt run_test_plain eq_refl) as (receipt & s' & Hb & _ & Hc); [by_decide|by_decide|].
  exists receipt, s'. split; [exact Hb|]. destruct (Hc 2000%Z) as (data & Hd & _). exists data. exact Hd.
Defined.
