(* ===== verification/WireRun.v ===== *)
(** * The auction over the wire, run

    The messages of the run of [AuctionRun] sent to the enclave as HTTP requests that
    overlap, as evidence that the hypotheses of [TsQueue] and [EnclaveServer] can
    hold. *)

From S2P Require Import Prelude GoStrings GoText Json Js Evm AuctionContract AuctionSafety AuctionProps Abi EnclaveAbi Enclave Settlement TestToken AuctionRun Secrecy.
From S2P Require Import TsServer TsQueue EnclaveServer.
From stdpp Require Import options.

(** ** An engine, and viem's reading of hex *)

#[export] Instance demo_engine : JsEngine := {|
  number_is_zero raw := bool_decide (raw = "0");
  number_text raw := raw;
  syntax_error _ := "Unexpected token";
  not_a_function callee := callee +:+ " is not a function";
  not_primitive := "Cannot convert object to primitive value";
|}.
#[export] Instance demo_viem_input : ViemInput := {|
  viem_bytes j :=
    match j with
    | JStr s => match hex_decode (str_drop 2 s) with Some b => Ok b | None => Err (ErrMsg "not hex") end
    | _ => Err (ErrMsg "not hex")
    end;
|}.
Lemma demo_viem_input_laws : ViemInputLaws.
Proof.
  split. intros b. unfold viem_bytes, demo_viem_input, bytesToHex.
  assert (str_drop 2 ("0x" +:+ hex_encode b) = hex_encode b) as ->.
  { unfold str_drop. rewrite bytes_app. cbn. by rewrite drop_0, str_bytes. }
  by rewrite hex_decode_encode.
Qed.

(** ** The loop, executed *)

Section run.
Context {E S : Type} (srv : Server E S).
Inductive loop_event :=
  | Arrives (t : nat) (method path : string) (body : option string)
  | Starts (t : nat) (env : E)
  | Ends (t : nat)
  | Tails (t : nat)
  | Sends (t : nat).
Definition loop_do (e : loop_event) (l : loop) : option (@loop E S) :=
  if crashed l then None else
  match e with
  | Arrives t method path body =>
    if decide (runs l !! t = None ∧ replies l !! t = None) then
      match serve_plan srv method path body with
      | Answer a => Some (mkLoop (memory l) (queue l) (runs l) (<[t := a]> (replies l)) (thrown l) (crashed l))
      | Throw e => Some (mkLoop (memory l) (queue l) (runs l) (replies l) true (crashed l))
      | p => Some (mkLoop (memory l) (Some t) (<[t := mkRun (queue l) p Pending]> (runs l)) (replies l) (thrown l) (crashed l))
      end
    else None
  | Starts t env =>
    r ← runs l !! t;
    if (match after r with None => true | Some p => tailed l p end) then
      match progress r with
      | Pending => Some (mkLoop (memory l) (queue l) (set_run t (Invoked env (memory l)) r l) (replies l) (thrown l) (crashed l))
      | _ => None
      end
    else None
  | Ends t =>
    r ← runs l !! t;
    match progress r with
    | Invoked env s =>
      let '(res, s') := run_plan srv (todo r) env s in
      Some (mkLoop s' (queue l) (set_run t (Settled res) r l) (replies l) (thrown l) (crashed l))
    | _ => None
    end
  | Tails t =>
    r ← runs l !! t;
    match progress r with
    | Settled res => Some (mkLoop (memory l) (queue l) (set_run t (Tailed res) r l) (replies l) (thrown l) (crashed l))
    | _ => None
    end
  | Sends t =>
    r ← runs l !! t;
    match progress r with
    | Settled (Ok a) | Tailed (Ok a) =>
      Some (mkLoop (memory l) (queue l) (runs l) (<[t := a]> (replies l)) (thrown l) (crashed l))
    | Settled (Err _) | Tailed (Err _) => Some (mkLoop (memory l) (queue l) (runs l) (replies l) true (crashed l))
    | _ => None
    end
  end.

Lemma loop_do_step e l l' : loop_do e l = Some l' → loop_step srv l l'.
Proof.
  unfold loop_do. remember (crashed l) as c eqn:Hc in |- * at 1. destruct c; [done|]. symmetry in Hc. destruct e as [t method path body|t env|t|t|t].
  - case_decide as Hf; [|done]. destruct (serve_plan srv method path body) eqn:Hp; intros [= <-].
    + by eapply loop_answers.
    + by eapply loop_throws.
    + by eapply loop_queues.
    + by eapply loop_queues.
  - intros (r & Hr & H)%bind_Some. assert (tail_settled l (after r)) as Ht.
    { destruct (after r) as [p|]; [|done]. apply (tailed_true srv). by destruct (tailed l p). }
    destruct (match after r with Some p => tailed l p | None => true end); [|done].
    destruct (progress r) eqn:Hp; try done. injection H as <-. by apply loop_invokes.
  - intros (r & Hr & H)%bind_Some. destruct (progress r) eqn:Hp; try done.
    destruct (run_plan srv (todo r) env before) as [res s'] eqn:Hrun. injection H as <-. by eapply loop_settles.
  - intros (r & Hr & H)%bind_Some. destruct (progress r) eqn:Hp; try done. injection H as <-. by eapply loop_tails.
  - intros (r & Hr & H)%bind_Some. destruct (progress r) as [| |[a|e]|[a|e]] eqn:Hp; try done; injection H as <-;
      first [eapply loop_replies; by eauto|eapply loop_rejects; by eauto].
Qed.
Fixpoint loop_run (es : list loop_event) (l : loop) : option (@loop E S) :=
  match es with [] => Some l | e :: es => l ← loop_do e l; loop_run es l end.
Lemma loop_run_steps es l l' : loop_run es l = Some l' → rtc (loop_step srv) l l'.
Proof.
  revert l. induction es as [|e es IH]; intros l; cbn [loop_run]; [by intros [= <-]|].
  intros (l1 & H1 & H2)%bind_Some. eapply rtc_l; [by apply (loop_do_step e)|by apply IH].
Qed.
End run.

(** ** Requests *)

Definition demo_body (opCommand id message : string) : string :=
  let fixed := JSON_stringify (JObj [("instructionId", JStr id); ("opType", JStr (bytesToHex OP_TYPE_QUIETFILL));
    ("opCommand", JStr (bytesToHex opCommand)); ("originalMessage", JStr (bytesToHex message))]) in
  JSON_stringify (JObj [("data", JObj [("id", JStr id); ("type", JStr "instruction"); ("submissionTag", JStr "threshold");
    ("message", JStr (bytesToHex fixed))])]).
Definition demo_srv : Server call_env enclave := enclave_srv demo_retention.
Definition demo_env (now : Z) : call_env := mkEnv demo_decrypt now.
Definition demo_message (n : nat) : string := default "" (bid_messages demo_market !! n).
Definition demo_id : string := bytesToHex (bytes32_literal "bid").

(** Two bids, the second before the first is done, a read of the state, and an
    unknown path. *)
Definition overlapping : list (@loop_event call_env) := [
  Arrives 1 "POST" "/action" (Some (demo_body OP_COMMAND_PRIVATE_BID demo_id (demo_message 1)));
  Starts 1 (demo_env 1000);
  Arrives 2 "POST" "/action" (Some (demo_body OP_COMMAND_PRIVATE_BID demo_id (demo_message 0)));
  Arrives 3 "GET" "/state" (Some ""); Arrives 4 "GET" "/bids" (Some "");
  Ends 1; Tails 1; Sends 1; Starts 2 (demo_env 2000)].
Definition finishing : list (@loop_event call_env) :=
  [Ends 2; Tails 2; Starts 3 (demo_env 2001); Ends 3; Tails 3; Sends 3; Sends 2].
Definition demo_loop0 : @loop call_env enclave := loop_start resetState.
Definition demo_loop1 : @loop call_env enclave := default demo_loop0 (loop_run demo_srv overlapping demo_loop0).
Definition demo_loop2 : @loop call_env enclave := default demo_loop0 (loop_run demo_srv finishing demo_loop1).
Definition ran (es : list (@loop_event call_env)) (l : @loop call_env enclave) : bool :=
  match loop_run demo_srv es l with Some _ => true | None => false end.
Lemma ran_steps es l : ran es l = true → rtc (loop_step demo_srv) l (default demo_loop0 (loop_run demo_srv es l)).
Proof. unfold ran. destruct (loop_run demo_srv es l) as [l'|] eqn:Hl; [|done]. intros _. by eapply loop_run_steps. Qed.
Lemma demo_loop1_steps : rtc (loop_step demo_srv) demo_loop0 demo_loop1.
Proof.
  apply (ran_steps overlapping). vm_compute. reflexivity.
Qed.
Lemma demo_loop2_steps : rtc (loop_step demo_srv) demo_loop1 demo_loop2.
Proof.
  apply (ran_steps finishing). vm_compute. reflexivity.
Qed.
(** The rival may not start before the first bid is in. *)
Example demo_blocked : loop_run demo_srv (take 3 overlapping ++ [Starts 2 (demo_env 1)]) demo_loop0 = None.
Proof. vm_compute. reflexivity. Qed.
Example demo_loop_ends :
  (length <$> bids_of (memory demo_loop2) !! keyForAuction demo_this 1) = Some 2 ∧
  (fst <$> replies demo_loop2 !! 4) = Some 404%Z ∧ (fst <$> replies demo_loop2 !! 2) = Some 200%Z.
Proof. vm_compute. done. Qed.

(** ** Reading a request *)

Definition text_at (name : string) (v : json) (s : string) : bool :=
  match prop name v with Some (JStr s') => bool_decide (s' = s) | _ => false end.
Lemma text_at_true name v s : text_at name v s = true → prop name v = Some (JStr s).
Proof. unfold text_at. destruct (prop name v) as [[| | |s'| |]|]; try done. by intros ->%bool_decide_eq_true_1. Qed.
Definition carries_b (body id tag opType opCommand message : string) : bool :=
  match JSON_parse body with
  | Some action =>
    let data := default JNull (prop "data" action) in
    negb (lacks action "data") &&
    match hexToBytes (prop "message" data) with
    | Ok m =>
      match JSON_parse (utf8_decode m) with
      | Some df =>
        negb (lacks df "opType") && text_at "id" data id && text_at "submissionTag" data tag &&
        text_at "opType" df (bytesToHex opType) && text_at "opCommand" df (bytesToHex opCommand) &&
        text_at "originalMessage" df (bytesToHex message)
      | None => false
      end
    | Err _ => false
    end
  | None => false
  end.
Lemma carries_b_true body id tag opType opCommand message :
  carries_b body id tag opType opCommand message = true → carries body id tag opType opCommand message.
Proof.
  unfold carries_b. destruct (JSON_parse body) as [action|] eqn:Ha; [|done]. cbv zeta.
  rewrite andb_true_iff, negb_true_iff. intros [Hl H]. destruct (hexToBytes _) as [m|] eqn:Hm; [|done].
  destruct (JSON_parse (utf8_decode m)) as [df|] eqn:Hdf; [|done].
  rewrite !andb_true_iff, negb_true_iff in H. destruct H as (((((Hld & H1) & H2) & H3) & H4) & H5).
  exists (default JNull (prop "data" action)), df. split; [by exists action, m|].
  by split_and!; apply text_at_true.
Qed.

(** Every queued call has the plan of a request. *)
Lemma loop_run_todo {E S} (srv : Server E S) (P : plan E S → Prop) es l l' :
  loop_run srv es l = Some l' →
  Forall (λ e, match e with Arrives t method path body =>
      let p := serve_plan srv method path body in queued p = true → P p
    | _ => True end) es →
  (∀ t r, runs l !! t = Some r → P (todo r)) → ∀ t r, runs l' !! t = Some r → P (todo r).
Proof.
  revert l. induction es as [|e es IH]; intros l; cbn [loop_run]; [by intros [= <-]|].
  intros (l1 & H1 & H2)%bind_Some [He Hes]%Forall_cons Hl. apply (IH l1 H2 Hes). clear IH H2 Hes.
  assert (∀ t0 r0 st t r, runs l !! t0 = Some r0 → set_run t0 st r0 l !! t = Some r → P (todo r)) as Hset.
  { intros t0 r0 st t r Hr0. rewrite (set_run_lookup srv _ _ _ _ _ Hr0). case_decide; [|apply Hl]. intros [= <-]. exact (Hl t0 r0 Hr0). }
  unfold loop_do in H1. remember (crashed l) as c eqn:Hc in H1 at 1. destruct c; [done|].
  destruct e as [t0 method path body|t0 env|t0|t0|t0].
  - case_decide; [|done]. destruct (serve_plan srv method path body) eqn:Hp; injection H1 as <-; cbn [runs]; try done;
      intros t r; (destruct (decide (t = t0)) as [->|]; [rewrite lookup_insert_eq; intros [= <-]; by apply He|rewrite lookup_insert_ne by done; apply Hl]).
  - apply bind_Some in H1 as (r0 & Hr0 & H1). destruct (match after r0 with Some p => tailed l p | None => true end); [|done].
    destruct (progress r0); try done. injection H1 as <-. intros u ru. by apply Hset.
  - apply bind_Some in H1 as (r0 & Hr0 & H1). destruct (progress r0); try done.
    destruct (run_plan _ _ _ _). injection H1 as <-. intros u ru. by apply Hset.
  - apply bind_Some in H1 as (r0 & Hr0 & H1). destruct (progress r0); try done. injection H1 as <-. intros u ru. by apply Hset.
  - apply bind_Some in H1 as (r0 & Hr0 & H1). destruct (progress r0) as [| |[]|[]]; try done; injection H1 as <-; apply Hl.
Qed.
Lemma bid_carried n : n < 2 →
  carries (utf8_decode (demo_body OP_COMMAND_PRIVATE_BID demo_id (demo_message n))) demo_id "threshold"
    OP_TYPE_QUIETFILL OP_COMMAND_PRIVATE_BID (demo_message n).
Proof.
  intros Hn. apply carries_b_true. destruct n as [|[|]]; [vm_compute; reflexivity|vm_compute; reflexivity|lia].
Qed.
Lemma bid_sent n : n < 2 → demo_message n ∈ bid_messages demo_market.
Proof.
  intros Hn. destruct (bid_messages demo_market) as [|m0 [|m1 rest]] eqn:Hm.
  1-2: exfalso; apply (f_equal length) in Hm; vm_compute in Hm; discriminate.
  unfold demo_message. rewrite Hm. destruct n as [|[|]]; [left|right; left|lia].
Qed.
Lemma bid_delivered n : n < 2 →
  delivers demo_retention demo_market
    (serve_plan demo_srv "POST" "/action" (Some (demo_body OP_COMMAND_PRIVATE_BID demo_id (demo_message n)))).
Proof.
  intros Hn. eapply contract_delivers; [by apply bid_carried|]. left. split; [done|by apply bid_sent].
Qed.

Definition not_running (l : @loop call_env enclave) : bool :=
  forallb (λ p, match progress p.2 with Invoked _ _ => false | _ => true end) (map_to_list (runs l)).
Lemma not_running_spec l t r env s : not_running l = true → runs l !! t = Some r → progress r ≠ Invoked env s.
Proof.
  unfold not_running. rewrite forallb_forall. intros H Hr Hp. specialize (H (t, r)). cbn in H. rewrite Hp in H.
  discriminate H. by apply list_elem_of_In, elem_of_map_to_list.
Qed.
Lemma demo_idle : not_running demo_loop2 = true.
Proof. vm_compute. reflexivity. Qed.

(** Every request of the run was a message of the contract, or asked for nothing that
    is queued. *)
Lemma ran_run es l : ran es l = true → loop_run demo_srv es l = Some (default demo_loop0 (loop_run demo_srv es l)).
Proof. unfold ran. by destruct (loop_run demo_srv es l). Qed.
Lemma demo_run1 : loop_run demo_srv overlapping demo_loop0 = Some demo_loop1.
Proof. unfold demo_loop1. apply ran_run. vm_compute. reflexivity. Qed.
Lemma demo_run2 : loop_run demo_srv finishing demo_loop1 = Some demo_loop2.
Proof. unfold demo_loop2. apply ran_run. vm_compute. reflexivity. Qed.
Lemma demo_todo t r : runs demo_loop2 !! t = Some r → delivers demo_retention demo_market (todo r).
Proof.
  revert t r. apply (loop_run_todo demo_srv (delivers demo_retention demo_market) _ _ _ demo_run2).
  { unfold finishing. repeat (apply Forall_cons; split); try done. }
  apply (loop_run_todo demo_srv (delivers demo_retention demo_market) _ _ _ demo_run1).
  - unfold overlapping. apply Forall_cons; split; [intros _; exact (bid_delivered 1 ltac:(lia))|].
    apply Forall_cons; split; [exact I|].
    apply Forall_cons; split; [intros _; exact (bid_delivered 0 ltac:(lia))|].
    apply Forall_cons; split; [intros _; exact I|]. apply Forall_cons; split; [intros Hp; discriminate Hp|].
    repeat (apply Forall_cons; split; [exact I|]). apply Forall_nil_2.
  - intros t r. unfold demo_loop0. cbn [loop_start runs]. by rewrite lookup_empty.
Qed.

Lemma demo_loop2_wf : wf_enclave (memory demo_loop2).
Proof.
  destruct (idle_replay demo_retention demo_market demo_loop2) as (calls & -> & Hd).
  - etrans; [apply demo_loop1_steps|apply demo_loop2_steps].
  - intros t r Hr. split; [by eapply demo_todo|]. intros env s. by apply (not_running_spec _ t r env s demo_idle).
  - pose proof (replay_reachable (InL := demo_viem_input_laws) demo_retention demo_market calls demo_market_reachable Hd) as Hm.
    by apply (market_reachable_inv (VLaws := demo_viem_laws) demo_retention demo_this_ok), mi_wf in Hm.
Qed.

(** ** Witnesses *)

Lemma demo_loop1_reachable : loop_reachable demo_srv demo_loop1.
Proof. exists resetState. apply demo_loop1_steps. Qed.

Lemma ts_serialized_witness :
  loop_reachable demo_srv demo_loop1 ∧ rtc (loop_step demo_srv) demo_loop1 demo_loop2 ∧
  ∃ s order more calls calls' current current',
    serialized demo_srv s demo_loop1 order calls current ∧
    serialized demo_srv s demo_loop2 (order ++ more) (calls ++ calls') current' ∧
    ∀ t r a, runs demo_loop2 !! t = Some r → replies demo_loop2 !! t = Some a → settled_as demo_loop2 t (todo r) (Ok a).
Proof.
  split; [apply demo_loop1_reachable|split; [apply demo_loop2_steps|]].
  apply (ts_serialized demo_srv demo_loop1 demo_loop2 demo_loop1_reachable demo_loop2_steps).
Defined.

#[export] Instance call_env_inhabited : Inhabited call_env := populate (mkEnv (λ _, Err (ErrMsg "")) 0).
Lemma ts_live_witness :
  (∀ n l', nsteps (work demo_srv) n demo_loop1 l' → n ≤ 3 * size (runs demo_loop1)) ∧ size (runs demo_loop1) = 3.
Proof.
  split; [|vm_compute; reflexivity].
  apply (ts_live demo_srv demo_loop1 demo_loop1_reachable). vm_compute. reflexivity.
Defined.

(** A request whose opType is a number. *)
Definition numeric_body : string :=
  JSON_stringify (JObj [("data", JObj [("message", JStr (bytesToHex (JSON_stringify (JObj [("opType", JNum "7")]))))])]).
(** A bid of the auction under an id that has no text. *)
Definition textless_body : string :=
  let fixed := JSON_stringify (JObj [("opType", JStr (bytesToHex OP_TYPE_QUIETFILL));
    ("opCommand", JStr (bytesToHex OP_COMMAND_PRIVATE_BID)); ("originalMessage", JStr (bytesToHex (demo_message 1)))]) in
  JSON_stringify (JObj [("data", JObj [("id", JArr [JNull; JObj [("toString", JNum "1")]]);
    ("message", JStr (bytesToHex fixed))])]).
Lemma demo_tail : tail_settled demo_loop2 (queue demo_loop2).
Proof.
  assert (match queue demo_loop2 with Some t => tailed demo_loop2 t | None => true end = true) as H
    by (vm_compute; reflexivity).
  destruct (queue demo_loop2) as [t|]; [|done]. by apply (tailed_true demo_srv).
Qed.
Lemma ts_crash_witness :
  (∃ l', rtc (loop_step demo_srv) demo_loop2 l' ∧ crashed l' = true ∧ replies l' = replies demo_loop2) ∧
  (run_plan demo_srv (handleRequest demo_srv "POST" "/action" textless_body) (demo_env 1000) resetState).1 =
    Err (ErrSentinel "TypeError" not_primitive) ∧
  ∃ l', rtc (loop_step demo_srv) demo_loop2 l' ∧ crashed l' = true ∧ replies l' = replies demo_loop2.
Proof.
  assert (crashed demo_loop2 = false) as Hc by (vm_compute; reflexivity).
  assert (fresh_request 9 demo_loop2) as Hf by (split; vm_compute; reflexivity).
  split; [|split].
  - assert (utf8_decode numeric_body = numeric_body) as Hu by (vm_compute; reflexivity).
    apply (proj2 (proj2 (ts_crash demo_srv "POST" "/action" numeric_body) numeric_body demo_loop2 9 Hu Hc Hf)
      (TypeError "h.toLowerCase")). vm_compute. reflexivity.
  - vm_compute. reflexivity.
  - assert (utf8_decode textless_body = textless_body) as Hu by (vm_compute; reflexivity).
    apply (proj1 (proj2 (ts_crash demo_srv "POST" "/action" textless_body) textless_body demo_loop2 9 Hu Hc Hf)
      (demo_env 1000) (ErrSentinel "TypeError" not_primitive) demo_tail). vm_compute. reflexivity.
Defined.

Lemma enclave_over_http_witness :
  serve demo_srv "POST" "/action" (Some (demo_body OP_COMMAND_PRIVATE_BID demo_id (demo_message 1))) (demo_env 5) resetState =
    match (if decide (OP_TYPE_QUIETFILL = OP_TYPE_QUIETFILL)
           then run_instruction demo_retention OP_COMMAND_PRIVATE_BID (demo_env 5) (demo_message 1) resetState else None) with
    | Some (r, s') => (respond_with demo_id "threshold" OP_TYPE_QUIETFILL OP_COMMAND_PRIVATE_BID r, s')
    | None => (Ok (mkHttpResponse 501 "text/plain" "unsupported op type"), resetState)
    end.
Proof.
  apply (enclave_over_http (InL := demo_viem_input_laws) demo_retention _ _ _ _ _ _ (demo_env 5) resetState
    (bid_carried 1 ltac:(lia))).
Defined.
(** The bid of the run is accepted. *)
Example enclave_accepts :
  option_map (λ p, negb (is_failure p.1))
    (run_instruction demo_retention OP_COMMAND_PRIVATE_BID (demo_env 5) (demo_message 1) resetState) = Some true.
Proof. vm_compute. reflexivity. Qed.

Definition demo_open : Auction := auction_at 1 (storage (chain demo_market)).
Definition demo_clear_id : string := bytesToHex (clearInstructionId demo_open).
Definition demo_clear_body : string := demo_body OP_COMMAND_CLEAR demo_clear_id (clear_message (W := world2) 1 demo_open).
Lemma clear_carried :
  carries (utf8_decode demo_clear_body) demo_clear_id "threshold" OP_TYPE_QUIETFILL OP_COMMAND_CLEAR
    (clear_message (W := world2) 1 demo_open).
Proof. apply carries_b_true. vm_compute. reflexivity. Qed.
Lemma wire_settles_witness :
  ∃ r, r_submittedBidCount r = 2%Z ∧
    (serve demo_srv "POST" "/action" (Some demo_clear_body) (demo_env 3000) (memory demo_loop2)).1 =
      Ok (instruction_response demo_clear_id "threshold" OP_TYPE_QUIETFILL OP_COMMAND_CLEAR (Success (abi_clear_result r))) ∧
    (r_winner r = 0%Z ∨ r_winningCommitment r ≠ zero32 →
     ∃ s', execute 3 150 demo_seller (CallSettleAuction 1 r demo_signature) (chain demo_market) = inl (tt, s')).
Proof.
  destruct (wire_settles (VLaws := demo_viem_laws) (InL := demo_viem_input_laws) demo_retention demo_this_ok
    demo_market demo_loop2 1 demo_clear_body "threshold" (demo_env 3000)) as (r & Hof & Hr).
  - apply demo_market_reachable.
  - etrans; [apply demo_loop1_steps|apply demo_loop2_steps].
  - intros t r Hr. split; [by eapply demo_todo|]. intros env s. by apply (not_running_spec _ t r env s demo_idle).
  - vm_compute. reflexivity.
  - vm_compute. discriminate.
  - apply clear_carried.
  - destruct Hof as [(e & He & _)|Hof]; [exfalso; vm_compute in He; discriminate He|].
    assert (r_submittedBidCount r = 2%Z ∧ r_winningNonce r = 1%Z) as [Hw Hn] by (rewrite Hof; vm_compute; done).
    destruct Hr as [Hr Hs]; [rewrite Hn; by_decide|]. exists r. split; [exact Hw|split; [exact Hr|]].
    intros Hc. apply (Hs 2); [|vm_compute; discriminate|exact Hc]. intros s. vm_compute. reflexivity.
Defined.

(** *** A bid with a nonce of 65 bits *)

Definition oversized_plain : string := demo_plain demo_rival (2 ^ 64) (21 * 10 ^ 17).
Definition oversized_env : call_env := mkEnv (λ _, Ok oversized_plain) 2500.
(** The rival sends it after its first bid. *)
Lemma oversized_accepted :
  ∃ b r s', b_nonce b = (2 ^ 64)%Z ∧
    bid_accepted (node_decrypt oversized_env) (Date_now oversized_env) (demo_message 0) b r (memory demo_loop2) s'.
Proof.
  assert (is_failure (handlePrivateBid (node_decrypt oversized_env) (Date_now oversized_env) (demo_message 0) (memory demo_loop2)).1
    = false) as Hf by (vm_compute; reflexivity).
  pose proof (handlePrivateBid_spec (node_decrypt oversized_env) (Date_now oversized_env) (demo_message 0) _ demo_loop2_wf) as H.
  destruct (handlePrivateBid _ _ _ _) as [r s']. cbn [fst] in Hf. rewrite Hf in H. destruct H as [b Hb].
  exists b, r, s'. split; [|exact Hb]. destruct Hb as (env & pt & _ & _ & Hd & Hdec & _).
  assert (pt = oversized_plain) as -> by (cbn in Hd; congruence).
  assert (decodePrivateBid oversized_plain = Ok (default b (match decodePrivateBid oversized_plain with Ok b => Some b | _ => None end))) as Hb
    by (vm_compute; reflexivity).
  rewrite Hdec in Hb. assert ((b_nonce <$> match decodePrivateBid oversized_plain with Ok b => Some b | _ => None end) = Some (2 ^ 64)%Z) as Hn
    by (vm_compute; reflexivity).
  rewrite Hdec in Hn. cbn in Hn. congruence.
Qed.
Lemma one_bid_voids_auction_witness :
  (∃ l', rtc (loop_step demo_srv) demo_loop2 l' ∧ crashed l' = true ∧ replies l' = replies demo_loop2) ∧
  (serve demo_srv "POST" "/action" (Some demo_clear_body) (demo_env 3000) resetState).1 =
    Ok (instruction_response demo_clear_id "threshold" OP_TYPE_QUIETFILL OP_COMMAND_CLEAR
      (Success (abi_clear_result (clear_bids (mkClearMessage 1 demo_this demo_floor demo_ceiling) [])))).
Proof.
  destruct (one_bid_voids_auction (VLaws := demo_viem_laws) (InL := demo_viem_input_laws) (Range := demo_viem_range)
    demo_retention demo_this_ok) as [Hcrash Hafter]. split.
  - destruct oversized_accepted as (b & r & s' & Hn & Ha).
    apply (Hcrash demo_loop2 9 _ _ _ _ oversized_env b r s' (bid_carried 0 ltac:(lia)) demo_loop2_wf Ha);
      [rewrite Hn; by_decide|vm_compute; reflexivity| |split; vm_compute; reflexivity].
    apply (tailed_true demo_srv demo_loop2 3). vm_compute. reflexivity.
  - apply (Hafter demo_market 1%Z demo_clear_body "threshold" (demo_env 3000) demo_market_reachable);
      [vm_compute; reflexivity|vm_compute; discriminate|apply clear_carried].
Defined.

(** The rival's price may be another, as long as it loses. *)
Definition demo_memory' : enclave :=
  foldl (λ s m, snd (handlePrivateBid demo_decrypt 1000 m s)) resetState
    [bid_message 1 demo_bidder (demo_plain demo_bidder 1 (22 * 10 ^ 17));
     bid_message 1 demo_rival (demo_plain demo_rival 1 (20 * 10 ^ 17))]%Z.
Lemma bids_sealed_witness :
  let l := [Bid demo_decrypt 1500 (bid_message 1 demo_rival (demo_plain demo_rival 2 (21 * 10 ^ 17)));
            Clear 2000 demo_request; Clear 2001 demo_request; RestartEnclave; Clear 2002 demo_request] in
  demo_memory ≠ demo_memory' ∧ answers_to demo_retention l demo_memory = answers_to demo_retention l demo_memory'.
Proof.
  intros l. split.
  - intros H. apply (f_equal (λ s, b_unitPriceWei ∘ bid <$> bids_at (keyForAuction demo_this 1) s)) in H.
    vm_compute in H. discriminate.
  - apply (bids_sealed demo_retention l demo_memory demo_memory').
    + split; vm_compute; reflexivity.
    + vm_compute. reflexivity.
Defined.
